(** * A shallow embedding of the mini-program-xml-parse5 tokenizer and serializer

    The development follows [dist/cjs/tokenizer/index.js] and
    [dist/cjs/serializer/index.js].  JavaScript strings are represented by the
    list of their code points, code points by [Z] (the end-of-file sentinel is
    [-1]), and every handler callback is recorded, in order, in a log kept
    inside the tokenizer state. *)

From Stdlib Require Import String Ascii ZArith List Bool Lia.
Import ListNotations.
Open Scope Z_scope.

(** ** Code points ([common/unicode.js], constants only) *)

Module CODE_POINTS.
Definition EOF : Z := -1.
Definition NULL : Z := 0.
Definition TABULATION : Z := 9.
Definition CARRIAGE_RETURN : Z := 13.
Definition LINE_FEED : Z := 10.
Definition FORM_FEED : Z := 12.
Definition SPACE : Z := 32.
Definition EXCLAMATION_MARK : Z := 33.
Definition QUOTATION_MARK : Z := 34.
Definition NUMBER_SIGN : Z := 35.
Definition AMPERSAND : Z := 38.
Definition APOSTROPHE : Z := 39.
Definition HYPHEN_MINUS : Z := 45.
Definition SOLIDUS : Z := 47.
Definition DIGIT_0 : Z := 48.
Definition DIGIT_9 : Z := 57.
Definition SEMICOLON : Z := 59.
Definition LESS_THAN_SIGN : Z := 60.
Definition EQUALS_SIGN : Z := 61.
Definition GREATER_THAN_SIGN : Z := 62.
Definition QUESTION_MARK : Z := 63.
Definition LATIN_CAPITAL_A : Z := 65.
Definition LATIN_CAPITAL_F : Z := 70.
Definition LATIN_CAPITAL_X : Z := 88.
Definition LATIN_CAPITAL_Z : Z := 90.
Definition RIGHT_SQUARE_BRACKET : Z := 93.
Definition GRAVE_ACCENT : Z := 96.
Definition LATIN_SMALL_A : Z := 97.
Definition LATIN_SMALL_F : Z := 102.
Definition LATIN_SMALL_X : Z := 120.
Definition LATIN_SMALL_Z : Z := 122.
Definition REPLACEMENT_CHARACTER : Z := 65533.
End CODE_POINTS.

(** A JavaScript string, as the list of its code points. *)
Definition jsstring := list Z.

(** [String.fromCodePoint(cp)]: the one-code-point string. *)
Definition fromCodePoint (cp : Z) : jsstring := [cp].

(** The string [unicode_js_1.REPLACEMENT_CHARACTER]. *)
Definition REPLACEMENT_CHARACTER : jsstring := [CODE_POINTS.REPLACEMENT_CHARACTER].

(** String literals of the source, written as Rocq strings. *)
Fixpoint str (s : string) : jsstring :=
  match s with
  | EmptyString => []
  | String c r => Z.of_N (N_of_ascii c) :: str r
  end.

Definition jsstring_eqb (a b : jsstring) : bool :=
  if list_eq_dec Z.eq_dec a b then true else false.

Module SEQUENCES.
Definition DASH_DASH : jsstring := str "--".
Definition CDATA_START : jsstring := str "[CDATA[".
Definition DOCTYPE : jsstring := str "doctype".
Definition SCRIPT : jsstring := str "script".
Definition PUBLIC : jsstring := str "public".
Definition SYSTEM : jsstring := str "system".
End SEQUENCES.

(** ** Utility predicates of the tokenizer module *)

Definition isAsciiDigit (cp : Z) : bool :=
  (cp >=? CODE_POINTS.DIGIT_0) && (cp <=? CODE_POINTS.DIGIT_9).
Definition isAsciiUpper (cp : Z) : bool :=
  (cp >=? CODE_POINTS.LATIN_CAPITAL_A) && (cp <=? CODE_POINTS.LATIN_CAPITAL_Z).
Definition isAsciiLower (cp : Z) : bool :=
  (cp >=? CODE_POINTS.LATIN_SMALL_A) && (cp <=? CODE_POINTS.LATIN_SMALL_Z).
Definition isAsciiLetter (cp : Z) : bool := isAsciiLower cp || isAsciiUpper cp.
Definition isAsciiAlphaNumeric (cp : Z) : bool := isAsciiLetter cp || isAsciiDigit cp.
Definition isAsciiUpperHexDigit (cp : Z) : bool :=
  (cp >=? CODE_POINTS.LATIN_CAPITAL_A) && (cp <=? CODE_POINTS.LATIN_CAPITAL_F).
Definition isAsciiLowerHexDigit (cp : Z) : bool :=
  (cp >=? CODE_POINTS.LATIN_SMALL_A) && (cp <=? CODE_POINTS.LATIN_SMALL_F).
Definition isAsciiHexDigit (cp : Z) : bool :=
  isAsciiDigit cp || isAsciiUpperHexDigit cp || isAsciiLowerHexDigit cp.
Definition toAsciiLower (cp : Z) : Z := cp + 32.
Definition isWhitespace (cp : Z) : bool :=
  (cp =? CODE_POINTS.SPACE) || (cp =? CODE_POINTS.LINE_FEED) ||
  (cp =? CODE_POINTS.TABULATION) || (cp =? CODE_POINTS.FORM_FEED).
Definition isEntityInAttributeInvalidEnd (nextCp : Z) : bool :=
  (nextCp =? CODE_POINTS.EQUALS_SIGN) || isAsciiAlphaNumeric nextCp.
Definition isScriptDataDoubleEscapeSequenceEnd (cp : Z) : bool :=
  isWhitespace cp || (cp =? CODE_POINTS.SOLIDUS) || (cp =? CODE_POINTS.GREATER_THAN_SIGN).

(** ** The states ([State], a const enum inlined by the compiler) *)

Module State.
Definition DATA : Z := 0.
Definition RCDATA : Z := 1.
Definition RAWTEXT : Z := 2.
Definition SCRIPT_DATA : Z := 3.
Definition PLAINTEXT : Z := 4.
Definition TAG_OPEN : Z := 5.
Definition END_TAG_OPEN : Z := 6.
Definition TAG_NAME : Z := 7.
Definition RCDATA_LESS_THAN_SIGN : Z := 8.
Definition RCDATA_END_TAG_OPEN : Z := 9.
Definition RCDATA_END_TAG_NAME : Z := 10.
Definition RAWTEXT_LESS_THAN_SIGN : Z := 11.
Definition RAWTEXT_END_TAG_OPEN : Z := 12.
Definition RAWTEXT_END_TAG_NAME : Z := 13.
Definition SCRIPT_DATA_LESS_THAN_SIGN : Z := 14.
Definition SCRIPT_DATA_END_TAG_OPEN : Z := 15.
Definition SCRIPT_DATA_END_TAG_NAME : Z := 16.
Definition SCRIPT_DATA_ESCAPE_START : Z := 17.
Definition SCRIPT_DATA_ESCAPE_START_DASH : Z := 18.
Definition SCRIPT_DATA_ESCAPED : Z := 19.
Definition SCRIPT_DATA_ESCAPED_DASH : Z := 20.
Definition SCRIPT_DATA_ESCAPED_DASH_DASH : Z := 21.
Definition SCRIPT_DATA_ESCAPED_LESS_THAN_SIGN : Z := 22.
Definition SCRIPT_DATA_ESCAPED_END_TAG_OPEN : Z := 23.
Definition SCRIPT_DATA_ESCAPED_END_TAG_NAME : Z := 24.
Definition SCRIPT_DATA_DOUBLE_ESCAPE_START : Z := 25.
Definition SCRIPT_DATA_DOUBLE_ESCAPED : Z := 26.
Definition SCRIPT_DATA_DOUBLE_ESCAPED_DASH : Z := 27.
Definition SCRIPT_DATA_DOUBLE_ESCAPED_DASH_DASH : Z := 28.
Definition SCRIPT_DATA_DOUBLE_ESCAPED_LESS_THAN_SIGN : Z := 29.
Definition SCRIPT_DATA_DOUBLE_ESCAPE_END : Z := 30.
Definition BEFORE_ATTRIBUTE_NAME : Z := 31.
Definition ATTRIBUTE_NAME : Z := 32.
Definition AFTER_ATTRIBUTE_NAME : Z := 33.
Definition BEFORE_ATTRIBUTE_VALUE : Z := 34.
Definition ATTRIBUTE_VALUE_DOUBLE_QUOTED : Z := 35.
Definition ATTRIBUTE_VALUE_SINGLE_QUOTED : Z := 36.
Definition ATTRIBUTE_VALUE_UNQUOTED : Z := 37.
Definition AFTER_ATTRIBUTE_VALUE_QUOTED : Z := 38.
Definition SELF_CLOSING_START_TAG : Z := 39.
Definition BOGUS_COMMENT : Z := 40.
Definition MARKUP_DECLARATION_OPEN : Z := 41.
Definition COMMENT_START : Z := 42.
Definition COMMENT_START_DASH : Z := 43.
Definition COMMENT : Z := 44.
Definition COMMENT_LESS_THAN_SIGN : Z := 45.
Definition COMMENT_LESS_THAN_SIGN_BANG : Z := 46.
Definition COMMENT_LESS_THAN_SIGN_BANG_DASH : Z := 47.
Definition COMMENT_LESS_THAN_SIGN_BANG_DASH_DASH : Z := 48.
Definition COMMENT_END_DASH : Z := 49.
Definition COMMENT_END : Z := 50.
Definition COMMENT_END_BANG : Z := 51.
Definition DOCTYPE : Z := 52.
Definition BEFORE_DOCTYPE_NAME : Z := 53.
Definition DOCTYPE_NAME : Z := 54.
Definition AFTER_DOCTYPE_NAME : Z := 55.
Definition AFTER_DOCTYPE_PUBLIC_KEYWORD : Z := 56.
Definition BEFORE_DOCTYPE_PUBLIC_IDENTIFIER : Z := 57.
Definition DOCTYPE_PUBLIC_IDENTIFIER_DOUBLE_QUOTED : Z := 58.
Definition DOCTYPE_PUBLIC_IDENTIFIER_SINGLE_QUOTED : Z := 59.
Definition AFTER_DOCTYPE_PUBLIC_IDENTIFIER : Z := 60.
Definition BETWEEN_DOCTYPE_PUBLIC_AND_SYSTEM_IDENTIFIERS : Z := 61.
Definition AFTER_DOCTYPE_SYSTEM_KEYWORD : Z := 62.
Definition BEFORE_DOCTYPE_SYSTEM_IDENTIFIER : Z := 63.
Definition DOCTYPE_SYSTEM_IDENTIFIER_DOUBLE_QUOTED : Z := 64.
Definition DOCTYPE_SYSTEM_IDENTIFIER_SINGLE_QUOTED : Z := 65.
Definition AFTER_DOCTYPE_SYSTEM_IDENTIFIER : Z := 66.
Definition BOGUS_DOCTYPE : Z := 67.
Definition CDATA_SECTION : Z := 68.
Definition CDATA_SECTION_BRACKET : Z := 69.
Definition CDATA_SECTION_END : Z := 70.
Definition CHARACTER_REFERENCE : Z := 71.
Definition NAMED_CHARACTER_REFERENCE : Z := 72.
Definition AMBIGUOUS_AMPERSAND : Z := 73.
Definition NUMERIC_CHARACTER_REFERENCE : Z := 74.
Definition HEXADEMICAL_CHARACTER_REFERENCE_START : Z := 75.
Definition HEXADEMICAL_CHARACTER_REFERENCE : Z := 76.
Definition DECIMAL_CHARACTER_REFERENCE : Z := 77.
Definition NUMERIC_CHARACTER_REFERENCE_END : Z := 78.
End State.

Module CP := CODE_POINTS.

(** ** Parse-error codes ([common/error-codes.js], the codes the tokenizer raises) *)

Inductive ERR : Type :=
| abruptClosingOfEmptyComment | abruptDoctypePublicIdentifier
| abruptDoctypeSystemIdentifier | absenceOfDigitsInNumericCharacterReference
| cdataInHtmlContent | characterReferenceOutsideUnicodeRange
| controlCharacterReference | duplicateAttribute | endTagWithAttributes
| endTagWithTrailingSolidus | eofBeforeTagName | eofInCdata | eofInComment
| eofInDoctype | eofInScriptHtmlCommentLikeText | eofInTag
| incorrectlyClosedComment | incorrectlyOpenedComment
| invalidCharacterSequenceAfterDoctypeName | invalidFirstCharacterOfTagName
| missingAttributeValue | missingDoctypeName | missingDoctypePublicIdentifier
| missingDoctypeSystemIdentifier | missingEndTagName
| missingQuoteBeforeDoctypePublicIdentifier
| missingQuoteBeforeDoctypeSystemIdentifier
| missingSemicolonAfterCharacterReference
| missingWhitespaceAfterDoctypePublicKeyword
| missingWhitespaceAfterDoctypeSystemKeyword
| missingWhitespaceBeforeDoctypeName | missingWhitespaceBetweenAttributes
| missingWhitespaceBetweenDoctypePublicAndSystemIdentifiers | nestedComment
| noncharacterCharacterReference | nullCharacterReference
| surrogateCharacterReference | unexpectedCharacterAfterDoctypeSystemIdentifier
| unexpectedCharacterInAttributeName
| unexpectedCharacterInUnquotedAttributeValue
| unexpectedEqualsSignBeforeAttributeName | unexpectedNullCharacter
| unexpectedQuestionMarkInsteadOfTagName | unexpectedSolidusInTag
| unknownNamedCharacterReference.

(** The record built by [preprocessor.getError]. *)
Record ParserError : Type := mkParserError {
  code : ERR;
  errLine : Z;
  errCol : Z;
  errOffset : Z
}.

(** ** The preprocessor *)

(** Modelled from the spec: [tokenizer/preprocessor.js] is not among the
    source files.  Following sections 2 and 4.1 of the specification, the
    preprocessor appends chunks to a buffer, normalises CR and CRLF to LF once,
    at ingest (a CR that ends a chunk is remembered so that a LF opening the
    next chunk is dropped), and exposes a cursor with [advance], [retreat],
    [peek] and [startsWith]; running past the buffer yields EOF and raises
    [endOfChunkHit] unless the last chunk was written.  Line, column and offset
    are functions of the cursor and of the text behind it.  [dropParsedChunk]
    releases storage only and leaves the stream as it is.  Input-stream errors
    raised by the preprocessor itself are not part of this model. *)
Module Preprocessor.

Record t : Type := mk {
html : list Z;
pos : Z;
lastChunkWritten : bool;
endOfChunkHit : bool;
skipNextNewLine : bool
}.

Definition init : t := mk [] (-1) false false false.

Fixpoint normalize (skipLF : bool) (chunk : list Z) : list Z * bool :=
match chunk with
| [] => ([], skipLF)
| c :: r =>
    if c =? CODE_POINTS.CARRIAGE_RETURN then
      let (r', f) := normalize true r in (CODE_POINTS.LINE_FEED :: r', f)
    else if (c =? CODE_POINTS.LINE_FEED) && skipLF then normalize false r
    else let (r', f) := normalize false r in (c :: r', f)
end.

Definition write (chunk : list Z) (isLastChunk : bool) (p : t) : t :=
let (n, f) := normalize (skipNextNewLine p) chunk in
mk (html p ++ n) (pos p) isLastChunk false f.

Definition len (p : t) : Z := Z.of_nat (length (html p)).

(** The code point at buffer index [i]; only called with [0 <= i < len]. *)
Definition charAt (p : t) (i : Z) : Z := nth (Z.to_nat i) (html p) CODE_POINTS.EOF.

Definition advance (p : t) : Z * t :=
let pos' := pos p + 1 in
if pos' >=? len p then
  (CODE_POINTS.EOF,
   mk (html p) pos' (lastChunkWritten p) (negb (lastChunkWritten p)) (skipNextNewLine p))
else
  (charAt p pos',
   mk (html p) pos' (lastChunkWritten p) (endOfChunkHit p) (skipNextNewLine p)).

Definition retreat (count : Z) (p : t) : t :=
mk (html p) (pos p - count) (lastChunkWritten p) (endOfChunkHit p) (skipNextNewLine p).

Definition hitEnd (p : t) : t :=
mk (html p) (pos p) (lastChunkWritten p) (negb (lastChunkWritten p)) (skipNextNewLine p).

Definition peek (offset : Z) (p : t) : Z * t :=
let i := pos p + offset in
if i >=? len p then (CODE_POINTS.EOF, hitEnd p) else (charAt p i, p).

Definition foldCase (cp : Z) : Z := if isAsciiUpper cp then toAsciiLower cp else cp.

Definition window (p : t) (n : nat) : list Z :=
firstn n (skipn (Z.to_nat (pos p)) (html p)).

Definition startsWith (pattern : jsstring) (caseSensitive : bool) (p : t) : bool * t :=
if pos p + Z.of_nat (length pattern) >? len p then (false, hitEnd p)
else if caseSensitive then (jsstring_eqb (window p (length pattern)) pattern, p)
else (jsstring_eqb (map foldCase (window p (length pattern))) (map foldCase pattern), p).

Definition dropParsedChunk (p : t) : t := p.

(** Text behind the cursor. *)
Definition consumed (p : t) : list Z := firstn (Z.to_nat (pos p)) (html p).

Definition line (p : t) : Z :=
1 + Z.of_nat (count_occ Z.eq_dec (consumed p) CODE_POINTS.LINE_FEED).

Fixpoint sinceLineFeed (l : list Z) (acc : Z) : Z :=
match l with
| [] => acc
| c :: r => sinceLineFeed r (if c =? CODE_POINTS.LINE_FEED then 0 else acc + 1)
end.

Definition col (p : t) : Z := sinceLineFeed (consumed p) 0 + 1.
Definition offset (p : t) : Z := pos p.

Definition getError (c : ERR) (p : t) : ParserError :=
mkParserError c (line p) (col p) (offset p).

End Preprocessor.

(** ** Tokens ([common/token.js], type declarations only) *)

Inductive TokenType : Type :=
| CHARACTER | NULL_CHARACTER | WHITESPACE_CHARACTER
| START_TAG | END_TAG | COMMENT | DOCTYPE | EOF.

Definition TokenType_eqb (a b : TokenType) : bool :=
  match a, b with
  | CHARACTER, CHARACTER | NULL_CHARACTER, NULL_CHARACTER
  | WHITESPACE_CHARACTER, WHITESPACE_CHARACTER | START_TAG, START_TAG
  | END_TAG, END_TAG | COMMENT, COMMENT | DOCTYPE, DOCTYPE | EOF, EOF => true
  | _, _ => false
  end.

Record Attr : Type := mkAttr { name : jsstring; value : jsstring }.

(** A tag token.  While the token is under construction its [attrs] array holds
    references to attribute objects ([A := nat], an index into the tokenizer's
    object store): the object pushed by [_leaveAttrName] is still
    [this.currentAttr] and keeps being written to.  The handler is handed the
    token with the objects themselves ([A := Attr]). *)
Record TagToken (A : Type) : Type := mkTagToken {
  tag_type : TokenType;
  tagName : jsstring;
  tagID : Z;
  selfClosing : bool;
  ackSelfClosing : bool;
  attrs : list A
}.
Arguments mkTagToken {A}.
Arguments tag_type {A}.
Arguments tagName {A}.
Arguments tagID {A}.
Arguments selfClosing {A}.
Arguments ackSelfClosing {A}.
Arguments attrs {A}.

Record DoctypeToken : Type := mkDoctypeToken {
  dt_name : option jsstring;
  forceQuirks : bool;
  publicId : option jsstring;
  systemId : option jsstring
}.

Record CharacterToken : Type := mkCharacterToken {
  ch_type : TokenType;
  chars : jsstring
}.

(** [this.currentToken] when it is not [null]. *)
Inductive Token : Type :=
| TagTok (tk : TagToken nat)
| CommentTok (data : jsstring)
| DoctypeTok (d : DoctypeToken).

(** The handler's callbacks, as they are invoked. *)
Inductive Event : Type :=
| onStartTag (tk : TagToken Attr)
| onEndTag (tk : TagToken Attr)
| onComment (data : jsstring)
| onDoctype (d : DoctypeToken)
| onCharacter (chars : jsstring)
| onNullCharacter (chars : jsstring)
| onWhitespaceCharacter (chars : jsstring)
| onEof
| onParseError (e : ParserError).

Definition TAG_ID_UNKNOWN : Z := 0.

(** ** The tokenizer object *)

Record Tokenizer : Type := mkTokenizer {
  paused : bool;
  inLoop : bool;
  inForeignNode : bool;
  lastStartTagName : jsstring;
  active : bool;
  state : Z;
  returnState : Z;
  charRefCode : Z;
  consumedAfterSnapshot : Z;
  currentCharacterToken : option CharacterToken;
  currentToken : option Token;
  (** every attribute object created so far, by allocation order *)
  attrObjects : list Attr;
  (** [this.currentAttr], a reference into [attrObjects] *)
  currentAttr : nat;
  preprocessor : Preprocessor.t;
  (** the handler's callbacks so far, oldest first *)
  handlerLog : list Event
}.

Definition set_paused v t := mkTokenizer v (inLoop t) (inForeignNode t) (lastStartTagName t) (active t) (state t) (returnState t) (charRefCode t) (consumedAfterSnapshot t) (currentCharacterToken t) (currentToken t) (attrObjects t) (currentAttr t) (preprocessor t) (handlerLog t).
Definition set_inLoop v t := mkTokenizer (paused t) v (inForeignNode t) (lastStartTagName t) (active t) (state t) (returnState t) (charRefCode t) (consumedAfterSnapshot t) (currentCharacterToken t) (currentToken t) (attrObjects t) (currentAttr t) (preprocessor t) (handlerLog t).
Definition set_inForeignNode v t := mkTokenizer (paused t) (inLoop t) v (lastStartTagName t) (active t) (state t) (returnState t) (charRefCode t) (consumedAfterSnapshot t) (currentCharacterToken t) (currentToken t) (attrObjects t) (currentAttr t) (preprocessor t) (handlerLog t).
Definition set_lastStartTagName v t := mkTokenizer (paused t) (inLoop t) (inForeignNode t) v (active t) (state t) (returnState t) (charRefCode t) (consumedAfterSnapshot t) (currentCharacterToken t) (currentToken t) (attrObjects t) (currentAttr t) (preprocessor t) (handlerLog t).
Definition set_active v t := mkTokenizer (paused t) (inLoop t) (inForeignNode t) (lastStartTagName t) v (state t) (returnState t) (charRefCode t) (consumedAfterSnapshot t) (currentCharacterToken t) (currentToken t) (attrObjects t) (currentAttr t) (preprocessor t) (handlerLog t).
Definition set_state v t := mkTokenizer (paused t) (inLoop t) (inForeignNode t) (lastStartTagName t) (active t) v (returnState t) (charRefCode t) (consumedAfterSnapshot t) (currentCharacterToken t) (currentToken t) (attrObjects t) (currentAttr t) (preprocessor t) (handlerLog t).
Definition set_returnState v t := mkTokenizer (paused t) (inLoop t) (inForeignNode t) (lastStartTagName t) (active t) (state t) v (charRefCode t) (consumedAfterSnapshot t) (currentCharacterToken t) (currentToken t) (attrObjects t) (currentAttr t) (preprocessor t) (handlerLog t).
Definition set_charRefCode v t := mkTokenizer (paused t) (inLoop t) (inForeignNode t) (lastStartTagName t) (active t) (state t) (returnState t) v (consumedAfterSnapshot t) (currentCharacterToken t) (currentToken t) (attrObjects t) (currentAttr t) (preprocessor t) (handlerLog t).
Definition set_consumedAfterSnapshot v t := mkTokenizer (paused t) (inLoop t) (inForeignNode t) (lastStartTagName t) (active t) (state t) (returnState t) (charRefCode t) v (currentCharacterToken t) (currentToken t) (attrObjects t) (currentAttr t) (preprocessor t) (handlerLog t).
Definition set_currentCharacterToken v t := mkTokenizer (paused t) (inLoop t) (inForeignNode t) (lastStartTagName t) (active t) (state t) (returnState t) (charRefCode t) (consumedAfterSnapshot t) v (currentToken t) (attrObjects t) (currentAttr t) (preprocessor t) (handlerLog t).
Definition set_currentToken v t := mkTokenizer (paused t) (inLoop t) (inForeignNode t) (lastStartTagName t) (active t) (state t) (returnState t) (charRefCode t) (consumedAfterSnapshot t) (currentCharacterToken t) v (attrObjects t) (currentAttr t) (preprocessor t) (handlerLog t).
Definition set_attrObjects v t := mkTokenizer (paused t) (inLoop t) (inForeignNode t) (lastStartTagName t) (active t) (state t) (returnState t) (charRefCode t) (consumedAfterSnapshot t) (currentCharacterToken t) (currentToken t) v (currentAttr t) (preprocessor t) (handlerLog t).
Definition set_currentAttr v t := mkTokenizer (paused t) (inLoop t) (inForeignNode t) (lastStartTagName t) (active t) (state t) (returnState t) (charRefCode t) (consumedAfterSnapshot t) (currentCharacterToken t) (currentToken t) (attrObjects t) v (preprocessor t) (handlerLog t).
Definition set_preprocessor v t := mkTokenizer (paused t) (inLoop t) (inForeignNode t) (lastStartTagName t) (active t) (state t) (returnState t) (charRefCode t) (consumedAfterSnapshot t) (currentCharacterToken t) (currentToken t) (attrObjects t) (currentAttr t) v (handlerLog t).
Definition set_handlerLog v t := mkTokenizer (paused t) (inLoop t) (inForeignNode t) (lastStartTagName t) (active t) (state t) (returnState t) (charRefCode t) (consumedAfterSnapshot t) (currentCharacterToken t) (currentToken t) (attrObjects t) (currentAttr t) (preprocessor t) v.

(** ** Control: a state-and-exception monad

    A method either returns ([Ok]) or throws ([Throw]); in both cases the
    tokenizer object, with the handler calls made so far, is what the caller
    continues with. *)

Inductive Exn : Type :=
| TypeError          (** a property of [null] was read *)
| WrongTokenKind     (** a field was used on a token of another variant *)
| UnknownState       (** [throw new Error('Unknown state')] *)
| CallStackExceeded  (** the bound on nested state calls was reached *)
| LoopBoundExceeded. (** a loop ran past the bound set for it *)

Inductive Res (A : Type) : Type :=
| Ok (a : A) (t : Tokenizer)
| Throw (e : Exn) (t : Tokenizer).
Arguments Ok {A}.
Arguments Throw {A}.

Definition M (A : Type) : Type := Tokenizer -> Res A.

Definition ret {A} (a : A) : M A := fun t => Ok a t.
Definition bind {A B} (m : M A) (k : A -> M B) : M B :=
  fun t => match m t with Ok a t' => k a t' | Throw e t' => Throw e t' end.
Definition throw {A} (e : Exn) : M A := fun t => Throw e t.
Definition get : M Tokenizer := fun t => Ok t t.
Definition modify (f : Tokenizer -> Tokenizer) : M unit := fun t => Ok tt (f t).

Declare Scope tok_scope.
Delimit Scope tok_scope with tok.
Notation "x <- m ;; k" := (bind m (fun x => k))
  (at level 61, m at next level, right associativity) : tok_scope.
Notation "m ;; k" := (bind m (fun _ => k))
  (at level 61, right associativity) : tok_scope.
Open Scope tok_scope.

(** The tokenizer a method leaves behind, whether it returned or threw. *)
Definition final {A} (r : Res A) : Tokenizer :=
  match r with Ok _ t => t | Throw _ t => t end.

(** ** Methods of the tokenizer

    The development fixes [options.sourceCodeLocationInfo = false]:
    [getCurrentLocation] then returns [null], every [location] field is [null]
    and every branch guarded by a location is skipped, so locations do not
    appear below.  The handler is a recorder: it neither pauses the tokenizer
    nor writes to its fields. *)

Definition emit (e : Event) : M unit :=
  modify (fun t => set_handlerLog (handlerLog t ++ [e]) t).

(** A body that runs [n] times, as in [for (let i = 0; i < n; i++)]. *)
Fixpoint repeatM (n : nat) (m : M unit) : M unit :=
  match n with
  | O => ret tt
  | S k => m ;; repeatM k m
  end.

(* Errors *)
Definition _err (c : ERR) : M unit :=
  t <- get ;; emit (onParseError (Preprocessor.getError c (preprocessor t))).

(* Hibernation and consumption *)
Definition _unconsume (count : Z) : M unit :=
  modify (fun t =>
    set_preprocessor (Preprocessor.retreat count (preprocessor t))
      (set_consumedAfterSnapshot (consumedAfterSnapshot t - count) t)).

Definition _ensureHibernation : M bool :=
  t <- get ;;
  if Preprocessor.endOfChunkHit (preprocessor t) then
    _unconsume (consumedAfterSnapshot t) ;;
    modify (set_active false) ;;
    ret true
  else ret false.

Definition preprocessor_advance : M Z :=
  fun t => let (cp, p) := Preprocessor.advance (preprocessor t) in
           Ok cp (set_preprocessor p t).

Definition preprocessor_peek (offset : Z) : M Z :=
  fun t => let (cp, p) := Preprocessor.peek offset (preprocessor t) in
           Ok cp (set_preprocessor p t).

Definition preprocessor_startsWith (pattern : jsstring) (caseSensitive : bool) : M bool :=
  fun t => let (b, p) := Preprocessor.startsWith pattern caseSensitive (preprocessor t) in
           Ok b (set_preprocessor p t).

Definition preprocessor_dropParsedChunk : M unit :=
  modify (fun t => set_preprocessor (Preprocessor.dropParsedChunk (preprocessor t)) t).

Definition _consume : M Z :=
  modify (fun t => set_consumedAfterSnapshot (consumedAfterSnapshot t + 1) t) ;;
  preprocessor_advance.

Definition _advanceBy (count : nat) : M unit :=
  modify (fun t => set_consumedAfterSnapshot (consumedAfterSnapshot t + Z.of_nat count) t) ;;
  repeatM count (preprocessor_advance ;; ret tt).

Definition _consumeSequenceIfMatch (pattern : jsstring) (caseSensitive : bool) : M bool :=
  b <- preprocessor_startsWith pattern caseSensitive ;;
  if b then
    (* We will already have consumed one character before calling this method. *)
    _advanceBy (length pattern - 1)%nat ;; ret true
  else ret false.

(* Token creation *)
Definition _createStartTagToken : M unit :=
  modify (set_currentToken
    (Some (TagTok (mkTagToken START_TAG [] TAG_ID_UNKNOWN false false [])))).

Definition _createEndTagToken : M unit :=
  modify (set_currentToken
    (Some (TagTok (mkTagToken END_TAG [] TAG_ID_UNKNOWN false false [])))).

Definition _createCommentToken (offset : Z) : M unit :=
  modify (set_currentToken (Some (CommentTok []))).

Definition _createDoctypeToken (initialName : option jsstring) : M unit :=
  modify (set_currentToken
    (Some (DoctypeTok (mkDoctypeToken initialName false None None)))).

Definition _createCharacterToken (type : TokenType) (chars : jsstring) : M unit :=
  modify (set_currentCharacterToken (Some (mkCharacterToken type chars))).

(** Reading and writing [this.currentToken] as a token of a given variant. *)
Definition theTag : M (TagToken nat) :=
  t <- get ;;
  match currentToken t with
  | Some (TagTok tk) => ret tk
  | Some _ => throw WrongTokenKind
  | None => throw TypeError
  end.

Definition theComment : M jsstring :=
  t <- get ;;
  match currentToken t with
  | Some (CommentTok d) => ret d
  | Some _ => throw WrongTokenKind
  | None => throw TypeError
  end.

Definition theDoctype : M DoctypeToken :=
  t <- get ;;
  match currentToken t with
  | Some (DoctypeTok d) => ret d
  | Some _ => throw WrongTokenKind
  | None => throw TypeError
  end.

Definition updTag (f : TagToken nat -> TagToken nat) : M unit :=
  tk <- theTag ;; modify (set_currentToken (Some (TagTok (f tk)))).
Definition updComment (f : jsstring -> jsstring) : M unit :=
  d <- theComment ;; modify (set_currentToken (Some (CommentTok (f d)))).
Definition updDoctype (f : DoctypeToken -> DoctypeToken) : M unit :=
  d <- theDoctype ;; modify (set_currentToken (Some (DoctypeTok (f d)))).

Definition set_tagName {A} v (tk : TagToken A) :=
  mkTagToken (tag_type tk) v (tagID tk) (selfClosing tk) (ackSelfClosing tk) (attrs tk).
Definition set_tagID {A} v (tk : TagToken A) :=
  mkTagToken (tag_type tk) (tagName tk) v (selfClosing tk) (ackSelfClosing tk) (attrs tk).
Definition set_selfClosing {A} v (tk : TagToken A) :=
  mkTagToken (tag_type tk) (tagName tk) (tagID tk) v (ackSelfClosing tk) (attrs tk).
Definition set_attrs {A B} (v : list B) (tk : TagToken A) : TagToken B :=
  mkTagToken (tag_type tk) (tagName tk) (tagID tk) (selfClosing tk) (ackSelfClosing tk) v.

Definition set_dt_name v d := mkDoctypeToken v (forceQuirks d) (publicId d) (systemId d).
Definition set_forceQuirks v d := mkDoctypeToken (dt_name d) v (publicId d) (systemId d).
Definition set_publicId v d := mkDoctypeToken (dt_name d) (forceQuirks d) v (systemId d).
Definition set_systemId v d := mkDoctypeToken (dt_name d) (forceQuirks d) (publicId d) v.

(** [s += x] on a nullable string field: JavaScript's [null + x] is the string
    "null" followed by [x]. *)
Definition appendNullable (s : option jsstring) (x : jsstring) : option jsstring :=
  match s with
  | Some v => Some (v ++ x)
  | None => Some (str "null" ++ x)
  end.

(* Tag attributes *)
Definition attrAt (t : Tokenizer) (r : nat) : Attr :=
  nth r (attrObjects t) (mkAttr [] []).

Fixpoint updateNth {A} (n : nat) (f : A -> A) (l : list A) : list A :=
  match l, n with
  | [], _ => []
  | x :: r, O => f x :: r
  | x :: r, S k => x :: updateNth k f r
  end.

(** A write through the reference [this.currentAttr]. *)
Definition updCurrentAttr (f : Attr -> Attr) : M unit :=
  modify (fun t => set_attrObjects (updateNth (currentAttr t) f (attrObjects t)) t).

Definition appendAttrName (x : jsstring) : M unit :=
  updCurrentAttr (fun a => mkAttr (name a ++ x) (value a)).
Definition appendAttrValue (x : jsstring) : M unit :=
  updCurrentAttr (fun a => mkAttr (name a) (value a ++ x)).

Definition _createAttr (attrNameFirstCh : jsstring) : M unit :=
  modify (fun t =>
    set_currentAttr (length (attrObjects t))
      (set_attrObjects (attrObjects t ++ [mkAttr attrNameFirstCh []]) t)).

(** Modelled from the spec: [getTokenAttr] of [common/token.js] is not among the
    source files.  It looks an attribute up by name among a token's [attrs] and
    yields its value, or [null] when the token has no attribute of that name
    (the test by which duplicate attribute names are dropped). *)
Fixpoint getTokenAttr (attrs : list Attr) (attrName : jsstring) : option jsstring :=
  match attrs with
  | [] => None
  | a :: r =>
      match getTokenAttr r attrName with
      | Some v => Some v
      | None => if jsstring_eqb (name a) attrName then Some (value a) else None
      end
  end.

Definition _leaveAttrValue : M unit := ret tt.

Definition _leaveAttrName : M unit :=
  token <- theTag ;;
  t <- get ;;
  match getTokenAttr (map (attrAt t) (attrs token)) (name (attrAt t (currentAttr t))) with
  | None => updTag (fun tk => set_attrs (attrs tk ++ [currentAttr t]) tk)
  | Some _ => _err duplicateAttribute
  end.

(* Token emission *)
Definition _emitCurrentCharacterToken : M unit :=
  t <- get ;;
  match currentCharacterToken t with
  | Some ct =>
      match ch_type ct with
      | CHARACTER => emit (onCharacter (chars ct))
      | NULL_CHARACTER => emit (onNullCharacter (chars ct))
      | WHITESPACE_CHARACTER => emit (onWhitespaceCharacter (chars ct))
      | _ => ret tt
      end ;;
      modify (set_currentCharacterToken None)
  | None => ret tt
  end.

Definition prepareToken : M unit :=
  _emitCurrentCharacterToken ;;
  modify (set_currentToken None).

Definition emitCurrentComment : M unit :=
  ct <- theComment ;;
  prepareToken ;;
  emit (onComment ct) ;;
  preprocessor_dropParsedChunk.

Definition emitCurrentDoctype : M unit :=
  ct <- theDoctype ;;
  prepareToken ;;
  emit (onDoctype ct) ;;
  preprocessor_dropParsedChunk.

Definition _emitEOFToken : M unit :=
  _emitCurrentCharacterToken ;;
  emit onEof ;;
  modify (set_active false).

(* Characters emission *)
Definition _appendCharToCurrentCharacterToken (type : TokenType) (ch : jsstring) : M unit :=
  t <- get ;;
  match currentCharacterToken t with
  | Some ct =>
      if negb (TokenType_eqb (ch_type ct) type) then
        _emitCurrentCharacterToken ;;
        preprocessor_dropParsedChunk ;;
        _createCharacterToken type ch
      else
        modify (set_currentCharacterToken
                  (Some (mkCharacterToken (ch_type ct) (chars ct ++ ch))))
  | None => _createCharacterToken type ch
  end.

Definition _emitCodePoint (cp : Z) : M unit :=
  let type :=
    if isWhitespace cp then WHITESPACE_CHARACTER
    else if cp =? CODE_POINTS.NULL then NULL_CHARACTER
    else CHARACTER in
  _appendCharToCurrentCharacterToken type (fromCodePoint cp).

(* NOTE: used when we emit characters explicitly. *)
Definition _emitChars (ch : jsstring) : M unit :=
  _appendCharToCurrentCharacterToken CHARACTER ch.

(* Character reference helpers *)
Definition _isCharacterReferenceInAttribute : M bool :=
  t <- get ;;
  ret ((returnState t =? 35) || (returnState t =? 36) || (returnState t =? 37)).

Definition _flushCodePointConsumedAsCharacterReference (cp : Z) : M unit :=
  b <- _isCharacterReferenceInAttribute ;;
  if b then appendAttrValue (fromCodePoint cp) else _emitCodePoint cp.

(** [C1_CONTROLS_REFERENCE_REPLACEMENTS], a [Map] from code to replacement. *)
Definition C1_CONTROLS_REFERENCE_REPLACEMENTS : list (Z * Z) :=
  [ (0x80, 8364); (0x82, 8218); (0x83, 402); (0x84, 8222); (0x85, 8230);
    (0x86, 8224); (0x87, 8225); (0x88, 710); (0x89, 8240); (0x8a, 352);
    (0x8b, 8249); (0x8c, 338); (0x8e, 381); (0x91, 8216); (0x92, 8217);
    (0x93, 8220); (0x94, 8221); (0x95, 8226); (0x96, 8211); (0x97, 8212);
    (0x98, 732); (0x99, 8482); (0x9a, 353); (0x9b, 8250); (0x9c, 339);
    (0x9e, 382); (0x9f, 376) ].

(** [Map.prototype.get]: [None] is [undefined]. *)
Fixpoint Map_get (m : list (Z * Z)) (k : Z) : option Z :=
  match m with
  | [] => None
  | (k', v) :: r => if k' =? k then Some v else Map_get r k
  end.

(** The flag of the [entities] decoder that masks a node's value length. *)
Definition VALUE_LENGTH : Z := 49152.

Section Tokenizer.

(** What the tokenizer imports from files that are not part of the sources:
  the tag-name interning of [common/html.js], the code-point classes of
  [common/unicode.js], and the packed trie and branch function of the
  [entities] package. *)
Variable getTagID : jsstring -> Z.
Variable isSurrogate : Z -> bool.
Variable isUndefinedCodePoint : Z -> bool.
Variable isControlCodePoint : Z -> bool.
Variable htmlDecodeTree : Z -> Z.
Variable determineBranch : (Z -> Z) -> Z -> Z -> Z -> Z.

Definition resolveAttrs (t : Tokenizer) (tk : TagToken nat) : TagToken Attr :=
set_attrs (map (attrAt t) (attrs tk)) tk.

Definition emitCurrentTagToken : M unit :=
ct <- theTag ;;
prepareToken ;;
let ct := set_tagID (getTagID (tagName ct)) ct in
t <- get ;;
(match tag_type ct with
 | START_TAG =>
     modify (set_lastStartTagName (tagName ct)) ;;
     emit (onStartTag (resolveAttrs t ct))
 | _ =>
     (if (0 <? Z.of_nat (length (attrs ct))) then _err endTagWithAttributes else ret tt) ;;
     (if selfClosing ct then _err endTagWithTrailingSolidus else ret tt) ;;
     emit (onEndTag (resolveAttrs t ct))
 end) ;;
preprocessor_dropParsedChunk.

(** The loop of [_matchNamedCharacterReference].  Every round but the first
  follows a [_consume], so the rounds are bounded by the code points left in
  the buffer as long as the branch function rejects EOF; the bound [fuel]
  is set accordingly by the caller, and reaching it is reported as
  [LoopBoundExceeded]. *)
Fixpoint matchLoop (fuel : nat) (i current cp : Z) (result : option (list Z))
  (excess : Z) (withoutSemicolon : bool) : M (option (list Z) * Z * bool) :=
match fuel with
| O => throw LoopBoundExceeded
| S fuel' =>
    let i := determineBranch htmlDecodeTree current (i + 1) cp in
    if i <? 0 then ret (result, excess, withoutSemicolon)
    else
      let excess := excess + 1 in
      let current := htmlDecodeTree i in
      let masked := Z.land current VALUE_LENGTH in
      if masked =? 0 then
        cp' <- _consume ;;
        matchLoop fuel' i current cp' result excess withoutSemicolon
      else
        (* The mask is the number of bytes of the value, including the current byte. *)
        let valueLength := Z.shiftr masked 14 - 1 in
        inAttr <- (if negb (cp =? CODE_POINTS.SEMICOLON)
                   then _isCharacterReferenceInAttribute else ret false) ;;
        invalidEnd <- (if inAttr
                       then (n <- preprocessor_peek 1 ;;
                             ret (isEntityInAttributeInvalidEnd n))
                       else ret false) ;;
        let '(result, excess, withoutSemicolon) :=
          if invalidEnd then
            (Some [CODE_POINTS.AMPERSAND], excess, withoutSemicolon)
          else
            (Some (if valueLength =? 0
                   then [Z.land (htmlDecodeTree i) (Z.lnot VALUE_LENGTH)]
                   else if valueLength =? 1
                   then [htmlDecodeTree (i + 1)]
                   else [htmlDecodeTree (i + 1); htmlDecodeTree (i + 2)]),
             0, negb (cp =? CODE_POINTS.SEMICOLON)) in
        (* in both branches the index is moved past the value *)
        let i := i + valueLength in
        if valueLength =? 0 then
          (* If the value is zero-length, we're done. *)
          _consume ;; ret (result, excess, withoutSemicolon)
        else
          cp' <- _consume ;;
          matchLoop fuel' i current cp' result excess withoutSemicolon
end.

Definition _matchNamedCharacterReference (cp : Z) : M (option (list Z)) :=
t <- get ;;
let fuel := (Z.to_nat (Preprocessor.len (preprocessor t) - Preprocessor.pos (preprocessor t)) + 2)%nat in
r <- matchLoop fuel 0 (htmlDecodeTree 0) cp None 0 false ;;
let '(result, excess, withoutSemicolon) := r in
_unconsume excess ;;
t <- get ;;
(if withoutSemicolon && negb (Preprocessor.endOfChunkHit (preprocessor t))
 then _err missingSemicolonAfterCharacterReference else ret tt) ;;
(* We always consume one code point too many in the loop, and we wait to
   unconsume it until after the error is emitted. *)
_unconsume 1 ;;
ret result.

(** ** The state machine

  [call n cp] stands for a nested call, with code point [cp], of the state
  method that [_callState] selects for state number [n]: a direct call
  [this._stateTagName(cp)] is [call State.TAG_NAME cp]. *)
Definition Call : Type := Z -> Z -> M unit.

Definition setState (s : Z) : M unit := modify (set_state s).
Definition setReturnState (s : Z) : M unit := modify (set_returnState s).

Definition _reconsumeInState (call : Call) (state : Z) (cp : Z) : M unit :=
setState state ;; call state cp.

(* Data state *)
Definition _stateData (cp : Z) : M unit :=
if cp =? CP.LESS_THAN_SIGN then setState State.TAG_OPEN
else if cp =? CP.AMPERSAND then
  setReturnState State.DATA ;; setState State.CHARACTER_REFERENCE
else if cp =? CP.NULL then
  _err unexpectedNullCharacter ;; _emitCodePoint cp
else if cp =? CP.EOF then _emitEOFToken
else _emitCodePoint cp.

(* RCDATA state *)
Definition _stateRcdata (cp : Z) : M unit :=
if cp =? CP.AMPERSAND then
  setReturnState State.RCDATA ;; setState State.CHARACTER_REFERENCE
else if cp =? CP.LESS_THAN_SIGN then setState State.RCDATA_LESS_THAN_SIGN
else if cp =? CP.NULL then
  _err unexpectedNullCharacter ;; _emitChars REPLACEMENT_CHARACTER
else if cp =? CP.EOF then _emitEOFToken
else _emitCodePoint cp.

(* RAWTEXT state *)
Definition _stateRawtext (cp : Z) : M unit :=
if cp =? CP.LESS_THAN_SIGN then setState State.RAWTEXT_LESS_THAN_SIGN
else if cp =? CP.NULL then
  _err unexpectedNullCharacter ;; _emitChars REPLACEMENT_CHARACTER
else if cp =? CP.EOF then _emitEOFToken
else _emitCodePoint cp.

(* Script data state *)
Definition _stateScriptData (cp : Z) : M unit :=
if cp =? CP.LESS_THAN_SIGN then setState State.SCRIPT_DATA_LESS_THAN_SIGN
else if cp =? CP.NULL then
  _err unexpectedNullCharacter ;; _emitChars REPLACEMENT_CHARACTER
else if cp =? CP.EOF then _emitEOFToken
else _emitCodePoint cp.

(* PLAINTEXT state *)
Definition _statePlaintext (cp : Z) : M unit :=
if cp =? CP.NULL then
  _err unexpectedNullCharacter ;; _emitChars REPLACEMENT_CHARACTER
else if cp =? CP.EOF then _emitEOFToken
else _emitCodePoint cp.

(* Tag open state *)
Definition _stateTagOpen (call : Call) (cp : Z) : M unit :=
if isAsciiLetter cp then
  _createStartTagToken ;; setState State.TAG_NAME ;; call State.TAG_NAME cp
else if cp =? CP.EXCLAMATION_MARK then setState State.MARKUP_DECLARATION_OPEN
else if cp =? CP.SOLIDUS then setState State.END_TAG_OPEN
else if cp =? CP.QUESTION_MARK then
  _err unexpectedQuestionMarkInsteadOfTagName ;;
  _createCommentToken 1 ;;
  setState State.BOGUS_COMMENT ;;
  call State.BOGUS_COMMENT cp
else if cp =? CP.EOF then
  _err eofBeforeTagName ;; _emitChars (str "<") ;; _emitEOFToken
else
  _err invalidFirstCharacterOfTagName ;;
  _emitChars (str "<") ;;
  setState State.DATA ;;
  call State.DATA cp.

(* End tag open state *)
Definition _stateEndTagOpen (call : Call) (cp : Z) : M unit :=
if isAsciiLetter cp then
  _createEndTagToken ;; setState State.TAG_NAME ;; call State.TAG_NAME cp
else if cp =? CP.GREATER_THAN_SIGN then
  _err missingEndTagName ;; setState State.DATA
else if cp =? CP.EOF then
  _err eofBeforeTagName ;; _emitChars (str "</") ;; _emitEOFToken
else
  _err invalidFirstCharacterOfTagName ;;
  _createCommentToken 2 ;;
  setState State.BOGUS_COMMENT ;;
  call State.BOGUS_COMMENT cp.

(* Tag name state *)
Definition _stateTagName (cp : Z) : M unit :=
if isWhitespace cp then setState State.BEFORE_ATTRIBUTE_NAME
else if cp =? CP.SOLIDUS then setState State.SELF_CLOSING_START_TAG
else if cp =? CP.GREATER_THAN_SIGN then
  setState State.DATA ;; emitCurrentTagToken
else if cp =? CP.NULL then
  _err unexpectedNullCharacter ;;
  updTag (fun token => set_tagName (tagName token ++ REPLACEMENT_CHARACTER) token)
else if cp =? CP.EOF then
  _err eofInTag ;; _emitEOFToken
else
  updTag (fun token => set_tagName (tagName token ++ fromCodePoint cp) token).

(* RCDATA less-than sign state *)
Definition _stateRcdataLessThanSign (call : Call) (cp : Z) : M unit :=
if cp =? CP.SOLIDUS then setState State.RCDATA_END_TAG_OPEN
else
  _emitChars (str "<") ;; setState State.RCDATA ;; call State.RCDATA cp.

(* RCDATA end tag open state *)
Definition _stateRcdataEndTagOpen (call : Call) (cp : Z) : M unit :=
if isAsciiLetter cp then
  setState State.RCDATA_END_TAG_NAME ;; call State.RCDATA_END_TAG_NAME cp
else
  _emitChars (str "</") ;; setState State.RCDATA ;; call State.RCDATA cp.

Definition handleSpecialEndTag (_cp : Z) : M bool :=
t <- get ;;
b <- preprocessor_startsWith (lastStartTagName t) false ;;
if negb b then
  h <- _ensureHibernation ;; ret (negb h)
else
  _createEndTagToken ;;
  updTag (set_tagName (lastStartTagName t)) ;;
  cp <- preprocessor_peek (Z.of_nat (length (lastStartTagName t))) ;;
  if isWhitespace cp then
    _advanceBy (length (lastStartTagName t)) ;;
    setState State.BEFORE_ATTRIBUTE_NAME ;;
    ret false
  else if cp =? CP.SOLIDUS then
    _advanceBy (length (lastStartTagName t)) ;;
    setState State.SELF_CLOSING_START_TAG ;;
    ret false
  else if cp =? CP.GREATER_THAN_SIGN then
    _advanceBy (length (lastStartTagName t)) ;;
    emitCurrentTagToken ;;
    setState State.DATA ;;
    ret false
  else
    h <- _ensureHibernation ;; ret (negb h).

(* RCDATA end tag name state *)
Definition _stateRcdataEndTagName (call : Call) (cp : Z) : M unit :=
b <- handleSpecialEndTag cp ;;
if b then
  _emitChars (str "</") ;; setState State.RCDATA ;; call State.RCDATA cp
else ret tt.

(* RAWTEXT less-than sign state *)
Definition _stateRawtextLessThanSign (call : Call) (cp : Z) : M unit :=
if cp =? CP.SOLIDUS then setState State.RAWTEXT_END_TAG_OPEN
else
  _emitChars (str "<") ;; setState State.RAWTEXT ;; call State.RAWTEXT cp.

(* RAWTEXT end tag open state *)
Definition _stateRawtextEndTagOpen (call : Call) (cp : Z) : M unit :=
if isAsciiLetter cp then
  setState State.RAWTEXT_END_TAG_NAME ;; call State.RAWTEXT_END_TAG_NAME cp
else
  _emitChars (str "</") ;; setState State.RAWTEXT ;; call State.RAWTEXT cp.

(* RAWTEXT end tag name state *)
Definition _stateRawtextEndTagName (call : Call) (cp : Z) : M unit :=
b <- handleSpecialEndTag cp ;;
if b then
  _emitChars (str "</") ;; setState State.RAWTEXT ;; call State.RAWTEXT cp
else ret tt.

(* Script data less-than sign state *)
Definition _stateScriptDataLessThanSign (call : Call) (cp : Z) : M unit :=
if cp =? CP.SOLIDUS then setState State.SCRIPT_DATA_END_TAG_OPEN
else if cp =? CP.EXCLAMATION_MARK then
  setState State.SCRIPT_DATA_ESCAPE_START ;; _emitChars (str "<!")
else
  _emitChars (str "<") ;; setState State.SCRIPT_DATA ;; call State.SCRIPT_DATA cp.

(* Script data end tag open state *)
Definition _stateScriptDataEndTagOpen (call : Call) (cp : Z) : M unit :=
if isAsciiLetter cp then
  setState State.SCRIPT_DATA_END_TAG_NAME ;; call State.SCRIPT_DATA_END_TAG_NAME cp
else
  _emitChars (str "</") ;; setState State.SCRIPT_DATA ;; call State.SCRIPT_DATA cp.

(* Script data end tag name state *)
Definition _stateScriptDataEndTagName (call : Call) (cp : Z) : M unit :=
b <- handleSpecialEndTag cp ;;
if b then
  _emitChars (str "</") ;; setState State.SCRIPT_DATA ;; call State.SCRIPT_DATA cp
else ret tt.

(* Script data escape start state *)
Definition _stateScriptDataEscapeStart (call : Call) (cp : Z) : M unit :=
if cp =? CP.HYPHEN_MINUS then
  setState State.SCRIPT_DATA_ESCAPE_START_DASH ;; _emitChars (str "-")
else
  setState State.SCRIPT_DATA ;; call State.SCRIPT_DATA cp.

(* Script data escape start dash state *)
Definition _stateScriptDataEscapeStartDash (call : Call) (cp : Z) : M unit :=
if cp =? CP.HYPHEN_MINUS then
  setState State.SCRIPT_DATA_ESCAPED_DASH_DASH ;; _emitChars (str "-")
else
  setState State.SCRIPT_DATA ;; call State.SCRIPT_DATA cp.

(* Script data escaped state *)
Definition _stateScriptDataEscaped (cp : Z) : M unit :=
if cp =? CP.HYPHEN_MINUS then
  setState State.SCRIPT_DATA_ESCAPED_DASH ;; _emitChars (str "-")
else if cp =? CP.LESS_THAN_SIGN then setState State.SCRIPT_DATA_ESCAPED_LESS_THAN_SIGN
else if cp =? CP.NULL then
  _err unexpectedNullCharacter ;; _emitChars REPLACEMENT_CHARACTER
else if cp =? CP.EOF then
  _err eofInScriptHtmlCommentLikeText ;; _emitEOFToken
else _emitCodePoint cp.

(* Script data escaped dash state *)
Definition _stateScriptDataEscapedDash (cp : Z) : M unit :=
if cp =? CP.HYPHEN_MINUS then
  setState State.SCRIPT_DATA_ESCAPED_DASH_DASH ;; _emitChars (str "-")
else if cp =? CP.LESS_THAN_SIGN then setState State.SCRIPT_DATA_ESCAPED_LESS_THAN_SIGN
else if cp =? CP.NULL then
  _err unexpectedNullCharacter ;;
  setState State.SCRIPT_DATA_ESCAPED ;;
  _emitChars REPLACEMENT_CHARACTER
else if cp =? CP.EOF then
  _err eofInScriptHtmlCommentLikeText ;; _emitEOFToken
else
  setState State.SCRIPT_DATA_ESCAPED ;; _emitCodePoint cp.

(* Script data escaped dash dash state *)
Definition _stateScriptDataEscapedDashDash (cp : Z) : M unit :=
if cp =? CP.HYPHEN_MINUS then _emitChars (str "-")
else if cp =? CP.LESS_THAN_SIGN then setState State.SCRIPT_DATA_ESCAPED_LESS_THAN_SIGN
else if cp =? CP.GREATER_THAN_SIGN then
  setState State.SCRIPT_DATA ;; _emitChars (str ">")
else if cp =? CP.NULL then
  _err unexpectedNullCharacter ;;
  setState State.SCRIPT_DATA_ESCAPED ;;
  _emitChars REPLACEMENT_CHARACTER
else if cp =? CP.EOF then
  _err eofInScriptHtmlCommentLikeText ;; _emitEOFToken
else
  setState State.SCRIPT_DATA_ESCAPED ;; _emitCodePoint cp.

(* Script data escaped less-than sign state *)
Definition _stateScriptDataEscapedLessThanSign (call : Call) (cp : Z) : M unit :=
if cp =? CP.SOLIDUS then setState State.SCRIPT_DATA_ESCAPED_END_TAG_OPEN
else if isAsciiLetter cp then
  _emitChars (str "<") ;;
  setState State.SCRIPT_DATA_DOUBLE_ESCAPE_START ;;
  call State.SCRIPT_DATA_DOUBLE_ESCAPE_START cp
else
  _emitChars (str "<") ;;
  setState State.SCRIPT_DATA_ESCAPED ;;
  call State.SCRIPT_DATA_ESCAPED cp.

(* Script data escaped end tag open state *)
Definition _stateScriptDataEscapedEndTagOpen (call : Call) (cp : Z) : M unit :=
if isAsciiLetter cp then
  setState State.SCRIPT_DATA_ESCAPED_END_TAG_NAME ;;
  call State.SCRIPT_DATA_ESCAPED_END_TAG_NAME cp
else
  _emitChars (str "</") ;;
  setState State.SCRIPT_DATA_ESCAPED ;;
  call State.SCRIPT_DATA_ESCAPED cp.

(* Script data escaped end tag name state *)
Definition _stateScriptDataEscapedEndTagName (call : Call) (cp : Z) : M unit :=
b <- handleSpecialEndTag cp ;;
if b then
  _emitChars (str "</") ;;
  setState State.SCRIPT_DATA_ESCAPED ;;
  call State.SCRIPT_DATA_ESCAPED cp
else ret tt.

(** The test shared by the two double-escape states: [startsWith] first, and
  [peek] only when it succeeded. *)
Definition scriptSequenceAhead : M bool :=
b <- preprocessor_startsWith SEQUENCES.SCRIPT false ;;
if b then
  n <- preprocessor_peek (Z.of_nat (length SEQUENCES.SCRIPT)) ;;
  ret (isScriptDataDoubleEscapeSequenceEnd n)
else ret false.

(* Script data double escape start state *)
Definition _stateScriptDataDoubleEscapeStart (call : Call) (cp : Z) : M unit :=
b <- scriptSequenceAhead ;;
if b then
  _emitCodePoint cp ;;
  repeatM (length SEQUENCES.SCRIPT) (c <- _consume ;; _emitCodePoint c) ;;
  setState State.SCRIPT_DATA_DOUBLE_ESCAPED
else
  h <- _ensureHibernation ;;
  if negb h then
    setState State.SCRIPT_DATA_ESCAPED ;; call State.SCRIPT_DATA_ESCAPED cp
  else ret tt.

(* Script data double escaped state *)
Definition _stateScriptDataDoubleEscaped (cp : Z) : M unit :=
if cp =? CP.HYPHEN_MINUS then
  setState State.SCRIPT_DATA_DOUBLE_ESCAPED_DASH ;; _emitChars (str "-")
else if cp =? CP.LESS_THAN_SIGN then
  setState State.SCRIPT_DATA_DOUBLE_ESCAPED_LESS_THAN_SIGN ;; _emitChars (str "<")
else if cp =? CP.NULL then
  _err unexpectedNullCharacter ;; _emitChars REPLACEMENT_CHARACTER
else if cp =? CP.EOF then
  _err eofInScriptHtmlCommentLikeText ;; _emitEOFToken
else _emitCodePoint cp.

(* Script data double escaped dash state *)
Definition _stateScriptDataDoubleEscapedDash (cp : Z) : M unit :=
if cp =? CP.HYPHEN_MINUS then
  setState State.SCRIPT_DATA_DOUBLE_ESCAPED_DASH_DASH ;; _emitChars (str "-")
else if cp =? CP.LESS_THAN_SIGN then
  setState State.SCRIPT_DATA_DOUBLE_ESCAPED_LESS_THAN_SIGN ;; _emitChars (str "<")
else if cp =? CP.NULL then
  _err unexpectedNullCharacter ;;
  setState State.SCRIPT_DATA_DOUBLE_ESCAPED ;;
  _emitChars REPLACEMENT_CHARACTER
else if cp =? CP.EOF then
  _err eofInScriptHtmlCommentLikeText ;; _emitEOFToken
else
  setState State.SCRIPT_DATA_DOUBLE_ESCAPED ;; _emitCodePoint cp.

(* Script data double escaped dash dash state *)
Definition _stateScriptDataDoubleEscapedDashDash (cp : Z) : M unit :=
if cp =? CP.HYPHEN_MINUS then _emitChars (str "-")
else if cp =? CP.LESS_THAN_SIGN then
  setState State.SCRIPT_DATA_DOUBLE_ESCAPED_LESS_THAN_SIGN ;; _emitChars (str "<")
else if cp =? CP.GREATER_THAN_SIGN then
  setState State.SCRIPT_DATA ;; _emitChars (str ">")
else if cp =? CP.NULL then
  _err unexpectedNullCharacter ;;
  setState State.SCRIPT_DATA_DOUBLE_ESCAPED ;;
  _emitChars REPLACEMENT_CHARACTER
else if cp =? CP.EOF then
  _err eofInScriptHtmlCommentLikeText ;; _emitEOFToken
else
  setState State.SCRIPT_DATA_DOUBLE_ESCAPED ;; _emitCodePoint cp.

(* Script data double escaped less-than sign state *)
Definition _stateScriptDataDoubleEscapedLessThanSign (call : Call) (cp : Z) : M unit :=
if cp =? CP.SOLIDUS then
  setState State.SCRIPT_DATA_DOUBLE_ESCAPE_END ;; _emitChars (str "/")
else
  setState State.SCRIPT_DATA_DOUBLE_ESCAPED ;;
  call State.SCRIPT_DATA_DOUBLE_ESCAPED cp.

(* Script data double escape end state *)
Definition _stateScriptDataDoubleEscapeEnd (call : Call) (cp : Z) : M unit :=
b <- scriptSequenceAhead ;;
if b then
  _emitCodePoint cp ;;
  repeatM (length SEQUENCES.SCRIPT) (c <- _consume ;; _emitCodePoint c) ;;
  setState State.SCRIPT_DATA_ESCAPED
else
  h <- _ensureHibernation ;;
  if negb h then
    setState State.SCRIPT_DATA_DOUBLE_ESCAPED ;;
    call State.SCRIPT_DATA_DOUBLE_ESCAPED cp
  else ret tt.

(* Before attribute name state *)
Definition _stateBeforeAttributeName (call : Call) (cp : Z) : M unit :=
if isWhitespace cp then ret tt (* Ignore whitespace *)
else if (cp =? CP.SOLIDUS) || (cp =? CP.GREATER_THAN_SIGN) || (cp =? CP.EOF) then
  setState State.AFTER_ATTRIBUTE_NAME ;; call State.AFTER_ATTRIBUTE_NAME cp
else if cp =? CP.EQUALS_SIGN then
  _err unexpectedEqualsSignBeforeAttributeName ;;
  _createAttr (str "=") ;;
  setState State.ATTRIBUTE_NAME
else
  _createAttr [] ;;
  setState State.ATTRIBUTE_NAME ;;
  call State.ATTRIBUTE_NAME cp.

(* Attribute name state *)
Definition _stateAttributeName (call : Call) (cp : Z) : M unit :=
if isWhitespace cp || (cp =? CP.SOLIDUS) || (cp =? CP.GREATER_THAN_SIGN)
   || (cp =? CP.EOF) then
  _leaveAttrName ;;
  setState State.AFTER_ATTRIBUTE_NAME ;;
  call State.AFTER_ATTRIBUTE_NAME cp
else if cp =? CP.EQUALS_SIGN then
  _leaveAttrName ;; setState State.BEFORE_ATTRIBUTE_VALUE
else if (cp =? CP.QUOTATION_MARK) || (cp =? CP.APOSTROPHE)
        || (cp =? CP.LESS_THAN_SIGN) then
  _err unexpectedCharacterInAttributeName ;;
  appendAttrName (fromCodePoint cp)
else if cp =? CP.NULL then
  _err unexpectedNullCharacter ;;
  appendAttrName REPLACEMENT_CHARACTER
else
  appendAttrName (fromCodePoint cp).

(* After attribute name state *)
Definition _stateAfterAttributeName (call : Call) (cp : Z) : M unit :=
if isWhitespace cp then ret tt (* Ignore whitespace *)
else if cp =? CP.SOLIDUS then setState State.SELF_CLOSING_START_TAG
else if cp =? CP.EQUALS_SIGN then setState State.BEFORE_ATTRIBUTE_VALUE
else if cp =? CP.GREATER_THAN_SIGN then
  setState State.DATA ;; emitCurrentTagToken
else if cp =? CP.EOF then
  _err eofInTag ;; _emitEOFToken
else
  _createAttr [] ;;
  setState State.ATTRIBUTE_NAME ;;
  call State.ATTRIBUTE_NAME cp.

(* Before attribute value state *)
Definition _stateBeforeAttributeValue (call : Call) (cp : Z) : M unit :=
if isWhitespace cp then ret tt (* Ignore whitespace *)
else if cp =? CP.QUOTATION_MARK then setState State.ATTRIBUTE_VALUE_DOUBLE_QUOTED
else if cp =? CP.APOSTROPHE then setState State.ATTRIBUTE_VALUE_SINGLE_QUOTED
else if cp =? CP.GREATER_THAN_SIGN then
  _err missingAttributeValue ;; setState State.DATA ;; emitCurrentTagToken
else
  setState State.ATTRIBUTE_VALUE_UNQUOTED ;;
  call State.ATTRIBUTE_VALUE_UNQUOTED cp.

(* Attribute value (double-quoted) state *)
Definition _stateAttributeValueDoubleQuoted (cp : Z) : M unit :=
if cp =? CP.QUOTATION_MARK then setState State.AFTER_ATTRIBUTE_VALUE_QUOTED
else if cp =? CP.AMPERSAND then
  setReturnState State.ATTRIBUTE_VALUE_DOUBLE_QUOTED ;;
  setState State.CHARACTER_REFERENCE
else if cp =? CP.NULL then
  _err unexpectedNullCharacter ;; appendAttrValue REPLACEMENT_CHARACTER
else if cp =? CP.EOF then
  _err eofInTag ;; _emitEOFToken
else appendAttrValue (fromCodePoint cp).

(* Attribute value (single-quoted) state *)
Definition _stateAttributeValueSingleQuoted (cp : Z) : M unit :=
if cp =? CP.APOSTROPHE then setState State.AFTER_ATTRIBUTE_VALUE_QUOTED
else if cp =? CP.AMPERSAND then
  setReturnState State.ATTRIBUTE_VALUE_SINGLE_QUOTED ;;
  setState State.CHARACTER_REFERENCE
else if cp =? CP.NULL then
  _err unexpectedNullCharacter ;; appendAttrValue REPLACEMENT_CHARACTER
else if cp =? CP.EOF then
  _err eofInTag ;; _emitEOFToken
else appendAttrValue (fromCodePoint cp).

(* Attribute value (unquoted) state *)
Definition _stateAttributeValueUnquoted (cp : Z) : M unit :=
if isWhitespace cp then
  _leaveAttrValue ;; setState State.BEFORE_ATTRIBUTE_NAME
else if cp =? CP.AMPERSAND then
  setReturnState State.ATTRIBUTE_VALUE_UNQUOTED ;;
  setState State.CHARACTER_REFERENCE
else if cp =? CP.GREATER_THAN_SIGN then
  _leaveAttrValue ;; setState State.DATA ;; emitCurrentTagToken
else if cp =? CP.NULL then
  _err unexpectedNullCharacter ;; appendAttrValue REPLACEMENT_CHARACTER
else if (cp =? CP.QUOTATION_MARK) || (cp =? CP.APOSTROPHE)
        || (cp =? CP.LESS_THAN_SIGN) || (cp =? CP.EQUALS_SIGN)
        || (cp =? CP.GRAVE_ACCENT) then
  _err unexpectedCharacterInUnquotedAttributeValue ;;
  appendAttrValue (fromCodePoint cp)
else if cp =? CP.EOF then
  _err eofInTag ;; _emitEOFToken
else appendAttrValue (fromCodePoint cp).

(* After attribute value (quoted) state *)
Definition _stateAfterAttributeValueQuoted (call : Call) (cp : Z) : M unit :=
if isWhitespace cp then
  _leaveAttrValue ;; setState State.BEFORE_ATTRIBUTE_NAME
else if cp =? CP.SOLIDUS then
  _leaveAttrValue ;; setState State.SELF_CLOSING_START_TAG
else if cp =? CP.GREATER_THAN_SIGN then
  _leaveAttrValue ;; setState State.DATA ;; emitCurrentTagToken
else if cp =? CP.EOF then
  _err eofInTag ;; _emitEOFToken
else
  _err missingWhitespaceBetweenAttributes ;;
  setState State.BEFORE_ATTRIBUTE_NAME ;;
  call State.BEFORE_ATTRIBUTE_NAME cp.

(* Self-closing start tag state *)
Definition _stateSelfClosingStartTag (call : Call) (cp : Z) : M unit :=
if cp =? CP.GREATER_THAN_SIGN then
  updTag (set_selfClosing true) ;;
  setState State.DATA ;;
  emitCurrentTagToken
else if cp =? CP.EOF then
  _err eofInTag ;; _emitEOFToken
else
  _err unexpectedSolidusInTag ;;
  setState State.BEFORE_ATTRIBUTE_NAME ;;
  call State.BEFORE_ATTRIBUTE_NAME cp.

(* Bogus comment state *)
Definition _stateBogusComment (cp : Z) : M unit :=
if cp =? CP.GREATER_THAN_SIGN then
  setState State.DATA ;; emitCurrentComment
else if cp =? CP.EOF then
  emitCurrentComment ;; _emitEOFToken
else if cp =? CP.NULL then
  _err unexpectedNullCharacter ;;
  updComment (fun data => data ++ REPLACEMENT_CHARACTER)
else
  updComment (fun data => data ++ fromCodePoint cp).

(* Markup declaration open state *)
Definition _stateMarkupDeclarationOpen (call : Call) (cp : Z) : M unit :=
b1 <- _consumeSequenceIfMatch SEQUENCES.DASH_DASH true ;;
if b1 then
  _createCommentToken (Z.of_nat (length SEQUENCES.DASH_DASH) + 1) ;;
  setState State.COMMENT_START
else
  b2 <- _consumeSequenceIfMatch SEQUENCES.DOCTYPE false ;;
  if b2 then
    setState State.DOCTYPE
  else
    b3 <- _consumeSequenceIfMatch SEQUENCES.CDATA_START true ;;
    if b3 then
      t <- get ;;
      if inForeignNode t then setState State.CDATA_SECTION
      else
        _err cdataInHtmlContent ;;
        _createCommentToken (Z.of_nat (length SEQUENCES.CDATA_START) + 1) ;;
        updComment (fun _ => str "[CDATA[") ;;
        setState State.BOGUS_COMMENT
    else
      (* NOTE: Sequence lookups can be abrupted by hibernation. In that case,
         lookup results are no longer valid and we will need to start over. *)
      h <- _ensureHibernation ;;
      if negb h then
        _err incorrectlyOpenedComment ;;
        _createCommentToken 2 ;;
        setState State.BOGUS_COMMENT ;;
        call State.BOGUS_COMMENT cp
      else ret tt.

(* Comment start state *)
Definition _stateCommentStart (call : Call) (cp : Z) : M unit :=
if cp =? CP.HYPHEN_MINUS then setState State.COMMENT_START_DASH
else if cp =? CP.GREATER_THAN_SIGN then
  _err abruptClosingOfEmptyComment ;;
  setState State.DATA ;;
  emitCurrentComment
else
  setState State.COMMENT ;; call State.COMMENT cp.

(* Comment start dash state *)
Definition _stateCommentStartDash (call : Call) (cp : Z) : M unit :=
if cp =? CP.HYPHEN_MINUS then setState State.COMMENT_END
else if cp =? CP.GREATER_THAN_SIGN then
  _err abruptClosingOfEmptyComment ;;
  setState State.DATA ;;
  emitCurrentComment
else if cp =? CP.EOF then
  _err eofInComment ;; emitCurrentComment ;; _emitEOFToken
else
  updComment (fun data => data ++ str "-") ;;
  setState State.COMMENT ;;
  call State.COMMENT cp.

(* Comment state *)
Definition _stateComment (cp : Z) : M unit :=
if cp =? CP.HYPHEN_MINUS then setState State.COMMENT_END_DASH
else if cp =? CP.LESS_THAN_SIGN then
  updComment (fun data => data ++ str "<") ;;
  setState State.COMMENT_LESS_THAN_SIGN
else if cp =? CP.NULL then
  _err unexpectedNullCharacter ;;
  updComment (fun data => data ++ REPLACEMENT_CHARACTER)
else if cp =? CP.EOF then
  _err eofInComment ;; emitCurrentComment ;; _emitEOFToken
else
  updComment (fun data => data ++ fromCodePoint cp).

(* Comment less-than sign state *)
Definition _stateCommentLessThanSign (call : Call) (cp : Z) : M unit :=
if cp =? CP.EXCLAMATION_MARK then
  updComment (fun data => data ++ str "!") ;;
  setState State.COMMENT_LESS_THAN_SIGN_BANG
else if cp =? CP.LESS_THAN_SIGN then
  updComment (fun data => data ++ str "<")
else
  setState State.COMMENT ;; call State.COMMENT cp.

(* Comment less-than sign bang state *)
Definition _stateCommentLessThanSignBang (call : Call) (cp : Z) : M unit :=
if cp =? CP.HYPHEN_MINUS then setState State.COMMENT_LESS_THAN_SIGN_BANG_DASH
else
  setState State.COMMENT ;; call State.COMMENT cp.

(* Comment less-than sign bang dash state *)
Definition _stateCommentLessThanSignBangDash (call : Call) (cp : Z) : M unit :=
if cp =? CP.HYPHEN_MINUS then setState State.COMMENT_LESS_THAN_SIGN_BANG_DASH_DASH
else
  setState State.COMMENT_END_DASH ;; call State.COMMENT_END_DASH cp.

(* Comment less-than sign bang dash dash state *)
Definition _stateCommentLessThanSignBangDashDash (call : Call) (cp : Z) : M unit :=
(if negb (cp =? CP.GREATER_THAN_SIGN) && negb (cp =? CP.EOF)
 then _err nestedComment else ret tt) ;;
setState State.COMMENT_END ;;
call State.COMMENT_END cp.

(* Comment end dash state *)
Definition _stateCommentEndDash (call : Call) (cp : Z) : M unit :=
if cp =? CP.HYPHEN_MINUS then setState State.COMMENT_END
else if cp =? CP.EOF then
  _err eofInComment ;; emitCurrentComment ;; _emitEOFToken
else
  updComment (fun data => data ++ str "-") ;;
  setState State.COMMENT ;;
  call State.COMMENT cp.

(* Comment end state *)
Definition _stateCommentEnd (call : Call) (cp : Z) : M unit :=
if cp =? CP.GREATER_THAN_SIGN then
  setState State.DATA ;; emitCurrentComment
else if cp =? CP.EXCLAMATION_MARK then setState State.COMMENT_END_BANG
else if cp =? CP.HYPHEN_MINUS then
  updComment (fun data => data ++ str "-")
else if cp =? CP.EOF then
  _err eofInComment ;; emitCurrentComment ;; _emitEOFToken
else
  updComment (fun data => data ++ str "--") ;;
  setState State.COMMENT ;;
  call State.COMMENT cp.

(* Comment end bang state *)
Definition _stateCommentEndBang (call : Call) (cp : Z) : M unit :=
if cp =? CP.HYPHEN_MINUS then
  updComment (fun data => data ++ str "--!") ;;
  setState State.COMMENT_END_DASH
else if cp =? CP.GREATER_THAN_SIGN then
  _err incorrectlyClosedComment ;;
  setState State.DATA ;;
  emitCurrentComment
else if cp =? CP.EOF then
  _err eofInComment ;; emitCurrentComment ;; _emitEOFToken
else
  updComment (fun data => data ++ str "--!") ;;
  setState State.COMMENT ;;
  call State.COMMENT cp.

(** The statements shared by the EOF branches of the doctype states. *)
Definition forceQuirksAndEmit : M unit :=
updDoctype (set_forceQuirks true) ;; emitCurrentDoctype.

(* DOCTYPE state *)
Definition _stateDoctype (call : Call) (cp : Z) : M unit :=
if isWhitespace cp then setState State.BEFORE_DOCTYPE_NAME
else if cp =? CP.GREATER_THAN_SIGN then
  setState State.BEFORE_DOCTYPE_NAME ;; call State.BEFORE_DOCTYPE_NAME cp
else if cp =? CP.EOF then
  _err eofInDoctype ;;
  _createDoctypeToken None ;;
  forceQuirksAndEmit ;;
  _emitEOFToken
else
  _err missingWhitespaceBeforeDoctypeName ;;
  setState State.BEFORE_DOCTYPE_NAME ;;
  call State.BEFORE_DOCTYPE_NAME cp.

(* Before DOCTYPE name state *)
Definition _stateBeforeDoctypeName (cp : Z) : M unit :=
if isAsciiUpper cp then
  _createDoctypeToken (Some (fromCodePoint (toAsciiLower cp))) ;;
  setState State.DOCTYPE_NAME
else if isWhitespace cp then ret tt (* Ignore whitespace *)
else if cp =? CP.NULL then
  _err unexpectedNullCharacter ;;
  _createDoctypeToken (Some REPLACEMENT_CHARACTER) ;;
  setState State.DOCTYPE_NAME
else if cp =? CP.GREATER_THAN_SIGN then
  _err missingDoctypeName ;;
  _createDoctypeToken None ;;
  forceQuirksAndEmit ;;
  setState State.DATA
else if cp =? CP.EOF then
  _err eofInDoctype ;;
  _createDoctypeToken None ;;
  forceQuirksAndEmit ;;
  _emitEOFToken
else
  _createDoctypeToken (Some (fromCodePoint cp)) ;;
  setState State.DOCTYPE_NAME.

(* DOCTYPE name state *)
Definition _stateDoctypeName (cp : Z) : M unit :=
if isWhitespace cp then setState State.AFTER_DOCTYPE_NAME
else if cp =? CP.GREATER_THAN_SIGN then
  setState State.DATA ;; emitCurrentDoctype
else if cp =? CP.NULL then
  _err unexpectedNullCharacter ;;
  updDoctype (fun token => set_dt_name (appendNullable (dt_name token) REPLACEMENT_CHARACTER) token)
else if cp =? CP.EOF then
  _err eofInDoctype ;; forceQuirksAndEmit ;; _emitEOFToken
else
  updDoctype (fun token => set_dt_name (appendNullable (dt_name token) (fromCodePoint cp)) token).

(* After DOCTYPE name state *)
Definition _stateAfterDoctypeName (call : Call) (cp : Z) : M unit :=
if isWhitespace cp then ret tt (* Ignore whitespace *)
else if cp =? CP.GREATER_THAN_SIGN then
  setState State.DATA ;; emitCurrentDoctype
else if cp =? CP.EOF then
  _err eofInDoctype ;; forceQuirksAndEmit ;; _emitEOFToken
else
  b1 <- _consumeSequenceIfMatch SEQUENCES.PUBLIC false ;;
  if b1 then setState State.AFTER_DOCTYPE_PUBLIC_KEYWORD
  else
    b2 <- _consumeSequenceIfMatch SEQUENCES.SYSTEM false ;;
    if b2 then setState State.AFTER_DOCTYPE_SYSTEM_KEYWORD
    else
      (* NOTE: sequence lookup can be abrupted by hibernation. In that case
         lookup results are no longer valid and we will need to start over. *)
      h <- _ensureHibernation ;;
      if negb h then
        _err invalidCharacterSequenceAfterDoctypeName ;;
        updDoctype (set_forceQuirks true) ;;
        setState State.BOGUS_DOCTYPE ;;
        call State.BOGUS_DOCTYPE cp
      else ret tt.

(** The default branch shared by the doctype identifier states. *)
Definition toBogusDoctype (call : Call) (e : ERR) (cp : Z) : M unit :=
_err e ;;
updDoctype (set_forceQuirks true) ;;
setState State.BOGUS_DOCTYPE ;;
call State.BOGUS_DOCTYPE cp.

(* After DOCTYPE public keyword state *)
Definition _stateAfterDoctypePublicKeyword (call : Call) (cp : Z) : M unit :=
if isWhitespace cp then setState State.BEFORE_DOCTYPE_PUBLIC_IDENTIFIER
else if cp =? CP.QUOTATION_MARK then
  _err missingWhitespaceAfterDoctypePublicKeyword ;;
  updDoctype (set_publicId (Some [])) ;;
  setState State.DOCTYPE_PUBLIC_IDENTIFIER_DOUBLE_QUOTED
else if cp =? CP.APOSTROPHE then
  _err missingWhitespaceAfterDoctypePublicKeyword ;;
  updDoctype (set_publicId (Some [])) ;;
  setState State.DOCTYPE_PUBLIC_IDENTIFIER_SINGLE_QUOTED
else if cp =? CP.GREATER_THAN_SIGN then
  _err missingDoctypePublicIdentifier ;;
  updDoctype (set_forceQuirks true) ;;
  setState State.DATA ;;
  emitCurrentDoctype
else if cp =? CP.EOF then
  _err eofInDoctype ;; forceQuirksAndEmit ;; _emitEOFToken
else toBogusDoctype call missingQuoteBeforeDoctypePublicIdentifier cp.

(* Before DOCTYPE public identifier state *)
Definition _stateBeforeDoctypePublicIdentifier (call : Call) (cp : Z) : M unit :=
if isWhitespace cp then ret tt (* Ignore whitespace *)
else if cp =? CP.QUOTATION_MARK then
  updDoctype (set_publicId (Some [])) ;;
  setState State.DOCTYPE_PUBLIC_IDENTIFIER_DOUBLE_QUOTED
else if cp =? CP.APOSTROPHE then
  updDoctype (set_publicId (Some [])) ;;
  setState State.DOCTYPE_PUBLIC_IDENTIFIER_SINGLE_QUOTED
else if cp =? CP.GREATER_THAN_SIGN then
  _err missingDoctypePublicIdentifier ;;
  updDoctype (set_forceQuirks true) ;;
  setState State.DATA ;;
  emitCurrentDoctype
else if cp =? CP.EOF then
  _err eofInDoctype ;; forceQuirksAndEmit ;; _emitEOFToken
else toBogusDoctype call missingQuoteBeforeDoctypePublicIdentifier cp.

(** The body shared by the four quoted doctype-identifier states: [quote]
  closes the identifier, [next] is the state after it, [get_id] and
  [set_id] select [publicId] or [systemId], [abrupt] is the error of a
  premature [>]. *)
Definition doctypeIdentifierQuoted (quote next : Z)
  (get_id : DoctypeToken -> option jsstring)
  (set_id : option jsstring -> DoctypeToken -> DoctypeToken)
  (abrupt : ERR) (cp : Z) : M unit :=
if cp =? quote then setState next
else if cp =? CP.NULL then
  _err unexpectedNullCharacter ;;
  updDoctype (fun token => set_id (appendNullable (get_id token) REPLACEMENT_CHARACTER) token)
else if cp =? CP.GREATER_THAN_SIGN then
  _err abrupt ;;
  updDoctype (set_forceQuirks true) ;;
  emitCurrentDoctype ;;
  setState State.DATA
else if cp =? CP.EOF then
  _err eofInDoctype ;; forceQuirksAndEmit ;; _emitEOFToken
else
  updDoctype (fun token => set_id (appendNullable (get_id token) (fromCodePoint cp)) token).

(* DOCTYPE public identifier (double-quoted) state *)
Definition _stateDoctypePublicIdentifierDoubleQuoted : Z -> M unit :=
doctypeIdentifierQuoted CP.QUOTATION_MARK State.AFTER_DOCTYPE_PUBLIC_IDENTIFIER
  publicId set_publicId abruptDoctypePublicIdentifier.

(* DOCTYPE public identifier (single-quoted) state *)
Definition _stateDoctypePublicIdentifierSingleQuoted : Z -> M unit :=
doctypeIdentifierQuoted CP.APOSTROPHE State.AFTER_DOCTYPE_PUBLIC_IDENTIFIER
  publicId set_publicId abruptDoctypePublicIdentifier.

(* After DOCTYPE public identifier state *)
Definition _stateAfterDoctypePublicIdentifier (call : Call) (cp : Z) : M unit :=
if isWhitespace cp then setState State.BETWEEN_DOCTYPE_PUBLIC_AND_SYSTEM_IDENTIFIERS
else if cp =? CP.GREATER_THAN_SIGN then
  setState State.DATA ;; emitCurrentDoctype
else if cp =? CP.QUOTATION_MARK then
  _err missingWhitespaceBetweenDoctypePublicAndSystemIdentifiers ;;
  updDoctype (set_systemId (Some [])) ;;
  setState State.DOCTYPE_SYSTEM_IDENTIFIER_DOUBLE_QUOTED
else if cp =? CP.APOSTROPHE then
  _err missingWhitespaceBetweenDoctypePublicAndSystemIdentifiers ;;
  updDoctype (set_systemId (Some [])) ;;
  setState State.DOCTYPE_SYSTEM_IDENTIFIER_SINGLE_QUOTED
else if cp =? CP.EOF then
  _err eofInDoctype ;; forceQuirksAndEmit ;; _emitEOFToken
else toBogusDoctype call missingQuoteBeforeDoctypeSystemIdentifier cp.

(* Between DOCTYPE public and system identifiers state *)
Definition _stateBetweenDoctypePublicAndSystemIdentifiers (call : Call) (cp : Z) : M unit :=
if isWhitespace cp then ret tt (* Ignore whitespace *)
else if cp =? CP.GREATER_THAN_SIGN then
  emitCurrentDoctype ;; setState State.DATA
else if cp =? CP.QUOTATION_MARK then
  updDoctype (set_systemId (Some [])) ;;
  setState State.DOCTYPE_SYSTEM_IDENTIFIER_DOUBLE_QUOTED
else if cp =? CP.APOSTROPHE then
  updDoctype (set_systemId (Some [])) ;;
  setState State.DOCTYPE_SYSTEM_IDENTIFIER_SINGLE_QUOTED
else if cp =? CP.EOF then
  _err eofInDoctype ;; forceQuirksAndEmit ;; _emitEOFToken
else toBogusDoctype call missingQuoteBeforeDoctypeSystemIdentifier cp.

(* After DOCTYPE system keyword state *)
Definition _stateAfterDoctypeSystemKeyword (call : Call) (cp : Z) : M unit :=
if isWhitespace cp then setState State.BEFORE_DOCTYPE_SYSTEM_IDENTIFIER
else if cp =? CP.QUOTATION_MARK then
  _err missingWhitespaceAfterDoctypeSystemKeyword ;;
  updDoctype (set_systemId (Some [])) ;;
  setState State.DOCTYPE_SYSTEM_IDENTIFIER_DOUBLE_QUOTED
else if cp =? CP.APOSTROPHE then
  _err missingWhitespaceAfterDoctypeSystemKeyword ;;
  updDoctype (set_systemId (Some [])) ;;
  setState State.DOCTYPE_SYSTEM_IDENTIFIER_SINGLE_QUOTED
else if cp =? CP.GREATER_THAN_SIGN then
  _err missingDoctypeSystemIdentifier ;;
  updDoctype (set_forceQuirks true) ;;
  setState State.DATA ;;
  emitCurrentDoctype
else if cp =? CP.EOF then
  _err eofInDoctype ;; forceQuirksAndEmit ;; _emitEOFToken
else toBogusDoctype call missingQuoteBeforeDoctypeSystemIdentifier cp.

(* Before DOCTYPE system identifier state *)
Definition _stateBeforeDoctypeSystemIdentifier (call : Call) (cp : Z) : M unit :=
if isWhitespace cp then ret tt (* Ignore whitespace *)
else if cp =? CP.QUOTATION_MARK then
  updDoctype (set_systemId (Some [])) ;;
  setState State.DOCTYPE_SYSTEM_IDENTIFIER_DOUBLE_QUOTED
else if cp =? CP.APOSTROPHE then
  updDoctype (set_systemId (Some [])) ;;
  setState State.DOCTYPE_SYSTEM_IDENTIFIER_SINGLE_QUOTED
else if cp =? CP.GREATER_THAN_SIGN then
  _err missingDoctypeSystemIdentifier ;;
  updDoctype (set_forceQuirks true) ;;
  setState State.DATA ;;
  emitCurrentDoctype
else if cp =? CP.EOF then
  _err eofInDoctype ;; forceQuirksAndEmit ;; _emitEOFToken
else toBogusDoctype call missingQuoteBeforeDoctypeSystemIdentifier cp.

(* DOCTYPE system identifier (double-quoted) state *)
Definition _stateDoctypeSystemIdentifierDoubleQuoted : Z -> M unit :=
doctypeIdentifierQuoted CP.QUOTATION_MARK State.AFTER_DOCTYPE_SYSTEM_IDENTIFIER
  systemId set_systemId abruptDoctypeSystemIdentifier.

(* DOCTYPE system identifier (single-quoted) state *)
Definition _stateDoctypeSystemIdentifierSingleQuoted : Z -> M unit :=
doctypeIdentifierQuoted CP.APOSTROPHE State.AFTER_DOCTYPE_SYSTEM_IDENTIFIER
  systemId set_systemId abruptDoctypeSystemIdentifier.

(* After DOCTYPE system identifier state *)
Definition _stateAfterDoctypeSystemIdentifier (call : Call) (cp : Z) : M unit :=
if isWhitespace cp then ret tt (* Ignore whitespace *)
else if cp =? CP.GREATER_THAN_SIGN then
  emitCurrentDoctype ;; setState State.DATA
else if cp =? CP.EOF then
  _err eofInDoctype ;; forceQuirksAndEmit ;; _emitEOFToken
else
  _err unexpectedCharacterAfterDoctypeSystemIdentifier ;;
  setState State.BOGUS_DOCTYPE ;;
  call State.BOGUS_DOCTYPE cp.

(* Bogus DOCTYPE state *)
Definition _stateBogusDoctype (cp : Z) : M unit :=
if cp =? CP.GREATER_THAN_SIGN then
  emitCurrentDoctype ;; setState State.DATA
else if cp =? CP.NULL then _err unexpectedNullCharacter
else if cp =? CP.EOF then
  emitCurrentDoctype ;; _emitEOFToken
else ret tt (* Do nothing *).

(* CDATA section state *)
Definition _stateCdataSection (cp : Z) : M unit :=
if cp =? CP.RIGHT_SQUARE_BRACKET then setState State.CDATA_SECTION_BRACKET
else if cp =? CP.EOF then
  _err eofInCdata ;; _emitEOFToken
else _emitCodePoint cp.

(* CDATA section bracket state *)
Definition _stateCdataSectionBracket (call : Call) (cp : Z) : M unit :=
if cp =? CP.RIGHT_SQUARE_BRACKET then setState State.CDATA_SECTION_END
else
  _emitChars (str "]") ;;
  setState State.CDATA_SECTION ;;
  call State.CDATA_SECTION cp.

(* CDATA section end state *)
Definition _stateCdataSectionEnd (call : Call) (cp : Z) : M unit :=
if cp =? CP.GREATER_THAN_SIGN then setState State.DATA
else if cp =? CP.RIGHT_SQUARE_BRACKET then _emitChars (str "]")
else
  _emitChars (str "]]") ;;
  setState State.CDATA_SECTION ;;
  call State.CDATA_SECTION cp.

(* Character reference state *)
Definition _stateCharacterReference (call : Call) (cp : Z) : M unit :=
if cp =? CP.NUMBER_SIGN then setState State.NUMERIC_CHARACTER_REFERENCE
else if isAsciiAlphaNumeric cp then
  setState State.NAMED_CHARACTER_REFERENCE ;;
  call State.NAMED_CHARACTER_REFERENCE cp
else
  _flushCodePointConsumedAsCharacterReference CP.AMPERSAND ;;
  t <- get ;;
  _reconsumeInState call (returnState t) cp.

(* Named character reference state *)
Definition _stateNamedCharacterReference (cp : Z) : M unit :=
matchResult <- _matchNamedCharacterReference cp ;;
(* NOTE: Matching can be abrupted by hibernation. In that case, match
   results are no longer valid and we will need to start over. *)
h <- _ensureHibernation ;;
if h then ret tt (* Stay in the state, try again. *)
else
  match matchResult with
  | Some cps =>
      fold_right (fun c k => _flushCodePointConsumedAsCharacterReference c ;; k)
                 (ret tt) cps ;;
      t <- get ;;
      setState (returnState t)
  | None =>
      _flushCodePointConsumedAsCharacterReference CP.AMPERSAND ;;
      setState State.AMBIGUOUS_AMPERSAND
  end.

(* Ambiguos ampersand state *)
Definition _stateAmbiguousAmpersand (call : Call) (cp : Z) : M unit :=
if isAsciiAlphaNumeric cp then
  _flushCodePointConsumedAsCharacterReference cp
else
  (if cp =? CP.SEMICOLON then _err unknownNamedCharacterReference else ret tt) ;;
  t <- get ;;
  _reconsumeInState call (returnState t) cp.

(* Numeric character reference state *)
Definition _stateNumericCharacterReference (call : Call) (cp : Z) : M unit :=
modify (set_charRefCode 0) ;;
if (cp =? CP.LATIN_SMALL_X) || (cp =? CP.LATIN_CAPITAL_X) then
  setState State.HEXADEMICAL_CHARACTER_REFERENCE_START
(* Inlined decimal character reference start state *)
else if isAsciiDigit cp then
  setState State.DECIMAL_CHARACTER_REFERENCE ;;
  call State.DECIMAL_CHARACTER_REFERENCE cp
else
  _err absenceOfDigitsInNumericCharacterReference ;;
  _flushCodePointConsumedAsCharacterReference CP.AMPERSAND ;;
  _flushCodePointConsumedAsCharacterReference CP.NUMBER_SIGN ;;
  t <- get ;;
  _reconsumeInState call (returnState t) cp.

(* Hexademical character reference start state *)
Definition _stateHexademicalCharacterReferenceStart (call : Call) (cp : Z) : M unit :=
if isAsciiHexDigit cp then
  setState State.HEXADEMICAL_CHARACTER_REFERENCE ;;
  call State.HEXADEMICAL_CHARACTER_REFERENCE cp
else
  _err absenceOfDigitsInNumericCharacterReference ;;
  _flushCodePointConsumedAsCharacterReference CP.AMPERSAND ;;
  _flushCodePointConsumedAsCharacterReference CP.NUMBER_SIGN ;;
  _unconsume 2 ;;
  t <- get ;;
  setState (returnState t).

Definition addDigit (base : Z) (cp : Z) (zero : Z) : M unit :=
modify (fun t => set_charRefCode (charRefCode t * base + cp - zero) t).

(* Hexademical character reference state *)
Definition _stateHexademicalCharacterReference (call : Call) (cp : Z) : M unit :=
if isAsciiUpperHexDigit cp then addDigit 16 cp 0x37
else if isAsciiLowerHexDigit cp then addDigit 16 cp 0x57
else if isAsciiDigit cp then addDigit 16 cp 0x30
else if cp =? CP.SEMICOLON then setState State.NUMERIC_CHARACTER_REFERENCE_END
else
  _err missingSemicolonAfterCharacterReference ;;
  setState State.NUMERIC_CHARACTER_REFERENCE_END ;;
  call State.NUMERIC_CHARACTER_REFERENCE_END cp.

(* Decimal character reference state *)
Definition _stateDecimalCharacterReference (call : Call) (cp : Z) : M unit :=
if isAsciiDigit cp then addDigit 10 cp 0x30
else if cp =? CP.SEMICOLON then setState State.NUMERIC_CHARACTER_REFERENCE_END
else
  _err missingSemicolonAfterCharacterReference ;;
  setState State.NUMERIC_CHARACTER_REFERENCE_END ;;
  call State.NUMERIC_CHARACTER_REFERENCE_END cp.

(** The if-chain of [_stateNumericCharacterReferenceEnd]: the error raised,
  if any, and the value [this.charRefCode] is left with. *)
Definition checkCharRefCode (charRefCode : Z) : option ERR * Z :=
if charRefCode =? CP.NULL then
  (Some nullCharacterReference, CP.REPLACEMENT_CHARACTER)
else if charRefCode >? 1114111 then
  (Some characterReferenceOutsideUnicodeRange, CP.REPLACEMENT_CHARACTER)
else if isSurrogate charRefCode then
  (Some surrogateCharacterReference, CP.REPLACEMENT_CHARACTER)
else if isUndefinedCodePoint charRefCode then
  (Some noncharacterCharacterReference, charRefCode)
else if isControlCodePoint charRefCode || (charRefCode =? CP.CARRIAGE_RETURN) then
  (Some controlCharacterReference,
   match Map_get C1_CONTROLS_REFERENCE_REPLACEMENTS charRefCode with
   | Some replacement => replacement
   | None => charRefCode
   end)
else (None, charRefCode).

(* Numeric character reference end state *)
Definition _stateNumericCharacterReferenceEnd (call : Call) (cp : Z) : M unit :=
t <- get ;;
let (e, c) := checkCharRefCode (charRefCode t) in
match e with Some e => _err e | None => ret tt end ;;
modify (set_charRefCode c) ;;
_flushCodePointConsumedAsCharacterReference c ;;
t <- get ;;
_reconsumeInState call (returnState t) cp.

(** [_callState], with the depth of nested state calls bounded by [depth]:
  a JavaScript engine bounds its call stack as well, and a cycle of
  reconsumptions ends in an exception there too. *)
Fixpoint callStateAt (depth : nat) (state : Z) (cp : Z) : M unit :=
match depth with
| O => throw CallStackExceeded
| S d =>
    let call := callStateAt d in
    match state with
    | 0 (* State.DATA *) => _stateData cp
    | 1 (* State.RCDATA *) => _stateRcdata cp
    | 2 (* State.RAWTEXT *) => _stateRawtext cp
    | 3 (* State.SCRIPT_DATA *) => _stateScriptData cp
    | 4 (* State.PLAINTEXT *) => _statePlaintext cp
    | 5 (* State.TAG_OPEN *) => _stateTagOpen call cp
    | 6 (* State.END_TAG_OPEN *) => _stateEndTagOpen call cp
    | 7 (* State.TAG_NAME *) => _stateTagName cp
    | 8 (* State.RCDATA_LESS_THAN_SIGN *) => _stateRcdataLessThanSign call cp
    | 9 (* State.RCDATA_END_TAG_OPEN *) => _stateRcdataEndTagOpen call cp
    | 10 (* State.RCDATA_END_TAG_NAME *) => _stateRcdataEndTagName call cp
    | 11 (* State.RAWTEXT_LESS_THAN_SIGN *) => _stateRawtextLessThanSign call cp
    | 12 (* State.RAWTEXT_END_TAG_OPEN *) => _stateRawtextEndTagOpen call cp
    | 13 (* State.RAWTEXT_END_TAG_NAME *) => _stateRawtextEndTagName call cp
    | 14 (* State.SCRIPT_DATA_LESS_THAN_SIGN *) => _stateScriptDataLessThanSign call cp
    | 15 (* State.SCRIPT_DATA_END_TAG_OPEN *) => _stateScriptDataEndTagOpen call cp
    | 16 (* State.SCRIPT_DATA_END_TAG_NAME *) => _stateScriptDataEndTagName call cp
    | 17 (* State.SCRIPT_DATA_ESCAPE_START *) => _stateScriptDataEscapeStart call cp
    | 18 (* State.SCRIPT_DATA_ESCAPE_START_DASH *) => _stateScriptDataEscapeStartDash call cp
    | 19 (* State.SCRIPT_DATA_ESCAPED *) => _stateScriptDataEscaped cp
    | 20 (* State.SCRIPT_DATA_ESCAPED_DASH *) => _stateScriptDataEscapedDash cp
    | 21 (* State.SCRIPT_DATA_ESCAPED_DASH_DASH *) => _stateScriptDataEscapedDashDash cp
    | 22 (* State.SCRIPT_DATA_ESCAPED_LESS_THAN_SIGN *) => _stateScriptDataEscapedLessThanSign call cp
    | 23 (* State.SCRIPT_DATA_ESCAPED_END_TAG_OPEN *) => _stateScriptDataEscapedEndTagOpen call cp
    | 24 (* State.SCRIPT_DATA_ESCAPED_END_TAG_NAME *) => _stateScriptDataEscapedEndTagName call cp
    | 25 (* State.SCRIPT_DATA_DOUBLE_ESCAPE_START *) => _stateScriptDataDoubleEscapeStart call cp
    | 26 (* State.SCRIPT_DATA_DOUBLE_ESCAPED *) => _stateScriptDataDoubleEscaped cp
    | 27 (* State.SCRIPT_DATA_DOUBLE_ESCAPED_DASH *) => _stateScriptDataDoubleEscapedDash cp
    | 28 (* State.SCRIPT_DATA_DOUBLE_ESCAPED_DASH_DASH *) => _stateScriptDataDoubleEscapedDashDash cp
    | 29 (* State.SCRIPT_DATA_DOUBLE_ESCAPED_LESS_THAN_SIGN *) => _stateScriptDataDoubleEscapedLessThanSign call cp
    | 30 (* State.SCRIPT_DATA_DOUBLE_ESCAPE_END *) => _stateScriptDataDoubleEscapeEnd call cp
    | 31 (* State.BEFORE_ATTRIBUTE_NAME *) => _stateBeforeAttributeName call cp
    | 32 (* State.ATTRIBUTE_NAME *) => _stateAttributeName call cp
    | 33 (* State.AFTER_ATTRIBUTE_NAME *) => _stateAfterAttributeName call cp
    | 34 (* State.BEFORE_ATTRIBUTE_VALUE *) => _stateBeforeAttributeValue call cp
    | 35 (* State.ATTRIBUTE_VALUE_DOUBLE_QUOTED *) => _stateAttributeValueDoubleQuoted cp
    | 36 (* State.ATTRIBUTE_VALUE_SINGLE_QUOTED *) => _stateAttributeValueSingleQuoted cp
    | 37 (* State.ATTRIBUTE_VALUE_UNQUOTED *) => _stateAttributeValueUnquoted cp
    | 38 (* State.AFTER_ATTRIBUTE_VALUE_QUOTED *) => _stateAfterAttributeValueQuoted call cp
    | 39 (* State.SELF_CLOSING_START_TAG *) => _stateSelfClosingStartTag call cp
    | 40 (* State.BOGUS_COMMENT *) => _stateBogusComment cp
    | 41 (* State.MARKUP_DECLARATION_OPEN *) => _stateMarkupDeclarationOpen call cp
    | 42 (* State.COMMENT_START *) => _stateCommentStart call cp
    | 43 (* State.COMMENT_START_DASH *) => _stateCommentStartDash call cp
    | 44 (* State.COMMENT *) => _stateComment cp
    | 45 (* State.COMMENT_LESS_THAN_SIGN *) => _stateCommentLessThanSign call cp
    | 46 (* State.COMMENT_LESS_THAN_SIGN_BANG *) => _stateCommentLessThanSignBang call cp
    | 47 (* State.COMMENT_LESS_THAN_SIGN_BANG_DASH *) => _stateCommentLessThanSignBangDash call cp
    | 48 (* State.COMMENT_LESS_THAN_SIGN_BANG_DASH_DASH *) => _stateCommentLessThanSignBangDashDash call cp
    | 49 (* State.COMMENT_END_DASH *) => _stateCommentEndDash call cp
    | 50 (* State.COMMENT_END *) => _stateCommentEnd call cp
    | 51 (* State.COMMENT_END_BANG *) => _stateCommentEndBang call cp
    | 52 (* State.DOCTYPE *) => _stateDoctype call cp
    | 53 (* State.BEFORE_DOCTYPE_NAME *) => _stateBeforeDoctypeName cp
    | 54 (* State.DOCTYPE_NAME *) => _stateDoctypeName cp
    | 55 (* State.AFTER_DOCTYPE_NAME *) => _stateAfterDoctypeName call cp
    | 56 (* State.AFTER_DOCTYPE_PUBLIC_KEYWORD *) => _stateAfterDoctypePublicKeyword call cp
    | 57 (* State.BEFORE_DOCTYPE_PUBLIC_IDENTIFIER *) => _stateBeforeDoctypePublicIdentifier call cp
    | 58 (* State.DOCTYPE_PUBLIC_IDENTIFIER_DOUBLE_QUOTED *) => _stateDoctypePublicIdentifierDoubleQuoted cp
    | 59 (* State.DOCTYPE_PUBLIC_IDENTIFIER_SINGLE_QUOTED *) => _stateDoctypePublicIdentifierSingleQuoted cp
    | 60 (* State.AFTER_DOCTYPE_PUBLIC_IDENTIFIER *) => _stateAfterDoctypePublicIdentifier call cp
    | 61 (* State.BETWEEN_DOCTYPE_PUBLIC_AND_SYSTEM_IDENTIFIERS *) => _stateBetweenDoctypePublicAndSystemIdentifiers call cp
    | 62 (* State.AFTER_DOCTYPE_SYSTEM_KEYWORD *) => _stateAfterDoctypeSystemKeyword call cp
    | 63 (* State.BEFORE_DOCTYPE_SYSTEM_IDENTIFIER *) => _stateBeforeDoctypeSystemIdentifier call cp
    | 64 (* State.DOCTYPE_SYSTEM_IDENTIFIER_DOUBLE_QUOTED *) => _stateDoctypeSystemIdentifierDoubleQuoted cp
    | 65 (* State.DOCTYPE_SYSTEM_IDENTIFIER_SINGLE_QUOTED *) => _stateDoctypeSystemIdentifierSingleQuoted cp
    | 66 (* State.AFTER_DOCTYPE_SYSTEM_IDENTIFIER *) => _stateAfterDoctypeSystemIdentifier call cp
    | 67 (* State.BOGUS_DOCTYPE *) => _stateBogusDoctype cp
    | 68 (* State.CDATA_SECTION *) => _stateCdataSection cp
    | 69 (* State.CDATA_SECTION_BRACKET *) => _stateCdataSectionBracket call cp
    | 70 (* State.CDATA_SECTION_END *) => _stateCdataSectionEnd call cp
    | 71 (* State.CHARACTER_REFERENCE *) => _stateCharacterReference call cp
    | 72 (* State.NAMED_CHARACTER_REFERENCE *) => _stateNamedCharacterReference cp
    | 73 (* State.AMBIGUOUS_AMPERSAND *) => _stateAmbiguousAmpersand call cp
    | 74 (* State.NUMERIC_CHARACTER_REFERENCE *) => _stateNumericCharacterReference call cp
    | 75 (* State.HEXADEMICAL_CHARACTER_REFERENCE_START *) => _stateHexademicalCharacterReferenceStart call cp
    | 76 (* State.HEXADEMICAL_CHARACTER_REFERENCE *) => _stateHexademicalCharacterReference call cp
    | 77 (* State.DECIMAL_CHARACTER_REFERENCE *) => _stateDecimalCharacterReference call cp
    | 78 (* State.NUMERIC_CHARACTER_REFERENCE_END *) => _stateNumericCharacterReferenceEnd call cp
    | _ => throw UnknownState
    end
end.

Definition callStackLimit : nat := 32.

(* Calling states this way turns out to be much faster than any other approach. *)
Definition _callState (cp : Z) : M unit :=
t <- get ;; callStateAt callStackLimit (state t) cp.

(** One round of the [while] loop of [_runParsingLoop]. *)
Definition loopBody : M unit :=
modify (set_consumedAfterSnapshot 0) ;;
cp <- _consume ;;
h <- _ensureHibernation ;;
if negb h then _callState cp else ret tt.

(** The [while (this.active && !this.paused)] loop, for at most [fuel] rounds. *)
Fixpoint whileActive (fuel : nat) : M unit :=
match fuel with
| O => t <- get ;;
       if active t && negb (paused t) then throw LoopBoundExceeded else ret tt
| S f =>
    t <- get ;;
    if active t && negb (paused t) then loopBody ;; whileActive f else ret tt
end.

Definition _runParsingLoop (fuel : nat) : M unit :=
t <- get ;;
if inLoop t then ret tt
else
  modify (set_inLoop true) ;;
  whileActive fuel ;;
  modify (set_inLoop false).

(* API *)
Definition write (fuel : nat) (chunk : jsstring) (isLastChunk : bool) : M unit :=
modify (set_active true) ;;
modify (fun t => set_preprocessor (Preprocessor.write chunk isLastChunk (preprocessor t)) t) ;;
_runParsingLoop fuel.

End Tokenizer.

(** [new Tokenizer(options, handler)]. *)
Definition newTokenizer : Tokenizer :=
  mkTokenizer false false false [] false State.DATA State.DATA (-1) (-1)
    None None [mkAttr [] []] 0%nat Preprocessor.init [].

(** * The serializer ([dist/cjs/serializer/index.js])

    Strings are Rocq strings here.  Nodes are those of the default tree
    adapter, which the serializer reaches only through the adapter's accessors;
    the namespace URIs of [common/html.js] are parameters. *)

#[local] Set Warnings "-register-all".

Module Serializer.
Local Open Scope string_scope.

(** The string made of one double quote. *)
Definition quote : string := String "034"%char EmptyString.

(** An attribute as held by an element node. *)
Record Attribute : Type := mkAttribute {
name : string;
value : string;
namespace : option string;
prefix : option string
}.

(** The nodes of the default tree adapter.  An element carries the child
  list of its template content, which is what [getTemplateContent] followed
  by [getChildNodes] reads on a [template] element. *)
Inductive Node : Type :=
| Document (childNodes : list Node)
| DocumentFragment (childNodes : list Node)
| DocumentType (name : string)
| Element (tagName : string) (namespaceURI : string) (attrs : list Attribute)
        (childNodes : list Node) (content : list Node)
| TextNode (value : string)
| CommentNode (data : string)
| OtherNode.

Definition VOID_ELEMENTS : list string :=
[ "area"; "base"; "basefont"; "bgsound"; "br"; "col"; "embed"; "frame";
  "hr"; "img"; "input"; "keygen"; "link"; "meta"; "param"; "source";
  "track"; "wbr" ].

Definition Set_has (s : list string) (x : string) : bool :=
existsb (String.eqb x) s.

(** A value interpolated into a template literal. *)
Definition interpolate (s : option string) : string :=
match s with Some v => v | None => "undefined" end.

Section WithNamespaces.
Variables NS_HTML NS_XML NS_XMLNS NS_XLINK : string.

Definition isVoidElement (node : Node) : bool :=
match node with
| Element tn ns _ _ _ => String.eqb ns NS_HTML && Set_has VOID_ELEMENTS tn
| _ => false
end.

(** The text added to [html] for one attribute: the body of the loop of
[serializeAttributes]. *)
Definition serializeAttribute (html : string) (attr : Attribute) : string :=
let html := html ++ " " in
let html :=
match namespace attr with
| None | Some EmptyString => html ++ name attr
| Some ns =>
    if String.eqb ns NS_XML then html ++ "xml:" ++ name attr
    else if String.eqb ns NS_XMLNS then
      (if negb (String.eqb (name attr) "xmlns") then html ++ "xmlns:" else html)
      ++ name attr
    else if String.eqb ns NS_XLINK then html ++ "xlink:" ++ name attr
    else html ++ interpolate (prefix attr) ++ ":" ++ name attr
end in
html ++ "=" ++ quote ++ value attr ++ quote.

Definition serializeAttributes (attrs : list Attribute) : string :=
fold_left serializeAttribute attrs EmptyString.

Definition serializeTextNode (content : string) : string := content.
Definition serializeCommentNode (data : string) : string := "<!--" ++ data ++ "-->".
Definition serializeDocumentTypeNode (name : string) : string :=
"<!DOCTYPE " ++ name ++ ">".

(** The container whose children [serializeChildNodes] walks. *)
Definition containerChildNodes (parentNode : Node) : option (list Node) :=
match parentNode with
| Element tn ns _ children content =>
  if String.eqb tn "template" && String.eqb ns NS_HTML
  then Some content else Some children
| Document children | DocumentFragment children => Some children
| _ => None
end.

Fixpoint serializeNode (node : Node) : string :=
let serializeAll :=
fix serializeAll (l : list Node) (html : string) : string :=
  match l with
  | [] => html
  | currentNode :: r => serializeAll r (html ++ serializeNode currentNode)
  end in
match node with
| Element tn ns attrs children content =>
  "<" ++ tn ++ serializeAttributes attrs ++ ">" ++
  (if isVoidElement node then EmptyString
   else serializeAll
          (if String.eqb tn "template" && String.eqb ns NS_HTML
           then content else children) EmptyString
        ++ "</" ++ tn ++ ">")
| TextNode v => serializeTextNode v
| CommentNode d => serializeCommentNode d
| DocumentType n => serializeDocumentTypeNode n
| _ => EmptyString (* Return an empty string for unknown nodes *)
end.

Definition serializeChildNodes (parentNode : Node) : string :=
match containerChildNodes parentNode with
| Some childNodes =>
  fold_left (fun html currentNode => html ++ serializeNode currentNode) childNodes EmptyString
| None => EmptyString
end.

Definition serializeElement (node : Node) : string :=
match node with
| Element tn _ attrs _ _ =>
  "<" ++ tn ++ serializeAttributes attrs ++ ">" ++
  (if isVoidElement node then EmptyString
   else serializeChildNodes node ++ "</" ++ tn ++ ">")
| _ => EmptyString
end.

Definition serialize (node : Node) : string :=
if isVoidElement node then EmptyString else serializeChildNodes node.

Definition serializeOuter (node : Node) : string := serializeNode node.

(** The qualified name written for an attribute. *)
Definition qualifiedName (attr : Attribute) : string :=
match namespace attr with
| None | Some EmptyString => name attr
| Some ns =>
  if String.eqb ns NS_XML then "xml:" ++ name attr
  else if String.eqb ns NS_XMLNS then
    (if negb (String.eqb (name attr) "xmlns") then "xmlns:" else EmptyString) ++ name attr
  else if String.eqb ns NS_XLINK then "xlink:" ++ name attr
  else interpolate (prefix attr) ++ ":" ++ name attr
end.

(** What the claim says an attribute is rendered as: a space, the qualified
name, an equals sign and the value between double quotes. *)
Definition renderAttribute (attr : Attribute) : string :=
" " ++ qualifiedName attr ++ "=" ++ quote ++ value attr ++ quote.

End WithNamespaces.
End Serializer.

(** * An instance of the imported parts, for running the tokenizer

    The code-point classes are those of the Unicode standard; [getTagID] interns
    nothing; the branch function is that of the [entities] package, over a small
    trie in that package's layout which knows [&amp;], its legacy form [&amp]
    and [&lt;]. *)

Module Example.

Definition getTagID (tagName : jsstring) : Z := TAG_ID_UNKNOWN.

Definition isSurrogate (cp : Z) : bool := (cp >=? 0xd800) && (cp <=? 0xdfff).

Definition isUndefinedCodePoint (cp : Z) : bool :=
((cp >=? 0xfdd0) && (cp <=? 0xfdef)) ||
((Z.land cp 0xfffe =? 0xfffe) && (cp >=? 0) && (cp <=? 0x10ffff)).

Definition isControlCodePoint (cp : Z) : bool :=
(negb (cp =? 0x20) && negb (cp =? 0x0a) && negb (cp =? 0x0d) &&
 negb (cp =? 0x09) && negb (cp =? 0x0c) && (cp >=? 0x01) && (cp <=? 0x1f)) ||
((cp >=? 0x7f) && (cp <=? 0x9f)).

Definition BRANCH_LENGTH : Z := 16256.
Definition JUMP_TABLE : Z := 127.

(** Binary search of [char] among the [hi - lo + 1] sorted keys at [lo]. *)
Fixpoint searchBranch (fuel : nat) (decodeTree : Z -> Z) (lo hi branchCount char : Z) : Z :=
match fuel with
| O => -1
| S f =>
    if lo <=? hi then
      let mid := Z.shiftr (lo + hi) 1 in
      let midVal := decodeTree mid in
      if midVal <? char then searchBranch f decodeTree (mid + 1) hi branchCount char
      else if midVal >? char then searchBranch f decodeTree lo (mid - 1) branchCount char
      else decodeTree (mid + branchCount)
    else -1
end.

Definition determineBranch (decodeTree : Z -> Z) (current nodeIdx char : Z) : Z :=
let branchCount := Z.shiftr (Z.land current BRANCH_LENGTH) 7 in
let jumpOffset := Z.land current JUMP_TABLE in
(* Case 1: Single branch encoded in jump offset *)
if branchCount =? 0 then
  if negb (jumpOffset =? 0) && (char =? jumpOffset) then nodeIdx else -1
(* Case 2: Multiple branches encoded in jump table *)
else if negb (jumpOffset =? 0) then
  let value := char - jumpOffset in
  if (value <? 0) || (value >=? branchCount) then -1
  else decodeTree (nodeIdx + value) - 1
(* Case 3: Multiple branches encoded in dictionary *)
else searchBranch (Z.to_nat branchCount + 1) decodeTree nodeIdx
       (nodeIdx + branchCount - 1) branchCount char.

(** Root: a dictionary over [a] and [l].  [a]-[m]-[p] carries the value [&]
  in the next word and branches on [;], whose node holds [&] inline;
  [l]-[t]-[;] holds [<] inline. *)
Definition treeWords : list Z :=
[ 256; 97; 108; 5; 12;        (* 0: root, keys a l, targets 5 12 *)
  109; 112;                    (* 5: m   6: p *)
  32827; 38;                   (* 7: value in next word, branch ;   8: & *)
  16422;                       (* 9: & inline *)
  0; 0;
  116; 59;                     (* 12: t   13: ; *)
  16444 ].                     (* 14: < inline *)

Definition htmlDecodeTree (i : Z) : Z :=
if i <? 0 then 0 else nth (Z.to_nat i) treeWords 0.

Definition _callState := _callState getTagID isSurrogate isUndefinedCodePoint
                         isControlCodePoint htmlDecodeTree determineBranch.
Definition write := write getTagID isSurrogate isUndefinedCodePoint
                    isControlCodePoint htmlDecodeTree determineBranch.

(** The tokenizer the parser sets up for a fragment: initial state [mode],
  with the name of the context element as last start tag. *)
Definition tokenizerFor (mode : Z) (lastStartTagName : jsstring) : Tokenizer :=
set_lastStartTagName lastStartTagName (set_state mode newTokenizer).

(** The handler's log after the chunks were written, the last one as last chunk. *)
Fixpoint feed (fuel : nat) (chunks : list jsstring) (t : Tokenizer) : Tokenizer :=
match chunks with
| [] => t
| [c] => final (write fuel c true t)
| c :: r => feed fuel r (final (write fuel c false t))
end.

Definition tokenize (input : jsstring) : list Event :=
handlerLog (feed (4 * length input + 4) [input] newTokenizer).

End Example.

(** * Definitions used to state the properties *)

(** The keys of the C1 replacement table: 0x80 to 0x9F without 0x81, 0x8D,
    0x8F, 0x90 and 0x9D. *)
Definition inC1Table (c : Z) : bool :=
  (0x80 <=? c) && (c <=? 0x9f) &&
  negb (c =? 0x81) && negb (c =? 0x8d) && negb (c =? 0x8f) &&
  negb (c =? 0x90) && negb (c =? 0x9d).

(** The callback by which a pending character token, if any, is handed over. *)
Definition pendingCharacterEvents (t : Tokenizer) : list Event :=
match currentCharacterToken t with
| Some ct =>
    match ch_type ct with
    | CHARACTER => [onCharacter (chars ct)]
    | NULL_CHARACTER => [onNullCharacter (chars ct)]
    | WHITESPACE_CHARACTER => [onWhitespaceCharacter (chars ct)]
    | _ => []
    end
| None => []
end.

(** ASCII lowercasing of a string, as the claim on tag names reads it. *)
Definition lowercased (s : jsstring) : jsstring := map Preprocessor.foldCase s.

(** The code points the tag-name state appends to the name. *)
Definition tagNameChar (cp : Z) : bool :=
negb (isWhitespace cp) && negb (cp =? CP.SOLIDUS) && negb (cp =? CP.GREATER_THAN_SIGN)
&& negb (cp =? CP.NULL) && negb (cp =? CP.EOF).

(** The code points the attribute-name state appends to the name without
    raising an error. *)
Definition attrNameChar (cp : Z) : bool :=
negb (isWhitespace cp) && negb (cp =? CP.SOLIDUS) && negb (cp =? CP.GREATER_THAN_SIGN)
&& negb (cp =? CP.EOF) && negb (cp =? CP.EQUALS_SIGN) && negb (cp =? CP.QUOTATION_MARK)
&& negb (cp =? CP.APOSTROPHE) && negb (cp =? CP.LESS_THAN_SIGN) && negb (cp =? CP.NULL).

(** The tokenizer after a write through [this.currentAttr] to the name. *)
Definition withAttrName (x : jsstring) (t : Tokenizer) : Tokenizer :=
set_attrObjects
  (updateNth (currentAttr t) (fun a => mkAttr (name a ++ x) (value a)) (attrObjects t)) t.

Definition logged (e : Event) (t : Tokenizer) : Tokenizer :=
set_handlerLog (handlerLog t ++ [e]) t.

(** The attribute objects a tag token under construction refers to. *)
Definition attrsOf (t : Tokenizer) (tk : TagToken nat) : list Attr :=
map (attrAt t) (attrs tk).

(** The names of the attributes of a tag token under construction. *)
Definition attrNames (t : Tokenizer) (tk : TagToken nat) : list jsstring :=
map name (attrsOf t tk).

(** The states in which a comment token is under construction and EOF is an
    [eofInComment] error: the comment chain, from COMMENT_START to
    COMMENT_END_BANG. *)
Definition commentEofStates : list Z := [42; 43; 44; 45; 46; 47; 48; 49; 50; 51].

(** The states in which a doctype token is under construction and EOF is an
    [eofInDoctype] error: DOCTYPE_NAME to AFTER_DOCTYPE_SYSTEM_IDENTIFIER. *)
Definition doctypeEofStates : list Z :=
[54; 55; 56; 57; 58; 59; 60; 61; 62; 63; 64; 65; 66].

(** The states of a tag under construction whose EOF branch does not touch the
    tag: TAG_NAME, and BEFORE_ATTRIBUTE_NAME to SELF_CLOSING_START_TAG without
    ATTRIBUTE_NAME. *)
Definition tagEofStates : list Z := [7; 31; 33; 34; 35; 36; 37; 38; 39].

Definition errorAt (t : Tokenizer) (e : ERR) : Event :=
onParseError (Preprocessor.getError e (preprocessor t)).

(** What the tokenizer finds at the cursor when it looks for the appropriate
    end tag: [lastStartTagName] up to ASCII case followed by white space, [/]
    or [>]; something else; or too little input to tell, in a chunk that is
    not the last. *)
Inductive Lookahead : Type :=
| Matched (delimiter : Z)
| Mismatch
| NeedMoreInput.

Definition nameAhead (t : Tokenizer) : bool :=
let p := preprocessor t in
let n := length (lastStartTagName t) in
negb (Preprocessor.pos p + Z.of_nat n >? Preprocessor.len p)
&& jsstring_eqb (lowercased (Preprocessor.window p n)) (lowercased (lastStartTagName t)).

Definition specialEndTagLookahead (t : Tokenizer) : Lookahead :=
let p := preprocessor t in
let n := Z.of_nat (length (lastStartTagName t)) in
if Preprocessor.pos p + n >? Preprocessor.len p then
  if Preprocessor.lastChunkWritten p then Mismatch else NeedMoreInput
else if negb (nameAhead t) then Mismatch
else if Preprocessor.pos p + n >=? Preprocessor.len p then
  if Preprocessor.lastChunkWritten p then Mismatch else NeedMoreInput
else
  let c := Preprocessor.charAt p (Preprocessor.pos p + n) in
  if isWhitespace c || (c =? CP.SOLIDUS) || (c =? CP.GREATER_THAN_SIGN)
  then Matched c else Mismatch.

(** The end tag built for [lastStartTagName]. *)
Definition specialEndTag (t : Tokenizer) : TagToken nat :=
mkTagToken END_TAG (lastStartTagName t) TAG_ID_UNKNOWN false false [].

(** The tokenizer once the name was found ahead: the end tag is built, even if
    what follows the name then rules the match out. *)
Definition withSpecialEndTag (t : Tokenizer) : Tokenizer :=
if nameAhead t then set_currentToken (Some (TagTok (specialEndTag t))) t else t.

(** The cursor moved forward by [n] code points inside the buffer. *)
Definition advancedBy (n : nat) (t : Tokenizer) : Tokenizer :=
let p := preprocessor t in
set_preprocessor
  (Preprocessor.mk (Preprocessor.html p) (Preprocessor.pos p + Z.of_nat n)
     (Preprocessor.lastChunkWritten p) (Preprocessor.endOfChunkHit p)
     (Preprocessor.skipNextNewLine p))
  (set_consumedAfterSnapshot (consumedAfterSnapshot t + Z.of_nat n) t).

(** The tokenizer put to sleep: the end of the chunk was hit, the cursor is
    back where the round started, and the loop is left. *)
Definition hibernated (t : Tokenizer) : Tokenizer :=
let p := preprocessor t in
set_active false
  (set_preprocessor
     (Preprocessor.mk (Preprocessor.html p)
        (Preprocessor.pos p - consumedAfterSnapshot t)
        (Preprocessor.lastChunkWritten p) true (Preprocessor.skipNextNewLine p))
     (set_consumedAfterSnapshot 0 t)).

(** The text state an end-tag-name state falls back to. *)
Definition textStateOf (endTagNameState : Z) : Z :=
if endTagNameState =? State.RCDATA_END_TAG_NAME then State.RCDATA
else if endTagNameState =? State.RAWTEXT_END_TAG_NAME then State.RAWTEXT
else if endTagNameState =? State.SCRIPT_DATA_END_TAG_NAME then State.SCRIPT_DATA
else State.SCRIPT_DATA_ESCAPED.

Definition endTagNameStates : list Z :=
[State.RCDATA_END_TAG_NAME; State.RAWTEXT_END_TAG_NAME; State.SCRIPT_DATA_END_TAG_NAME;
 State.SCRIPT_DATA_ESCAPED_END_TAG_NAME].

Section TrieWalk.
Variable htmlDecodeTree : Z -> Z.
Variable determineBranch : (Z -> Z) -> Z -> Z -> Z -> Z.

(** The node reached from node [(i, current)] along the code points [cs], each
  step landing on a node without value. *)
Fixpoint descend (i current : Z) (cs : list Z) : option (Z * Z) :=
match cs with
| [] => Some (i, current)
| c :: r =>
  let j := determineBranch htmlDecodeTree current (i + 1) c in
  if j <? 0 then None
  else if Z.land (htmlDecodeTree j) VALUE_LENGTH =? 0
  then descend j (htmlDecodeTree j) r
  else None
end.

(** The code points a node with a value stands for; [valueLength] is the
  number of words the value takes after the node's own. *)
Definition valueLengthAt (j : Z) : Z :=
Z.shiftr (Z.land (htmlDecodeTree j) VALUE_LENGTH) 14 - 1.

Definition valueAt (j : Z) : list Z :=
if valueLengthAt j =? 0 then [Z.land (htmlDecodeTree j) (Z.lnot VALUE_LENGTH)]
else if valueLengthAt j =? 1 then [htmlDecodeTree (j + 1)]
else [htmlDecodeTree (j + 1); htmlDecodeTree (j + 2)].

(** A named reference ends at the last code point of [init ++ [cl]]: the walk
  from the root along [init] meets no value, [cl] leads to the node [j],
  which has one, and the code point [x] after the name leads nowhere from
  there (a node whose value is inline has no branches at all). *)
Definition referenceEndsAt (init : list Z) (cl x j : Z) : Prop :=
exists i current,
descend 0 (htmlDecodeTree 0) init = Some (i, current)
/\ j = determineBranch htmlDecodeTree current (i + 1) cl
/\ 0 <= j
/\ Z.land (htmlDecodeTree j) VALUE_LENGTH <> 0
/\ (valueLengthAt j <> 0 ->
    determineBranch htmlDecodeTree (htmlDecodeTree j) (j + valueLengthAt j + 1) x < 0).

End TrieWalk.

(** The code points [cs] lie in the buffer right after the cursor. *)
Definition ahead (t : Tokenizer) (cs : list Z) : Prop :=
firstn (length cs)
  (skipn (Z.to_nat (Preprocessor.pos (preprocessor t) + 1))
     (Preprocessor.html (preprocessor t))) = cs
/\ 0 <= Preprocessor.pos (preprocessor t) + 1.

Definition inAttributeValue (t : Tokenizer) : bool :=
(returnState t =? 35) || (returnState t =? 36) || (returnState t =? 37).

(** The cursor moved by [k] code points, forward or backward, inside the
    buffer, and the count of code points consumed with it. *)
Definition movedBy (k : Z) (t : Tokenizer) : Tokenizer :=
let p := preprocessor t in
set_preprocessor
  (Preprocessor.mk (Preprocessor.html p) (Preprocessor.pos p + k)
     (Preprocessor.lastChunkWritten p) (Preprocessor.endOfChunkHit p)
     (Preprocessor.skipNextNewLine p))
  (set_consumedAfterSnapshot (consumedAfterSnapshot t + k) t).

(** ** The stream of tokens the handler receives *)

Definition isParseError (e : Event) : bool :=
match e with onParseError _ => true | _ => false end.

(** The tokens among the events: parse errors are reports, not tokens. *)
Definition tokenStream (log : list Event) : list Event :=
filter (fun e => negb (isParseError e)) log.

(** The kind of a character token, [None] for the other tokens. *)
Definition characterKind (e : Event) : option TokenType :=
match e with
| onCharacter _ => Some CHARACTER
| onNullCharacter _ => Some NULL_CHARACTER
| onWhitespaceCharacter _ => Some WHITESPACE_CHARACTER
| _ => None
end.

Definition isCharacterKind (k : TokenType) : bool :=
match k with
| CHARACTER | NULL_CHARACTER | WHITESPACE_CHARACTER => true
| _ => false
end.

(** No two neighbours of [tokens] are character tokens of one kind. *)
Definition Coalesced (tokens : list Event) : Prop :=
forall (l1 l2 : list Event) (a b : Event) (k : TokenType),
  tokens = l1 ++ a :: b :: l2 -> characterKind a = Some k -> characterKind b <> Some k.

(** The same, as a test. *)
Fixpoint coalesced (tokens : list Event) : bool :=
match tokens with
| [] => true
| a :: r =>
    match r with
    | [] => true
    | b :: _ =>
        match characterKind a, characterKind b with
        | Some k1, Some k2 => negb (TokenType_eqb k1 k2)
        | _, _ => true
        end && coalesced r
    end
end.

(** The kind of the last token delivered, if it is a character token. *)
Definition lastKind (log : list Event) : option TokenType :=
characterKind (last (tokenStream log) onEof).

(** What the tokenizer maintains between two steps: the tokens delivered so
    far are coalesced, and the pending character token, which every later
    character token starts from, is of another kind than the last token
    delivered; with no pending token, the last token delivered is not a
    character token. *)
Definition Coalescing (t : Tokenizer) : Prop :=
Coalesced (tokenStream (handlerLog t))
/\ match currentCharacterToken t with
   | Some ct =>
       isCharacterKind (ch_type ct) = true /\ lastKind (handlerLog t) <> Some (ch_type ct)
   | None => lastKind (handlerLog t) = None
   end.

(** Started where [P] holds, [m] returns where [Q] holds or throws where [E]
    holds. *)
Definition Triple {A : Type} (P : Tokenizer -> Prop) (m : M A)
  (Q E : Tokenizer -> Prop) : Prop :=
forall t, P t -> match m t with Ok _ t' => Q t' | Throw _ t' => E t' end.

(** [m] keeps [I], whether it returns or throws. *)
Definition Preserves (I : Tokenizer -> Prop) {A : Type} (m : M A) : Prop :=
Triple I m I I.

(** The pending character token was delivered, and no token after it yet. *)
Definition Flushed (t : Tokenizer) : Prop :=
Coalesced (tokenStream (handlerLog t)) /\ currentCharacterToken t = None.

Section Runs.
Variable getTagID : jsstring -> Z.
Variable isSurrogate : Z -> bool.
Variable isUndefinedCodePoint : Z -> bool.
Variable isControlCodePoint : Z -> bool.
Variable htmlDecodeTree : Z -> Z.
Variable determineBranch : (Z -> Z) -> Z -> Z -> Z -> Z.

(** A series of calls of [write], each with the bound on its loop, its chunk
  and its [isLastChunk]; a call that throws leaves the tokenizer as it was
  at the throw. *)
Fixpoint writeAll (calls : list (nat * jsstring * bool)) (t : Tokenizer) : Tokenizer :=
match calls with
| [] => t
| (fuel, chunk, isLastChunk) :: r =>
  writeAll r
    (final (write getTagID isSurrogate isUndefinedCodePoint isControlCodePoint
              htmlDecodeTree determineBranch fuel chunk isLastChunk t))
end.

End Runs.

(** ** Input that arrives in chunks *)

(** The end of the buffer was hit while more input may come. *)
Definition flagged (t : Tokenizer) : bool :=
Preprocessor.endOfChunkHit (preprocessor t).

(** The states a character reference returns to. *)
Definition isReturnState (s : Z) : bool :=
(s =? State.DATA) || (s =? State.RCDATA)
|| (s =? State.ATTRIBUTE_VALUE_DOUBLE_QUOTED)
|| (s =? State.ATTRIBUTE_VALUE_SINGLE_QUOTED)
|| (s =? State.ATTRIBUTE_VALUE_UNQUOTED).

(** A tokenizer that waits for more input: as long as no read hit the end of
    the buffer, the cursor is inside the buffer, at [low] or further, and at
    [hex] or further in the state that steps two code points back. *)
Definition Waiting (low hex : Z) (t : Tokenizer) : Prop :=
Preprocessor.lastChunkWritten (preprocessor t) = false
/\ isReturnState (returnState t) = true
/\ (flagged t = false ->
    low <= Preprocessor.pos (preprocessor t) < Preprocessor.len (preprocessor t)
    /\ (state t = State.HEXADEMICAL_CHARACTER_REFERENCE_START ->
        hex <= Preprocessor.pos (preprocessor t))).

(** At the head of the parsing loop; in a state method, the code point of the
    round consumed; after a step back over the code points of a reference. *)
Definition AtHead : Tokenizer -> Prop := Waiting (-1) 0.
Definition InState : Tokenizer -> Prop := Waiting 0 1.
Definition SteppedBack : Tokenizer -> Prop := Waiting (-1) (-1).

Section Extension.
(** The code points a later [write] appends to the buffer, its [isLastChunk]
  and the carry of its line-break normalisation. *)
Variable more : list Z.
Variable isLast : bool.
Variable carry : bool.

Definition extendBuffer (p : Preprocessor.t) : Preprocessor.t :=
Preprocessor.mk (Preprocessor.html p ++ more) (Preprocessor.pos p) isLast
(Preprocessor.endOfChunkHit p) carry.

(** The tokenizer with the longer buffer. *)
Definition extended (t : Tokenizer) : Tokenizer :=
set_preprocessor (extendBuffer (preprocessor t)) t.

Definition extendedRes {A : Type} (r : Res A) : Res A :=
match r with
| Ok a t => Ok a (extended t)
| Throw e t => Throw e (extended t)
end.

(** [Q] holds where a method returned. *)
Definition returned {A : Type} (Q : Tokenizer -> Prop) (r : Res A) : Prop :=
match r with
| Ok _ t => Q t
| Throw _ _ => True
end.

(** Run from [t] where [P] holds, [m1] returns where [Q] holds, keeps the
  mark of a read past the end, and, when no read went past the end, does on
  the longer buffer ([m2], the same code there) what it does on the shorter
  one. *)
Definition Extends {A : Type} (P Q : Tokenizer -> Prop) (m1 m2 : M A)
(t : Tokenizer) : Prop :=
P t ->
returned Q (m1 t)
/\ (flagged t = true -> flagged (final (m1 t)) = true)
/\ (flagged (final (m1 t)) = false -> m2 (extended t) = extendedRes (m1 t)).

(** The tokenizer a [write] finds after a hibernation: active again, the mark
  cleared, the buffer longer. *)
Definition resumed (t : Tokenizer) : Tokenizer :=
set_active true
(set_preprocessor
   (Preprocessor.mk (Preprocessor.html (preprocessor t) ++ more)
      (Preprocessor.pos (preprocessor t)) isLast false carry) t).

End Extension.

(** A predicate that reads nothing but the buffer, the state and the return
    state. *)
Definition Framed (P : Tokenizer -> Prop) : Prop :=
forall t t',
  preprocessor t' = preprocessor t -> state t' = state t ->
  returnState t' = returnState t -> P t -> P t'.

(** What a round of the parsing loop keeps while more input may come: the
    buffer [html], the carry [skip] of the line-break normalisation, the
    flags of the loop; and the tokenizer stays active unless a read hit the
    end of the buffer. *)
Definition Running (html : list Z) (skip : bool) (t : Tokenizer) : Prop :=
Preprocessor.html (preprocessor t) = html
/\ Preprocessor.skipNextNewLine (preprocessor t) = skip
/\ Preprocessor.lastChunkWritten (preprocessor t) = false
/\ paused t = false
/\ inLoop t = true
/\ (active t = true \/ flagged t = true).

(** No read hit the end of the buffer, and the return state is one of those
    a character reference returns to. *)
Definition Unflagged (t : Tokenizer) : Prop :=
flagged t = false /\ isReturnState (returnState t) = true.

(** The states that read ahead of the code point they are called with, and
    the states that call them. *)
Definition readsAhead (s : Z) : bool :=
(s =? State.RCDATA_END_TAG_OPEN) || (s =? State.RCDATA_END_TAG_NAME)
|| (s =? State.RAWTEXT_END_TAG_OPEN) || (s =? State.RAWTEXT_END_TAG_NAME)
|| (s =? State.SCRIPT_DATA_END_TAG_OPEN) || (s =? State.SCRIPT_DATA_END_TAG_NAME)
|| (s =? State.SCRIPT_DATA_ESCAPED_LESS_THAN_SIGN)
|| (s =? State.SCRIPT_DATA_ESCAPED_END_TAG_OPEN)
|| (s =? State.SCRIPT_DATA_ESCAPED_END_TAG_NAME)
|| (s =? State.SCRIPT_DATA_DOUBLE_ESCAPE_START)
|| (s =? State.SCRIPT_DATA_DOUBLE_ESCAPE_END)
|| (s =? State.MARKUP_DECLARATION_OPEN)
|| (s =? State.AFTER_DOCTYPE_NAME)
|| (s =? State.CHARACTER_REFERENCE)
|| (s =? State.NAMED_CHARACTER_REFERENCE).

(** At the start of a state method called with the code point [cp], the one
    code point consumed in this round of the loop: no read hit the end of the
    buffer, and the cursor is on [cp]. *)
Definition AtEntry (cp : Z) (t : Tokenizer) : Prop :=
flagged t = false
/\ Preprocessor.lastChunkWritten (preprocessor t) = false
/\ active t = true
/\ consumedAfterSnapshot t = 1
/\ 0 <= Preprocessor.pos (preprocessor t) < Preprocessor.len (preprocessor t)
/\ Preprocessor.charAt (preprocessor t) (Preprocessor.pos (preprocessor t)) = cp
/\ isReturnState (returnState t) = true.

(** The mark of a read past the end of the buffer. *)
Definition marked (t : Tokenizer) : Tokenizer :=
set_preprocessor (Preprocessor.hitEnd (preprocessor t)) t.

(** What a state that looked past the end of a chunk that is not the last
    does: it steps back to where the loop read its code point and stops the
    loop, with no other effect; or it never saw the end. *)
Definition Hibernates (m : M unit) (t : Tokenizer) : Prop :=
m t = Ok tt (hibernated t) \/ flagged (final (m t)) = false.

(** The next [n] code points are in the buffer, and no read hit its end. *)
Definition Inside (n : Z) (t : Tokenizer) : Prop :=
Unflagged t
/\ Preprocessor.pos (preprocessor t) + n < Preprocessor.len (preprocessor t).

(** [t] is in the round of the loop that [t0] is in, and differs from it by
    what hibernation undoes: where the cursor is, and the mark. *)
Definition SameRound (t0 t : Tokenizer) : Prop := hibernated t = hibernated t0.

(** A round that can be run again if the end of the buffer was seen. *)
Definition Retriable (t0 t : Tokenizer) : Prop :=
returnState t = returnState t0 /\ (flagged t = true -> SameRound t0 t).

(** [t'] is [t] as far as the loop and the buffer go. *)
Definition Kept (t t' : Tokenizer) : Prop :=
preprocessor t' = preprocessor t
/\ consumedAfterSnapshot t' = consumedAfterSnapshot t
/\ active t' = active t /\ paused t' = paused t /\ inLoop t' = inLoop t
/\ returnState t' = returnState t.

Section Retrying.
Variable call : Z -> Z -> M unit.
Variable more : list Z.
Variable isLast : bool.
Variable carry : bool.

(** The state method [m], called with [cp] at the start of a round, does not
  see the end of the buffer; or it goes to sleep in a state from which the
  round, run again with [more] in the buffer, does what [m] does with [more]
  in the buffer. *)
Definition Retries (cp : Z) (m : M unit) (t : Tokenizer) : Prop :=
flagged (final (m t)) = false
\/ exists t',
   m t = Ok tt (hibernated t') /\ Kept t t'
   /\ state t' <> State.HEXADEMICAL_CHARACTER_REFERENCE_START
   /\ call (state t') cp (extended more isLast carry t')
      = m (extended more isLast carry t).

End Retrying.

(** The code the four end-tag-name states share, with the text state they
    fall back to; and the code of the two double-escape states, with the state
    they go to when [script] is ahead and the one they fall back to. *)
Definition endTagNameState (getTagID : jsstring -> Z) (call : Z -> Z -> M unit)
  (text cp : Z) : M unit :=
b <- handleSpecialEndTag getTagID cp ;;
if b then _emitChars (str "</") ;; setState text ;; call text cp else ret tt.

Definition doubleEscapeState (call : Z -> Z -> M unit) (found fallback cp : Z) : M unit :=
b <- scriptSequenceAhead ;;
if b then
  _emitCodePoint cp ;;
  repeatM (length SEQUENCES.SCRIPT) (c <- _consume ;; _emitCodePoint c) ;;
  setState found
else
  h <- _ensureHibernation ;;
  if negb h then setState fallback ;; call fallback cp else ret tt.

(** The states that read ahead and call no state that does. *)
Definition lookaheadStates : list Z :=
[ State.RCDATA_END_TAG_NAME; State.RAWTEXT_END_TAG_NAME; State.SCRIPT_DATA_END_TAG_NAME;
  State.SCRIPT_DATA_ESCAPED_END_TAG_NAME; State.SCRIPT_DATA_DOUBLE_ESCAPE_START;
  State.SCRIPT_DATA_DOUBLE_ESCAPE_END; State.NAMED_CHARACTER_REFERENCE ].

(** The tokenizer in a state method, one code point into its round. *)
Definition entered (t : Tokenizer) : Tokenizer :=
advancedBy 1 (set_consumedAfterSnapshot 0 t).

(** [h] is [s] put to sleep by the round it was about to run: the cursor and
    the buffer of [s] with the mark of the end, the loop left, and a state
    that steps two code points back only if [s] was in it. *)
Definition SleepsFrom (s h : Tokenizer) : Prop :=
active h = false
/\ preprocessor h
   = Preprocessor.mk (Preprocessor.html (preprocessor s)) (Preprocessor.pos (preprocessor s))
       (Preprocessor.lastChunkWritten (preprocessor s)) true
       (Preprocessor.skipNextNewLine (preprocessor s))
/\ paused h = paused s /\ inLoop h = inLoop s
/\ returnState h = returnState s
/\ (state h = State.HEXADEMICAL_CHARACTER_REFERENCE_START ->
    state s = State.HEXADEMICAL_CHARACTER_REFERENCE_START).

(** Asleep at the head of the loop, on the buffer [html]. *)
Definition Asleep (html : list Z) (skip : bool) (h : Tokenizer) : Prop :=
Running html skip h /\ active h = false
/\ isReturnState (returnState h) = true
/\ -1 <= Preprocessor.pos (preprocessor h) < Preprocessor.len (preprocessor h)
/\ (state h = State.HEXADEMICAL_CHARACTER_REFERENCE_START ->
    0 <= Preprocessor.pos (preprocessor h)).

(** Between two calls of [write], with more input to come: out of the loop,
    not paused, the cursor in the buffer or just before it, and no code point
    of the buffer below zero (where the end-of-file marker lives). *)
Definition AtRest (t : Tokenizer) : Prop :=
Preprocessor.lastChunkWritten (preprocessor t) = false
/\ paused t = false /\ inLoop t = false
/\ isReturnState (returnState t) = true
/\ -1 <= Preprocessor.pos (preprocessor t) < Preprocessor.len (preprocessor t)
/\ (state t = State.HEXADEMICAL_CHARACTER_REFERENCE_START ->
    0 <= Preprocessor.pos (preprocessor t))
/\ Forall (fun c => 0 <= c) (Preprocessor.html (preprocessor t)).

(** The tokenizer as [write] hands it to the loop. *)
Definition started (chunk : jsstring) (isLastChunk : bool) (t : Tokenizer) : Tokenizer :=
set_inLoop true
  (set_preprocessor (Preprocessor.write chunk isLastChunk (preprocessor t))
     (set_active true t)).

(** The calls of [write] that feed [chunks] and then [lastChunk], each with
    the bound [fuel] on its loop. *)
Definition chunked (fuel : nat) (chunks : list jsstring) (lastChunk : jsstring)
  (isLastChunk : bool) : list (nat * jsstring * bool) :=
map (fun c => (fuel, c, false)) chunks ++ [(fuel, lastChunk, isLastChunk)].

(** Where the cursor was when the loop took its snapshot: [consumedAfterSnapshot]
    code points behind where it is. *)
Definition snapshot (t : Tokenizer) : Z :=
Preprocessor.pos (preprocessor t) - consumedAfterSnapshot t.

(** ** The last chunk *)

Definition endsWithEOF (log : list Event) : Prop := exists l, log = l ++ [onEof].

(** The last chunk is in the buffer and the loop goes on; the loop is over
    and the end-of-file token was the last event. *)
Definition Feeding (t : Tokenizer) : Prop :=
Preprocessor.lastChunkWritten (preprocessor t) = true
/\ flagged t = false /\ paused t = false /\ active t = true.

Definition Ended (t : Tokenizer) : Prop :=
Preprocessor.lastChunkWritten (preprocessor t) = true
/\ flagged t = false /\ paused t = false /\ active t = false
/\ endsWithEOF (handlerLog t).

Definition FeedingOrEnded (t : Tokenizer) : Prop := Feeding t \/ Ended t.

(** From a tokenizer that is fed, [m] leaves one that is fed or has ended. *)
Definition Feeds {A : Type} (m : M A) : Prop :=
Triple Feeding m FeedingOrEnded FeedingOrEnded.
(** ** Pausing and resuming ([pause], [resume] of [tokenizer/index.js])

    The callback [writeCallback] of [resume], like that of [write], is the
    caller's and is left out. *)

(** [pause()]. *)
Definition pause : M unit := modify (set_paused true).

(** What a call of [resume] does: [throw new Error('Parser was already
    resumed')], or the rest of the method. *)
Inductive Resumption : Type :=
| AlreadyResumed
| Resumed (r : Res unit).

Section Api.
Variable getTagID : jsstring -> Z.
Variable isSurrogate : Z -> bool.
Variable isUndefinedCodePoint : Z -> bool.
Variable isControlCodePoint : Z -> bool.
Variable htmlDecodeTree : Z -> Z.
Variable determineBranch : (Z -> Z) -> Z -> Z -> Z -> Z.

(** [resume(writeCallback)], with the bound [fuel] on the loop it may run. *)
Definition resume (fuel : nat) (t : Tokenizer) : Resumption :=
if negb (paused t) then AlreadyResumed
else
Resumed
  ((modify (set_paused false) ;;
    t' <- get ;;
    (* Necessary for synchronous resume. *)
    if inLoop t' then ret tt
    else _runParsingLoop getTagID isSurrogate isUndefinedCodePoint isControlCodePoint
           htmlDecodeTree determineBranch fuel) t).

End Api.

(** The events of the text the tokenizer hands over in the PLAINTEXT state:
    characters of the three kinds, parse errors, the end of the input. *)
Definition isTextEvent (e : Event) : bool :=
match e with
| onCharacter _ | onNullCharacter _ | onWhitespaceCharacter _
| onParseError _ | onEof => true
| _ => false
end.

(** In the PLAINTEXT state, with a log that continues [log] by text events. *)
Definition Plaintext (log : list Event) (t : Tokenizer) : Prop :=
state t = State.PLAINTEXT
/\ exists events,
     handlerLog t = log ++ events /\ forallb isTextEvent events = true.

(** ** Text in the data state *)

(** The code points the data state hands over as they are, line breaks not
    being rewritten: anything but [<], [&], NUL, the end-of-file marker and
    the carriage return. *)
Definition isDataText (cp : Z) : bool :=
negb (cp =? CP.LESS_THAN_SIGN) && negb (cp =? CP.AMPERSAND) && negb (cp =? CP.NULL)
&& negb (cp =? CP.EOF) && negb (cp =? CP.CARRIAGE_RETURN).

(** The characters an event carries. *)
Definition textOf (e : Event) : jsstring :=
match e with
| onCharacter c | onNullCharacter c | onWhitespaceCharacter c => c
| _ => []
end.

Definition isCharacterEvent (e : Event) : bool :=
match e with
| onCharacter _ | onNullCharacter _ | onWhitespaceCharacter _ => true
| _ => false
end.

(** The characters of the pending character token. *)
Definition pendingText (t : Tokenizer) : jsstring :=
match currentCharacterToken t with Some ct => chars ct | None => [] end.

(** In the data state with the text [cs] as last chunk in the buffer, [k]
    code points of it read and handed over or pending, and nothing else
    handed over. *)
Definition ReadingText (cs : jsstring) (k : nat) (t : Tokenizer) : Prop :=
preprocessor t = Preprocessor.mk cs (Z.of_nat k - 1) true false false
/\ state t = State.DATA /\ active t = true /\ paused t = false
/\ match currentCharacterToken t with
   | Some ct => isCharacterKind (ch_type ct) = true
   | None => True
   end
/\ forallb isCharacterEvent (handlerLog t) = true
/\ flat_map textOf (handlerLog t) ++ pendingText t = firstn k cs.

(** ** NUL in a text state *)

(** The text states other than the data state. *)
Definition replacingStates : list Z :=
[State.RCDATA; State.RAWTEXT; State.SCRIPT_DATA; State.PLAINTEXT].

(** What a character of kind [kind] finds pending: the characters it is
    appended to, and the events by which a pending token of another kind is
    handed over first. *)
Definition keptFor (kind : TokenType) (t : Tokenizer) : jsstring :=
match currentCharacterToken t with
| Some ct => if TokenType_eqb (ch_type ct) kind then chars ct else []
| None => []
end.

Definition flushedFor (kind : TokenType) (t : Tokenizer) : list Event :=
match currentCharacterToken t with
| Some ct => if TokenType_eqb (ch_type ct) kind then [] else pendingCharacterEvents t
| None => []
end.

(** * Proof tools *)

(** Runs the monadic code of a goal down to its tests, leaving arithmetic,
    lists and the imported functions folded. *)
Ltac norm :=
  lazy beta iota zeta delta
    -[Z.add Z.sub Z.mul Z.gtb Z.geb Z.ltb Z.leb Z.eqb Z.of_nat Z.to_nat length app nth map
      firstn skipn jsstring_eqb Preprocessor.foldCase isWhitespace isAsciiLetter
      isAsciiAlphaNumeric isAsciiDigit isAsciiHexDigit isAsciiUpperHexDigit
      isAsciiLowerHexDigit isAsciiUpper Preprocessor.getError getTokenAttr updateNth
      Z.land Z.lnot Z.shiftr Nat.add repeatM].

Ltac split_cond c :=
  match c with
  | context [if ?d then _ else _] => split_cond d
  | _ => destruct c eqn:?
  end.

(** Case analysis on every test of the goal, innermost first. *)
Ltac split_ifs :=
  repeat match goal with
         | |- context [if ?c then _ else _] => split_cond c
         end.

(** Closes a goal whose context holds a test on constants with the wrong
    outcome. *)
Ltac absurd_test :=
  match goal with
  | H : _ = true |- _ => vm_compute in H; discriminate H
  | H : _ = false |- _ => vm_compute in H; discriminate H
  end.

(** As [norm], keeping the calls of [_advanceBy] and [emitCurrentTagToken]. *)
Ltac norm_calls :=
  lazy beta iota zeta delta
    -[Z.add Z.sub Z.mul Z.gtb Z.geb Z.ltb Z.leb Z.eqb Z.of_nat Z.to_nat length app nth map
      firstn skipn jsstring_eqb Preprocessor.foldCase isWhitespace isAsciiLetter
      isAsciiAlphaNumeric isAsciiDigit isAsciiHexDigit isAsciiUpperHexDigit
      isAsciiLowerHexDigit isAsciiUpper Preprocessor.getError getTokenAttr updateNth
      Z.land Z.lnot Z.shiftr Nat.add repeatM _advanceBy emitCurrentTagToken].

(** * Properties of the serializer *)

Section SerializerProperties.
Import Serializer.
Local Open Scope string_scope.

Variables NS_HTML NS_XML NS_XMLNS NS_XLINK : string.

Let serializeAttribute := serializeAttribute NS_XML NS_XMLNS NS_XLINK.
Let renderAttribute := renderAttribute NS_XML NS_XMLNS NS_XLINK.
Let serializeNode := serializeNode NS_HTML NS_XML NS_XMLNS NS_XLINK.

Lemma append_assoc (a b c : string) : (a ++ b) ++ c = a ++ b ++ c.
Proof. induction a as [|x a IH]; simpl; [reflexivity | now rewrite IH]. Qed.

Lemma append_nil_r (a : string) : a ++ EmptyString = a.
Proof. induction a as [|x a IH]; simpl; [reflexivity | now rewrite IH]. Qed.

Lemma serializeAttribute_appends (html : string) (attr : Attribute) :
serializeAttribute html attr = html ++ renderAttribute attr.
Proof.
unfold serializeAttribute, renderAttribute, Serializer.serializeAttribute,
  Serializer.renderAttribute, Serializer.qualifiedName.
destruct (namespace attr) as [[|c ns]|]; simpl;
  repeat match goal with
         | |- context [if ?b then _ else _] => destruct b; simpl
         end;
  repeat rewrite append_assoc; simpl; reflexivity.
Qed.

Lemma serializeAttributes_from (attrs : list Attribute) (html : string) :
fold_left serializeAttribute attrs html
= html ++ String.concat EmptyString (map renderAttribute attrs).
Proof.
revert html; induction attrs as [|a attrs IH]; intros html; simpl.
- now rewrite append_nil_r.
- rewrite IH, serializeAttribute_appends, append_assoc. f_equal.
  destruct attrs as [|b attrs]; simpl; [now rewrite append_nil_r | reflexivity].
Qed.

Lemma serializeAll_from (l : list Node) (html : string) :
(fix serializeAll (l : list Node) (html : string) : string :=
   match l with
   | [] => html
   | currentNode :: r => serializeAll r (html ++ serializeNode currentNode)
   end) l html
= fold_left (fun html currentNode => html ++ serializeNode currentNode) l html.
Proof. revert html; induction l as [|n l IH]; intros html; simpl; auto. Qed.

Lemma serializeNode_element (tn ns : string) attrs children content :
serializeNode (Element tn ns attrs children content)
= serializeElement NS_HTML NS_XML NS_XMLNS NS_XLINK (Element tn ns attrs children content).
Proof.
unfold serializeElement, serializeChildNodes, containerChildNodes.
unfold serializeNode at 1. cbn [Serializer.serializeNode].
do 4 f_equal.
destruct (isVoidElement NS_HTML (Element tn ns attrs children content)); [reflexivity|].
f_equal.
destruct ((tn =? "template")%string && (ns =? NS_HTML)%string);
  apply serializeAll_from.
Qed.

(** C10.  An element handed to [serializeOuter], or met by [serialize] among
  the children it walks, is written as its tag name followed by its
  attributes, and each attribute as a space, its qualified name, an equals
  sign and its value between double quotes; the value is copied as it is,
  whatever characters it holds. *)
Theorem attribute_values_serialized_verbatim :
forall (tn ns : string) (attrs : list Attribute) (children content : list Node),
  serializeAttributes NS_XML NS_XMLNS NS_XLINK attrs
  = String.concat EmptyString (map renderAttribute attrs)
  /\ (forall attr, renderAttribute attr
        = " " ++ qualifiedName NS_XML NS_XMLNS NS_XLINK attr
          ++ "=" ++ quote ++ value attr ++ quote)
  /\ serializeOuter NS_HTML NS_XML NS_XMLNS NS_XLINK (Element tn ns attrs children content)
     = "<" ++ tn ++ String.concat EmptyString (map renderAttribute attrs) ++ ">"
       ++ (if isVoidElement NS_HTML (Element tn ns attrs children content) then EmptyString
           else serializeChildNodes NS_HTML NS_XML NS_XMLNS NS_XLINK
                  (Element tn ns attrs children content) ++ "</" ++ tn ++ ">")
  /\ (forall parent childNodes,
        containerChildNodes NS_HTML parent = Some childNodes ->
        serializeChildNodes NS_HTML NS_XML NS_XMLNS NS_XLINK parent
        = fold_left (fun html child =>
                       html ++ serializeOuter NS_HTML NS_XML NS_XMLNS NS_XLINK child)
                    childNodes EmptyString)
  /\ (forall node,
        serialize NS_HTML NS_XML NS_XMLNS NS_XLINK node
        = if isVoidElement NS_HTML node then EmptyString
          else serializeChildNodes NS_HTML NS_XML NS_XMLNS NS_XLINK node).
Proof.
intros tn ns attrs children content.
assert (Hattrs : serializeAttributes NS_XML NS_XMLNS NS_XLINK attrs
                 = String.concat EmptyString (map renderAttribute attrs)).
{ unfold serializeAttributes. apply (serializeAttributes_from attrs EmptyString). }
repeat split.
- exact Hattrs.
- unfold serializeOuter. fold serializeNode.
  rewrite serializeNode_element. unfold serializeElement.
  now rewrite Hattrs.
- intros parent childNodes H. unfold serializeChildNodes. now rewrite H.
Qed.

End SerializerProperties.

(** * Properties of the tokenizer *)

Lemma Map_get_C1_none (c : Z) :
  inC1Table c = false -> Map_get C1_CONTROLS_REFERENCE_REPLACEMENTS c = None.
Proof.
  unfold inC1Table. intros H.
  destruct (Z_lt_dec c 0x80) as [Hlo|Hlo].
  - unfold C1_CONTROLS_REFERENCE_REPLACEMENTS, Map_get.
    repeat match goal with
           | |- context [?k =? c] =>
               let E := fresh in destruct (Z.eqb_spec k c) as [E|E]; [lia|]
           end.
    reflexivity.
  - destruct (Z_gt_dec c 0x9f) as [Hhi|Hhi].
    + unfold C1_CONTROLS_REFERENCE_REPLACEMENTS, Map_get.
      repeat match goal with
             | |- context [?k =? c] =>
                 let E := fresh in destruct (Z.eqb_spec k c) as [E|E]; [lia|]
             end.
      reflexivity.
    + assert (Hc : c = 0x81 \/ c = 0x8d \/ c = 0x8f \/ c = 0x90 \/ c = 0x9d).
      { rewrite !andb_false_iff, !negb_false_iff, !Z.leb_gt, !Z.eqb_eq in H. lia. }
      destruct Hc as [->|[->|[->|[->| ->]]]]; reflexivity.
Qed.

Lemma Map_get_C1_some (c : Z) :
  inC1Table c = true -> exists r, Map_get C1_CONTROLS_REFERENCE_REPLACEMENTS c = Some r.
Proof.
  unfold inC1Table. intros H.
  rewrite !andb_true_iff, !negb_true_iff, !Z.leb_le, !Z.eqb_neq in H.
  assert (Hc : c = 0x80 \/ c = 0x82 \/ c = 0x83 \/ c = 0x84 \/ c = 0x85 \/ c = 0x86
               \/ c = 0x87 \/ c = 0x88 \/ c = 0x89 \/ c = 0x8a \/ c = 0x8b \/ c = 0x8c
               \/ c = 0x8e \/ c = 0x91 \/ c = 0x92 \/ c = 0x93 \/ c = 0x94 \/ c = 0x95
               \/ c = 0x96 \/ c = 0x97 \/ c = 0x98 \/ c = 0x99 \/ c = 0x9a \/ c = 0x9b
               \/ c = 0x9c \/ c = 0x9e \/ c = 0x9f) by lia.
  repeat (destruct Hc as [->|Hc]; [eexists; reflexivity|]).
  subst c; eexists; reflexivity.
Qed.

Section NumericReferences.
Variables isSurrogate isUndefinedCodePoint isControlCodePoint : Z -> bool.

Local Abbreviation check :=
(checkCharRefCode isSurrogate isUndefinedCodePoint isControlCodePoint).


End NumericReferences.


(** ** Tag and attribute names *)

Section Names.
Variable getTagID : jsstring -> Z.

Lemma tagNameChar_tests (cp : Z) :
tagNameChar cp = true ->
isWhitespace cp = false /\ (cp =? CP.SOLIDUS) = false
/\ (cp =? CP.GREATER_THAN_SIGN) = false /\ (cp =? CP.NULL) = false
/\ (cp =? CP.EOF) = false.
Proof.
unfold tagNameChar. rewrite !andb_true_iff, !negb_true_iff. tauto.
Qed.

Lemma isAsciiUpper_tagNameChar (cp : Z) : isAsciiUpper cp = true -> tagNameChar cp = true.
Proof.
unfold isAsciiUpper, tagNameChar, isWhitespace, CP.LATIN_CAPITAL_A, CP.LATIN_CAPITAL_Z,
  CP.SPACE, CP.LINE_FEED, CP.TABULATION, CP.FORM_FEED, CP.SOLIDUS,
  CP.GREATER_THAN_SIGN, CP.NULL, CP.EOF.
rewrite andb_true_iff, Z.geb_le, Z.leb_le. intros [H1 H2].
repeat match goal with
       | |- context [cp =? ?k] => destruct (Z.eqb_spec cp k); [lia|]
       end.
reflexivity.
Qed.

Lemma emitCurrentTagToken_start (t : Tokenizer) (tk : TagToken nat) :
currentToken t = Some (TagTok tk) ->
tag_type tk = START_TAG ->
exists t',
  emitCurrentTagToken getTagID t = Ok tt t'
  /\ lastStartTagName t' = tagName tk
  /\ handlerLog t'
     = handlerLog t ++ pendingCharacterEvents t
       ++ [onStartTag (resolveAttrs t (set_tagID (getTagID (tagName tk)) tk))].
Proof.
intros Htk Hty.
unfold emitCurrentTagToken, theTag, bind, get. rewrite Htk. cbn [ret].
unfold prepareToken, _emitCurrentCharacterToken, pendingCharacterEvents, bind, get.
destruct (currentCharacterToken t) as [ct|] eqn:E.
- destruct (ch_type ct); cbn; rewrite ?Hty; cbn;
    eexists; (split; [reflexivity|]); (split; [reflexivity|]);
    cbn; rewrite <- ?app_assoc; reflexivity.
- cbn. rewrite Hty. cbn. eexists. split; [reflexivity|]. split; reflexivity.
Qed.

(** C1, as amended.  The tag-name state appends every code point other than
  white space, [/], [>], NUL and EOF to the name of the tag under
  construction exactly as it was read, an ASCII uppercase letter included;
  and when a start tag is emitted, [lastStartTagName] is that tag's name as
  stored and the handler receives the tag under that name. *)
Theorem tag_name_kept_as_written :
forall (cp : Z) (t : Tokenizer) (tk : TagToken nat),
  currentToken t = Some (TagTok tk) ->
  (tagNameChar cp = true ->
   _stateTagName getTagID cp t
   = Ok tt (set_currentToken
              (Some (TagTok (set_tagName (tagName tk ++ fromCodePoint cp) tk))) t))
  /\ (isAsciiUpper cp = true -> tagNameChar cp = true)
  /\ (tag_type tk = START_TAG ->
      exists t',
        _stateTagName getTagID CP.GREATER_THAN_SIGN t = Ok tt t'
        /\ lastStartTagName t' = tagName tk
        /\ handlerLog t'
           = handlerLog t ++ pendingCharacterEvents t
             ++ [onStartTag (resolveAttrs t (set_tagID (getTagID (tagName tk)) tk))]).
Proof.
intros cp t tk Htk. split; [|split].
- intros Hc. apply tagNameChar_tests in Hc as (H0 & H1 & H2 & H3 & H4).
  unfold _stateTagName. rewrite H0, H1, H2, H3, H4.
  unfold updTag, theTag, bind, get, modify, ret. now rewrite Htk.
- apply isAsciiUpper_tagNameChar.
- intros Hty.
  destruct (emitCurrentTagToken_start (set_state State.DATA t) tk Htk Hty)
    as (t' & Hrun & Hlast & Hlog).
  exists t'. split; [|split]; [|exact Hlast|exact Hlog].
  unfold _stateTagName. cbn [isWhitespace CP.GREATER_THAN_SIGN CP.SPACE CP.LINE_FEED
    CP.TABULATION CP.FORM_FEED CP.SOLIDUS Z.eqb orb Pos.eqb].
  unfold setState, bind, modify. exact Hrun.
Qed.

End Names.

(** The theorem at the letter [A] appended to an empty start tag. *)
Lemma tag_name_kept_as_written_witness :
  _stateTagName Example.getTagID 65
    (set_currentToken
       (Some (TagTok (mkTagToken START_TAG [] TAG_ID_UNKNOWN false false []))) newTokenizer)
  = Ok tt (set_currentToken
             (Some (TagTok (mkTagToken START_TAG [65] TAG_ID_UNKNOWN false false [])))
             newTokenizer).
Proof.
  destruct (tag_name_kept_as_written Example.getTagID 65
              (set_currentToken
                 (Some (TagTok (mkTagToken START_TAG [] TAG_ID_UNKNOWN false false [])))
                 newTokenizer)
              (mkTagToken START_TAG [] TAG_ID_UNKNOWN false false []) eq_refl)
    as (A & _).
  apply A. reflexivity.
Defined.

(** C1 as stated fails: the input [<A>] yields a start tag named [A], which is
    not its lowercased form. *)
Lemma tag_name_not_lowercased :
  Example.tokenize (str "<A>")
  = [onStartTag (mkTagToken START_TAG (str "A") TAG_ID_UNKNOWN false false []); onEof]
  /\ str "A" <> lowercased (str "A").
Proof. split; [vm_compute; reflexivity | vm_compute; discriminate]. Qed.

Lemma attrNameChar_tests (cp : Z) :
  attrNameChar cp = true ->
  isWhitespace cp = false /\ (cp =? CP.SOLIDUS) = false
  /\ (cp =? CP.GREATER_THAN_SIGN) = false /\ (cp =? CP.EOF) = false
  /\ (cp =? CP.EQUALS_SIGN) = false /\ (cp =? CP.QUOTATION_MARK) = false
  /\ (cp =? CP.APOSTROPHE) = false /\ (cp =? CP.LESS_THAN_SIGN) = false
  /\ (cp =? CP.NULL) = false.
Proof.
  unfold attrNameChar. rewrite !andb_true_iff, !negb_true_iff. tauto.
Qed.

Lemma isAsciiUpper_attrNameChar (cp : Z) : isAsciiUpper cp = true -> attrNameChar cp = true.
Proof.
  unfold isAsciiUpper, attrNameChar, isWhitespace, CP.LATIN_CAPITAL_A, CP.LATIN_CAPITAL_Z,
    CP.SPACE, CP.LINE_FEED, CP.TABULATION, CP.FORM_FEED, CP.SOLIDUS,
    CP.GREATER_THAN_SIGN, CP.NULL, CP.EOF, CP.EQUALS_SIGN, CP.QUOTATION_MARK,
    CP.APOSTROPHE, CP.LESS_THAN_SIGN.
  rewrite andb_true_iff, Z.geb_le, Z.leb_le. intros [H1 H2].
  repeat match goal with
         | |- context [cp =? ?k] => destruct (Z.eqb_spec cp k); [lia|]
         end.
  reflexivity.
Qed.

(** C9.  The attribute-name state appends every ordinary code point to the
    name of the current attribute exactly as it was read, an ASCII uppercase
    letter included (a double quote, an apostrophe and [<] are appended as read
    too, after an error); the names handed to the handler are therefore those of the input:
    [<a X=1>] yields one attribute, named [X]. *)
Theorem attribute_name_kept_as_written :
  forall (call : Call) (cp : Z) (t : Tokenizer),
    (attrNameChar cp = true ->
     _stateAttributeName call cp t = Ok tt (withAttrName (fromCodePoint cp) t))
    /\ (isAsciiUpper cp = true -> attrNameChar cp = true)
    /\ (cp = CP.QUOTATION_MARK \/ cp = CP.APOSTROPHE \/ cp = CP.LESS_THAN_SIGN ->
        _stateAttributeName call cp t
        = Ok tt (withAttrName (fromCodePoint cp)
                   (logged (onParseError
                              (Preprocessor.getError unexpectedCharacterInAttributeName
                                 (preprocessor t))) t)))
    /\ Example.tokenize (str "<a X=1>")
       = [onStartTag (mkTagToken START_TAG (str "a") TAG_ID_UNKNOWN false false
                        [mkAttr (str "X") (str "1")]);
          onEof].
Proof.
  intros call cp t. split; [|split; [|split]].
  - intros Hc. apply attrNameChar_tests in Hc as (H0 & H1 & H2 & H3 & H4 & H5 & H6 & H7 & H8).
    unfold _stateAttributeName. rewrite H0, H1, H2, H3, H4, H5, H6, H7, H8. reflexivity.
  - apply isAsciiUpper_attrNameChar.
  - intros [-> | [-> | ->]]; reflexivity.
  - vm_compute. reflexivity.
Qed.

(** The theorem at the letter [X] appended to a fresh attribute. *)
Lemma attribute_name_kept_as_written_witness :
  _stateAttributeName (fun _ _ => ret tt) 88 newTokenizer
  = Ok tt (withAttrName [88] newTokenizer).
Proof.
  destruct (attribute_name_kept_as_written (fun _ _ => ret tt) 88 newTokenizer) as (A & _).
  apply A. reflexivity.
Defined.

(** ** Duplicate attributes *)

Lemma jsstring_eqb_eq (a b : jsstring) : jsstring_eqb a b = true <-> a = b.
Proof.
  unfold jsstring_eqb. destruct (list_eq_dec Z.eq_dec a b); split; congruence.
Qed.

Lemma getTokenAttr_none (l : list Attr) (n : jsstring) :
  getTokenAttr l n = None <-> ~ In n (map name l).
Proof.
  induction l as [|a l IH]; simpl.
  - tauto.
  - destruct (getTokenAttr l n) as [v|].
    + split; [discriminate|]. intros H. exfalso.
      assert (Hn : ~ In n (map name l)) by tauto.
      apply IH in Hn. discriminate.
    + destruct (jsstring_eqb (name a) n) eqn:E.
      * apply jsstring_eqb_eq in E. split; [discriminate | intros H; exfalso; tauto].
      * split; [|reflexivity]. intros _ [H|H].
        -- apply jsstring_eqb_eq in H. congruence.
        -- now apply IH.
Qed.



(** ** End of file inside a construct *)

Section EndOfFile.
Variable getTagID : jsstring -> Z.
Variables isSurrogate isUndefinedCodePoint isControlCodePoint : Z -> bool.
Variable htmlDecodeTree : Z -> Z.
Variable determineBranch : (Z -> Z) -> Z -> Z -> Z -> Z.

Local Abbreviation callState :=
(_callState getTagID isSurrogate isUndefinedCodePoint isControlCodePoint
   htmlDecodeTree determineBranch).

(** Runs a state call on a tokenizer whose state number is known and reads the
  log off the result. *)
Ltac run_eof :=
eexists; split;
[ lazy beta iota zeta delta -[app Preprocessor.getError]; reflexivity
| split; [reflexivity
         | cbn [handlerLog]; repeat rewrite <- app_assoc; reflexivity] ].

Ltac each_state Hs tac :=
repeat (destruct Hs as [<-|Hs]; [tac|]); destruct Hs.

(** C3, as amended.  When EOF is consumed while a comment or a doctype is under
  construction, the tokenizer raises [eofInComment] or [eofInDoctype], hands
  over the pending characters and the partial token (a doctype with
  [forceQuirks] set), then the EOF token; in the DOCTYPE and
  BEFORE_DOCTYPE_NAME states the doctype handed over is a fresh one without
  a name.  In the bogus comment and bogus doctype states the token and EOF
  are handed over without an error.  While a tag is under construction, the
  tokenizer raises [eofInTag] and hands over the pending characters and EOF
  only: the partial tag is dropped (in the attribute-name state the pending
  attribute is first checked against the tag, which may raise
  [duplicateAttribute]). *)
Theorem eof_inside_construct :
forall t : Tokenizer,
  (forall data,
      In (state t) commentEofStates -> currentToken t = Some (CommentTok data) ->
      exists t', callState CP.EOF t = Ok tt t' /\ active t' = false
        /\ handlerLog t'
           = handlerLog t ++ [errorAt t eofInComment] ++ pendingCharacterEvents t
             ++ [onComment data; onEof])
  /\ (forall d,
      In (state t) doctypeEofStates -> currentToken t = Some (DoctypeTok d) ->
      exists t', callState CP.EOF t = Ok tt t' /\ active t' = false
        /\ handlerLog t'
           = handlerLog t ++ [errorAt t eofInDoctype] ++ pendingCharacterEvents t
             ++ [onDoctype (set_forceQuirks true d); onEof])
  /\ (In (state t) [State.DOCTYPE; State.BEFORE_DOCTYPE_NAME] ->
      exists t', callState CP.EOF t = Ok tt t' /\ active t' = false
        /\ handlerLog t'
           = handlerLog t ++ [errorAt t eofInDoctype] ++ pendingCharacterEvents t
             ++ [onDoctype (mkDoctypeToken None true None None); onEof])
  /\ (forall data,
      state t = State.BOGUS_COMMENT -> currentToken t = Some (CommentTok data) ->
      exists t', callState CP.EOF t = Ok tt t' /\ active t' = false
        /\ handlerLog t'
           = handlerLog t ++ pendingCharacterEvents t ++ [onComment data; onEof])
  /\ (forall d,
      state t = State.BOGUS_DOCTYPE -> currentToken t = Some (DoctypeTok d) ->
      exists t', callState CP.EOF t = Ok tt t' /\ active t' = false
        /\ handlerLog t'
           = handlerLog t ++ pendingCharacterEvents t ++ [onDoctype d; onEof])
  /\ (In (state t) tagEofStates ->
      exists t', callState CP.EOF t = Ok tt t' /\ active t' = false
        /\ handlerLog t'
           = handlerLog t ++ [errorAt t eofInTag] ++ pendingCharacterEvents t ++ [onEof])
  /\ (forall tk,
      state t = State.ATTRIBUTE_NAME -> currentToken t = Some (TagTok tk) ->
      exists t', callState CP.EOF t = Ok tt t' /\ active t' = false
        /\ handlerLog t'
           = handlerLog t
             ++ match getTokenAttr (attrsOf t tk) (name (attrAt t (currentAttr t))) with
                | Some _ => [errorAt t duplicateAttribute]
                | None => []
                end
             ++ [errorAt t eofInTag] ++ pendingCharacterEvents t ++ [onEof]).
Proof.
intros t. unfold _callState, bind, get, errorAt.
destruct t as [pa il ifn ls ac st rs crc cas cct ctk ao ca pp hl].
unfold state, currentToken, handlerLog at 2 4 6 8 10 12 14, preprocessor,
  pendingCharacterEvents, currentCharacterToken, attrsOf, attrAt, attrObjects,
  currentAttr.
repeat split.
- intros data Hs ->. unfold commentEofStates in Hs.
  each_state Hs ltac:(destruct cct as [[[] ch]|]; run_eof).
- intros d Hs ->. unfold doctypeEofStates in Hs.
  each_state Hs ltac:(destruct cct as [[[] ch]|]; run_eof).
- intros Hs. unfold State.DOCTYPE, State.BEFORE_DOCTYPE_NAME in Hs.
  each_state Hs ltac:(destruct cct as [[[] ch]|]; run_eof).
- intros data -> ->. destruct cct as [[[] ch]|]; run_eof.
- intros d -> ->. destruct cct as [[[] ch]|]; run_eof.
- intros Hs. unfold tagEofStates in Hs.
  each_state Hs ltac:(destruct cct as [[[] ch]|]; run_eof).
- intros tk -> ->.
  destruct (getTokenAttr (map (fun r => nth r ao (mkAttr [] [])) (attrs tk))
              (name (nth ca ao (mkAttr [] [])))) as [v|] eqn:E;
    destruct cct as [[[] ch]|];
    (eexists; split;
     [ lazy beta iota zeta delta -[app Preprocessor.getError getTokenAttr map nth];
       lazy beta iota zeta delta [attrs name jsstring] in E; rewrite E;
       lazy beta iota zeta delta -[app Preprocessor.getError getTokenAttr map nth];
       reflexivity
     | split; [reflexivity
              | cbn [handlerLog]; repeat rewrite <- app_assoc; reflexivity] ]).
Qed.

End EndOfFile.

(** The theorem at EOF met in the comment state, with the comment [x] under
    construction and the characters [a] pending: the error, the characters,
    the comment and EOF are handed over, in this order. *)
Lemma eof_inside_construct_witness :
  exists t',
    Example._callState CP.EOF
      (mkTokenizer false false false [] true State.COMMENT State.DATA (-1) 1
         (Some (mkCharacterToken CHARACTER (str "a"))) (Some (CommentTok (str "x")))
         [mkAttr [] []] 0%nat
         (Preprocessor.mk (str "a<!--x") 6 true false false) [])
    = Ok tt t'
    /\ active t' = false
    /\ handlerLog t'
       = [onParseError (mkParserError eofInComment 1 7 6); onCharacter (str "a");
          onComment (str "x"); onEof].
Proof.
  destruct (eof_inside_construct Example.getTagID Example.isSurrogate
              Example.isUndefinedCodePoint Example.isControlCodePoint
              Example.htmlDecodeTree Example.determineBranch
              (mkTokenizer false false false [] true State.COMMENT State.DATA (-1) 1
                 (Some (mkCharacterToken CHARACTER (str "a")))
                 (Some (CommentTok (str "x")))
                 [mkAttr [] []] 0%nat
                 (Preprocessor.mk (str "a<!--x") 6 true false false) []))
    as (A & _).
  destruct (A (str "x")) as (t' & H1 & H2 & H3).
  - vm_compute. tauto.
  - reflexivity.
  - exists t'. split; [exact H1|]. split; [exact H2|]. exact H3.
Defined.

(** C3 as stated fails for tags: at the end of the input [<a] the handler
    receives the [eofInTag] error and the EOF token, and no tag token. *)
Lemma eof_in_tag_drops_the_tag :
  Example.tokenize (str "<a") = [onParseError (mkParserError eofInTag 1 3 2); onEof]
  /\ (forall tk, ~ In (onStartTag tk) (Example.tokenize (str "<a")))
  /\ Example.tokenize (str "<!--x")
     = [onParseError (mkParserError eofInComment 1 6 5); onComment (str "x"); onEof].
Proof.
  split; [vm_compute; reflexivity|]. split; [|vm_compute; reflexivity].
  intros tk. vm_compute. intros [H|[H|[]]]; discriminate.
Qed.

(** ** The appropriate end tag *)

Lemma repeat_advance (n : nat) :
  forall t : Tokenizer,
    Preprocessor.pos (preprocessor t) + Z.of_nat n < Preprocessor.len (preprocessor t) ->
    repeatM n (preprocessor_advance ;; ret tt) t
    = Ok tt (set_preprocessor
               (Preprocessor.mk (Preprocessor.html (preprocessor t))
                  (Preprocessor.pos (preprocessor t) + Z.of_nat n)
                  (Preprocessor.lastChunkWritten (preprocessor t))
                  (Preprocessor.endOfChunkHit (preprocessor t))
                  (Preprocessor.skipNextNewLine (preprocessor t))) t).
Proof.
  induction n as [|n IH]; intros t Hlt.
  - destruct t as [pa il ifn ls ac st rs crc cas cct ctk ao ca [h ps la hit sk] hl].
    cbn. now rewrite Z.add_0_r.
  - rewrite Nat2Z.inj_succ in *.
    cbn [repeatM]. unfold bind at 1 2. unfold preprocessor_advance at 1.
    unfold Preprocessor.advance.
    destruct (Z.geb_spec (Preprocessor.pos (preprocessor t) + 1)
                (Preprocessor.len (preprocessor t))) as [Hge|Hnge]; [lia|].
    cbn [ret]. rewrite IH.
    + destruct t as [pa il ifn ls ac st rs crc cas cct ctk ao ca [h ps la hit sk] hl].
      unfold set_preprocessor, preprocessor, Preprocessor.html, Preprocessor.pos,
        Preprocessor.lastChunkWritten, Preprocessor.endOfChunkHit,
        Preprocessor.skipNextNewLine.
      cbn [paused inLoop inForeignNode lastStartTagName active state returnState
           charRefCode consumedAfterSnapshot currentCharacterToken currentToken
           attrObjects currentAttr handlerLog].
      replace (ps + 1 + Z.of_nat n) with (ps + Z.succ (Z.of_nat n)) by lia.
      reflexivity.
    + destruct t as [pa il ifn ls ac st rs crc cas cct ctk ao ca [h ps la hit sk] hl].
      unfold set_preprocessor, preprocessor, Preprocessor.len, Preprocessor.html,
        Preprocessor.pos in *. lia.
Qed.

Lemma _advanceBy_inside (n : nat) (t : Tokenizer) :
  Preprocessor.pos (preprocessor t) + Z.of_nat n < Preprocessor.len (preprocessor t) ->
  _advanceBy n t = Ok tt (advancedBy n t).
Proof.
  intros Hlt. unfold _advanceBy, bind, modify. rewrite repeat_advance.
  - destruct t as [pa il ifn ls ac st rs crc cas cct ctk ao ca [h ps la hit sk] hl].
    reflexivity.
  - destruct t as [pa il ifn ls ac st rs crc cas cct ctk ao ca [h ps la hit sk] hl].
    exact Hlt.
Qed.

Section AppropriateEndTag.
Variable getTagID : jsstring -> Z.
Variables isSurrogate isUndefinedCodePoint isControlCodePoint : Z -> bool.
Variable htmlDecodeTree : Z -> Z.
Variable determineBranch : (Z -> Z) -> Z -> Z -> Z -> Z.

Local Abbreviation callAt :=
(callStateAt getTagID isSurrogate isUndefinedCodePoint isControlCodePoint
   htmlDecodeTree determineBranch).

Lemma handleSpecialEndTag_mismatch (cp : Z) (t : Tokenizer) :
Preprocessor.endOfChunkHit (preprocessor t) = false ->
specialEndTagLookahead t = Mismatch ->
handleSpecialEndTag getTagID cp t = Ok true (withSpecialEndTag t).
Proof.
intros Hhit Hla.
destruct t as [pa il ifn ls ac st rs crc cas cct ctk ao ca [h ps la hit sk] hl].
cbn in Hhit. subst hit. revert Hla. norm_calls.
split_ifs; intros Hla; try discriminate Hla; try reflexivity; absurd_test.
Qed.

Lemma handleSpecialEndTag_needMoreInput (cp : Z) (t : Tokenizer) :
Preprocessor.endOfChunkHit (preprocessor t) = false ->
specialEndTagLookahead t = NeedMoreInput ->
handleSpecialEndTag getTagID cp t = Ok false (hibernated (withSpecialEndTag t)).
Proof.
intros Hhit Hla.
destruct t as [pa il ifn ls ac st rs crc cas cct ctk ao ca [h ps la hit sk] hl].
cbn in Hhit. subst hit. revert Hla. norm_calls.
split_ifs; intros Hla; try discriminate Hla;
  try (rewrite Z.sub_diag; reflexivity); absurd_test.
Qed.

Lemma handleSpecialEndTag_matched (cp c : Z) (t : Tokenizer) :
Preprocessor.endOfChunkHit (preprocessor t) = false ->
specialEndTagLookahead t = Matched c ->
handleSpecialEndTag getTagID cp t
= (if isWhitespace c then setState State.BEFORE_ATTRIBUTE_NAME ;; ret false
   else if c =? CP.SOLIDUS then setState State.SELF_CLOSING_START_TAG ;; ret false
   else emitCurrentTagToken getTagID ;; setState State.DATA ;; ret false)
    (advancedBy (length (lastStartTagName t))
       (set_currentToken (Some (TagTok (specialEndTag t))) t)).
Proof.
intros Hhit Hla.
assert (Hlt : Preprocessor.pos (preprocessor t)
              + Z.of_nat (length (lastStartTagName t))
              < Preprocessor.len (preprocessor t)).
{ revert Hla. unfold specialEndTagLookahead.
  destruct (_ >? _); [destruct (Preprocessor.lastChunkWritten _); discriminate|].
  destruct (negb _); [discriminate|].
  destruct (Z.geb_spec (Preprocessor.pos (preprocessor t)
                        + Z.of_nat (length (lastStartTagName t)))
              (Preprocessor.len (preprocessor t))) as [H|H];
    [destruct (Preprocessor.lastChunkWritten _); discriminate | intros _; exact H]. }
pose proof (_advanceBy_inside (length (lastStartTagName t))
              (set_currentToken (Some (TagTok (specialEndTag t))) t)) as Hadv.
destruct t as [pa il ifn ls ac st rs crc cas cct ctk ao ca [h ps la hit sk] hl].
cbn in Hhit. subst hit.
specialize (Hadv Hlt). revert Hla Hadv. clear Hlt. norm_calls.
split_ifs; intros Hla Hadv; try discriminate Hla;
  try (injection Hla as <-);
  repeat match goal with
         | H : ?x = true, H' : ?x = false |- _ => rewrite H in H'; discriminate H'
         end;
  try (rewrite Hadv; reflexivity); try absurd_test.
Qed.

Lemma emit_special_end_tag (t : Tokenizer) (n : nat) :
exists t',
  (emitCurrentTagToken getTagID ;; setState State.DATA ;; ret false)
    (advancedBy n (set_currentToken (Some (TagTok (specialEndTag t))) t))
  = Ok false t'
  /\ Preprocessor.pos (preprocessor t')
     = Preprocessor.pos (preprocessor t) + Z.of_nat n
  /\ state t' = State.DATA /\ currentToken t' = None
  /\ handlerLog t'
     = handlerLog t ++ pendingCharacterEvents t
       ++ [onEndTag (mkTagToken END_TAG (lastStartTagName t)
                       (getTagID (lastStartTagName t)) false false [])].
Proof.
destruct t as [pa il ifn ls ac st rs crc cas cct ctk ao ca [h ps la hit sk] hl].
destruct cct as [[[] ch]|];
  (eexists; split;
   [ lazy beta iota zeta delta -[app Z.add Z.of_nat length]; reflexivity
   | repeat split; cbn [handlerLog]; repeat rewrite <- app_assoc; reflexivity ]).
Qed.


End AppropriateEndTag.



(** ** Named character references *)

Lemma movedBy_movedBy (a b : Z) (t : Tokenizer) :
  movedBy a (movedBy b t) = movedBy (b + a) t.
Proof.
  destruct t as [pa il ifn ls ac st rs crc cas cct ctk ao ca [h ps la hit sk] hl].
  unfold movedBy. cbn. now rewrite <- !Z.add_assoc.
Qed.

Lemma movedBy_0 (t : Tokenizer) : movedBy 0 t = t.
Proof.
  destruct t as [pa il ifn ls ac st rs crc cas cct ctk ao ca [h ps la hit sk] hl].
  unfold movedBy. cbn. now rewrite !Z.add_0_r.
Qed.

Lemma ahead_inside (t : Tokenizer) (c : Z) (cs : list Z) :
  ahead t (c :: cs) ->
  Preprocessor.pos (preprocessor t) + 1 < Preprocessor.len (preprocessor t)
  /\ Preprocessor.charAt (preprocessor t) (Preprocessor.pos (preprocessor t) + 1) = c
  /\ ahead (movedBy 1 t) cs.
Proof.
  unfold ahead, Preprocessor.len, Preprocessor.charAt.
  destruct t as [pa il ifn ls ac st rs crc cas cct ctk ao ca [h ps la hit sk] hl].
  cbn [preprocessor Preprocessor.pos Preprocessor.html movedBy set_preprocessor
       set_consumedAfterSnapshot length].
  intros [Hf Hpos].
  remember (Z.to_nat (ps + 1)) as n eqn:Hn.
  assert (Hskip : skipn n h = c :: skipn (S n) h).
  { destruct (skipn n h) as [|y r] eqn:E; [discriminate Hf|].
    cbn in Hf. injection Hf as -> Hr.
    f_equal.
    replace (S n) with (1 + n)%nat by lia.
    rewrite <- skipn_skipn, E. reflexivity. }
  assert (Hlen : (n < length h)%nat).
  { destruct (Nat.lt_ge_cases n (length h)) as [H|H]; [exact H|].
    rewrite skipn_all2 in Hskip by exact H. discriminate Hskip. }
  split; [lia|]. split.
  - rewrite <- (firstn_skipn n h) at 1. rewrite app_nth2; rewrite length_firstn;
      [|lia]. replace (n - Nat.min n (length h))%nat with 0%nat by lia.
    now rewrite Hskip.
  - split; [|lia].
    replace (Z.to_nat (ps + 1 + 1)) with (S n) by lia.
    rewrite Hskip in Hf. cbn in Hf. now injection Hf.
Qed.

Lemma _consume_inside (t : Tokenizer) (c : Z) (cs : list Z) :
  ahead t (c :: cs) -> _consume t = Ok c (movedBy 1 t).
Proof.
  intros H. apply ahead_inside in H as (Hlt & Hc & _).
  unfold _consume, bind, modify, preprocessor_advance, Preprocessor.advance.
  destruct t as [pa il ifn ls ac st rs crc cas cct ctk ao ca [h ps la hit sk] hl].
  cbn [preprocessor set_consumedAfterSnapshot Preprocessor.pos Preprocessor.len
       Preprocessor.html] in *.
  destruct (Z.geb_spec (ps + 1) (Preprocessor.len (Preprocessor.mk h ps la hit sk)))
    as [Hge|_]; [unfold Preprocessor.len in *; cbn in *; lia|].
  unfold Preprocessor.charAt in *. cbn [Preprocessor.html] in *. rewrite Hc.
  reflexivity.
Qed.

Lemma peek_inside (t : Tokenizer) (c : Z) (cs : list Z) :
  ahead t (c :: cs) -> preprocessor_peek 1 t = Ok c t.
Proof.
  intros H. apply ahead_inside in H as (Hlt & Hc & _).
  unfold preprocessor_peek, Preprocessor.peek.
  destruct t as [pa il ifn ls ac st rs crc cas cct ctk ao ca [h ps la hit sk] hl].
  cbn [preprocessor Preprocessor.pos Preprocessor.len Preprocessor.html] in *.
  destruct (Z.geb_spec (ps + 1) (Preprocessor.len (Preprocessor.mk h ps la hit sk)))
    as [Hge|_]; [unfold Preprocessor.len in *; cbn in *; lia|].
  unfold Preprocessor.charAt in *. cbn [Preprocessor.html] in *. rewrite Hc.
  reflexivity.
Qed.

Lemma ahead_prefix (t : Tokenizer) (a b : list Z) : ahead t (a ++ b) -> ahead t a.
Proof.
  unfold ahead. intros [H Hpos]. split; [|exact Hpos].
  apply (f_equal (firstn (length a))) in H.
  rewrite firstn_firstn, length_app in H.
  replace (Nat.min (length a) (length a + length b)) with (length a) in H by lia.
  rewrite H, firstn_app, firstn_all, Nat.sub_diag. cbn. now rewrite app_nil_r.
Qed.

Lemma ahead_moved (a : list Z) :
  forall (t : Tokenizer) (b : list Z),
    ahead t (a ++ b) -> ahead (movedBy (Z.of_nat (length a)) t) b.
Proof.
  induction a as [|c a IH]; intros t b H.
  - cbn. now rewrite movedBy_0.
  - cbn [app] in H. apply ahead_inside in H as (_ & _ & H).
    apply IH in H. rewrite movedBy_movedBy in H.
    replace (Z.of_nat (length (c :: a))) with (1 + Z.of_nat (length a))
      by (cbn [length]; lia).
    exact H.
Qed.

Lemma ahead_length (t : Tokenizer) (c : Z) (cs : list Z) :
  ahead t (c :: cs) ->
  Preprocessor.pos (preprocessor t) + 1 + Z.of_nat (length (c :: cs))
  <= Preprocessor.len (preprocessor t).
Proof.
  unfold ahead, Preprocessor.len. intros [H Hpos].
  apply (f_equal (@length Z)) in H. rewrite length_firstn, length_skipn in H.
  cbn [length] in *. lia.
Qed.

Lemma logged_movedBy (e : Event) (k : Z) (t : Tokenizer) :
  logged e (movedBy k t) = movedBy k (logged e t).
Proof. destruct t as [? ? ? ? ? ? ? ? ? ? ? ? ? [] ?]. reflexivity. Qed.

Lemma _err_logged (c : ERR) (t : Tokenizer) :
  _err c t = Ok tt (logged (onParseError (Preprocessor.getError c (preprocessor t))) t).
Proof. reflexivity. Qed.

Section NamedReferences.
Variable htmlDecodeTree : Z -> Z.
Variable determineBranch : (Z -> Z) -> Z -> Z -> Z -> Z.

Local Abbreviation loop := (matchLoop htmlDecodeTree determineBranch).
Local Abbreviation walk := (descend htmlDecodeTree determineBranch).

(** The loop follows the walk: along code points that lead to nodes without
  value it only consumes, counting them in [excess]. *)
Lemma matchLoop_descend (init : list Z) :
forall (fuel : nat) (i current cp next : Z) (result : option (list Z)) (excess : Z)
       (withoutSemicolon : bool) (t : Tokenizer) (i' current' : Z),
  walk i current (cp :: init) = Some (i', current') ->
  ahead t (init ++ [next]) ->
  loop (S (length init) + fuel) i current cp result excess withoutSemicolon t
  = loop fuel i' current' next result (excess + Z.of_nat (S (length init)))
      withoutSemicolon (movedBy (Z.of_nat (S (length init))) t).
Proof.
induction init as [|c init IH];
  intros fuel i current cp next result excess ws t i' current' Hwalk Hahead.
- cbn [descend] in Hwalk. cbn [length Nat.add matchLoop].
  destruct (determineBranch htmlDecodeTree current (i + 1) cp <? 0); [discriminate|].
  destruct (Z.land (htmlDecodeTree (determineBranch htmlDecodeTree current (i + 1) cp))
              VALUE_LENGTH =? 0); [|discriminate].
  cbn [descend] in Hwalk. injection Hwalk as <- <-.
  unfold bind at 1. now rewrite (_consume_inside t next [] Hahead).
- cbn [descend] in Hwalk.
  change (S (length (c :: init)) + fuel)%nat with (S (S (length init) + fuel)).
  cbn [matchLoop].
  destruct (determineBranch htmlDecodeTree current (i + 1) cp <? 0); [discriminate|].
  destruct (Z.land (htmlDecodeTree (determineBranch htmlDecodeTree current (i + 1) cp))
              VALUE_LENGTH =? 0); [|discriminate].
  unfold bind at 1. rewrite (_consume_inside t c (init ++ [next]) Hahead).
  apply ahead_inside in Hahead as (_ & _ & Hahead).
  rewrite (IH fuel _ _ c next result (excess + 1) ws (movedBy 1 t) i' current' Hwalk Hahead).
  rewrite movedBy_movedBy. f_equal; [|f_equal]; cbn [length]; lia.
Qed.

Lemma _unconsume_movedBy (count : Z) (t : Tokenizer) :
_unconsume count t = Ok tt (movedBy (- count) t).
Proof.
destruct t as [pa il ifn ls ac st rs crc cas cct ctk ao ca [h ps la hit sk] hl].
unfold _unconsume, modify, movedBy, Preprocessor.retreat. cbn.
now rewrite !Z.add_opp_r.
Qed.

(** The round of the loop that reaches a node with a value, and what is left
  of the loop after it. *)
Lemma matchLoop_value (fuel : nat) (i current cl x j : Z) (result : option (list Z))
  (excess : Z) (withoutSemicolon : bool) (t : Tokenizer) (rest : list Z) :
j = determineBranch htmlDecodeTree current (i + 1) cl ->
0 <= j ->
Z.land (htmlDecodeTree j) VALUE_LENGTH <> 0 ->
(valueLengthAt htmlDecodeTree j <> 0 ->
 determineBranch htmlDecodeTree (htmlDecodeTree j)
   (j + valueLengthAt htmlDecodeTree j + 1) x < 0) ->
ahead t (x :: rest) ->
loop (S (S fuel)) i current cl result excess withoutSemicolon t
= if negb (cl =? CP.SEMICOLON) && inAttributeValue t && isEntityInAttributeInvalidEnd x
  then Ok (Some [CP.AMPERSAND], excess + 1, withoutSemicolon) (movedBy 1 t)
  else Ok (Some (valueAt htmlDecodeTree j), 0, negb (cl =? CP.SEMICOLON)) (movedBy 1 t).
Proof.
intros Hj Hpos Hval Hend Hahead.
cbn [matchLoop]. rewrite <- Hj.
destruct (Z.ltb_spec j 0) as [Hneg|_]; [lia|].
destruct (Z.eqb_spec (Z.land (htmlDecodeTree j) VALUE_LENGTH) 0) as [Hz|_];
  [contradiction|].
unfold valueAt, valueLengthAt in *.
set (vl := Z.shiftr (Z.land (htmlDecodeTree j) VALUE_LENGTH) 14 - 1) in *.
unfold bind at 1.
assert (Hin : (if negb (cl =? CP.SEMICOLON)
               then _isCharacterReferenceInAttribute else ret false) t
              = Ok (negb (cl =? CP.SEMICOLON) && inAttributeValue t) t).
{ destruct (cl =? CP.SEMICOLON); reflexivity. }
rewrite Hin. unfold bind at 1.
assert (Hpk : (if negb (cl =? CP.SEMICOLON) && inAttributeValue t
               then n <- preprocessor_peek 1 ;; ret (isEntityInAttributeInvalidEnd n)
               else ret false) t
              = Ok (negb (cl =? CP.SEMICOLON) && inAttributeValue t
                    && isEntityInAttributeInvalidEnd x) t).
{ destruct (negb (cl =? CP.SEMICOLON) && inAttributeValue t); [|reflexivity].
  unfold bind. now rewrite (peek_inside t x rest Hahead). }
rewrite Hpk.
destruct (negb (cl =? CP.SEMICOLON) && inAttributeValue t
          && isEntityInAttributeInvalidEnd x);
  (destruct (Z.eqb_spec vl 0) as [Hvl|Hvl];
   [ unfold bind; rewrite (_consume_inside t x rest Hahead); reflexivity
   | unfold bind at 1; rewrite (_consume_inside t x rest Hahead);
     cbn [matchLoop];
     destruct (Z.ltb_spec
                 (determineBranch htmlDecodeTree (htmlDecodeTree j) (j + vl + 1) x) 0)
       as [_|Hge]; [reflexivity | specialize (Hend Hvl); lia] ]).
Qed.

Local Abbreviation matchNamed :=
(_matchNamedCharacterReference htmlDecodeTree determineBranch).

(** The loop on a name [init ++ [cl]] that ends on a node with a value, the
  code point [x] after the name being in the buffer. *)
Lemma matchLoop_reference (t : Tokenizer) (init : list Z) (cl x j : Z) (rest : list Z)
  (fuel : nat) :
referenceEndsAt htmlDecodeTree determineBranch init cl x j ->
ahead t (tl (init ++ [cl]) ++ x :: rest) ->
loop (length init + S (S fuel)) 0 (htmlDecodeTree 0) (hd cl init) None 0 false t
= if negb (cl =? CP.SEMICOLON) && inAttributeValue t && isEntityInAttributeInvalidEnd x
  then Ok (Some [CP.AMPERSAND], Z.of_nat (length init) + 1, false)
         (movedBy (Z.of_nat (length init) + 1) t)
  else Ok (Some (valueAt htmlDecodeTree j), 0, negb (cl =? CP.SEMICOLON))
         (movedBy (Z.of_nat (length init) + 1) t).
Proof.
intros (i & current & Hwalk & Hj & Hpos & Hval & Hend) Hahead.
destruct init as [|c init].
- cbn [descend] in Hwalk. injection Hwalk as <- <-.
  cbn [app tl hd length Nat.add] in *.
  rewrite (matchLoop_value fuel 0 (htmlDecodeTree 0) cl x j None 0 false t rest
             Hj Hpos Hval Hend Hahead).
  reflexivity.
- cbn [app tl hd] in *.
  assert (Ha1 : ahead t (init ++ [cl])).
  { apply (ahead_prefix t (init ++ [cl]) (x :: rest)). exact Hahead. }
  assert (Ha2 : ahead (movedBy (Z.of_nat (S (length init))) t) (x :: rest)).
  { replace (S (length init)) with (length (init ++ [cl]))
      by (rewrite length_app; cbn [length]; lia).
    apply ahead_moved. exact Hahead. }
  change (length (c :: init) + S (S fuel))%nat
    with (S (length init) + S (S fuel))%nat.
  rewrite (matchLoop_descend init (S (S fuel)) 0 (htmlDecodeTree 0) c cl None 0 false
             t i current Hwalk Ha1).
  rewrite (matchLoop_value fuel i current cl x j None _ false _ rest
             Hj Hpos Hval Hend Ha2).
  assert (Hattr : inAttributeValue (movedBy (Z.of_nat (S (length init))) t)
                  = inAttributeValue t) by (destruct t; reflexivity).
  rewrite Hattr, movedBy_movedBy.
  replace (Z.of_nat (length (c :: init)) + 1) with (Z.of_nat (S (length init)) + 1)
    by reflexivity.
  replace (0 + Z.of_nat (S (length init)) + 1) with (Z.of_nat (S (length init)) + 1)
    by lia.
  reflexivity.
Qed.


End NamedReferences.

(** The walk of [amp] in the example trie ends on node 7, whose value [&] is
    in the next word; [=] does not continue it. *)
Lemma example_amp_ends (x : Z) :
  x <> CP.SEMICOLON ->
  referenceEndsAt Example.htmlDecodeTree Example.determineBranch (str "am") 112 x 7.
Proof.
  intros Hx. exists 6, 112.
  split; [reflexivity|]. split; [reflexivity|]. split; [lia|].
  split; [vm_compute; discriminate|].
  intros _. change (valueLengthAt Example.htmlDecodeTree 7) with 1.
  change (Example.htmlDecodeTree 7) with 32827.
  unfold Example.determineBranch.
  change (Z.shiftr (Z.land 32827 Example.BRANCH_LENGTH) 7) with 0.
  change (Z.land 32827 Example.JUMP_TABLE) with 59.
  cbn [Z.eqb negb andb].
  destruct (x =? 59) eqn:E; [apply Z.eqb_eq in E; contradiction|lia].
Qed.


(** * Coalescing of character tokens *)

Lemma tokenStream_snoc (log : list Event) (e : Event) :
  tokenStream (log ++ [e])
  = tokenStream log ++ (if isParseError e then [] else [e]).
Proof.
  unfold tokenStream. rewrite filter_app. cbn [filter].
  now destruct (isParseError e).
Qed.

Lemma lastKind_error (log : list Event) (e : Event) :
  isParseError e = true -> lastKind (log ++ [e]) = lastKind log.
Proof.
  intros H. unfold lastKind. now rewrite tokenStream_snoc, H, app_nil_r.
Qed.

Lemma lastKind_token (log : list Event) (e : Event) :
  isParseError e = false -> lastKind (log ++ [e]) = characterKind e.
Proof.
  intros H. unfold lastKind. now rewrite tokenStream_snoc, H, last_last.
Qed.

Lemma Coalesced_snoc (l : list Event) (e : Event) :
  Coalesced l ->
  (forall k, characterKind (last l onEof) = Some k -> characterKind e <> Some k) ->
  Coalesced (l ++ [e]).
Proof.
  intros Hl He l1 l2 a b k Heq Ha.
  destruct (exists_last (l := a :: b :: l2)) as (m & z & Hm); [discriminate|].
  rewrite Hm, app_assoc in Heq. apply app_inj_tail in Heq as [-> ->].
  destruct l2 as [|c l2].
  - change [a; b] with ([a] ++ [b]) in Hm. apply app_inj_tail in Hm as [<- <-].
    apply He. now rewrite last_last.
  - destruct (exists_last (l := b :: c :: l2)) as (m' & z' & Hm'); [discriminate|].
    rewrite Hm' in Hm. change (a :: m' ++ [z']) with ((a :: m') ++ [z']) in Hm.
    apply app_inj_tail in Hm as [<- <-].
    destruct m' as [|b' m'].
    + destruct l2; discriminate Hm'.
    + injection Hm' as <- Hm'.
      apply (Hl l1 m' a b k); [reflexivity|exact Ha].
Qed.

Lemma Coalesced_coalesced (l : list Event) : coalesced l = true -> Coalesced l.
Proof.
  induction l as [|x l IH]; intros H l1 l2 a b k Heq Ha Hb.
  - destruct l1; discriminate Heq.
  - destruct l as [|y l]; [destruct l1 as [|? [|? ?]]; discriminate Heq|].
    cbn [coalesced] in H. apply andb_true_iff in H as [H1 H2].
    destruct l1 as [|x' l1].
    + injection Heq as -> -> _. rewrite Ha, Hb in H1.
      now destruct k.
    + injection Heq as _ Heq. exact (IH H2 l1 l2 a b k Heq Ha Hb).
Qed.

Lemma coalesced_Coalesced (l : list Event) : Coalesced l -> coalesced l = true.
Proof.
  induction l as [|x l IH]; intros H; [reflexivity|].
  destruct l as [|y l]; [reflexivity|].
  cbn [coalesced]. apply andb_true_iff. split.
  - destruct (characterKind x) as [k1|] eqn:Ex; [|reflexivity].
    destruct (characterKind y) as [k2|] eqn:Ey; [|reflexivity].
    pose proof (H [] l x y k1 eq_refl Ex) as Hne. rewrite Ey in Hne.
    destruct k1, k2; try reflexivity; now elim Hne.
  - apply IH. intros l1 l2 a b k Heq. apply (H (x :: l1) l2 a b k). now rewrite Heq.
Qed.

(** [Coalescing] reads the handler's log and the pending character token only. *)
Lemma Coalescing_frame (t t' : Tokenizer) :
  handlerLog t' = handlerLog t ->
  currentCharacterToken t' = currentCharacterToken t ->
  Coalescing t -> Coalescing t'.
Proof. unfold Coalescing. now intros -> ->. Qed.

(** ** Rules for [Triple] and [Preserves] *)

Lemma triple_bind {A B} (P Q R E : Tokenizer -> Prop) (m : M A) (k : A -> M B) :
  Triple P m Q E -> (forall a, Triple Q (k a) R E) -> Triple P (bind m k) R E.
Proof.
  intros Hm Hk t H. specialize (Hm t H). unfold bind.
  destruct (m t) as [a t'|e t']; [exact (Hk a t' Hm)|exact Hm].
Qed.

Lemma triple_ret {A} (P E : Tokenizer -> Prop) (a : A) : Triple P (ret a) P E.
Proof. intros t H. exact H. Qed.

Lemma triple_get (P E : Tokenizer -> Prop) : Triple P get P E.
Proof. intros t H. exact H. Qed.

Lemma triple_modify (P Q E : Tokenizer -> Prop) (f : Tokenizer -> Tokenizer) :
  (forall t, P t -> Q (f t)) -> Triple P (modify f) Q E.
Proof. intros Hf t H. exact (Hf t H). Qed.

Lemma triple_final {A} (I : Tokenizer -> Prop) (m : M A) (t : Tokenizer) :
  Preserves I m -> I t -> I (final (m t)).
Proof. intros Hm H. specialize (Hm t H). now destruct (m t). Qed.

Lemma preserves_ret (I : Tokenizer -> Prop) {A} (a : A) : Preserves I (ret a).
Proof. apply triple_ret. Qed.

Lemma preserves_throw (I : Tokenizer -> Prop) {A} (e : Exn) : Preserves I (@throw A e).
Proof. intros t H. exact H. Qed.

Lemma preserves_get (I : Tokenizer -> Prop) : Preserves I get.
Proof. apply triple_get. Qed.

Lemma preserves_bind (I : Tokenizer -> Prop) {A B} (m : M A) (k : A -> M B) :
  Preserves I m -> (forall a, Preserves I (k a)) -> Preserves I (bind m k).
Proof. apply triple_bind. Qed.

Lemma preserves_modify (f : Tokenizer -> Tokenizer) :
  (forall t, handlerLog (f t) = handlerLog t
             /\ currentCharacterToken (f t) = currentCharacterToken t) ->
  Preserves Coalescing (modify f).
Proof.
  intros Hf. apply triple_modify. intros t H.
  destruct (Hf t) as [H1 H2]. exact (Coalescing_frame t (f t) H1 H2 H).
Qed.

Lemma preserves_repeatM (I : Tokenizer -> Prop) (n : nat) (m : M unit) :
  Preserves I m -> Preserves I (repeatM n m).
Proof.
  intros Hm. induction n as [|n IH]; [apply preserves_ret|].
  cbn [repeatM]. apply preserves_bind; [exact Hm|intros _; exact IH].
Qed.

(** ** The methods that deliver events *)

Lemma err_Coalescing (c : ERR) : Preserves Coalescing (_err c).
Proof.
  intros t [H1 H2]. unfold _err, emit, bind, get, modify.
  split.
  - destruct t; cbn -[tokenStream lastKind] in *. now rewrite tokenStream_snoc, app_nil_r.
  - destruct t; cbn -[tokenStream lastKind] in *. now rewrite lastKind_error.
Qed.

Lemma err_Flushed (c : ERR) (E : Tokenizer -> Prop) : Triple Flushed (_err c) Flushed E.
Proof.
  intros t [H1 H2]. unfold _err, emit, bind, get, modify.
  split.
  - destruct t; cbn -[tokenStream lastKind] in *. now rewrite tokenStream_snoc, app_nil_r.
  - destruct t; cbn -[tokenStream lastKind] in *. exact H2.
Qed.

Lemma modify_Flushed (E : Tokenizer -> Prop) (f : Tokenizer -> Tokenizer) :
  (forall t, handlerLog (f t) = handlerLog t
             /\ currentCharacterToken (f t) = currentCharacterToken t) ->
  Triple Flushed (modify f) Flushed E.
Proof.
  intros Hf. apply triple_modify. intros t [H1 H2]. destruct (Hf t) as [E1 E2].
  unfold Flushed. now rewrite E1, E2.
Qed.

(** Delivering the pending character token keeps the stream coalesced. *)
Lemma emitCurrentCharacterToken_Flushed (E : Tokenizer -> Prop) :
  Triple Coalescing _emitCurrentCharacterToken Flushed E.
Proof.
  intros t [H1 H2]. unfold _emitCurrentCharacterToken, emit, bind, get, modify, ret.
  destruct t as [? ? ? ? ? ? ? ? ? [ct|] ? ? ? ? log]; cbn -[tokenStream lastKind] in *.
  - destruct H2 as [Hk Hlast].
    destruct ct as [k chars]; cbn -[tokenStream lastKind] in *.
    destruct k; try discriminate Hk; unfold Flushed; cbn -[tokenStream lastKind];
      (split; [|reflexivity]);
      rewrite tokenStream_snoc; cbn [isParseError];
      (apply Coalesced_snoc; [exact H1|]);
      intros k Hk' Hc; injection Hc as <-; exact (Hlast Hk').
  - split; [exact H1|reflexivity].
Qed.

(** A token that is not a character token, delivered after the flush. *)
Lemma emit_token_Coalescing (E : Tokenizer -> Prop) (e : Event) :
  characterKind e = None -> isParseError e = false ->
  Triple Flushed (emit e) Coalescing E.
Proof.
  intros He Hp. apply triple_modify. intros t [H1 H2].
  unfold Coalescing. destruct t; cbn -[tokenStream lastKind] in *. rewrite H2. split.
  - rewrite tokenStream_snoc, Hp. apply Coalesced_snoc; [exact H1|].
    intros k _. rewrite He. discriminate.
  - now rewrite lastKind_token.
Qed.

Lemma TokenType_eqb_eq (a b : TokenType) : TokenType_eqb a b = true <-> a = b.
Proof. destruct a, b; cbn; split; intros H; try reflexivity; discriminate H. Qed.

Lemma appendChar_Coalescing (type : TokenType) (ch : jsstring) :
  isCharacterKind type = true ->
  Preserves Coalescing (_appendCharToCurrentCharacterToken type ch).
Proof.
  intros Htype t H. unfold _appendCharToCurrentCharacterToken.
  unfold bind at 1. unfold get at 1.
  destruct (currentCharacterToken t) as [ct|] eqn:Ect.
  - destruct (TokenType_eqb (ch_type ct) type) eqn:Ek; cbn [negb].
    + (* the same kind: the pending token grows *)
      destruct H as [H1 H2]. rewrite Ect in H2.
      unfold modify, Coalescing.
      destruct t; cbn -[tokenStream lastKind] in *. split; [exact H1|exact H2].
    + (* another kind: the pending token is delivered, a new one started *)
      pose proof (emitCurrentCharacterToken_Flushed (fun _ => False) t H) as Hf.
      assert (Hlast : lastKind (handlerLog (final (_emitCurrentCharacterToken t)))
                      = Some (ch_type ct)).
      { destruct H as [_ H2]. rewrite Ect in H2. destruct H2 as [Hk _].
        unfold _emitCurrentCharacterToken, emit, bind, get, modify, ret.
        rewrite Ect. destruct ct as [k chars]. cbn [ch_type] in *.
        destruct t; destruct k; try discriminate Hk;
          cbn -[tokenStream lastKind]; now rewrite lastKind_token. }
      unfold bind. destruct (_emitCurrentCharacterToken t) as [[] t1|e t1];
        [|contradiction].
      cbn [final] in Hlast. destruct Hf as [Hf1 Hf2].
      unfold preprocessor_dropParsedChunk, _createCharacterToken, modify.
      unfold Coalescing. destruct t1; cbn -[tokenStream lastKind] in *.
      split; [exact Hf1|]. split; [exact Htype|].
      rewrite Hlast. intros Heq. injection Heq as Heq.
      apply TokenType_eqb_eq in Heq. congruence.
  - destruct H as [H1 H2]. rewrite Ect in H2.
    unfold _createCharacterToken, modify, Coalescing.
    destruct t; cbn -[tokenStream lastKind] in *. split; [exact H1|].
    split; [exact Htype|]. rewrite H2. discriminate.
Qed.

Lemma emitCodePoint_Coalescing (cp : Z) : Preserves Coalescing (_emitCodePoint cp).
Proof.
  unfold _emitCodePoint. apply appendChar_Coalescing.
  destruct (isWhitespace cp); [reflexivity|]. now destruct (cp =? CODE_POINTS.NULL).
Qed.

Lemma emitChars_Coalescing (ch : jsstring) : Preserves Coalescing (_emitChars ch).
Proof. unfold _emitChars. now apply appendChar_Coalescing. Qed.

Lemma dropParsedChunk_Coalescing : Preserves Coalescing preprocessor_dropParsedChunk.
Proof. apply preserves_modify. intros []; split; reflexivity. Qed.

Lemma prepareToken_Flushed (E : Tokenizer -> Prop) :
  Triple Coalescing prepareToken Flushed E.
Proof.
  unfold prepareToken.
  apply (triple_bind _ Flushed); [apply emitCurrentCharacterToken_Flushed|intros _].
  apply modify_Flushed. intros []; split; reflexivity.
Qed.

Lemma theTag_Coalescing : Preserves Coalescing theTag.
Proof.
  intros t H. unfold theTag, bind, get.
  destruct (currentToken t) as [[| |]|]; exact H.
Qed.

Lemma theComment_Coalescing : Preserves Coalescing theComment.
Proof.
  intros t H. unfold theComment, bind, get.
  destruct (currentToken t) as [[| |]|]; exact H.
Qed.

Lemma theDoctype_Coalescing : Preserves Coalescing theDoctype.
Proof.
  intros t H. unfold theDoctype, bind, get.
  destruct (currentToken t) as [[| |]|]; exact H.
Qed.

Lemma emitCurrentComment_Coalescing : Preserves Coalescing emitCurrentComment.
Proof.
  unfold emitCurrentComment.
  apply preserves_bind; [apply theComment_Coalescing|intros d].
  apply (triple_bind _ Flushed); [apply prepareToken_Flushed|intros _].
  apply (triple_bind _ Coalescing); [now apply emit_token_Coalescing|intros _].
  apply dropParsedChunk_Coalescing.
Qed.

Lemma emitCurrentDoctype_Coalescing : Preserves Coalescing emitCurrentDoctype.
Proof.
  unfold emitCurrentDoctype.
  apply preserves_bind; [apply theDoctype_Coalescing|intros d].
  apply (triple_bind _ Flushed); [apply prepareToken_Flushed|intros _].
  apply (triple_bind _ Coalescing); [now apply emit_token_Coalescing|intros _].
  apply dropParsedChunk_Coalescing.
Qed.

Lemma emitEOFToken_Coalescing : Preserves Coalescing _emitEOFToken.
Proof.
  unfold _emitEOFToken.
  apply (triple_bind _ Flushed); [apply emitCurrentCharacterToken_Flushed|intros _].
  apply (triple_bind _ Coalescing); [now apply emit_token_Coalescing|intros _].
  apply preserves_modify. intros []; split; reflexivity.
Qed.

Lemma emitCurrentTagToken_Coalescing (getTagID : jsstring -> Z) :
  Preserves Coalescing (emitCurrentTagToken getTagID).
Proof.
  unfold emitCurrentTagToken.
  apply preserves_bind; [apply theTag_Coalescing|intros tk].
  apply (triple_bind _ Flushed); [apply prepareToken_Flushed|intros _].
  cbv zeta.
  apply (triple_bind _ Flushed); [apply triple_get|intros t].
  apply (triple_bind _ Coalescing); [|intros _; apply dropParsedChunk_Coalescing].
  destruct (tag_type (set_tagID (getTagID (tagName tk)) tk)).
  1-3, 5-8:
    (apply (triple_bind _ Flushed);
     [destruct (0 <? _); [apply err_Flushed|apply triple_ret]|intros _];
     apply (triple_bind _ Flushed);
     [destruct (selfClosing _); [apply err_Flushed|apply triple_ret]|intros _];
     now apply emit_token_Coalescing).
  apply (triple_bind _ Flushed);
    [apply modify_Flushed; intros []; split; reflexivity|intros _].
  now apply emit_token_Coalescing.
Qed.

(** ** The methods that deliver nothing *)

Lemma advance_Coalescing : Preserves Coalescing preprocessor_advance.
Proof.
  intros t H. unfold preprocessor_advance.
  destruct (Preprocessor.advance (preprocessor t)) as [cp p].
  apply (Coalescing_frame t); [| |exact H]; now destruct t.
Qed.

Lemma peek_Coalescing (offset : Z) : Preserves Coalescing (preprocessor_peek offset).
Proof.
  intros t H. unfold preprocessor_peek.
  destruct (Preprocessor.peek offset (preprocessor t)) as [cp p].
  apply (Coalescing_frame t); [| |exact H]; now destruct t.
Qed.

Lemma startsWith_Coalescing (pattern : jsstring) (caseSensitive : bool) :
  Preserves Coalescing (preprocessor_startsWith pattern caseSensitive).
Proof.
  intros t H. unfold preprocessor_startsWith.
  destruct (Preprocessor.startsWith pattern caseSensitive (preprocessor t)) as [b p].
  apply (Coalescing_frame t); [| |exact H]; now destruct t.
Qed.

Lemma preserves_each (I : Tokenizer -> Prop) {A} (f : A -> M unit) (l : list A) :
  (forall a, Preserves I (f a)) ->
  Preserves I (fold_right (fun a k => f a ;; k) (ret tt) l).
Proof.
  intros Hf. induction l as [|a l IH]; [apply preserves_ret|].
  cbn [fold_right]. apply preserves_bind; [apply Hf|intros _; exact IH].
Qed.

Create HintDb coalescing.

#[local] Hint Resolve preserves_ret preserves_throw preserves_get preserves_repeatM
  err_Coalescing emitCodePoint_Coalescing emitChars_Coalescing
  dropParsedChunk_Coalescing theTag_Coalescing theComment_Coalescing
  theDoctype_Coalescing emitCurrentComment_Coalescing emitCurrentDoctype_Coalescing
  emitEOFToken_Coalescing emitCurrentTagToken_Coalescing advance_Coalescing
  peek_Coalescing startsWith_Coalescing : coalescing.

Ltac head_of m :=
  lazymatch m with
  | ?f _ => head_of f
  | _ => m
  end.

(** One step down the code of a method: a rule for the construct at its
    head, a lemma for a method that has one, else the method's body. *)
Ltac pres_step :=
  lazymatch goal with
  | |- Preserves _ (bind _ _) => apply preserves_bind; [|intro]
  | |- Preserves _ (if ?b then _ else _) => destruct b
  | |- Preserves _ (match ?x with _ => _ end) => destruct x
  | |- Preserves _ (modify _) => apply preserves_modify; intros []; split; reflexivity
  | |- Preserves _ (repeatM _ _) => apply preserves_repeatM
  | |- Preserves _ (fold_right _ _ _) => apply preserves_each; intro
  | |- Preserves _ ?m =>
      first [ solve [auto with coalescing]
            | let h := head_of m in unfold h
            | progress cbv beta zeta ]
  end.

Ltac pres := repeat pres_step.

Lemma consume_Coalescing : Preserves Coalescing _consume.
Proof. pres. Qed.

Lemma unconsume_Coalescing (count : Z) : Preserves Coalescing (_unconsume count).
Proof. pres. Qed.

Lemma advanceBy_Coalescing (count : nat) : Preserves Coalescing (_advanceBy count).
Proof.
  unfold _advanceBy. apply preserves_bind; [pres|intros _].
  apply preserves_repeatM. pres.
Qed.

Lemma ensureHibernation_Coalescing : Preserves Coalescing _ensureHibernation.
Proof. pres. Qed.

#[local] Hint Resolve consume_Coalescing unconsume_Coalescing advanceBy_Coalescing
  ensureHibernation_Coalescing : coalescing.

Section CoalescingOfTheStateMachine.
Variable getTagID : jsstring -> Z.
Variable isSurrogate : Z -> bool.
Variable isUndefinedCodePoint : Z -> bool.
Variable isControlCodePoint : Z -> bool.
Variable htmlDecodeTree : Z -> Z.
Variable determineBranch : (Z -> Z) -> Z -> Z -> Z -> Z.

Lemma matchLoop_Coalescing (fuel : nat) :
forall i current cp result excess withoutSemicolon,
  Preserves Coalescing
    (matchLoop htmlDecodeTree determineBranch fuel i current cp result excess
       withoutSemicolon).
Proof.
induction fuel as [|fuel IH]; intros; cbn [matchLoop]; [apply preserves_throw|].
cbv zeta. pres.
Qed.

Lemma matchNamedCharacterReference_Coalescing (cp : Z) :
Preserves Coalescing (_matchNamedCharacterReference htmlDecodeTree determineBranch cp).
Proof.
unfold _matchNamedCharacterReference.
apply preserves_bind; [apply preserves_get|intros t]. cbv zeta.
apply preserves_bind; [apply matchLoop_Coalescing|intros [[result excess] w]].
pres.
Qed.

Local Abbreviation callAt :=
(callStateAt getTagID isSurrogate isUndefinedCodePoint isControlCodePoint
   htmlDecodeTree determineBranch).

#[local] Hint Resolve matchNamedCharacterReference_Coalescing : coalescing.

(** Every state method keeps the invariant, whatever the nesting. *)
Lemma callStateAt_Coalescing (depth : nat) :
forall state cp, Preserves Coalescing (callAt depth state cp).
Proof.
induction depth as [|depth IH]; intros state cp; cbn [callStateAt];
  [apply preserves_throw|].
cbv zeta. pres.
Qed.

Local Abbreviation writeTo :=
(write getTagID isSurrogate isUndefinedCodePoint isControlCodePoint
   htmlDecodeTree determineBranch).
Local Abbreviation run :=
(writeAll getTagID isSurrogate isUndefinedCodePoint isControlCodePoint
   htmlDecodeTree determineBranch).

#[local] Hint Resolve callStateAt_Coalescing : coalescing.

Lemma whileActive_Coalescing (fuel : nat) :
Preserves Coalescing
  (whileActive getTagID isSurrogate isUndefinedCodePoint isControlCodePoint
     htmlDecodeTree determineBranch fuel).
Proof. induction fuel as [|fuel IH]; cbn [whileActive]; pres. Qed.

#[local] Hint Resolve whileActive_Coalescing : coalescing.

Lemma write_Coalescing (fuel : nat) (chunk : jsstring) (isLastChunk : bool) :
Preserves Coalescing (writeTo fuel chunk isLastChunk).
Proof. pres. Qed.

Lemma writeAll_Coalescing (calls : list (nat * jsstring * bool)) :
forall t, Coalescing t -> Coalescing (run calls t).
Proof.
induction calls as [|[[fuel chunk] isLastChunk] calls IH]; intros t H; [exact H|].
cbn [writeAll]. apply IH. apply triple_final; [apply write_Coalescing|exact H].
Qed.

(** C8.  Whatever the series of [write] calls on a tokenizer that has
  delivered nothing yet and holds no pending character token, no two
  neighbours in the stream of tokens delivered to the handler (the parse
  errors left out) are character tokens of one kind.  Such is the work of
  [_appendCharToCurrentCharacterToken]: code points of the kind of the
  pending character token are appended to it and nothing is delivered; code
  points of another kind have the pending token delivered first, and then
  start a new pending token. *)
Theorem character_tokens_coalesced :
(forall (calls : list (nat * jsstring * bool)) (t : Tokenizer),
    handlerLog t = [] -> currentCharacterToken t = None ->
    Coalesced (tokenStream (handlerLog (run calls t))))
/\ (forall (t : Tokenizer) (ct : CharacterToken) (ch : jsstring),
       currentCharacterToken t = Some ct ->
       _appendCharToCurrentCharacterToken (ch_type ct) ch t
       = Ok tt (set_currentCharacterToken
                  (Some (mkCharacterToken (ch_type ct) (chars ct ++ ch))) t))
/\ (forall (t : Tokenizer) (ct : CharacterToken) (type : TokenType) (ch : jsstring),
       currentCharacterToken t = Some ct -> ch_type ct <> type ->
       exists t',
         _appendCharToCurrentCharacterToken type ch t = Ok tt t'
         /\ handlerLog t' = handlerLog t ++ pendingCharacterEvents t
         /\ currentCharacterToken t' = Some (mkCharacterToken type ch)).
Proof.
split; [|split].
- intros calls t Hlog Hpending.
  apply (writeAll_Coalescing calls t).
  unfold Coalescing. rewrite Hlog, Hpending. split; [|reflexivity].
  intros l1 l2 a b k Heq. destruct l1; discriminate Heq.
- intros t ct ch Hct. unfold _appendCharToCurrentCharacterToken, bind, get.
  rewrite Hct.
  assert (Hk : TokenType_eqb (ch_type ct) (ch_type ct) = true)
    by now apply TokenType_eqb_eq.
  now rewrite Hk.
- intros t ct type ch Hct Hne.
  unfold _appendCharToCurrentCharacterToken, bind, get. rewrite Hct.
  destruct (TokenType_eqb (ch_type ct) type) eqn:Hk;
    [apply TokenType_eqb_eq in Hk; contradiction|].
  cbn [negb]. unfold pendingCharacterEvents, _emitCurrentCharacterToken, bind, get.
  rewrite Hct.
  destruct t; destruct (ch_type ct); cbn; eexists; (split; [reflexivity|]);
    cbn; split; try reflexivity; now rewrite app_nil_r.
Qed.

End CoalescingOfTheStateMachine.

(** The text [a], two spaces and [b<p>], written in two chunks that cut the
    white space: the two spaces reach the handler as one token, between the
    tokens of [a] and of [b]. *)
Lemma character_tokens_coalesced_witness :
  Coalesced
    (tokenStream
       (handlerLog
          (writeAll Example.getTagID Example.isSurrogate Example.isUndefinedCodePoint
             Example.isControlCodePoint Example.htmlDecodeTree Example.determineBranch
             [(8%nat, str "a ", false); (8%nat, str " b<p>", true)] newTokenizer)))
  /\ handlerLog
       (writeAll Example.getTagID Example.isSurrogate Example.isUndefinedCodePoint
          Example.isControlCodePoint Example.htmlDecodeTree Example.determineBranch
          [(8%nat, str "a ", false); (8%nat, str " b<p>", true)] newTokenizer)
     = [onCharacter (str "a"); onWhitespaceCharacter (str "  ");
        onCharacter (str "b");
        onStartTag (mkTagToken START_TAG (str "p") TAG_ID_UNKNOWN false false []);
        onEof].
Proof.
  split.
  - apply (proj1 (character_tokens_coalesced Example.getTagID Example.isSurrogate
                    Example.isUndefinedCodePoint Example.isControlCodePoint
                    Example.htmlDecodeTree Example.determineBranch));
      reflexivity.
  - vm_compute. reflexivity.
Defined.

(** * Chunks: a state method on a longer buffer *)

(** Unfolds the reads and writes of the fields of a tokenizer given by its
    fields. *)
Ltac fields :=
  unfold AtHead, InState, SteppedBack, Waiting, flagged, extended, extendBuffer,
    resumed, Preprocessor.len, Preprocessor.retreat, Preprocessor.charAt,
    Preprocessor.hitEnd, Preprocessor.dropParsedChunk in *;
  cbn [final returned extendedRes preprocessor paused inLoop inForeignNode lastStartTagName
       active state returnState charRefCode consumedAfterSnapshot
       currentCharacterToken currentToken attrObjects currentAttr handlerLog
       set_preprocessor set_consumedAfterSnapshot set_active set_state
       set_returnState set_charRefCode set_currentCharacterToken set_currentToken
       set_attrObjects set_currentAttr set_handlerLog set_inLoop
       set_lastStartTagName
       Preprocessor.pos Preprocessor.html Preprocessor.lastChunkWritten
       Preprocessor.endOfChunkHit Preprocessor.skipNextNewLine negb] in *.

(** Tests on integers in the context, turned into the facts they decide. *)
Ltac ztests :=
  repeat match goal with
         | H : (_ >=? _) = _ |- _ => rewrite Z.geb_leb in H
         | H : (_ >? _) = _ |- _ => rewrite Z.gtb_ltb in H
         | H : (_ <=? _) = true |- _ => apply Z.leb_le in H
         | H : (_ <=? _) = false |- _ => apply Z.leb_gt in H
         | H : (_ <? _) = true |- _ => apply Z.ltb_lt in H
         | H : (_ <? _) = false |- _ => apply Z.ltb_ge in H
         | H : (_ =? _) = true |- _ => apply Z.eqb_eq in H
         | H : (_ =? _) = false |- _ => apply Z.eqb_neq in H
         end.

Lemma Waiting_Framed (low hex : Z) : Framed (Waiting low hex).
Proof. intros t t' Hp Hs Hr. unfold Waiting, flagged. now rewrite Hp, Hs, Hr. Qed.

Lemma Waiting_lower (low hex low' hex' : Z) (t : Tokenizer) :
  low' <= low -> hex' <= hex -> Waiting low hex t -> Waiting low' hex' t.
Proof.
  intros Hl Hh (H1 & H2 & H3). split; [exact H1|]. split; [exact H2|].
  intros F. destruct (H3 F) as [A B]. split; [lia|]. intros S. specialize (B S). lia.
Qed.

Lemma Waiting_returnState (low hex : Z) (t : Tokenizer) :
  Waiting low hex t -> isReturnState (returnState t) = true.
Proof. intros (_ & H & _). exact H. Qed.

Lemma isReturnState_not_hex (c : Z) :
  isReturnState c = true -> c <> State.HEXADEMICAL_CHARACTER_REFERENCE_START.
Proof. intros H ->. discriminate H. Qed.

Lemma nth_inside (l more' : list Z) (i : Z) (d : Z) :
  0 <= i < Z.of_nat (length l) ->
  nth (Z.to_nat i) (l ++ more') d = nth (Z.to_nat i) l d.
Proof. intros H. apply app_nth1. lia. Qed.

Lemma firstn_inside (l more' : list Z) (n : nat) :
  (n <= length l)%nat -> firstn n (l ++ more') = firstn n l.
Proof.
  intros H. rewrite firstn_app. replace (n - length l)%nat with 0%nat by lia.
  cbn [firstn]. apply app_nil_r.
Qed.

Section ExtendsRules.
Variable more : list Z.
Variable isLast : bool.
Variable carry : bool.

Local Abbreviation Ext := (Extends more isLast carry).
Local Abbreviation ext := (extended more isLast carry).
Local Abbreviation extRes := (extendedRes more isLast carry).

Lemma extends_ret (P : Tokenizer -> Prop) {A} (a : A) (t : Tokenizer) :
Ext P P (ret a) (ret a) t.
Proof. intros H. split; [exact H|]. split; [auto|reflexivity]. Qed.

Lemma extends_throw (P Q : Tokenizer -> Prop) {A} (e : Exn) (t : Tokenizer) :
Ext P Q (@throw A e) (throw e) t.
Proof. intros H. split; [exact I|]. split; [auto|reflexivity]. Qed.

Lemma extends_post (Q P Q' : Tokenizer -> Prop) {A} (m1 m2 : M A) (t : Tokenizer) :
(forall t', Q t' -> Q' t') -> Ext P Q m1 m2 t -> Ext P Q' m1 m2 t.
Proof.
intros HQ H HP. destruct (H HP) as (H1 & H2). split; [|exact H2].
destruct (m1 t); cbn [returned] in *; auto.
Qed.

Lemma extends_pre (P P' Q : Tokenizer -> Prop) {A} (m1 m2 : M A) (t : Tokenizer) :
(P' t -> P t) -> Ext P Q m1 m2 t -> Ext P' Q m1 m2 t.
Proof. intros HP H HP'. exact (H (HP HP')). Qed.

Lemma extends_bind (R P Q : Tokenizer -> Prop) {A B} (m1 m2 : M A) (k1 k2 : A -> M B)
  (t : Tokenizer) :
Ext P R m1 m2 t ->
(forall a t', m1 t = Ok a t' -> Ext R Q (k1 a) (k2 a) t') ->
Ext P Q (bind m1 k1) (bind m2 k2) t.
Proof.
intros Hm Hk HP. destruct (Hm HP) as (L1 & S1 & C1). unfold bind.
destruct (m1 t) as [a t1|e t1] eqn:E1; cbn [final returned] in *.
- destruct (Hk a t1 eq_refl L1) as (L2 & S2 & C2).
  split; [exact L2|]. split; [intros F; exact (S2 (S1 F))|].
  intros F. assert (F1 : flagged t1 = false).
  { destruct (flagged t1) eqn:F1; [|reflexivity]. rewrite (S2 eq_refl) in F.
    discriminate F. }
  rewrite (C1 F1). cbn [extendedRes]. exact (C2 F).
- split; [exact I|]. split; [exact S1|].
  intros F. now rewrite (C1 F).
Qed.

Lemma extends_get_bind (P Q : Tokenizer -> Prop) {B} (k1 k2 : Tokenizer -> M B)
  (t : Tokenizer) :
(P t -> Ext P Q (k1 t) (k2 (ext t)) t) -> Ext P Q (bind get k1) (bind get k2) t.
Proof. intros H HP. exact (H HP HP). Qed.

Lemma extends_modify (P : Tokenizer -> Prop) (f : Tokenizer -> Tokenizer)
  (t : Tokenizer) :
Framed P ->
(forall t, preprocessor (f t) = preprocessor t /\ state (f t) = state t
           /\ returnState (f t) = returnState t) ->
(forall t, f (ext t) = ext (f t)) ->
Ext P P (modify f) (modify f) t.
Proof.
intros HF Hp Hc HP. unfold modify. cbn [final returned extendedRes].
destruct (Hp t) as (E1 & E2 & E3).
split; [exact (HF t (f t) E1 E2 E3 HP)|]. unfold flagged. rewrite E1.
split; [auto|]. intros _. now rewrite Hc.
Qed.

(** A move to a state other than the one that steps back. *)
Lemma extends_setState (low hex hex' : Z) (c : Z) (t : Tokenizer) :
c <> State.HEXADEMICAL_CHARACTER_REFERENCE_START ->
Ext (Waiting low hex) (Waiting low hex') (setState c) (setState c) t.
Proof.
intros Hc (H1 & H2 & H3). unfold setState, modify.
destruct t as [? ? ? ? ? ? ? ? ? ? ? ? ? [] ?]. fields.
split; [|split; [auto|reflexivity]].
split; [exact H1|]. split; [exact H2|]. intros F. destruct (H3 F) as [A B].
split; [exact A|]. intros S. contradiction.
Qed.

(** A move to any state. *)
Lemma extends_setState_any (low hex : Z) (c : Z) (t : Tokenizer) :
Ext (Waiting low hex) (Waiting low low) (setState c) (setState c) t.
Proof.
intros (H1 & H2 & H3). unfold setState, modify.
destruct t as [? ? ? ? ? ? ? ? ? ? ? ? ? [] ?]. fields.
split; [|split; [auto|reflexivity]].
split; [exact H1|]. split; [exact H2|]. intros F. destruct (H3 F) as [A B].
split; lia.
Qed.

Lemma extends_setReturnState (low hex : Z) (c : Z) (t : Tokenizer) :
isReturnState c = true ->
Ext (Waiting low hex) (Waiting low hex) (setReturnState c) (setReturnState c) t.
Proof.
intros Hc (H1 & H2 & H3). unfold setReturnState, modify.
destruct t as [? ? ? ? ? ? ? ? ? ? ? ? ? [] ?]. fields.
split; [|split; [auto|reflexivity]].
split; [exact H1|]. split; [exact Hc|]. exact H3.
Qed.

Lemma extends_dropParsedChunk (P : Tokenizer -> Prop) (t : Tokenizer) :
Ext P P preprocessor_dropParsedChunk preprocessor_dropParsedChunk t.
Proof.
intros HP. unfold preprocessor_dropParsedChunk, modify.
destruct t as [? ? ? ? ? ? ? ? ? ? ? ? ? [] ?]. fields.
split; [exact HP|]. split; [auto|reflexivity].
Qed.

Lemma extends_unconsume (low hex : Z) (count : Z) (t : Tokenizer) :
0 <= count ->
Ext (Waiting low hex) (Waiting (low - count) (hex - count))
  (_unconsume count) (_unconsume count) t.
Proof.
intros Hc (H1 & H2 & H3). unfold _unconsume, modify.
destruct t as [? ? ? ? ? ? ? ? ? ? ? ? ? [] ?]. fields.
split; [|split; [auto|reflexivity]].
split; [exact H1|]. split; [exact H2|]. intros F. destruct (H3 F) as [A B].
split; [lia|]. intros S. specialize (B S). lia.
Qed.

Lemma extends_advance (low hex : Z) (t : Tokenizer) :
-1 <= low ->
Ext (Waiting low hex) (Waiting (low + 1) (hex + 1))
  preprocessor_advance preprocessor_advance t.
Proof.
intros Hlow (L1 & L2 & L3). unfold preprocessor_advance, Preprocessor.advance.
destruct t as [? ? ? ? ? ? ? ? ? ? ? ? ? [html pos last hit skip] ?]. fields.
subst last.
destruct (pos + 1 >=? Z.of_nat (length html)) eqn:E; fields.
- split; [|split; [reflexivity|discriminate]].
  split; [reflexivity|]. split; [exact L2|]. discriminate.
- assert (E' : (pos + 1 >=? Z.of_nat (length (html ++ more))) = false).
  { rewrite length_app, Z.geb_leb. apply Z.leb_gt. ztests. lia. }
  split; [|split; [auto|]].
  + split; [reflexivity|]. split; [exact L2|]. intros F. ztests.
    destruct (L3 F) as [A B]. split; [lia|]. intros S. specialize (B S). lia.
  + intros F. rewrite E'. fields. destruct (L3 F) as [A B]. ztests.
    rewrite nth_inside by lia. reflexivity.
Qed.

Lemma getError_extendBuffer (c : ERR) (p : Preprocessor.t) :
Preprocessor.pos p < Preprocessor.len p ->
Preprocessor.getError c (extendBuffer more isLast carry p) = Preprocessor.getError c p.
Proof.
intros H. destruct p as [html pos ? ? ?].
unfold Preprocessor.getError, Preprocessor.line, Preprocessor.col,
  Preprocessor.offset, Preprocessor.consumed, extendBuffer, Preprocessor.len in *.
cbn [Preprocessor.html Preprocessor.pos] in *.
rewrite firstn_inside by lia. reflexivity.
Qed.

Lemma extends_err (low hex : Z) (c : ERR) (t : Tokenizer) :
Ext (Waiting low hex) (Waiting low hex) (_err c) (_err c) t.
Proof.
intros HP. unfold _err, emit, bind, get, modify. cbn [final returned extendedRes].
split; [exact (Waiting_Framed low hex t _ eq_refl eq_refl eq_refl HP)|].
split; [auto|]. intros F.
destruct HP as (H1 & H2 & H3). destruct (H3 F) as [A _].
unfold extended at 1 2. cbn [preprocessor set_preprocessor handlerLog].
rewrite getError_extendBuffer by lia.
destruct t; reflexivity.
Qed.

Lemma extends_peek (low hex : Z) (offset : Z) (t : Tokenizer) :
0 <= low -> 0 <= offset ->
Ext (Waiting low hex) (Waiting low hex)
  (preprocessor_peek offset) (preprocessor_peek offset) t.
Proof.
intros Hl Ho (L1 & L2 & L3). unfold preprocessor_peek, Preprocessor.peek.
destruct t as [? ? ? ? ? ? ? ? ? ? ? ? ? [html pos last hit skip] ?]. fields.
subst last.
destruct (pos + offset >=? Z.of_nat (length html)) eqn:E; fields.
- split; [|split; [reflexivity|discriminate]].
  split; [reflexivity|]. split; [exact L2|]. discriminate.
- assert (E' : (pos + offset >=? Z.of_nat (length (html ++ more))) = false).
  { rewrite length_app, Z.geb_leb. apply Z.leb_gt. ztests. lia. }
  split; [|split; [auto|]].
  + split; [reflexivity|]. split; [exact L2|]. exact L3.
  + intros F. rewrite E'. fields. destruct (L3 F) as [A B]. ztests.
    rewrite nth_inside by lia. reflexivity.
Qed.

Lemma window_inside (html : list Z) (pos : Z) (n : nat) :
0 <= pos -> pos + Z.of_nat n <= Z.of_nat (length html) ->
firstn n (skipn (Z.to_nat pos) (html ++ more)) = firstn n (skipn (Z.to_nat pos) html).
Proof.
intros H0 H. rewrite skipn_app.
replace (Z.to_nat pos - length html)%nat with 0%nat by lia. cbn [skipn].
apply firstn_inside. rewrite length_skipn. lia.
Qed.

Lemma extends_startsWith (low hex : Z) (pattern : jsstring) (caseSensitive : bool)
  (t : Tokenizer) :
0 <= low ->
Ext (Waiting low hex) (Waiting low hex)
  (preprocessor_startsWith pattern caseSensitive)
  (preprocessor_startsWith pattern caseSensitive) t.
Proof.
intros Hl (L1 & L2 & L3). unfold preprocessor_startsWith, Preprocessor.startsWith,
  Preprocessor.window.
destruct t as [? ? ? ? ? ? ? ? ? ? ? ? ? [html pos last hit skip] ?]. fields.
subst last.
destruct (pos + Z.of_nat (length pattern) >? Z.of_nat (length html)) eqn:E; fields.
- split; [|split; [reflexivity|discriminate]].
  split; [reflexivity|]. split; [exact L2|]. discriminate.
- assert (E' : (pos + Z.of_nat (length pattern) >? Z.of_nat (length (html ++ more)))
               = false).
  { rewrite length_app, Z.gtb_ltb. apply Z.ltb_ge. ztests. lia. }
  destruct caseSensitive; fields.
  + split; [|split; [auto|]].
    * split; [reflexivity|]. split; [exact L2|]. exact L3.
    * intros F. rewrite E'. fields. destruct (L3 F) as [A B]. ztests.
      rewrite window_inside by lia. reflexivity.
  + split; [|split; [auto|]].
    * split; [reflexivity|]. split; [exact L2|]. exact L3.
    * intros F. rewrite E'. fields. destruct (L3 F) as [A B]. ztests.
      rewrite window_inside by lia. reflexivity.
Qed.

Lemma extends_ensureHibernation (low hex : Z) (t : Tokenizer) :
Ext (Waiting low hex) (Waiting low hex) _ensureHibernation _ensureHibernation t.
Proof.
intros (L1 & L2 & L3). unfold _ensureHibernation, bind, get, _unconsume, modify, ret.
destruct t as [? ? ? ? ? ? ? ? ? ? ? ? ? [html pos last hit skip] ?]. fields.
destruct hit; fields.
- split; [|split; [reflexivity|discriminate]].
  split; [exact L1|]. split; [exact L2|]. discriminate.
- split; [|split; [auto|reflexivity]].
  split; [exact L1|]. split; [exact L2|]. exact L3.
Qed.

Lemma extends_repeatM (P : Tokenizer -> Prop) (n : nat) (m : M unit) :
(forall t, Ext P P m m t) ->
forall t, Ext P P (repeatM n m) (repeatM n m) t.
Proof.
intros Hm. induction n as [|n IH]; intros t; [apply extends_ret|].
cbn [repeatM]. apply (extends_bind P); [apply Hm|intros _ t' _; apply IH].
Qed.

Lemma extends_each (P : Tokenizer -> Prop) {A} (f : A -> M unit) (l : list A) :
(forall a t, Ext P P (f a) (f a) t) ->
forall t, Ext P P (fold_right (fun a k => f a ;; k) (ret tt) l)
            (fold_right (fun a k => f a ;; k) (ret tt) l) t.
Proof.
intros Hf. induction l as [|a l IH]; intros t; [apply extends_ret|].
cbn [fold_right].
apply (extends_bind P); [apply Hf|intros _ t' _; apply IH].
Qed.

End ExtendsRules.

Create HintDb extends.

#[local] Hint Resolve extends_ret extends_throw extends_dropParsedChunk extends_err
  extends_ensureHibernation Waiting_Framed : extends.
#[local] Hint Extern 1 (Extends _ _ _ _ _ (setReturnState _) _ _) =>
  apply extends_setReturnState; reflexivity : extends.
#[local] Hint Extern 1 (Extends _ _ _ _ _ (preprocessor_peek _) _ _) =>
  apply extends_peek; lia : extends.
#[local] Hint Extern 1 (Extends _ _ _ _ _ (preprocessor_startsWith _ _) _ _) =>
  apply extends_startsWith; lia : extends.

(** The reads of the fields of the tokenizer with the longer buffer. *)
Ltac ext_fields :=
  cbn [extended extendBuffer set_preprocessor preprocessor paused inLoop
       inForeignNode lastStartTagName active state returnState charRefCode
       consumedAfterSnapshot currentCharacterToken currentToken attrObjects
       currentAttr handlerLog Preprocessor.pos Preprocessor.html
       Preprocessor.lastChunkWritten Preprocessor.endOfChunkHit
       Preprocessor.skipNextNewLine attrAt resolveAttrs];
  repeat match goal with
         | |- context [attrAt (extended ?a ?b ?c ?t)] =>
             change (attrAt (extended a b c t)) with (attrAt t)
         end.

(** What holds before holds after, with lower bounds. *)
Ltac lower :=
  let t := fresh "t" in
  let H := fresh "H" in
  intros t H; first [ exact H | eapply Waiting_lower; [..|exact H]; lia ].

Ltac not_hex :=
  first [ discriminate
        | apply isReturnState_not_hex; eauto using Waiting_returnState ].

Ltac ext_leaf_same :=
  first [ solve [eauto with extends]
        | solve [apply extends_modify;
                 [apply Waiting_Framed
                 |intros []; repeat split; reflexivity
                 |intros []; reflexivity]] ].

Ltac ext_leaf :=
  unfold AtHead, InState, SteppedBack;
  lazymatch goal with
  | |- Extends _ _ _ (Waiting ?l ?h) (Waiting ?l' ?h') (setState _) _ _ =>
      first [ solve [apply (extends_post _ _ _ (Waiting l h'));
                     [lower|apply extends_setState; not_hex]]
            | solve [apply (extends_post _ _ _ (Waiting l l));
                     [lower|apply extends_setState_any]] ]
  | |- Extends _ _ _ (Waiting ?l ?h) _ _ _ _ =>
      first [ ext_leaf_same
            | solve [apply (extends_post _ _ _ (Waiting l h)); [lower|ext_leaf_same]] ]
  end.

(** One step down the code of a method, on both buffers at once. *)
Ltac ext_step :=
  unfold AtHead, InState, SteppedBack;
  lazymatch goal with
  | |- Extends _ _ _ _ _ (bind get _) (bind get _) _ =>
      apply extends_get_bind; intros ?HP; ext_fields
  | |- Extends _ _ _ ?P _ (bind _ _) (bind _ _) _ =>
      apply (extends_bind _ _ _ P); [ | intros ? ? _ ]
  | |- Extends _ _ _ _ _ (if ?b then _ else _) (if ?b then _ else _) _ => destruct b
  | |- Extends _ _ _ _ _ (match ?x with _ => _ end) (match ?x with _ => _ end) _ =>
      destruct x
  | |- Extends _ _ _ _ _ (modify _) (modify _) _ => ext_leaf
  | |- Extends _ _ _ _ _ (repeatM _ _) (repeatM _ _) _ =>
      apply extends_repeatM; intro
  | |- Extends _ _ _ _ _ (fold_right _ _ _) (fold_right _ _ _) _ =>
      apply extends_each; intros ? ?
  | |- Extends _ _ _ _ _ ?m _ _ =>
      first [ ext_leaf
            | let h := head_of m in unfold h
            | progress cbv beta zeta ]
  end.

Ltac ext_steps := repeat ext_step.

Section ExtendsMethods.
Variable more : list Z.
Variable isLast : bool.
Variable carry : bool.

Local Abbreviation Ext := (Extends more isLast carry).

Lemma extends_consume (low hex : Z) (t : Tokenizer) :
-1 <= low ->
Ext (Waiting low hex) (Waiting (low + 1) (hex + 1)) _consume _consume t.
Proof.
intros Hl. unfold _consume.
apply (extends_bind _ _ _ (Waiting low hex)); [ext_leaf|intros [] t' _].
apply extends_advance; lia.
Qed.

Lemma extends_consume_inside (low hex : Z) (t : Tokenizer) :
-1 <= low -> Ext (Waiting low hex) (Waiting low hex) _consume _consume t.
Proof.
intros Hl. apply (extends_post _ _ _ (Waiting (low + 1) (hex + 1))); [lower|].
now apply extends_consume.
Qed.

Lemma extends_advanceBy (low hex : Z) (count : nat) (t : Tokenizer) :
-1 <= low ->
Ext (Waiting low hex) (Waiting low hex) (_advanceBy count) (_advanceBy count) t.
Proof.
intros Hl. unfold _advanceBy.
apply (extends_bind _ _ _ (Waiting low hex)); [ext_leaf|intros [] t' _].
apply extends_repeatM. intros t''.
apply (extends_bind _ _ _ (Waiting low hex)); [|intros ? ? _; apply extends_ret].
apply (extends_post _ _ _ (Waiting (low + 1) (hex + 1))); [lower|].
apply extends_advance; lia.
Qed.

End ExtendsMethods.

#[local] Hint Extern 1 (Extends _ _ _ _ _ _consume _ _) =>
  apply extends_consume_inside; lia : extends.
#[local] Hint Extern 1 (Extends _ _ _ _ _ (_advanceBy _) _ _) =>
  apply extends_advanceBy; lia : extends.

(** ** The loop that matches a named reference *)

Lemma consume_step (t : Tokenizer) :
  exists cp t',
    _consume t = Ok cp t'
    /\ Preprocessor.pos (preprocessor t') = Preprocessor.pos (preprocessor t) + 1
    /\ Preprocessor.html (preprocessor t') = Preprocessor.html (preprocessor t)
    /\ Preprocessor.lastChunkWritten (preprocessor t')
       = Preprocessor.lastChunkWritten (preprocessor t)
    /\ (Preprocessor.len (preprocessor t) <= Preprocessor.pos (preprocessor t) + 1 ->
        cp = CP.EOF).
Proof.
  unfold _consume, bind, modify, preprocessor_advance, Preprocessor.advance.
  destruct t as [? ? ? ? ? ? ? ? ? ? ? ? ? [html pos last hit skip] ?]. fields.
  destruct (pos + 1 >=? Z.of_nat (length html)) eqn:E; fields;
    eexists _, _; (split; [reflexivity|]); fields; repeat split; auto.
  intros H. ztests. lia.
Qed.

Lemma peek_step (offset : Z) (t : Tokenizer) :
  exists cp t',
    preprocessor_peek offset t = Ok cp t'
    /\ Preprocessor.pos (preprocessor t') = Preprocessor.pos (preprocessor t)
    /\ Preprocessor.html (preprocessor t') = Preprocessor.html (preprocessor t)
    /\ Preprocessor.lastChunkWritten (preprocessor t')
       = Preprocessor.lastChunkWritten (preprocessor t).
Proof.
  unfold preprocessor_peek, Preprocessor.peek.
  destruct t as [? ? ? ? ? ? ? ? ? ? ? ? ? [html pos last hit skip] ?]. fields.
  destruct (pos + offset >=? Z.of_nat (length html)); fields;
    eexists _, _; (split; [reflexivity|]); fields; repeat split; auto.
Qed.

Section MatchLoop.
Variable htmlDecodeTree : Z -> Z.
Variable determineBranch : (Z -> Z) -> Z -> Z -> Z -> Z.

Local Abbreviation loop := (matchLoop htmlDecodeTree determineBranch).

(** One round of the loop on a code point that has a branch: the cursor moves
  by one, and the loop returns or goes on with the code point read. *)
Lemma matchLoop_round (i current cp : Z) (result : option (list Z))
  (excess : Z) (withoutSemicolon : bool) (t : Tokenizer) :
(determineBranch htmlDecodeTree current (i + 1) cp <? 0) = false ->
0 <= excess ->
exists cp' t1 result' excess' withoutSemicolon' i' current',
  Preprocessor.pos (preprocessor t1) = Preprocessor.pos (preprocessor t) + 1
  /\ Preprocessor.html (preprocessor t1) = Preprocessor.html (preprocessor t)
  /\ Preprocessor.lastChunkWritten (preprocessor t1)
     = Preprocessor.lastChunkWritten (preprocessor t)
  /\ (Preprocessor.len (preprocessor t) <= Preprocessor.pos (preprocessor t) + 1 ->
      cp' = CP.EOF)
  /\ 0 <= excess' <= excess + 1
  /\ ((forall fuel, loop (S fuel) i current cp result excess withoutSemicolon t
                    = Ok (result', excess', withoutSemicolon') t1)
      \/ (forall fuel, loop (S fuel) i current cp result excess withoutSemicolon t
                       = loop fuel i' current' cp' result' excess'
                           withoutSemicolon' t1)).
Proof.
intros Hj Hex.
set (j := determineBranch htmlDecodeTree current (i + 1) cp) in *.
destruct (Z.land (htmlDecodeTree j) VALUE_LENGTH =? 0) eqn:Hm.
- destruct (consume_step t) as (cp' & t1 & E & P1 & P2 & P3 & P4).
  exists cp', t1, result, (excess + 1), withoutSemicolon, j, (htmlDecodeTree j).
  repeat (split; [assumption || lia|]). right. intros fuel.
  cbn [matchLoop]. cbv zeta. fold j. rewrite Hj, Hm. unfold bind at 1. now rewrite E.
- assert (Hpre : exists (invalidEnd : bool) (t0 : Tokenizer),
             Preprocessor.pos (preprocessor t0) = Preprocessor.pos (preprocessor t)
             /\ Preprocessor.html (preprocessor t0)
                = Preprocessor.html (preprocessor t)
             /\ Preprocessor.lastChunkWritten (preprocessor t0)
                = Preprocessor.lastChunkWritten (preprocessor t)
             /\ forall (B : Type) (k : bool -> M B),
                 (inAttr <- (if negb (cp =? CODE_POINTS.SEMICOLON)
                             then _isCharacterReferenceInAttribute else ret false) ;;
                  invalidEnd <- (if inAttr
                                 then (n <- preprocessor_peek 1 ;;
                                       ret (isEntityInAttributeInvalidEnd n))
                                 else ret false) ;;
                  k invalidEnd) t = k invalidEnd t0).
  { unfold _isCharacterReferenceInAttribute.
    destruct (negb (cp =? CODE_POINTS.SEMICOLON));
      [|exists false, t; repeat split; reflexivity].
    destruct ((returnState t =? 35) || (returnState t =? 36) || (returnState t =? 37))
      eqn:Hrs.
    - destruct (peek_step 1 t) as (n & t0 & E & P1 & P2 & P3).
      exists (isEntityInAttributeInvalidEnd n), t0.
      repeat (split; [assumption|]). intros B k.
      unfold bind, get, ret. rewrite Hrs, E. reflexivity.
    - exists false, t. repeat (split; [reflexivity|]). intros B k.
      unfold bind, get, ret. rewrite Hrs. reflexivity. }
  destruct Hpre as (invalidEnd & t0 & Q1 & Q2 & Q3 & Hrun).
  destruct (consume_step t0) as (cp' & t1 & E & P1 & P2 & P3 & P4).
  unfold Preprocessor.len in *. rewrite Q1, Q2, Q3 in *.
  destruct invalidEnd;
    destruct (Z.shiftr (Z.land (htmlDecodeTree j) VALUE_LENGTH) 14 - 1 =? 0) eqn:Hv;
    [ eexists cp', t1, _, _, _, 0, 0 | eexists cp', t1, _, _, _, _, _
    | eexists cp', t1, _, _, _, 0, 0 | eexists cp', t1, _, _, _, _, _ ];
    (repeat (split; [assumption || lia|]));
    (split;
     [|first [ left; intros fuel; cbn [matchLoop]; cbv zeta; fold j;
               rewrite Hj, Hm, Hrun, Hv; unfold bind at 1; rewrite E; reflexivity
             | right; intros fuel; cbn [matchLoop]; cbv zeta; fold j;
               rewrite Hj, Hm, Hrun, Hv; unfold bind at 1; rewrite E; reflexivity ]]);
    lia.
Qed.

Variable rejectsEOF :
forall current i, determineBranch htmlDecodeTree current i CP.EOF < 0.

(** Rounds that no bound stops: more fuel changes nothing. *)
Lemma matchLoop_more_fuel (fuel : nat) :
forall i current cp result excess withoutSemicolon t,
  0 <= excess ->
  (forall t', loop fuel i current cp result excess withoutSemicolon t
              <> Throw LoopBoundExceeded t') ->
  loop (S fuel) i current cp result excess withoutSemicolon t
  = loop fuel i current cp result excess withoutSemicolon t.
Proof.
induction fuel as [|fuel IH]; intros i current cp result excess ws t Hex Hno.
- exfalso. exact (Hno t eq_refl).
- destruct (determineBranch htmlDecodeTree current (i + 1) cp <? 0) eqn:Hj.
  + cbn [matchLoop]. cbv zeta. now rewrite Hj.
  + destruct (matchLoop_round i current cp result excess ws t Hj Hex)
      as (cp' & t1 & r' & ex' & ws' & i' & cur' & _ & _ & _ & _ & Hex' & [Hr|Hr]).
    * now rewrite !Hr.
    * rewrite (Hr (S fuel)), (Hr fuel). rewrite (Hr fuel) in Hno.
      apply IH; [lia|exact Hno].
Qed.

(** The loop ends before its bound: every round but the first follows the
  read of a code point, and the read past the end yields EOF, which has no
  branch. *)
Lemma matchLoop_ends (fuel : nat) :
forall i current cp result excess withoutSemicolon t,
  0 <= excess ->
  (cp = CP.EOF -> (1 <= fuel)%nat) ->
  (cp <> CP.EOF ->
   Z.max 0 (Preprocessor.len (preprocessor t) - Preprocessor.pos (preprocessor t) - 1)
   + 2 <= Z.of_nat fuel) ->
  exists r ex' ws' t',
    loop fuel i current cp result excess withoutSemicolon t = Ok (r, ex', ws') t'
    /\ 0 <= ex'
       <= excess + (Preprocessor.pos (preprocessor t')
                    - Preprocessor.pos (preprocessor t))
    /\ Preprocessor.html (preprocessor t') = Preprocessor.html (preprocessor t)
    /\ Preprocessor.lastChunkWritten (preprocessor t')
       = Preprocessor.lastChunkWritten (preprocessor t).
Proof.
induction fuel as [|fuel IH]; intros i current cp result excess ws t Hex Heof Hfuel.
- exfalso. destruct (Z.eq_dec cp CP.EOF) as [E|E]; [specialize (Heof E)|specialize (Hfuel E)]; lia.
- destruct (determineBranch htmlDecodeTree current (i + 1) cp <? 0) eqn:Hj.
  + cbn [matchLoop]. cbv zeta. rewrite Hj. exists result, excess, ws, t.
    split; [reflexivity|]. split; [lia|]. split; reflexivity.
  + assert (Hcp : cp <> CP.EOF).
    { intros ->. specialize (rejectsEOF current (i + 1)). ztests. lia. }
    specialize (Hfuel Hcp).
    destruct (matchLoop_round i current cp result excess ws t Hj Hex)
      as (cp' & t1 & r' & ex' & ws' & i' & cur' & P1 & P2 & P3 & P4 & Hex' & [Hr|Hr]).
    * rewrite Hr. exists r', ex', ws', t1. split; [reflexivity|].
      split; [lia|]. split; assumption.
    * rewrite Hr.
      destruct (IH i' cur' cp' r' ex' ws' t1) as (r & ex2 & ws2 & t2 & E & B & H1 & H2).
      -- lia.
      -- intros _. unfold Preprocessor.len in *. lia.
      -- intros Hne. unfold Preprocessor.len in *. rewrite P1, P2.
         assert (~ Z.of_nat (length (Preprocessor.html (preprocessor t)))
                   <= Preprocessor.pos (preprocessor t) + 1)
           by (intros Hle; exact (Hne (P4 Hle))).
         lia.
      -- exists r, ex2, ws2, t2. split; [exact E|]. split; [lia|].
         split; congruence.
Qed.

Lemma matchLoop_fuel_ge (fuel fuel' : nat) :
(fuel <= fuel')%nat ->
forall i current cp result excess withoutSemicolon t x t',
  0 <= excess ->
  loop fuel i current cp result excess withoutSemicolon t = Ok x t' ->
  loop fuel' i current cp result excess withoutSemicolon t = Ok x t'.
Proof.
induction 1 as [|fuel' Hle IH]; intros i current cp result excess ws t x t' Hex H;
  [exact H|].
rewrite matchLoop_more_fuel; [now apply IH|exact Hex|].
intros t''. rewrite (IH _ _ _ _ _ _ _ _ _ Hex H). discriminate.
Qed.

Variable more : list Z.
Variable isLast : bool.
Variable carry : bool.

Local Abbreviation Ext := (Extends more isLast carry).

Lemma matchLoop_extends_same (fuel : nat) :
forall i current cp result excess withoutSemicolon t,
  Ext InState InState (loop fuel i current cp result excess withoutSemicolon)
    (loop fuel i current cp result excess withoutSemicolon) t.
Proof.
induction fuel as [|fuel IH]; intros; cbn [matchLoop]; [apply extends_throw|].
cbv zeta. ext_steps.
Qed.

Lemma matchNamedCharacterReference_returns (cp : Z) (t : Tokenizer) :
exists r t',
  _matchNamedCharacterReference htmlDecodeTree determineBranch cp t = Ok r t'.
Proof.
unfold _matchNamedCharacterReference. unfold bind at 1. unfold get at 1. cbv zeta.
destruct (matchLoop_ends
            (Z.to_nat (Preprocessor.len (preprocessor t)
                       - Preprocessor.pos (preprocessor t)) + 2)
            0 (htmlDecodeTree 0) cp None 0 false t)
  as (r & ex & ws & t1 & E1 & _); [lia|lia|lia|].
unfold bind at 1. rewrite E1.
unfold _unconsume, _err, emit, bind, get, modify, ret.
destruct (ws && _); eexists _, _; reflexivity.
Qed.

Lemma len_extendBuffer (p : Preprocessor.t) :
Preprocessor.len (extendBuffer more isLast carry p)
= Preprocessor.len p + Z.of_nat (length more).
Proof. unfold Preprocessor.len, extendBuffer. cbn. rewrite length_app. lia. Qed.

(** The match of a named reference: it ends behind the code point it was
  called with, or on it. *)
Lemma matchNamedCharacterReference_extends (cp : Z) (t : Tokenizer) :
Ext InState SteppedBack
  (_matchNamedCharacterReference htmlDecodeTree determineBranch cp)
  (_matchNamedCharacterReference htmlDecodeTree determineBranch cp) t.
Proof.
unfold _matchNamedCharacterReference.
apply extends_get_bind. intros HP. ext_fields. cbv zeta.
rewrite len_extendBuffer.
set (fuel := (Z.to_nat (Preprocessor.len (preprocessor t)
                        - Preprocessor.pos (preprocessor t)) + 2)%nat).
set (fuel' := (Z.to_nat (Preprocessor.len (preprocessor t) + Z.of_nat (length more)
                         - Preprocessor.pos (preprocessor t)) + 2)%nat).
destruct (matchLoop_ends fuel 0 (htmlDecodeTree 0) cp None 0 false t)
  as (r & ex & ws & t1 & E1 & Hex & Hhtml & Hlast); [lia|lia|lia|].
apply (extends_bind _ _ _ InState).
- (* the loop, with the fuel of the longer buffer on the right *)
  intros HP'.
  destruct (matchLoop_extends_same fuel 0 (htmlDecodeTree 0) cp None 0 false t HP')
    as (L1 & S1 & C1).
  split; [exact L1|]. split; [exact S1|]. intros F. specialize (C1 F).
  rewrite E1 in C1 |- *. cbn [extendedRes] in *.
  apply (matchLoop_fuel_ge fuel fuel'); [lia|lia|exact C1].
- intros [[r' ex'] ws'] t1' E. rewrite E1 in E. injection E as <- <- <- <-.
  apply (extends_pre _ _ _ (Waiting ex ex)).
  { intros (H1 & H2 & H3). split; [exact H1|]. split; [exact H2|]. intros F.
    destruct (H3 F) as [A B].
    assert (F0 : flagged t = false).
    { destruct (flagged t) eqn:F0; [|reflexivity].
      destruct (matchLoop_extends_same fuel 0 (htmlDecodeTree 0) cp None 0 false t HP)
        as (_ & S1 & _).
      rewrite E1 in S1. cbn [final] in S1. rewrite (S1 F0) in F. discriminate F. }
    destruct HP as (_ & _ & HP3). destruct (HP3 F0) as [A0 _]. lia. }
  apply (extends_bind _ _ _ (Waiting 0 0)).
  + apply (extends_post _ _ _ (Waiting (ex - ex) (ex - ex)));
      [intros t' H; replace 0 with (ex - ex) by lia; exact H|].
    apply extends_unconsume. lia.
  + intros [] t2 _. ext_step. ext_step.
    * ext_step; ext_leaf.
    * apply (extends_bind _ _ _ (Waiting (-1) (-1))).
      -- apply (extends_post _ _ _ (Waiting (0 - 1) (0 - 1))); [lower|].
         apply extends_unconsume. lia.
      -- intros [] t4 _. apply extends_ret.
Qed.

End MatchLoop.

Section ExtendsStateMachine.
Variable getTagID : jsstring -> Z.
Variable isSurrogate : Z -> bool.
Variable isUndefinedCodePoint : Z -> bool.
Variable isControlCodePoint : Z -> bool.
Variable htmlDecodeTree : Z -> Z.
Variable determineBranch : (Z -> Z) -> Z -> Z -> Z -> Z.
Variable rejectsEOF :
forall current i, determineBranch htmlDecodeTree current i CP.EOF < 0.
Variable more : list Z.
Variable isLast : bool.
Variable carry : bool.

Local Abbreviation Ext := (Extends more isLast carry).
Local Abbreviation callAt :=
(callStateAt getTagID isSurrogate isUndefinedCodePoint isControlCodePoint
   htmlDecodeTree determineBranch).

(** After a read past the end the method hibernates, whatever follows. *)
Lemma extends_hibernation (low hex low' hex' : Z) (k1 k2 : M unit) (t : Tokenizer) :
Ext (Waiting low hex) (Waiting low' hex') k1 k2 t ->
Ext (Waiting low hex) (Waiting low' hex')
  (h <- _ensureHibernation ;; if h then ret tt else k1)
  (h <- _ensureHibernation ;; if h then ret tt else k2) t.
Proof.
intros Hk HP.
assert (D : flagged t = true \/ flagged t = false) by (destruct (flagged t); auto).
destruct D as [F|F].
- destruct HP as (H1 & H2 & _). revert F.
  unfold _ensureHibernation, bind, get, _unconsume, modify, ret.
  destruct t as [? ? ? ? ? ? ? ? ? ? ? ? ? [html pos last hit skip] ?]. fields.
  intros ->. fields. split; [|split; [reflexivity|discriminate]].
  split; [exact H1|]. split; [exact H2|]. discriminate.
- assert (E1 : forall k : M unit,
             (h <- _ensureHibernation ;; if h then ret tt else k) t = k t).
  { intros k. unfold _ensureHibernation, bind, get, ret. unfold flagged in F.
    now rewrite F. }
  assert (E2 : forall k : M unit,
             (h <- _ensureHibernation ;; if h then ret tt else k)
               (extended more isLast carry t)
             = k (extended more isLast carry t)).
  { intros k. unfold _ensureHibernation, bind, get, ret. unfold flagged in F.
    destruct t as [? ? ? ? ? ? ? ? ? ? ? ? ? [html pos last hit skip] ?]. fields.
    now rewrite F. }
  rewrite E1, E2. exact (Hk HP).
Qed.

Lemma stateNamedCharacterReference_extends (cp : Z) (t : Tokenizer) :
Ext InState AtHead (_stateNamedCharacterReference htmlDecodeTree determineBranch cp)
  (_stateNamedCharacterReference htmlDecodeTree determineBranch cp) t.
Proof.
unfold _stateNamedCharacterReference.
apply (extends_bind _ _ _ SteppedBack);
  [now apply matchNamedCharacterReference_extends|intros r t' _].
apply extends_hibernation. destruct r as [cps|].
- unfold SteppedBack, AtHead.
  apply (extends_bind _ _ _ (Waiting (-1) (-1))); [|intros [] t2 _].
  + apply extends_each. intros c t2. ext_steps.
  + ext_steps.
- unfold SteppedBack, AtHead. ext_steps.
Qed.

Lemma stateHexademicalCharacterReferenceStart_extends (call : Call) (cp : Z)
  (t : Tokenizer) :
(forall st cp t, st <> State.HEXADEMICAL_CHARACTER_REFERENCE_START ->
                 Ext InState AtHead (call st cp) (call st cp) t) ->
state t = State.HEXADEMICAL_CHARACTER_REFERENCE_START ->
Ext InState AtHead (_stateHexademicalCharacterReferenceStart call cp)
  (_stateHexademicalCharacterReferenceStart call cp) t.
Proof.
intros Hcall Hstate. unfold _stateHexademicalCharacterReferenceStart.
destruct (isAsciiHexDigit cp).
- ext_step; [ext_leaf|]. apply Hcall. discriminate.
- apply (extends_pre _ _ _ (Waiting 1 1)).
  { intros (H1 & H2 & H3). split; [exact H1|]. split; [exact H2|]. intros F.
    destruct (H3 F) as [A B]. specialize (B Hstate). lia. }
  unfold AtHead.
  apply (extends_bind _ _ _ (Waiting 1 1)); [ext_leaf|intros [] t1 _].
  apply (extends_bind _ _ _ (Waiting 1 1)); [ext_steps|intros [] t2 _].
  apply (extends_bind _ _ _ (Waiting 1 1)); [ext_steps|intros [] t3 _].
  apply (extends_bind _ _ _ (Waiting (-1) (-1))); [|intros [] t4 _].
  + apply (extends_post _ _ _ (Waiting (1 - 2) (1 - 2))); [lower|].
    apply extends_unconsume. lia.
  + ext_steps.
Qed.

(** Every state method but the one that steps back, at any nesting. *)
Lemma callStateAt_extends_inner (depth : nat) :
forall st cp t,
  st <> State.HEXADEMICAL_CHARACTER_REFERENCE_START ->
  Ext InState AtHead (callAt depth st cp) (callAt depth st cp) t.
Proof.
induction depth as [|depth IH]; intros st cp t Hst; cbn [callStateAt];
  [apply extends_throw|].
cbv zeta.
assert (Hcall : forall st cp t,
           st <> State.HEXADEMICAL_CHARACTER_REFERENCE_START ->
           Extends more isLast carry (Waiting 0 1) (Waiting (-1) 0)
             (callAt depth st cp) (callAt depth st cp) t) by exact IH.
clear IH.
destruct (Z.eq_dec st State.NAMED_CHARACTER_REFERENCE) as [->|Hnamed];
  [now apply stateNamedCharacterReference_extends|].
repeat first
  [ match goal with
    | |- Extends _ _ _ _ _ (callStateAt _ _ _ _ _ _ _ _ _) _ _ =>
        apply Hcall; not_hex
    | |- Extends _ _ _ _ _ (_stateNamedCharacterReference _ _ _) _ _ =>
        exfalso; apply Hnamed; reflexivity
    | |- Extends _ _ _ _ _ (_stateHexademicalCharacterReferenceStart _ _) _ _ =>
        exfalso; apply Hst; reflexivity
    end
  | ext_step ].
Qed.

Lemma callStateAt_extends (depth : nat) (st cp : Z) (t : Tokenizer) :
(st = State.HEXADEMICAL_CHARACTER_REFERENCE_START -> state t = st) ->
Ext InState AtHead (callAt depth st cp) (callAt depth st cp) t.
Proof.
intros Hst.
destruct (Z.eq_dec st State.HEXADEMICAL_CHARACTER_REFERENCE_START) as [E|E];
  [|now apply callStateAt_extends_inner].
specialize (Hst E). rewrite E in Hst |- *. clear E.
destruct depth as [|depth]; cbn [callStateAt]; [apply extends_throw|].
apply stateHexademicalCharacterReferenceStart_extends; [|exact Hst].
intros st' cp' t' H. now apply callStateAt_extends_inner.
Qed.

(** One round of the parsing loop on a longer buffer. *)
Lemma loopBody_extends (t : Tokenizer) :
Ext AtHead AtHead
  (loopBody getTagID isSurrogate isUndefinedCodePoint isControlCodePoint
     htmlDecodeTree determineBranch)
  (loopBody getTagID isSurrogate isUndefinedCodePoint isControlCodePoint
     htmlDecodeTree determineBranch) t.
Proof.
unfold loopBody, AtHead.
apply (extends_bind _ _ _ (Waiting (-1) 0)); [ext_leaf|intros [] t1 _].
apply (extends_bind _ _ _ (Waiting 0 1)); [|intros cp t2 _].
{ apply (extends_post _ _ _ (Waiting (-1 + 1) (0 + 1))); [lower|].
  apply extends_consume. lia. }
apply (extends_bind _ _ _ (Waiting 0 1)); [ext_leaf|intros h t3 _].
destruct (negb h); [|ext_leaf].
unfold _callState. apply extends_get_bind. intros HP. ext_fields.
apply callStateAt_extends. auto.
Qed.

End ExtendsStateMachine.

(** * Chunks: what a round of the loop keeps *)

Lemma preserves_get_bind (I : Tokenizer -> Prop) {B} (k : Tokenizer -> M B) :
  (forall t, I t -> Preserves I (k t)) -> Preserves I (bind get k).
Proof. intros H t HI. exact (H t HI t HI). Qed.

Lemma triple_ok {A} (I : Tokenizer -> Prop) (m : M A) (t : Tokenizer) :
  Preserves I m -> I t -> forall a t', m t = Ok a t' -> I t'.
Proof. intros Hm HI a t' E. specialize (Hm t HI). now rewrite E in Hm. Qed.

(** One step down the code of a method, for an invariant whose methods
    without a body to look into are dealt with by [leaf], and whose branches
    that cannot be taken are closed by [absurd]. *)
Ltac inv_step leaf absurd :=
  lazymatch goal with
  | |- Preserves _ (bind get _) => apply preserves_get_bind; intros ? ?HI
  | |- Preserves _ (bind _ _) => apply preserves_bind; [|intro]
  | |- Preserves _ (if ?b then _ else _) =>
      destruct b eqn:?; try (exfalso; absurd)
  | |- Preserves _ (match ?x with _ => _ end) => destruct x
  | |- Preserves _ (ret _) => apply preserves_ret
  | |- Preserves _ (throw _) => apply preserves_throw
  | |- Preserves _ (repeatM _ _) => apply preserves_repeatM
  | |- Preserves _ (fold_right _ _ _) => apply preserves_each; intro
  | |- Preserves _ ?m =>
      first [ leaf
            | let h := head_of m in unfold h
            | progress cbv beta zeta ]
  end.

Ltac inv_steps leaf absurd := repeat (inv_step leaf absurd).

Ltac no_absurd := idtac; fail.

(** ** The buffer and the flags of the loop *)

Section RunningInvariant.
Variable html : list Z.
Variable skip : bool.

Lemma Running_modify (f : Tokenizer -> Tokenizer) :
(forall t, preprocessor (f t) = preprocessor t /\ paused (f t) = paused t
           /\ inLoop (f t) = inLoop t /\ active (f t) = active t) ->
Preserves (Running html skip) (modify f).
Proof.
intros Hf. apply triple_modify. intros t (H1 & H2 & H3 & H4 & H5 & H6).
destruct (Hf t) as (E1 & E2 & E3 & E4). unfold Running, flagged.
now rewrite E1, E2, E3, E4.
Qed.

Lemma Running_buffer (g : Preprocessor.t -> Preprocessor.t) (t : Tokenizer) :
(forall p, Preprocessor.lastChunkWritten p = false ->
           Preprocessor.html (g p) = Preprocessor.html p
           /\ Preprocessor.skipNextNewLine (g p) = Preprocessor.skipNextNewLine p
           /\ Preprocessor.lastChunkWritten (g p) = false
           /\ (Preprocessor.endOfChunkHit p = true ->
               Preprocessor.endOfChunkHit (g p) = true)) ->
Running html skip t -> Running html skip (set_preprocessor (g (preprocessor t)) t).
Proof.
intros Hg (H1 & H2 & H3 & H4 & H5 & H6).
destruct (Hg (preprocessor t) H3) as (E1 & E2 & E3 & E4).
unfold Running, flagged in *. destruct t; cbn in *.
rewrite E1, E2, E3. repeat split; auto. destruct H6 as [H6|H6]; auto.
Qed.

Lemma Running_advance : Preserves (Running html skip) preprocessor_advance.
Proof.
intros t H. unfold preprocessor_advance.
pose proof (Running_buffer (fun p => snd (Preprocessor.advance p)) t) as R.
cbv beta in R. destruct (Preprocessor.advance (preprocessor t)) as [cp p] eqn:E. cbn [snd] in R.
apply R; [|exact H]. intros p0 Hl. unfold Preprocessor.advance.
destruct (_ >=? _); cbn; rewrite ?Hl; auto.
Qed.

Lemma Running_peek (offset : Z) : Preserves (Running html skip) (preprocessor_peek offset).
Proof.
intros t H. unfold preprocessor_peek.
pose proof (Running_buffer (fun p => snd (Preprocessor.peek offset p)) t) as R.
cbv beta in R. destruct (Preprocessor.peek offset (preprocessor t)) as [cp p] eqn:E. cbn [snd] in R.
apply R; [|exact H]. intros p0 Hl. unfold Preprocessor.peek, Preprocessor.hitEnd.
destruct (_ >=? _); cbn; rewrite ?Hl; auto.
Qed.

Lemma Running_startsWith (pattern : jsstring) (caseSensitive : bool) :
Preserves (Running html skip) (preprocessor_startsWith pattern caseSensitive).
Proof.
intros t H. unfold preprocessor_startsWith.
pose proof (Running_buffer
              (fun p => snd (Preprocessor.startsWith pattern caseSensitive p)) t) as R.
cbv beta in R. destruct (Preprocessor.startsWith pattern caseSensitive (preprocessor t))
  as [b p] eqn:E. cbn [snd] in R.
apply R; [|exact H]. intros p0 Hl. unfold Preprocessor.startsWith, Preprocessor.hitEnd.
destruct (_ >? _); [|destruct caseSensitive]; cbn; rewrite ?Hl; auto.
Qed.

Lemma Running_unconsume (count : Z) : Preserves (Running html skip) (_unconsume count).
Proof.
apply triple_modify. intros t H.
pose proof (Running_buffer (Preprocessor.retreat count)
              (set_consumedAfterSnapshot (consumedAfterSnapshot t - count) t)) as R.
cbn [preprocessor set_consumedAfterSnapshot] in R.
assert (E : set_preprocessor (Preprocessor.retreat count (preprocessor t))
              (set_consumedAfterSnapshot (consumedAfterSnapshot t - count) t)
            = set_preprocessor (Preprocessor.retreat count (preprocessor t))
                (set_consumedAfterSnapshot (consumedAfterSnapshot t - count) t))
  by reflexivity.
apply R; [intros p Hl; cbn; auto|].
destruct H as (H1 & H2 & H3 & H4 & H5 & H6). unfold Running, flagged in *.
destruct t; cbn in *. auto 10.
Qed.

Lemma Running_dropParsedChunk : Preserves (Running html skip) preprocessor_dropParsedChunk.
Proof. apply triple_modify. intros t H. destruct t as [? ? ? ? ? ? ? ? ? ? ? ? ? [] ?]. exact H. Qed.

Lemma Running_ensureHibernation : Preserves (Running html skip) _ensureHibernation.
Proof.
intros t (H1 & H2 & H3 & H4 & H5 & H6).
unfold _ensureHibernation, bind, get, _unconsume, modify, ret.
destruct t as [? ? ? ? ? ? ? ? ? ? ? ? ? [b pos last hit sk] ?].
unfold Running, flagged in *. cbn in *. destruct hit; cbn; auto 10.
Qed.

Lemma Running_emit (e : Event) : Preserves (Running html skip) (emit e).
Proof. apply Running_modify. intros []; repeat split; reflexivity. Qed.

End RunningInvariant.

Create HintDb running.

#[local] Hint Resolve Running_advance Running_peek Running_startsWith Running_unconsume
  Running_dropParsedChunk Running_ensureHibernation Running_emit : running.

Ltac running_leaf :=
  idtac;
  first [ solve [auto with running]
        | solve [apply Running_modify; intros []; repeat split; reflexivity] ].

(** The branch of a code point that is not EOF. *)
Ltac not_eof :=
  idtac;
  match goal with
  | Hcp : 0 <= ?cp, E : (?cp =? CP.EOF) = true |- _ =>
      apply Z.eqb_eq in E; unfold CP.EOF, CODE_POINTS.EOF in E; lia
  end.

Section RunningStateMachine.
Variable getTagID : jsstring -> Z.
Variable isSurrogate : Z -> bool.
Variable isUndefinedCodePoint : Z -> bool.
Variable isControlCodePoint : Z -> bool.
Variable htmlDecodeTree : Z -> Z.
Variable determineBranch : (Z -> Z) -> Z -> Z -> Z -> Z.
Variable html : list Z.
Variable skip : bool.

Local Abbreviation callAt :=
(callStateAt getTagID isSurrogate isUndefinedCodePoint isControlCodePoint
   htmlDecodeTree determineBranch).

Lemma matchLoop_Running (fuel : nat) :
forall i current cp result excess withoutSemicolon,
  Preserves (Running html skip)
    (matchLoop htmlDecodeTree determineBranch fuel i current cp result excess
       withoutSemicolon).
Proof.
induction fuel as [|fuel IH]; intros; cbn [matchLoop]; [apply preserves_throw|].
cbv zeta. inv_steps ltac:(first [running_leaf | apply IH]) no_absurd.
Qed.

Lemma callStateAt_Running (depth : nat) :
forall st cp, 0 <= cp -> Preserves (Running html skip) (callAt depth st cp).
Proof.
induction depth as [|depth IH]; intros st cp Hcp; cbn [callStateAt];
  [apply preserves_throw|].
cbv zeta.
inv_steps ltac:(first [running_leaf | apply matchLoop_Running | apply IH; exact Hcp])
          not_eof.
Qed.

Lemma nth_nonnegative (l : list Z) (n : nat) :
Forall (fun c => 0 <= c) l -> (n < length l)%nat -> 0 <= nth n l CODE_POINTS.EOF.
Proof.
intros H Hn. rewrite Forall_forall in H. apply H. now apply nth_In.
Qed.

(** A round of the loop on a buffer of code points. *)
Lemma loopBody_Running (t : Tokenizer) :
Forall (fun c => 0 <= c) html ->
-1 <= Preprocessor.pos (preprocessor t) ->
Running html skip t ->
Running html skip
  (final (loopBody getTagID isSurrogate isUndefinedCodePoint isControlCodePoint
            htmlDecodeTree determineBranch t)).
Proof.
intros Hhtml Hpos H. unfold loopBody.
assert (H1 : Running html skip (set_consumedAfterSnapshot 0 t))
  by (revert H; destruct t; exact (fun H => H)).
unfold bind at 1. unfold modify at 1.
assert (Hcons : exists cp t2,
           _consume (set_consumedAfterSnapshot 0 t) = Ok cp t2
           /\ Running html skip t2
           /\ (flagged t2 = false -> 0 <= cp)).
{ destruct H1 as (A1 & A2 & A3 & A4 & A5 & A6).
  unfold _consume, bind, modify, preprocessor_advance, Preprocessor.advance,
    Preprocessor.len, Preprocessor.charAt, Running, flagged in *.
  destruct t as [? ? ? ? ? ? ? ? ? ? ? ? ? [b pos last hit sk] ?]. cbn in *. subst.
  destruct (pos + 1 >=? Z.of_nat (length html)) eqn:E; cbn.
  - eexists _, _. split; [reflexivity|]. cbn. split; [auto 10|]. discriminate.
  - eexists _, _. split; [reflexivity|]. cbn. split; [auto 10|].
    intros F. ztests. apply nth_nonnegative; [exact Hhtml|]. lia. }
destruct Hcons as (cp & t2 & E2 & R2 & Hcp). unfold bind at 1. rewrite E2.
assert (D : flagged t2 = true \/ flagged t2 = false) by (destruct (flagged t2); auto).
destruct D as [F|F].
- pose proof (Running_ensureHibernation html skip t2 R2) as R3.
  assert (E : exists t3, _ensureHibernation t2 = Ok true t3).
  { unfold _ensureHibernation, bind, get, _unconsume, modify, ret.
    unfold flagged in F. rewrite F. eexists. reflexivity. }
  destruct E as (t3 & E). unfold bind. rewrite E in R3 |- *. exact R3.
- unfold bind. unfold _ensureHibernation, bind, get, ret. unfold flagged in F.
  rewrite F. cbn [negb]. unfold _callState, bind, get.
  apply (triple_final (Running html skip)); [|exact R2].
  apply callStateAt_Running. apply Hcp. exact F.
Qed.

End RunningStateMachine.

(** ** States that read nothing *)

Lemma Unflagged_modify (f : Tokenizer -> Tokenizer) :
  (forall t, preprocessor (f t) = preprocessor t
             /\ returnState (f t) = returnState t) ->
  Preserves Unflagged (modify f).
Proof.
  intros Hf. apply triple_modify. intros t (H1 & H2). destruct (Hf t) as (E1 & E2).
  unfold Unflagged, flagged. now rewrite E1, E2.
Qed.

Lemma Unflagged_setReturnState (c : Z) :
  isReturnState c = true -> Preserves Unflagged (setReturnState c).
Proof.
  intros Hc. apply triple_modify. intros t (H1 & H2). split; [|exact Hc].
  revert H1. unfold flagged. now destruct t.
Qed.

Lemma Unflagged_unconsume (count : Z) : Preserves Unflagged (_unconsume count).
Proof.
  apply triple_modify. intros t (H1 & H2). revert H1 H2. unfold Unflagged, flagged.
  destruct t as [? ? ? ? ? ? ? ? ? ? ? ? ? [] ?]. cbn. auto.
Qed.

Lemma Unflagged_dropParsedChunk : Preserves Unflagged preprocessor_dropParsedChunk.
Proof.
  apply triple_modify. intros t H. destruct t as [? ? ? ? ? ? ? ? ? ? ? ? ? [] ?]. exact H.
Qed.

Lemma isReturnState_reads_nothing (c : Z) :
  isReturnState c = true -> readsAhead c = false.
Proof.
  unfold isReturnState. intros H.
  repeat (apply orb_true_iff in H; destruct H as [H|H]);
    apply Z.eqb_eq in H; subst c; reflexivity.
Qed.

Create HintDb unflagged.

#[local] Hint Resolve Unflagged_unconsume Unflagged_dropParsedChunk : unflagged.

Ltac unflagged_leaf :=
  idtac;
  first [ solve [auto with unflagged]
        | solve [apply Unflagged_setReturnState; reflexivity]
        | solve [apply Unflagged_modify; intros []; repeat split; reflexivity] ].

Section UnflaggedStateMachine.
Variable getTagID : jsstring -> Z.
Variable isSurrogate : Z -> bool.
Variable isUndefinedCodePoint : Z -> bool.
Variable isControlCodePoint : Z -> bool.
Variable htmlDecodeTree : Z -> Z.
Variable determineBranch : (Z -> Z) -> Z -> Z -> Z -> Z.

Local Abbreviation callAt :=
(callStateAt getTagID isSurrogate isUndefinedCodePoint isControlCodePoint
   htmlDecodeTree determineBranch).

(** A state that reads nothing ahead leaves the mark as it is. *)
Lemma callStateAt_Unflagged (depth : nat) :
forall st cp, readsAhead st = false -> Preserves Unflagged (callAt depth st cp).
Proof.
induction depth as [|depth IH]; intros st cp Hst; cbn [callStateAt];
  [apply preserves_throw|].
cbv zeta.
repeat first
  [ match goal with
    | |- Preserves _ (callStateAt _ _ _ _ _ _ _ _ _) =>
        apply IH;
        first [ reflexivity
              | apply isReturnState_reads_nothing;
                match goal with H : Unflagged _ |- _ => exact (proj2 H) end ]
    | |- Preserves _ _ => discriminate Hst
    end
  | inv_step unflagged_leaf no_absurd ].
Qed.

End UnflaggedStateMachine.

(** * Chunks: the round that hibernates is run again *)

Lemma startsWith_cases (pattern : jsstring) (caseSensitive : bool) (t : Tokenizer) :
  (Preprocessor.pos (preprocessor t) + Z.of_nat (length pattern)
   > Preprocessor.len (preprocessor t)
   /\ preprocessor_startsWith pattern caseSensitive t = Ok false (marked t))
  \/ (Preprocessor.pos (preprocessor t) + Z.of_nat (length pattern)
      <= Preprocessor.len (preprocessor t)
      /\ exists b, preprocessor_startsWith pattern caseSensitive t = Ok b t).
Proof.
  unfold preprocessor_startsWith, Preprocessor.startsWith.
  destruct (Z.gtb_spec (Preprocessor.pos (preprocessor t) + Z.of_nat (length pattern))
              (Preprocessor.len (preprocessor t))) as [Hs|Hs].
  - left. split; [lia|reflexivity].
  - right. split; [lia|].
    assert (E : set_preprocessor (preprocessor t) t = t) by (destruct t; reflexivity).
    destruct caseSensitive; eexists; rewrite E; reflexivity.
Qed.

Lemma consumeSequenceIfMatch_cases (pattern : jsstring) (caseSensitive : bool)
    (t : Tokenizer) :
  (1 <= length pattern)%nat ->
  (Preprocessor.pos (preprocessor t) + Z.of_nat (length pattern)
   > Preprocessor.len (preprocessor t)
   /\ _consumeSequenceIfMatch pattern caseSensitive t = Ok false (marked t))
  \/ (Preprocessor.pos (preprocessor t) + Z.of_nat (length pattern)
      <= Preprocessor.len (preprocessor t)
      /\ (_consumeSequenceIfMatch pattern caseSensitive t
          = Ok true (advancedBy (length pattern - 1) t)
          \/ _consumeSequenceIfMatch pattern caseSensitive t = Ok false t)).
Proof.
  intros Hlen. unfold _consumeSequenceIfMatch, bind.
  destruct (startsWith_cases pattern caseSensitive t) as [[Hs E]|[Hs [b E]]]; rewrite E.
  - left. split; [exact Hs|reflexivity].
  - right. split; [exact Hs|]. destruct b; [left|right; reflexivity].
    rewrite _advanceBy_inside by lia. reflexivity.
Qed.

Lemma ensureHibernation_marked (t : Tokenizer) :
  Preprocessor.lastChunkWritten (preprocessor t) = false ->
  _ensureHibernation (marked t) = Ok true (hibernated t).
Proof.
  intros H. destruct t as [x1 x2 x3 x4 x5 x6 x7 x8 x9 x10 x11 x12 x13 [h ps la hit sk] x15].
  cbn in H. subst la.
  unfold _ensureHibernation, marked, hibernated, Preprocessor.hitEnd, _unconsume,
    Preprocessor.retreat, bind, get, modify, ret.
  cbn [preprocessor set_preprocessor set_active set_consumedAfterSnapshot
       consumedAfterSnapshot paused inLoop inForeignNode lastStartTagName active state
       returnState charRefCode currentCharacterToken currentToken attrObjects
       currentAttr handlerLog Preprocessor.pos Preprocessor.html
       Preprocessor.lastChunkWritten Preprocessor.endOfChunkHit
       Preprocessor.skipNextNewLine negb].
  now rewrite Z.sub_diag.
Qed.

Lemma ensureHibernation_unflagged (t : Tokenizer) :
  flagged t = false -> _ensureHibernation t = Ok false t.
Proof.
  intros H. unfold _ensureHibernation, bind, get, ret. unfold flagged in H.
  now rewrite H.
Qed.

Lemma ensureHibernation_flagged (t : Tokenizer) :
  flagged t = true -> _ensureHibernation t = Ok true (hibernated t).
Proof.
  intros H. unfold _ensureHibernation, bind, get, ret. unfold flagged in H. rewrite H.
  destruct t as [x1 x2 x3 x4 x5 x6 x7 x8 x9 x10 x11 x12 x13 [h ps la hit sk] x15].
  cbn in H. subst hit.
  unfold hibernated, _unconsume, Preprocessor.retreat, modify. cbn.
  now rewrite Z.sub_diag.
Qed.

Lemma marked_marked (t : Tokenizer) : marked (marked t) = marked t.
Proof. destruct t as [x1 x2 x3 x4 x5 x6 x7 x8 x9 x10 x11 x12 x13 [h ps la hit sk] x15]. reflexivity. Qed.

(** Code that reads nothing and starts with no mark ends with no mark. *)
Lemma not_flagged {A} (m : M A) (t : Tokenizer) :
  Preserves Unflagged m -> Unflagged t -> flagged (final (m t)) = true -> False.
Proof.
  intros Hm Ht F. pose proof (triple_final Unflagged m t Hm Ht) as [F' _].
  rewrite F in F'. discriminate F'.
Qed.

Lemma AtEntry_Unflagged (cp : Z) (t : Tokenizer) : AtEntry cp t -> Unflagged t.
Proof. intros (H1 & _ & _ & _ & _ & _ & H7). split; assumption. Qed.

Lemma Unflagged_advancedBy (n : nat) (t : Tokenizer) :
  Unflagged t -> Unflagged (advancedBy n t).
Proof. unfold Unflagged, flagged. destruct t as [x1 x2 x3 x4 x5 x6 x7 x8 x9 x10 x11 x12 x13 [h ps la hit sk] x15]. exact (fun H => H). Qed.

Lemma marked_cursor (t : Tokenizer) :
  Preprocessor.pos (preprocessor (marked t)) = Preprocessor.pos (preprocessor t)
  /\ Preprocessor.len (preprocessor (marked t)) = Preprocessor.len (preprocessor t).
Proof. destruct t as [x1 x2 x3 x4 x5 x6 x7 x8 x9 x10 x11 x12 x13 [h ps la hit sk] x15]. split; reflexivity. Qed.

(** A sequence too long for what is left of the buffer, looked for once the
    end was hit. *)
Lemma consumeSequenceIfMatch_short (pattern : jsstring) (caseSensitive : bool)
    (t : Tokenizer) :
  Preprocessor.pos (preprocessor t) + Z.of_nat (length pattern)
  > Preprocessor.len (preprocessor t) ->
  _consumeSequenceIfMatch pattern caseSensitive (marked t) = Ok false (marked t).
Proof.
  intros Hs. unfold _consumeSequenceIfMatch, bind.
  destruct (startsWith_cases pattern caseSensitive (marked t)) as [[_ E]|[Hs' _]].
  - rewrite E, marked_marked. reflexivity.
  - destruct (marked_cursor t) as [E1 E2]. rewrite E1, E2 in Hs'. lia.
Qed.

Lemma stays_unflagged {A} (m : M A) (t : Tokenizer) :
  Preserves Unflagged m -> Unflagged t -> flagged (final (m t)) = false.
Proof. intros Hm Ht. exact (proj1 (triple_final Unflagged m t Hm Ht)). Qed.

(** Closes a goal by the mark that code which reads nothing cannot set. *)
Ltac no_mark Hcall :=
  cbv beta iota;
  match goal with
  | |- flagged (final (?k ?t')) = false =>
      apply (stays_unflagged k t');
      [ repeat first
          [ match goal with
            | |- Preserves _ (callStateAt _ _ _ _ _ _ _ _ _) =>
                apply Hcall;
                first [ assumption
                      | reflexivity
                      | apply isReturnState_reads_nothing;
                        match goal with H : Unflagged _ |- _ => exact (proj2 H) end ]
            | |- Preserves _ (?call _ _) =>
                is_var call; apply Hcall;
                first [ assumption
                      | reflexivity
                      | apply isReturnState_reads_nothing;
                        match goal with H : Unflagged _ |- _ => exact (proj2 H) end ]
            end
          | inv_step unflagged_leaf no_absurd ]
      | try assumption; try (apply Unflagged_advancedBy; assumption) ]
  end.

Lemma peek_cases (offset : Z) (t : Tokenizer) :
  (Preprocessor.pos (preprocessor t) + offset >= Preprocessor.len (preprocessor t)
   /\ preprocessor_peek offset t = Ok CP.EOF (marked t))
  \/ (Preprocessor.pos (preprocessor t) + offset < Preprocessor.len (preprocessor t)
      /\ exists c, preprocessor_peek offset t = Ok c t).
Proof.
  unfold preprocessor_peek, Preprocessor.peek.
  destruct (Z.geb_spec (Preprocessor.pos (preprocessor t) + offset)
              (Preprocessor.len (preprocessor t))) as [Hs|Hs].
  - left. split; [lia|reflexivity].
  - right. split; [lia|].
    assert (E : set_preprocessor (preprocessor t) t = t) by (destruct t; reflexivity).
    eexists. rewrite E. reflexivity.
Qed.

(** The test of the two double-escape states: the end of the buffer is in the
    way of the answer, or the six letters and what follows them were read. *)
Lemma scriptSequenceAhead_cases (t : Tokenizer) :
  scriptSequenceAhead t = Ok false (marked t)
  \/ (Preprocessor.pos (preprocessor t) + Z.of_nat (length SEQUENCES.SCRIPT)
      < Preprocessor.len (preprocessor t)
      /\ scriptSequenceAhead t = Ok true t)
  \/ scriptSequenceAhead t = Ok false t.
Proof.
  unfold scriptSequenceAhead, bind.
  destruct (startsWith_cases SEQUENCES.SCRIPT false t) as [[Hs E]|[Hs [b E]]]; rewrite E.
  - left. reflexivity.
  - destruct b; [|right; right; reflexivity].
    destruct (peek_cases (Z.of_nat (length SEQUENCES.SCRIPT)) t)
      as [[Hp E']|[Hp [c E']]]; rewrite E'.
    + left. reflexivity.
    + unfold ret. destruct (isScriptDataDoubleEscapeSequenceEnd c);
        [right; left; split; [exact Hp|reflexivity] | right; right; reflexivity].
Qed.

Lemma triple_weaken {A} (P P' Q Q' E E' : Tokenizer -> Prop) (m : M A) :
  (forall t, P' t -> P t) -> (forall t, Q t -> Q' t) -> (forall t, E t -> E' t) ->
  Triple P m Q E -> Triple P' m Q' E'.
Proof.
  intros HP HQ HE Hm t H. specialize (Hm t (HP t H)).
  destruct (m t); [apply HQ|apply HE]; exact Hm.
Qed.

Lemma Inside_modify (n : Z) (f : Tokenizer -> Tokenizer) :
  (forall t, preprocessor (f t) = preprocessor t
             /\ returnState (f t) = returnState t) ->
  Preserves (Inside n) (modify f).
Proof.
  intros Hf. apply triple_modify. intros t ((H1 & H2) & H3). destruct (Hf t) as (E1 & E2).
  unfold Inside, Unflagged, flagged. now rewrite E1, E2.
Qed.

Lemma Inside_consume (n : Z) :
  0 <= n -> Triple (Inside (n + 1)) _consume (Inside n) (Inside n).
Proof.
  intros Hn t ((H1 & H2) & H3). revert H1 H2 H3.
  unfold _consume, bind, modify, preprocessor_advance, Preprocessor.advance, Inside,
    Unflagged, flagged.
  destruct t as [x1 x2 x3 x4 x5 x6 x7 x8 x9 x10 x11 x12 x13 [h ps la hit sk] x15].
  cbn. intros H1 H2 H3.
  unfold Preprocessor.len in *. cbn [Preprocessor.html Preprocessor.pos] in *.
  destruct (Z.geb_spec (ps + 1) (Z.of_nat (length h))); [lia|].
  cbn. repeat split; try assumption. lia.
Qed.

Lemma Inside_emitCodePoint (n c : Z) : Preserves (Inside n) (_emitCodePoint c).
Proof.
  inv_steps ltac:(idtac; apply Inside_modify; intros []; split; reflexivity) no_absurd.
Qed.

(** Code points inside the buffer are consumed and emitted without its end
    being seen. *)
Lemma consume_and_emit_inside (n : nat) :
  Triple (Inside (Z.of_nat n)) (repeatM n (c <- _consume ;; _emitCodePoint c))
    Unflagged Unflagged.
Proof.
  induction n as [|n IH]; cbn [repeatM].
  - intros t [H _]. exact H.
  - apply (triple_bind _ (Inside (Z.of_nat n))); [|intros _; exact IH].
    apply (triple_bind _ (Inside (Z.of_nat n))).
    + apply (triple_weaken (Inside (Z.of_nat n + 1)) _ (Inside (Z.of_nat n)) _
               (Inside (Z.of_nat n))).
      * intros t H. now rewrite Nat2Z.inj_succ, <- Z.add_1_r in H.
      * auto.
      * intros t [H _]. exact H.
      * apply Inside_consume. lia.
    + intros c. apply (triple_weaken (Inside (Z.of_nat n)) _ (Inside (Z.of_nat n)) _
                         (Inside (Z.of_nat n))); auto.
      * intros t [H _]. exact H.
      * apply Inside_emitCodePoint.
Qed.

Lemma bind_eq {A B} (m m' : M A) (k : A -> M B) (t t' : Tokenizer) :
  m t = m' t' -> bind m k t = bind m' k t'.
Proof. unfold bind. now intros ->. Qed.

Lemma bind_ok {A B} (m : M A) (k : A -> M B) (t t' : Tokenizer) (a : A) :
  m t = Ok a t' -> bind m k t = k a t'.
Proof. unfold bind. now intros ->. Qed.

Lemma Unflagged_withSpecialEndTag (t : Tokenizer) :
  Unflagged t -> Unflagged (withSpecialEndTag t).
Proof.
  unfold withSpecialEndTag. destruct (nameAhead t); [|exact (fun H => H)].
  destruct t. exact (fun H => H).
Qed.

Lemma Unflagged_set_currentToken (c : option Token) (t : Tokenizer) :
  Unflagged t -> Unflagged (set_currentToken c t).
Proof. destruct t. exact (fun H => H). Qed.

(** ** The match of a named reference moves the cursor only *)

Lemma SameRound_buffer (t0 t : Tokenizer) (k : Z) (hit : bool) :
  SameRound t0 t ->
  SameRound t0
    (set_preprocessor
       (Preprocessor.mk (Preprocessor.html (preprocessor t))
          (Preprocessor.pos (preprocessor t) + k)
          (Preprocessor.lastChunkWritten (preprocessor t)) hit
          (Preprocessor.skipNextNewLine (preprocessor t)))
       (set_consumedAfterSnapshot (consumedAfterSnapshot t + k) t)).
Proof.
  unfold SameRound. intros <-.
  destruct t as [x1 x2 x3 x4 x5 x6 x7 x8 x9 x10 x11 x12 x13 [h ps la hit' sk] x15].
  unfold hibernated. cbn.
  replace (ps + k - (x9 + k)) with (ps - x9) by lia. reflexivity.
Qed.

Lemma SameRound_mark (t0 t : Tokenizer) (hit : bool) :
  SameRound t0 t ->
  SameRound t0
    (set_preprocessor
       (Preprocessor.mk (Preprocessor.html (preprocessor t))
          (Preprocessor.pos (preprocessor t))
          (Preprocessor.lastChunkWritten (preprocessor t)) hit
          (Preprocessor.skipNextNewLine (preprocessor t))) t).
Proof.
  unfold SameRound. intros <-.
  destruct t as [x1 x2 x3 x4 x5 x6 x7 x8 x9 x10 x11 x12 x13 [h ps la hit' sk] x15].
  reflexivity.
Qed.

Lemma SameRound_consume (t0 : Tokenizer) : Preserves (SameRound t0) _consume.
Proof.
  intros t H. unfold _consume, bind, modify, preprocessor_advance, Preprocessor.advance.
  cbn [preprocessor set_consumedAfterSnapshot].
  destruct (_ >=? _);
    match goal with
    | |- SameRound _ (set_preprocessor (Preprocessor.mk _ _ _ ?hit _) _) =>
        pose proof (SameRound_buffer t0 t 1 hit H) as R
    end;
    revert R; destruct t as [x1 x2 x3 x4 x5 x6 x7 x8 x9 x10 x11 x12 x13 [h ps la hit' sk] x15];
    exact (fun R => R).
Qed.

Lemma SameRound_unconsume (t0 : Tokenizer) (count : Z) :
  Preserves (SameRound t0) (_unconsume count).
Proof.
  apply triple_modify. intros t H.
  pose proof (SameRound_buffer t0 t (- count) (Preprocessor.endOfChunkHit (preprocessor t)) H)
    as R.
  revert R. destruct t as [x1 x2 x3 x4 x5 x6 x7 x8 x9 x10 x11 x12 x13 [h ps la hit' sk] x15].
  exact (fun R => R).
Qed.

Lemma SameRound_peek (t0 : Tokenizer) (offset : Z) :
  Preserves (SameRound t0) (preprocessor_peek offset).
Proof.
  intros t H. unfold preprocessor_peek, Preprocessor.peek, Preprocessor.hitEnd.
  destruct (_ >=? _).
  - exact (SameRound_mark t0 t _ H).
  - revert H. destruct t as [x1 x2 x3 x4 x5 x6 x7 x8 x9 x10 x11 x12 x13 [h ps la hit' sk] x15].
    exact (fun H => H).
Qed.

Section CursorOnly.
Variable htmlDecodeTree : Z -> Z.
Variable determineBranch : (Z -> Z) -> Z -> Z -> Z -> Z.

Lemma matchLoop_SameRound (t0 : Tokenizer) (fuel : nat) :
forall i current cp result excess withoutSemicolon,
  Preserves (SameRound t0)
    (matchLoop htmlDecodeTree determineBranch fuel i current cp result excess
       withoutSemicolon).
Proof.
induction fuel as [|fuel IH]; intros; cbn [matchLoop]; [apply preserves_throw|].
cbv zeta.
inv_steps ltac:(first [ apply SameRound_consume | apply SameRound_peek | apply IH ])
          no_absurd.
Qed.

Lemma SameRound_returnState (t0 t : Tokenizer) :
SameRound t0 t -> returnState t = returnState t0.
Proof.
unfold SameRound. intros H. apply (f_equal returnState) in H. revert H.
destruct t, t0. exact (fun H => H).
Qed.

Lemma SameRound_Retriable (t0 t : Tokenizer) : SameRound t0 t -> Retriable t0 t.
Proof. intros H. split; [now apply SameRound_returnState|intros _; exact H]. Qed.

Lemma unmarked_Retriable (t0 t : Tokenizer) :
Unflagged t /\ returnState t = returnState t0 -> Retriable t0 t.
Proof. intros [[H1 _] H2]. split; [exact H2|]. rewrite H1. discriminate. Qed.

Lemma unmarked_modify (t0 : Tokenizer) (f : Tokenizer -> Tokenizer) :
(forall t, preprocessor (f t) = preprocessor t
           /\ returnState (f t) = returnState t) ->
Preserves (fun t => Unflagged t /\ returnState t = returnState t0) (modify f).
Proof.
intros Hf. apply triple_modify. intros t ((H1 & H2) & H3). destruct (Hf t) as (E1 & E2).
unfold Unflagged, flagged. now rewrite E1, E2.
Qed.

Lemma unmarked_unconsume (t0 : Tokenizer) (count : Z) :
Preserves (fun t => Unflagged t /\ returnState t = returnState t0) (_unconsume count).
Proof.
apply triple_modify. intros t. unfold Unflagged, flagged.
destruct t as [x1 x2 x3 x4 x5 x6 x7 x8 x9 x10 x11 x12 x13 [h ps la hit' sk] x15].
exact (fun H => H).
Qed.

(** If the end of the buffer was seen, the match has left nothing but the
  place of the cursor to undo. *)
Lemma matchNamedCharacterReference_Retriable (cp : Z) (t0 : Tokenizer) :
isReturnState (returnState t0) = true ->
Retriable t0
  (final (_matchNamedCharacterReference htmlDecodeTree determineBranch cp t0)).
Proof.
intros Hrs. unfold _matchNamedCharacterReference. unfold bind at 1. unfold get at 1.
cbv zeta. unfold bind at 1.
pose proof (matchLoop_SameRound t0
              (Z.to_nat (Preprocessor.len (preprocessor t0)
                         - Preprocessor.pos (preprocessor t0)) + 2)
              0 (htmlDecodeTree 0) cp None 0 false t0 eq_refl) as H1.
destruct (matchLoop _ _ _ _ _ _ _ _ _ t0) as [[[r ex] ws] t1|e t1];
  [|now apply SameRound_Retriable].
unfold bind at 1. pose proof (SameRound_unconsume t0 ex t1 H1) as H2.
destruct (_unconsume ex t1) as [[] t2|e t2]; [|now apply SameRound_Retriable].
unfold bind at 1. unfold get at 1.
destruct (ws && negb (Preprocessor.endOfChunkHit (preprocessor t2))) eqn:E.
- apply andb_true_iff in E. destruct E as [_ E]. apply negb_true_iff in E.
  assert (U : Unflagged t2 /\ returnState t2 = returnState t0).
  { pose proof (SameRound_returnState t0 t2 H2) as R. repeat split; try assumption.
    now rewrite R. }
  apply unmarked_Retriable.
  apply (triple_final (fun t => Unflagged t /\ returnState t = returnState t0)); [|exact U].
  inv_steps ltac:(first [ apply unmarked_unconsume
                        | apply unmarked_modify; intros []; split; reflexivity ])
            no_absurd.
- apply SameRound_Retriable.
  apply (triple_final (SameRound t0)); [|exact H2].
  inv_steps ltac:(apply SameRound_unconsume) no_absurd.
Qed.

End CursorOnly.

Section Retry.
Variable getTagID : jsstring -> Z.
Variable isSurrogate : Z -> bool.
Variable isUndefinedCodePoint : Z -> bool.
Variable isControlCodePoint : Z -> bool.
Variable htmlDecodeTree : Z -> Z.
Variable determineBranch : (Z -> Z) -> Z -> Z -> Z -> Z.
Variable rejectsEOF :
forall current i, determineBranch htmlDecodeTree current i CP.EOF < 0.

Local Abbreviation callAt :=
(callStateAt getTagID isSurrogate isUndefinedCodePoint isControlCodePoint
   htmlDecodeTree determineBranch).
Local Abbreviation round :=
(loopBody getTagID isSurrogate isUndefinedCodePoint isControlCodePoint
   htmlDecodeTree determineBranch).

(** After a hibernation at the start of a state method, the next round on a
  longer buffer consumes the same code point and calls the same method. *)
Lemma round_after_hibernation (cp : Z) (t : Tokenizer) (more : list Z)
  (isLast carry : bool) :
AtEntry cp t ->
round (resumed more isLast carry (hibernated t))
= callAt callStackLimit (state t) cp (extended more isLast carry t).
Proof.
intros (H1 & H2 & H3 & H4 & H5 & H6 & H7).
destruct t as [pa il ifn ls ac st rs crc cas cct ctk ao ca [h ps la hit sk] hl].
unfold flagged, Preprocessor.len, Preprocessor.charAt in *. cbn in H1, H2, H3, H4, H5, H6.
subst hit la ac cas.
unfold loopBody, resumed, hibernated, extended, extendBuffer, _callState, _consume,
  _ensureHibernation, preprocessor_advance, Preprocessor.advance, Preprocessor.len,
  Preprocessor.charAt, bind, get, modify, ret.
cbn [preprocessor set_preprocessor set_active set_consumedAfterSnapshot
     consumedAfterSnapshot paused inLoop inForeignNode lastStartTagName active state
     returnState charRefCode currentCharacterToken currentToken attrObjects
     currentAttr handlerLog Preprocessor.pos Preprocessor.html
     Preprocessor.lastChunkWritten Preprocessor.endOfChunkHit
     Preprocessor.skipNextNewLine negb].
replace (ps - 1 + 1) with ps by lia.
assert (E : (ps >=? Z.of_nat (length (h ++ more))) = false).
{ rewrite length_app, Z.geb_leb. apply Z.leb_gt. lia. }
rewrite E.
cbn [preprocessor set_preprocessor set_active set_consumedAfterSnapshot
     consumedAfterSnapshot paused inLoop inForeignNode lastStartTagName active state
     returnState charRefCode currentCharacterToken currentToken attrObjects
     currentAttr handlerLog Preprocessor.pos Preprocessor.html
     Preprocessor.lastChunkWritten Preprocessor.endOfChunkHit
     Preprocessor.skipNextNewLine negb].
rewrite nth_inside by lia. rewrite H6. reflexivity.
Qed.

Section LookaheadStates.
Variable call : Call.
Hypothesis call_reads_nothing :
forall st c, readsAhead st = false -> Preserves Unflagged (call st c).

Lemma stateMarkupDeclarationOpen_hibernates (cp : Z) (t : Tokenizer) :
AtEntry cp t -> Hibernates (_stateMarkupDeclarationOpen call cp) t.
Proof.
intros Ht. pose proof (AtEntry_Unflagged cp t Ht) as Hu.
destruct Ht as (H1 & H2 & _).
unfold Hibernates, _stateMarkupDeclarationOpen.
destruct (consumeSequenceIfMatch_cases SEQUENCES.DASH_DASH true t)
as [[S1 E1]|[S1 [E1|E1]]]; [cbn; lia| | |].
- (* the end of the buffer is too close for any of the three *)
left. unfold bind at 1. rewrite E1.
unfold bind at 1. rewrite consumeSequenceIfMatch_short by (cbn in *; lia).
unfold bind at 1. rewrite consumeSequenceIfMatch_short by (cbn in *; lia).
unfold bind at 1. now rewrite ensureHibernation_marked.
- right. unfold bind at 1. rewrite E1. no_mark call_reads_nothing.
- destruct (consumeSequenceIfMatch_cases SEQUENCES.DOCTYPE false t)
  as [[S2 E2]|[S2 [E2|E2]]]; [cbn; lia| | |].
+ left. unfold bind at 1. rewrite E1. unfold bind at 1. rewrite E2.
  unfold bind at 1. rewrite consumeSequenceIfMatch_short by (cbn in *; lia).
  unfold bind at 1. now rewrite ensureHibernation_marked.
+ right. unfold bind at 1. rewrite E1. unfold bind at 1. rewrite E2.
  no_mark call_reads_nothing.
+ right. unfold bind at 1. rewrite E1. unfold bind at 1. rewrite E2.
  destruct (consumeSequenceIfMatch_cases SEQUENCES.CDATA_START true t)
    as [[S3 E3]|[S3 [E3|E3]]]; [cbn; lia| | |].
  * cbn in S2, S3. lia.
  * unfold bind at 1. rewrite E3. no_mark call_reads_nothing.
  * unfold bind at 1. rewrite E3.
    unfold bind at 1. rewrite (ensureHibernation_unflagged t H1). cbn [negb].
    no_mark call_reads_nothing.
Qed.

Lemma stateAfterDoctypeName_hibernates (cp : Z) (t : Tokenizer) :
AtEntry cp t -> Hibernates (_stateAfterDoctypeName call cp) t.
Proof.
intros Ht. pose proof (AtEntry_Unflagged cp t Ht) as Hu.
destruct Ht as (H1 & H2 & _).
unfold Hibernates, _stateAfterDoctypeName.
destruct (isWhitespace cp); [right; no_mark call_reads_nothing|].
destruct (cp =? CP.GREATER_THAN_SIGN); [right; no_mark call_reads_nothing|].
destruct (cp =? CP.EOF); [right; no_mark call_reads_nothing|].
destruct (consumeSequenceIfMatch_cases SEQUENCES.PUBLIC false t)
as [[S1 E1]|[S1 [E1|E1]]]; [cbn; lia| | |].
- left. unfold bind at 1. rewrite E1.
unfold bind at 1. rewrite consumeSequenceIfMatch_short by (cbn in *; lia).
unfold bind at 1. now rewrite ensureHibernation_marked.
- right. unfold bind at 1. rewrite E1. no_mark call_reads_nothing.
- right. unfold bind at 1. rewrite E1.
destruct (consumeSequenceIfMatch_cases SEQUENCES.SYSTEM false t)
  as [[S2 E2]|[S2 [E2|E2]]]; [cbn; lia| | |].
+ cbn in S1, S2. lia.
+ unfold bind at 1. rewrite E2. no_mark call_reads_nothing.
+ unfold bind at 1. rewrite E2.
  unfold bind at 1. rewrite (ensureHibernation_unflagged t H1). cbn [negb].
  no_mark call_reads_nothing.
Qed.

(** The two double-escape states, with the state they go to when [script] is
ahead and the one they fall back to. *)
Lemma doubleEscape_hibernates (found fallback cp : Z) (t : Tokenizer) :
readsAhead fallback = false ->
AtEntry cp t ->
Hibernates (doubleEscapeState call found fallback cp) t.
Proof.
intros Hfb Ht. pose proof (AtEntry_Unflagged cp t Ht) as Hu.
destruct Ht as (H1 & H2 & _). unfold Hibernates, doubleEscapeState.
destruct (scriptSequenceAhead_cases t) as [E|[[Hp E]|E]].
- left. unfold bind at 1. rewrite E.
unfold bind at 1. now rewrite ensureHibernation_marked.
- right. unfold bind at 1. rewrite E. cbv iota.
assert (T : Triple (Inside (Z.of_nat (length SEQUENCES.SCRIPT)))
              (_emitCodePoint cp ;;
               repeatM (length SEQUENCES.SCRIPT) (c <- _consume ;; _emitCodePoint c) ;;
               setState found) Unflagged Unflagged).
{ apply (triple_bind _ (Inside (Z.of_nat (length SEQUENCES.SCRIPT)))).
  - apply (triple_weaken (Inside (Z.of_nat (length SEQUENCES.SCRIPT))) _
             (Inside (Z.of_nat (length SEQUENCES.SCRIPT))) _
             (Inside (Z.of_nat (length SEQUENCES.SCRIPT)))); auto.
    + intros t' [H _]. exact H.
    + apply Inside_emitCodePoint.
  - intros _. apply (triple_bind _ Unflagged); [apply consume_and_emit_inside|].
    intros _. unflagged_leaf. }
specialize (T t (conj Hu Hp)). apply (f_equal final) in E. 
match goal with |- flagged (final ?r) = false => destruct r end; exact (proj1 T).
- right. unfold bind at 1. rewrite E.
unfold bind at 1. rewrite (ensureHibernation_unflagged t H1). cbn [negb].
no_mark call_reads_nothing.
Qed.

Lemma stateNamedCharacterReference_hibernates (cp : Z) (t : Tokenizer) :
AtEntry cp t ->
Hibernates (_stateNamedCharacterReference htmlDecodeTree determineBranch cp) t.
Proof.
intros Ht. pose proof (AtEntry_Unflagged cp t Ht) as Hu.
pose proof (matchNamedCharacterReference_Retriable htmlDecodeTree determineBranch
            cp t (proj2 Hu)) as R.
destruct (matchNamedCharacterReference_returns htmlDecodeTree determineBranch
          rejectsEOF cp t) as (r & t1 & E).
rewrite E in R. cbn [final] in R. destruct R as [R1 R2].
unfold Hibernates, _stateNamedCharacterReference.
destruct (flagged t1) eqn:F; [left|right]; unfold bind at 1; rewrite E; cbv beta iota.
- unfold bind at 1. rewrite (ensureHibernation_flagged t1 F).
cbv iota. unfold ret. f_equal. exact (R2 eq_refl).
- unfold bind at 1. rewrite (ensureHibernation_unflagged t1 F). cbv iota.
assert (U : Unflagged t1) by (split; [exact F|rewrite R1; exact (proj2 Hu)]).
no_mark call_reads_nothing.
Qed.

(** An end-tag-name state with the text state it falls back to: it goes to
sleep with the end tag it may have built, or it does not see the end of
the buffer. *)
Lemma endTagName_hibernates (text cp : Z) (t : Tokenizer) :
readsAhead text = false ->
AtEntry cp t ->
endTagNameState getTagID call text cp t = Ok tt (hibernated (withSpecialEndTag t))
\/ flagged (final (endTagNameState getTagID call text cp t)) = false.
Proof.
intros Htext Ht. pose proof (AtEntry_Unflagged cp t Ht) as Hu.
destruct Ht as (H1 & H2 & _). unfold endTagNameState.
destruct (specialEndTagLookahead t) as [c| |] eqn:L.
- right. rewrite (bind_eq _ _ _ _ _ (handleSpecialEndTag_matched getTagID cp c t H1 L)).
pose proof (Unflagged_set_currentToken (Some (TagTok (specialEndTag t))) t Hu) as Hu'.
no_mark call_reads_nothing.
- right. rewrite (bind_ok _ _ _ _ _ (handleSpecialEndTag_mismatch getTagID cp t H1 L)).
pose proof (Unflagged_withSpecialEndTag t Hu) as Hu'.
no_mark call_reads_nothing.
- left. now rewrite (bind_ok _ _ _ _ _ (handleSpecialEndTag_needMoreInput getTagID cp t H1 L)).
Qed.

End LookaheadStates.

Section StateRetry.
Variable more : list Z.
Variable isLast : bool.
Variable carry : bool.

(** The depth of the calls, three at least: the loop calls a state, which may
call a state that reads ahead, which may call a text state. *)
Variable depth : nat.

Local Abbreviation ext := (extended more isLast carry).
Local Abbreviation top := (callAt (S (S (S depth)))).
Local Abbreviation Again := (Retries top more isLast carry).

Lemma Kept_refl (t : Tokenizer) : Kept t t.
Proof. repeat split. Qed.

Lemma Kept_trans (t1 t2 t3 : Tokenizer) : Kept t1 t2 -> Kept t2 t3 -> Kept t1 t3.
Proof.
intros (A1 & A2 & A3 & A4 & A5 & A6) (B1 & B2 & B3 & B4 & B5 & B6).
repeat split; congruence.
Qed.

Lemma Kept_AtEntry (cp : Z) (t t' : Tokenizer) : Kept t t' -> AtEntry cp t -> AtEntry cp t'.
Proof.
intros (A1 & A2 & A3 & A4 & A5 & A6). unfold AtEntry, flagged.
now rewrite A1, A2, A3, A6.
Qed.

(** The name that was ahead is ahead in the longer buffer. *)
Lemma startsWith_extended (t : Tokenizer) :
0 <= Preprocessor.pos (preprocessor t) ->
nameAhead t = true ->
Preprocessor.startsWith (lastStartTagName t) false
(extendBuffer more isLast carry (preprocessor t))
= (true, extendBuffer more isLast carry (preprocessor t)).
Proof.
intros Hpos. unfold nameAhead, Preprocessor.startsWith, lowercased, Preprocessor.window.
rewrite len_extendBuffer.
destruct t as [x1 x2 x3 x4 x5 x6 x7 x8 x9 x10 x11 x12 x13 [h ps la hit sk] x15].
unfold Preprocessor.len. cbn in *. intros N. apply andb_true_iff in N. destruct N as [N1 N2].
apply negb_true_iff in N1. rewrite Z.gtb_ltb in N1. apply Z.ltb_ge in N1.
destruct (Z.gtb_spec (ps + Z.of_nat (length x4))
          (Z.of_nat (length h) + Z.of_nat (length more))) as [G|G]; [lia|].
rewrite (window_inside more h ps (length x4) Hpos N1), N2. reflexivity.
Qed.

Lemma set_currentToken_twice (c c' : option Token) (t : Tokenizer) :
set_currentToken c (set_currentToken c' t) = set_currentToken c t.
Proof. destruct t. reflexivity. Qed.

(** The end tag built before the end of the buffer was seen is built again. *)
Lemma handleSpecialEndTag_again (cp : Z) (t : Tokenizer) :
0 <= Preprocessor.pos (preprocessor t) ->
handleSpecialEndTag getTagID cp (ext (withSpecialEndTag t))
= handleSpecialEndTag getTagID cp (ext t).
Proof.
intros Hpos. unfold withSpecialEndTag. destruct (nameAhead t) eqn:N; [|reflexivity].
pose proof (startsWith_extended t Hpos N) as E.
unfold handleSpecialEndTag, bind, get, preprocessor_startsWith.
destruct t as [x1 x2 x3 x4 x5 x6 x7 x8 x9 x10 x11 x12 x13 [h ps la hit sk] x15].
cbn [extended preprocessor set_preprocessor set_currentToken lastStartTagName] in *.
rewrite E. cbn [negb]. reflexivity.
Qed.

Lemma callStateAt_lookahead_depth (d d' : nat) (st cp : Z) :
In st lookaheadStates -> callAt (S (S d)) st cp = callAt (S (S d')) st cp.
Proof. intros H. repeat (destruct H as [<-|H]; [reflexivity|]). destruct H. Qed.

Lemma Kept_withSpecialEndTag (t : Tokenizer) : Kept t (withSpecialEndTag t).
Proof.
unfold withSpecialEndTag. destruct (nameAhead t); [|apply Kept_refl].
destruct t. repeat split.
Qed.

Lemma state_withSpecialEndTag (t : Tokenizer) : state (withSpecialEndTag t) = state t.
Proof. unfold withSpecialEndTag. destruct (nameAhead t); [|reflexivity]. now destruct t. Qed.

Lemma hibernates_retries (cp : Z) (m : M unit) (t : Tokenizer) :
state t <> State.HEXADEMICAL_CHARACTER_REFERENCE_START ->
top (state t) cp (ext t) = m (ext t) ->
Hibernates m t -> Again cp m t.
Proof.
intros Hst E [H|H]; [right|left; exact H].
exists t. repeat split; assumption.
Qed.

Lemma endTagName_retries (call : Call) (text cp : Z) (t : Tokenizer) :
(forall st c, readsAhead st = false -> Preserves Unflagged (call st c)) ->
readsAhead text = false ->
state t <> State.HEXADEMICAL_CHARACTER_REFERENCE_START ->
top (state t) cp = endTagNameState getTagID call text cp ->
AtEntry cp t ->
Again cp (endTagNameState getTagID call text cp) t.
Proof.
intros Hcall Htext Hst E Ht.
destruct (endTagName_hibernates call Hcall text cp t Htext Ht) as [H|H];
[right|left; exact H].
exists (withSpecialEndTag t). split; [exact H|]. split; [apply Kept_withSpecialEndTag|].
rewrite state_withSpecialEndTag. split; [exact Hst|]. rewrite E.
unfold endTagNameState. apply bind_eq. apply handleSpecialEndTag_again.
destruct Ht as (_ & _ & _ & _ & Hpos & _). lia.
Qed.

(** The states that read ahead and call no state that does, at any depth. *)
Lemma lookahead_retries (d : nat) (st cp : Z) (t : Tokenizer) :
AtEntry cp t -> state t = st -> In st lookaheadStates ->
Again cp (callAt (S (S d)) st cp) t.
Proof.
intros Ht Hs Hin.
pose proof (callStateAt_Unflagged getTagID isSurrogate isUndefinedCodePoint
            isControlCodePoint htmlDecodeTree determineBranch (S d)) as U.
assert (D : top st cp = callAt (S (S d)) st cp)
by (apply (callStateAt_lookahead_depth (S depth) d); exact Hin).
assert (Hst : state t <> State.HEXADEMICAL_CHARACTER_REFERENCE_START)
by (rewrite Hs; intros E; rewrite E in Hin;
    repeat (destruct Hin as [Hin|Hin]; [discriminate Hin|]); destruct Hin).
rewrite <- Hs in D at 1.
destruct Hin as [<-|[<-|[<-|[<-|[<-|[<-|[<-|[]]]]]]]].
- exact (endTagName_retries (callAt (S d)) State.RCDATA cp t U eq_refl Hst D Ht).
- exact (endTagName_retries (callAt (S d)) State.RAWTEXT cp t U eq_refl Hst D Ht).
- exact (endTagName_retries (callAt (S d)) State.SCRIPT_DATA cp t U eq_refl Hst D Ht).
- exact (endTagName_retries (callAt (S d)) State.SCRIPT_DATA_ESCAPED cp t U eq_refl Hst D Ht).
- apply hibernates_retries; [exact Hst|now rewrite D|].
exact (doubleEscape_hibernates (callAt (S d)) U State.SCRIPT_DATA_DOUBLE_ESCAPED
         State.SCRIPT_DATA_ESCAPED cp t eq_refl Ht).
- apply hibernates_retries; [exact Hst|now rewrite D|].
exact (doubleEscape_hibernates (callAt (S d)) U State.SCRIPT_DATA_ESCAPED
         State.SCRIPT_DATA_DOUBLE_ESCAPED cp t eq_refl Ht).
- apply hibernates_retries; [exact Hst|now rewrite D|].
exact (stateNamedCharacterReference_hibernates cp t Ht).
Qed.

Lemma Kept_modify (t0 : Tokenizer) (f : Tokenizer -> Tokenizer) :
(forall t, Kept t (f t)) -> Preserves (Kept t0) (modify f).
Proof. intros Hf. apply triple_modify. intros t H. exact (Kept_trans _ _ _ H (Hf t)). Qed.

Ltac kept_leaf :=
idtac; solve [apply Kept_modify; intros []; repeat split; reflexivity].

(** A state that does something that reads nothing, and then calls a state
that reads ahead. *)
Lemma caller_retries (pre inner : M unit) (cp : Z) (t : Tokenizer) :
AtEntry cp t ->
Preserves Unflagged pre ->
Preserves (Kept t) pre ->
(flagged (final (pre t)) = false -> pre (ext t) = extendedRes more isLast carry (pre t)) ->
(forall t1, AtEntry cp t1 -> pre t = Ok tt t1 -> Again cp inner t1) ->
Again cp (pre ;; inner) t.
Proof.
intros Ht Hu Hk Hext Hinner.
pose proof (triple_final Unflagged pre t Hu (AtEntry_Unflagged cp t Ht)) as [U _].
specialize (Hext U). specialize (Hk t (Kept_refl t)).
destruct (pre t) as [[] t1|e t1] eqn:E.
- destruct (Hinner t1 (Kept_AtEntry cp t t1 Hk Ht) eq_refl) as [L|(t' & E1 & K & S & Q)].
+ left. unfold bind. rewrite E. exact L.
+ right. exists t'. split; [unfold bind; rewrite E; exact E1|].
  split; [exact (Kept_trans _ _ _ Hk K)|]. split; [exact S|].
  unfold bind. rewrite Hext. exact Q.
- left. unfold bind. rewrite E. exact U.
Qed.

Lemma setState_extended (c : Z) (t : Tokenizer) :
setState c (ext t) = extendedRes more isLast carry (setState c t).
Proof. destruct t. reflexivity. Qed.

Lemma AtEntry_InState (cp : Z) (t : Tokenizer) :
AtEntry cp t -> state t <> State.HEXADEMICAL_CHARACTER_REFERENCE_START -> InState t.
Proof.
intros (H1 & H2 & H3 & H4 & H5 & H6 & H7) Hst. split; [exact H2|]. split; [exact H7|].
intros _. split; [lia|]. intros E. now elim Hst.
Qed.

Lemma emitChars_extended (ch : jsstring) (cp : Z) (t : Tokenizer) :
AtEntry cp t -> state t <> State.HEXADEMICAL_CHARACTER_REFERENCE_START ->
flagged (final (_emitChars ch t)) = false ->
_emitChars ch (ext t) = extendedRes more isLast carry (_emitChars ch t).
Proof.
intros Ht Hst.
assert (X : Extends more isLast carry InState InState (_emitChars ch) (_emitChars ch) t)
by (repeat ext_step).
exact (proj2 (proj2 (X (AtEntry_InState cp t Ht Hst)))).
Qed.

(** A call to an end-tag-name state from its end-tag-open state. *)
Lemma endTagOpen_retries (name text cp : Z) (t : Tokenizer) :
In name lookaheadStates -> readsAhead text = false ->
AtEntry cp t ->
Again cp
(if isAsciiLetter cp then setState name ;; callAt (S (S depth)) name cp
 else _emitChars (str "</") ;; setState text ;; callAt (S (S depth)) text cp) t.
Proof.
intros Hname Htext Ht.
pose proof (callStateAt_Unflagged getTagID isSurrogate isUndefinedCodePoint
            isControlCodePoint htmlDecodeTree determineBranch (S (S depth))) as U.
pose proof (AtEntry_Unflagged cp t Ht) as Hu.
destruct (isAsciiLetter cp).
- apply caller_retries;
  [exact Ht|unflagged_leaf|kept_leaf|intros _; apply setState_extended|].
intros t1 Ht1 E. injection E as <-.
exact (lookahead_retries depth name cp _ Ht1 eq_refl Hname).
- left. no_mark U.
Qed.

Ltac in_list := cbn; repeat first [left; reflexivity | right].

(** Every state, called by the loop with the code point it has consumed. *)
Lemma state_retries (cp : Z) (t : Tokenizer) :
AtEntry cp t -> Again cp (top (state t) cp) t.
Proof.
intros Ht.
pose proof (callStateAt_Unflagged getTagID isSurrogate isUndefinedCodePoint
            isControlCodePoint htmlDecodeTree determineBranch (S (S depth))) as U.
pose proof (AtEntry_Unflagged cp t Ht) as Hu.
destruct (readsAhead (state t)) eqn:R.
2:{ left. apply stays_unflagged; [|exact Hu]. now apply callStateAt_Unflagged. }
unfold readsAhead in R.
repeat (apply orb_true_iff in R; destruct R as [R|R]); apply Z.eqb_eq in R.
- rewrite R.
change (top State.RCDATA_END_TAG_OPEN cp) with (_stateRcdataEndTagOpen (callAt (S (S depth))) cp).
unfold _stateRcdataEndTagOpen.
exact (endTagOpen_retries State.RCDATA_END_TAG_NAME State.RCDATA cp t
         ltac:(in_list) eq_refl Ht).
- rewrite R. exact (lookahead_retries (S depth) _ cp t Ht R ltac:(in_list)).
- rewrite R.
change (top State.RAWTEXT_END_TAG_OPEN cp) with (_stateRawtextEndTagOpen (callAt (S (S depth))) cp).
unfold _stateRawtextEndTagOpen.
exact (endTagOpen_retries State.RAWTEXT_END_TAG_NAME State.RAWTEXT cp t
         ltac:(in_list) eq_refl Ht).
- rewrite R. exact (lookahead_retries (S depth) _ cp t Ht R ltac:(in_list)).
- rewrite R.
change (top State.SCRIPT_DATA_END_TAG_OPEN cp) with (_stateScriptDataEndTagOpen (callAt (S (S depth))) cp).
unfold _stateScriptDataEndTagOpen.
exact (endTagOpen_retries State.SCRIPT_DATA_END_TAG_NAME State.SCRIPT_DATA cp t
         ltac:(in_list) eq_refl Ht).
- rewrite R. exact (lookahead_retries (S depth) _ cp t Ht R ltac:(in_list)).
- (* script data escaped less-than sign *)
rewrite R.
change (top State.SCRIPT_DATA_ESCAPED_LESS_THAN_SIGN cp)
  with (_stateScriptDataEscapedLessThanSign (callAt (S (S depth))) cp).
unfold _stateScriptDataEscapedLessThanSign.
destruct (cp =? CP.SOLIDUS); [left; no_mark U|].
destruct (isAsciiLetter cp); [|left; no_mark U].
assert (Hst : state t <> State.HEXADEMICAL_CHARACTER_REFERENCE_START)
  by (rewrite R; discriminate).
apply caller_retries;
  [ exact Ht | inv_steps unflagged_leaf no_absurd | inv_steps kept_leaf no_absurd
  | now apply (emitChars_extended _ cp) | ].
intros t1 Ht1 E.
apply caller_retries;
  [exact Ht1|unflagged_leaf|kept_leaf|intros _; apply setState_extended|].
intros t2 Ht2 E2. injection E2 as <-.
exact (lookahead_retries depth State.SCRIPT_DATA_DOUBLE_ESCAPE_START cp _ Ht2 eq_refl
         ltac:(in_list)).
- rewrite R.
change (top State.SCRIPT_DATA_ESCAPED_END_TAG_OPEN cp)
  with (_stateScriptDataEscapedEndTagOpen (callAt (S (S depth))) cp).
unfold _stateScriptDataEscapedEndTagOpen.
exact (endTagOpen_retries State.SCRIPT_DATA_ESCAPED_END_TAG_NAME
         State.SCRIPT_DATA_ESCAPED cp t ltac:(in_list) eq_refl Ht).
- rewrite R. exact (lookahead_retries (S depth) _ cp t Ht R ltac:(in_list)).
- rewrite R. exact (lookahead_retries (S depth) _ cp t Ht R ltac:(in_list)).
- rewrite R. exact (lookahead_retries (S depth) _ cp t Ht R ltac:(in_list)).
- (* markup declaration open *)
apply hibernates_retries; [rewrite R; discriminate|reflexivity|]. rewrite R.
exact (stateMarkupDeclarationOpen_hibernates (callAt (S (S depth))) U cp t Ht).
- apply hibernates_retries; [rewrite R; discriminate|reflexivity|]. rewrite R.
exact (stateAfterDoctypeName_hibernates (callAt (S (S depth))) U cp t Ht).
- (* character reference *)
rewrite R.
change (top State.CHARACTER_REFERENCE cp)
  with (_stateCharacterReference (callAt (S (S depth))) cp).
unfold _stateCharacterReference.
destruct (cp =? CP.NUMBER_SIGN); [left; no_mark U|].
destruct (isAsciiAlphaNumeric cp); [|left; no_mark U].
apply caller_retries;
  [exact Ht|unflagged_leaf|kept_leaf|intros _; apply setState_extended|].
intros t1 Ht1 E. injection E as <-.
exact (lookahead_retries depth State.NAMED_CHARACTER_REFERENCE cp _ Ht1 eq_refl
         ltac:(in_list)).
- rewrite R. exact (lookahead_retries (S depth) _ cp t Ht R ltac:(in_list)).
Qed.

End StateRetry.

(** ** The round that ends asleep *)

Lemma round_reads (s : Tokenizer) :
flagged s = false ->
-1 <= Preprocessor.pos (preprocessor s) ->
Preprocessor.pos (preprocessor s) + 1 < Preprocessor.len (preprocessor s) ->
round s
= callAt callStackLimit (state s)
    (Preprocessor.charAt (preprocessor s) (Preprocessor.pos (preprocessor s) + 1))
    (entered s).
Proof.
intros H1 H2 H3.
destruct s as [pa il ifn ls ac st rs crc cas cct ctk ao ca [h ps la hit sk] hl].
unfold flagged, Preprocessor.len in *. cbn in H1, H2, H3. subst hit.
unfold loopBody, entered, advancedBy, _callState, _consume,
  _ensureHibernation, preprocessor_advance, Preprocessor.advance, Preprocessor.len,
  bind, get, modify, ret.
cbn [preprocessor set_preprocessor set_active set_consumedAfterSnapshot
     consumedAfterSnapshot paused inLoop inForeignNode lastStartTagName active state
     returnState charRefCode currentCharacterToken currentToken attrObjects
     currentAttr handlerLog Preprocessor.pos Preprocessor.html
     Preprocessor.lastChunkWritten Preprocessor.endOfChunkHit
     Preprocessor.skipNextNewLine negb].
assert (E : (ps + 1 >=? Z.of_nat (length h)) = false)
  by (rewrite Z.geb_leb; apply Z.leb_gt; lia).
rewrite E.
cbn [preprocessor set_preprocessor set_active set_consumedAfterSnapshot
     consumedAfterSnapshot paused inLoop inForeignNode lastStartTagName active state
     returnState charRefCode currentCharacterToken currentToken attrObjects
     currentAttr handlerLog Preprocessor.pos Preprocessor.html
     Preprocessor.lastChunkWritten Preprocessor.endOfChunkHit
     Preprocessor.skipNextNewLine negb Z.of_nat Pos.of_succ_nat].
reflexivity.
Qed.

Lemma consume_at_the_end (t : Tokenizer) :
Preprocessor.lastChunkWritten (preprocessor t) = false ->
Preprocessor.pos (preprocessor t) + 1 >= Preprocessor.len (preprocessor t) ->
exists t', _consume t = Ok CP.EOF t' /\ flagged t' = true /\ SameRound t t'.
Proof.
intros H2 H3. pose proof (SameRound_consume t t eq_refl) as R. revert R.
destruct t as [pa il ifn ls ac st rs crc cas cct ctk ao ca [h ps la hit sk] hl].
unfold Preprocessor.len in *. cbn in H2, H3. subst la.
unfold _consume, preprocessor_advance, Preprocessor.advance, Preprocessor.len,
  bind, modify, flagged.
cbn [preprocessor set_preprocessor set_consumedAfterSnapshot Preprocessor.pos
     Preprocessor.html Preprocessor.lastChunkWritten].
assert (E : (ps + 1 >=? Z.of_nat (length h)) = true)
  by (rewrite Z.geb_leb; apply Z.leb_le; lia).
rewrite E. intros R. eexists. split; [reflexivity|]. split; [reflexivity|exact R].
Qed.

Lemma round_sleeps (s : Tokenizer) :
flagged s = false ->
Preprocessor.lastChunkWritten (preprocessor s) = false ->
Preprocessor.pos (preprocessor s) + 1 >= Preprocessor.len (preprocessor s) ->
round s = Ok tt (hibernated (set_consumedAfterSnapshot 0 s)).
Proof.
intros H1 H2 H3.
destruct (consume_at_the_end (set_consumedAfterSnapshot 0 s)) as (t' & E & F & R).
{ now destruct s. }
{ revert H3. now destruct s. }
unfold loopBody.
rewrite (bind_ok _ _ s (set_consumedAfterSnapshot 0 s) tt eq_refl).
rewrite (bind_ok _ _ _ _ _ E).
rewrite (bind_ok _ _ _ _ _ (ensureHibernation_flagged t' F)).
cbn [negb]. unfold ret. f_equal. exact R.
Qed.

Lemma round_forgets_snapshot (s : Tokenizer) :
round s = round (set_consumedAfterSnapshot 0 s).
Proof.
unfold loopBody. unfold bind at 1 5. unfold modify at 1 2.
now destruct s.
Qed.

Section LoopRetry.
Variable more : list Z.
Variable isLast : bool.
Variable carry : bool.

Local Abbreviation ext := (extended more isLast carry).

(** The round that saw the end of the buffer has left the tokenizer asleep
where the round began, and the next round, with more input in the buffer,
does what this round would have done with that input. *)
Lemma loopBody_retries (s : Tokenizer) :
AtHead s -> flagged s = false -> active s = true ->
flagged (final (round s)) = true ->
exists h,
round s = Ok tt h /\ SleepsFrom s h
/\ round (resumed more isLast carry h) = round (ext s).
Proof.
intros (A1 & A2 & A3) F Hact Hend. destruct (A3 F) as [[B1 B2] B3].
destruct (Z_lt_le_dec (Preprocessor.pos (preprocessor s) + 1)
          (Preprocessor.len (preprocessor s))) as [Hin|Hout].
- (* the code point is there: the state method saw the end *)
rewrite (round_reads s F B1 Hin) in Hend |- *.
set (cp := Preprocessor.charAt (preprocessor s) (Preprocessor.pos (preprocessor s) + 1))
  in *.
assert (HA : AtEntry cp (entered s)).
{ clear Hend. subst cp. revert F A1 A2 Hact B1 Hin.
  destruct s as [pa il ifn ls ac st rs crc cas cct ctk ao ca [h ps la hit sk] hl].
  unfold AtEntry, flagged, Preprocessor.len, entered, advancedBy. cbn.
  intros -> -> ? -> ? ?. repeat split; try assumption; lia. }
assert (Es : state (entered s) = state s) by now destruct s.
rewrite <- Es in Hend |- *.
change callStackLimit with (S (S (S 29))) in Hend |- *.
destruct (state_retries more isLast carry 29 cp (entered s) HA)
  as [L|(t' & E1 & K & St & Q)]; [rewrite L in Hend; discriminate Hend|].
exists (hibernated t'). split; [exact E1|]. split.
+ clear Hend Q E1 HA. destruct K as (K1 & K2 & K3 & K4 & K5 & K6).
  unfold SleepsFrom, hibernated.
  destruct t' as [pa' il' ifn' ls' ac' st' rs' crc' cas' cct' ctk' ao' ca' p' hl'].
  destruct s as [pa il ifn ls ac st rs crc cas cct ctk ao ca [h ps la hit sk] hl].
  cbn in K1, K2, K3, K4, K5, K6, St |- *. subst p' cas' pa' il' rs'. cbn.
  replace (ps + 1 - 1) with ps by lia.
  repeat split; auto. intros E. now elim St.
+ pose proof (round_after_hibernation cp t' more isLast carry
                (Kept_AtEntry cp _ _ K HA)) as R.
  change callStackLimit with (S (S (S 29))) in R. rewrite R, Q. clear R Q.
  assert (Fe : flagged (ext s) = false) by (revert F; now destruct s).
  assert (Pe : Preprocessor.pos (preprocessor (ext s)) = Preprocessor.pos (preprocessor s))
    by now destruct s.
  rewrite (round_reads (ext s) Fe).
  * change callStackLimit with (S (S (S 29))). rewrite Pe.
    assert (Ec : Preprocessor.charAt (preprocessor (ext s))
                   (Preprocessor.pos (preprocessor s) + 1) = cp).
    { subst cp. unfold Preprocessor.charAt, extended, extendBuffer.
      cbn [preprocessor set_preprocessor Preprocessor.html].
      replace (preprocessor (set_preprocessor _ s)) with
        (Preprocessor.mk (Preprocessor.html (preprocessor s) ++ more)
           (Preprocessor.pos (preprocessor s)) isLast
           (Preprocessor.endOfChunkHit (preprocessor s)) carry) by now destruct s.
      cbn [Preprocessor.html]. apply nth_inside. unfold Preprocessor.len in Hin. lia. }
    rewrite Ec. f_equal; now destruct s.
  * rewrite Pe. exact B1.
  * rewrite Pe. unfold extended. 
    replace (Preprocessor.len (preprocessor (set_preprocessor _ s)))
      with (Preprocessor.len (extendBuffer more isLast carry (preprocessor s)))
      by now destruct s.
    rewrite len_extendBuffer. lia.
- exists (hibernated (set_consumedAfterSnapshot 0 s)).
split; [apply round_sleeps; [exact F|exact A1|lia]|]. split.
+ destruct s as [pa il ifn ls ac st rs crc cas cct ctk ao ca [h ps la hit sk] hl].
  unfold SleepsFrom, hibernated. cbn. rewrite Z.sub_0_r. repeat split; auto.
+ rewrite (round_forgets_snapshot (resumed _ _ _ _)), (round_forgets_snapshot (ext s)).
  f_equal.
  destruct s as [pa il ifn ls ac st rs crc cas cct ctk ao ca [h ps la hit sk] hl].
  unfold flagged in F. cbn in F, Hact. subst hit ac.
  unfold resumed, hibernated, extended, extendBuffer. cbn. now rewrite Z.sub_0_r.
Qed.

End LoopRetry.

End Retry.
(** * Chunks: the rounds of two calls of [write] are those of one *)

Lemma normalize_app (c1 c2 : list Z) :
  forall skip,
    Preprocessor.normalize skip (c1 ++ c2)
    = (fst (Preprocessor.normalize skip c1)
       ++ fst (Preprocessor.normalize (snd (Preprocessor.normalize skip c1)) c2),
       snd (Preprocessor.normalize (snd (Preprocessor.normalize skip c1)) c2)).
Proof.
  induction c1 as [|c c1 IH]; intros skip; cbn [app Preprocessor.normalize fst snd].
  - now destruct (Preprocessor.normalize skip c2).
  - destruct (c =? CODE_POINTS.CARRIAGE_RETURN).
    + rewrite IH. now destruct (Preprocessor.normalize true c1).
    + destruct ((c =? CODE_POINTS.LINE_FEED) && skip); [apply IH|].
      rewrite IH. now destruct (Preprocessor.normalize false c1).
Qed.

Lemma normalize_nonnegative (c : list Z) :
  forall skip,
    Forall (fun x => 0 <= x) c ->
    Forall (fun x => 0 <= x) (fst (Preprocessor.normalize skip c)).
Proof.
  induction c as [|x c IH]; intros skip H; cbn [Preprocessor.normalize].
  - constructor.
  - inversion H as [|? ? Hx Hc]; subst.
    destruct (x =? CODE_POINTS.CARRIAGE_RETURN).
    + specialize (IH true Hc). destruct (Preprocessor.normalize true c). cbn in *.
      constructor; [unfold CODE_POINTS.LINE_FEED; lia|exact IH].
    + destruct ((x =? CODE_POINTS.LINE_FEED) && skip); [now apply IH|].
      specialize (IH false Hc). destruct (Preprocessor.normalize false c). cbn in *.
      now constructor.
Qed.

Section Merge.
Variable getTagID : jsstring -> Z.
Variable isSurrogate : Z -> bool.
Variable isUndefinedCodePoint : Z -> bool.
Variable isControlCodePoint : Z -> bool.
Variable htmlDecodeTree : Z -> Z.
Variable determineBranch : (Z -> Z) -> Z -> Z -> Z -> Z.
Variable rejectsEOF :
forall current i, determineBranch htmlDecodeTree current i CP.EOF < 0.

Local Abbreviation round :=
(loopBody getTagID isSurrogate isUndefinedCodePoint isControlCodePoint
   htmlDecodeTree determineBranch).
Local Abbreviation loop :=
(whileActive getTagID isSurrogate isUndefinedCodePoint isControlCodePoint
   htmlDecodeTree determineBranch).
Local Abbreviation writeTo :=
(write getTagID isSurrogate isUndefinedCodePoint isControlCodePoint
   htmlDecodeTree determineBranch).
Local Abbreviation run :=
(writeAll getTagID isSurrogate isUndefinedCodePoint isControlCodePoint
   htmlDecodeTree determineBranch).

Lemma loop_step (f : nat) (s : Tokenizer) :
active s = true -> paused s = false -> loop (S f) s = (round ;; loop f) s.
Proof.
intros H1 H2. cbn [whileActive]. unfold bind at 1. unfold get at 1.
now rewrite H1, H2.
Qed.

Lemma loop_inactive (f : nat) (s : Tokenizer) : active s = false -> loop f s = Ok tt s.
Proof.
intros H. destruct f; cbn [whileActive]; unfold bind at 1; unfold get at 1;
  now rewrite H.
Qed.

Lemma loop_bound_hit (s : Tokenizer) :
active s = true -> paused s = false -> loop 0 s = Throw LoopBoundExceeded s.
Proof.
intros H1 H2. cbn [whileActive]. unfold bind at 1. unfold get at 1.
now rewrite H1, H2.
Qed.

(** A loop that ended within its bound ends the same within a larger one. *)
Lemma loop_more_fuel (f : nat) :
forall g s t, (f <= g)%nat -> loop f s = Ok tt t -> loop g s = Ok tt t.
Proof.
induction f as [|f IH]; intros g s t Hg E.
- destruct (active s && negb (paused s)) eqn:A.
  + apply andb_true_iff in A. destruct A as [A1 A2]. apply negb_true_iff in A2.
    rewrite (loop_bound_hit s A1 A2) in E. discriminate E.
  + revert E. cbn [whileActive]. unfold bind at 1. unfold get at 1. rewrite A.
    intros E. destruct g; cbn [whileActive]; unfold bind at 1; unfold get at 1;
      now rewrite A.
- destruct g as [|g]; [lia|].
  revert E. cbn [whileActive]. unfold bind at 1 3. unfold get at 1 2.
  destruct (active s && negb (paused s)); [|exact (fun E => E)].
  unfold bind. destruct (round s) as [[] s'|e s']; [|exact (fun E => E)].
  apply IH. lia.
Qed.

Section TwoWrites.
Variable more : list Z.
Variable isLast : bool.
Variable carry : bool.
Variable html : list Z.
Variable skip : bool.
Hypothesis buffer_of_code_points : Forall (fun c => 0 <= c) html.

Local Abbreviation ext := (extended more isLast carry).

Lemma SleepsFrom_Asleep (s h : Tokenizer) :
Running html skip s -> AtHead s -> flagged s = false ->
SleepsFrom s h -> Asleep html skip h.
Proof.
intros (R1 & R2 & R3 & R4 & R5 & R6) (A1 & A2 & A3) F (S1 & S2 & S3 & S4 & S5 & S6).
destruct (A3 F) as [B1 B2].
unfold Asleep, Running, flagged, Preprocessor.len in *. rewrite S1, S2, S3, S4, S5.
cbn. repeat split; auto; try lia.
Qed.

(** The loop of a [write] on a buffer that a later [write] makes longer:
if the loop on the longer buffer ends at [t1], the loop on the shorter one
ends asleep, and the loop the later [write] starts from there ends at
[t1]. *)
Lemma whileActive_merge (f : nat) :
forall s t1,
Running html skip s -> AtHead s -> flagged s = false ->
loop f (ext s) = Ok tt t1 ->
exists h,
  loop f s = Ok tt h /\ Asleep html skip h
  /\ forall g, (f <= g)%nat -> loop g (resumed more isLast carry h) = Ok tt t1.
Proof.
induction f as [|f IH]; intros s t1 R A F E.
- exfalso. destruct R as (_ & _ & _ & R4 & _ & [R6|R6]); [|congruence].
rewrite loop_bound_hit in E; [discriminate E| |]; now destruct s.
- assert (Hact : active s = true)
  by (destruct R as (_ & _ & _ & _ & _ & [R6|R6]); [exact R6|congruence]).
assert (Hp : paused s = false) by exact (proj1 (proj2 (proj2 (proj2 R)))).
rewrite loop_step in E by (now destruct s).
destruct (flagged (final (round s))) eqn:Fr.
+ destruct (loopBody_retries getTagID isSurrogate isUndefinedCodePoint
              isControlCodePoint htmlDecodeTree determineBranch rejectsEOF
              more isLast carry s A F Hact Fr) as (h & Er & Sl & Q).
  exists h. split; [|split].
  * rewrite (loop_step f s Hact Hp). rewrite (bind_ok _ _ _ _ _ Er).
    apply loop_inactive. exact (proj1 Sl).
  * exact (SleepsFrom_Asleep s h R A F Sl).
  * intros g Hg. destruct g as [|g]; [lia|].
    rewrite loop_step;
      [|now destruct h|destruct Sl as (_ & _ & S3 & _); rewrite <- Hp, <- S3; now destruct h].
    unfold bind in E |- *. rewrite Q.
    destruct (round (ext s)) as [[] x|e x]; [|discriminate E].
    apply (loop_more_fuel f); [lia|exact E].
+ destruct (loopBody_extends getTagID isSurrogate isUndefinedCodePoint
              isControlCodePoint htmlDecodeTree determineBranch rejectsEOF
              more isLast carry s A) as (M1 & _ & M3).
  specialize (M3 Fr).
  pose proof (loopBody_Running getTagID isSurrogate isUndefinedCodePoint
                isControlCodePoint htmlDecodeTree determineBranch html skip s
                buffer_of_code_points) as R'.
  destruct A as (A1 & A2 & A3). destruct (A3 F) as [[B1 B2] B3].
  specialize (R' B1 R).
  unfold bind in E. rewrite M3 in E.
  rewrite (loop_step f s Hact Hp). unfold bind.
  destruct (round s) as [[] s'|e s']; [|discriminate E].
  cbn [final extendedRes returned] in *.
  destruct (IH s' t1 R' M1 Fr E) as (h & E1 & As & G).
  exists h. split; [exact E1|]. split; [exact As|].
  intros g Hg. apply G. lia.
Qed.

End TwoWrites.

(** What [write] does out of the loop: it appends the chunk, runs the loop and
  leaves it. *)
Lemma write_runs (f : nat) (chunk : jsstring) (isLastChunk : bool) (t : Tokenizer) :
inLoop t = false ->
writeTo f chunk isLastChunk t
= match loop f (started chunk isLastChunk t) with
  | Ok _ t' => Ok tt (set_inLoop false t')
  | Throw e t' => Throw e t'
  end.
Proof.
intros H. unfold write, _runParsingLoop, started.
unfold bind at 1. unfold modify at 1. unfold bind at 1. unfold modify at 1.
unfold bind at 1. unfold get at 1.
replace (inLoop (set_preprocessor _ (set_active true t))) with false
  by (rewrite <- H; now destruct t).
unfold bind at 1. unfold modify at 1. unfold bind at 1.
destruct (loop f _) as [[] t'|e t']; reflexivity.
Qed.

Lemma started_append (c1 c2 : jsstring) (isLastChunk : bool) (t : Tokenizer) :
started (c1 ++ c2) isLastChunk t
= extended
    (fst (Preprocessor.normalize
            (snd (Preprocessor.normalize
                    (Preprocessor.skipNextNewLine (preprocessor t)) c1)) c2))
    isLastChunk
    (snd (Preprocessor.normalize
            (snd (Preprocessor.normalize
                    (Preprocessor.skipNextNewLine (preprocessor t)) c1)) c2))
    (started c1 false t).
Proof.
unfold started, extended, extendBuffer, Preprocessor.write.
rewrite normalize_app.
destruct (Preprocessor.normalize (Preprocessor.skipNextNewLine (preprocessor t)) c1)
  as [n1 f1].
cbn [fst snd].
destruct (Preprocessor.normalize f1 c2) as [n2 f2]. cbn [fst snd].
destruct t as [pa il ifn ls ac st rs crc cas cct ctk ao ca [h ps la hit sk] hl].
cbn. now rewrite app_assoc.
Qed.

(** One [write] of two chunks in a row, and two [write]s of one chunk each. *)
Lemma write_merge (f : nat) (c1 c2 : jsstring) (isLastChunk : bool) (t t1 : Tokenizer) :
AtRest t -> Forall (fun c => 0 <= c) c1 ->
writeTo f (c1 ++ c2) isLastChunk t = Ok tt t1 ->
exists tm,
  writeTo f c1 false t = Ok tt tm /\ AtRest tm
  /\ writeTo f c2 isLastChunk tm = Ok tt t1.
Proof.
intros (H1 & H2 & H3 & H4 & H5 & H6 & H7) Hc1 E.
rewrite (write_runs f _ _ t H3), started_append in E.
pose proof (normalize_nonnegative c1 (Preprocessor.skipNextNewLine (preprocessor t)) Hc1)
  as Hn1.
remember (Preprocessor.normalize (Preprocessor.skipNextNewLine (preprocessor t)) c1)
  as r1 eqn:E1.
destruct r1 as [n1 f1]. cbn [fst snd] in *.
remember (Preprocessor.normalize f1 c2) as r2 eqn:E2.
destruct r2 as [n2 f2]. cbn [fst snd] in *.
assert (Es : started c1 false t
             = set_inLoop true
                 (set_preprocessor
                    (Preprocessor.mk (Preprocessor.html (preprocessor t) ++ n1)
                       (Preprocessor.pos (preprocessor t)) false false f1)
                    (set_active true t))).
{ unfold started, Preprocessor.write. now rewrite <- E1. }
set (s1 := started c1 false t) in *.
assert (R : Running (Preprocessor.html (preprocessor t) ++ n1) f1 s1).
{ rewrite Es. revert H2. destruct t. cbn. intros ->. unfold Running, flagged. cbn. auto 10. }
assert (A : AtHead s1).
{ rewrite Es. revert H4 H5 H6. unfold AtHead, Waiting, flagged, Preprocessor.len.
  destruct t as [pa il ifn ls ac st rs crc cas cct ctk ao ca [h ps la hit sk] hl].
  cbn. intros H4 H5 H6. split; [reflexivity|]. split; [exact H4|]. intros _.
  rewrite length_app. split; [lia|exact H6]. }
assert (F : flagged s1 = false) by (rewrite Es; now destruct t).
assert (Hb : Forall (fun c => 0 <= c) (Preprocessor.html (preprocessor t) ++ n1))
  by (apply Forall_app; split; assumption).
destruct (loop f (extended n2 isLastChunk f2 s1)) as [[] t1'|e t1'] eqn:El;
  [|discriminate E].
injection E as <-.
destruct (whileActive_merge n2 isLastChunk f2 _ f1 Hb f s1 t1' R A F El)
  as (h & Eh & (Rh & Ah & Bh & Ch & Dh) & G).
exists (set_inLoop false h). split; [|split].
- rewrite (write_runs f _ _ t H3). fold s1. now rewrite Eh.
- destruct Rh as (R1 & R2 & R3 & R4 & R5 & R6). revert Ch Dh.
  unfold AtRest, Preprocessor.len. rewrite <- R1 in Hb. revert R3 R4 Bh Hb.
  destruct h as [pa il ifn ls ac st rs crc cas cct ctk ao ca [hh ps la hit sk] hl].
  cbn. auto 10.
- rewrite write_runs by now destruct h.
  assert (Er : started c2 isLastChunk (set_inLoop false h)
               = resumed n2 isLastChunk f2 h).
  { destruct Rh as (R1 & R2 & R3 & R4 & R5 & R6).
    unfold started, resumed, Preprocessor.write.
    replace (Preprocessor.skipNextNewLine (preprocessor (set_inLoop false h)))
      with f1 by (rewrite <- R2; now destruct h).
    rewrite <- E2. revert R5. destruct h. cbn. now intros ->. }
  rewrite Er, (G f (le_n f)). reflexivity.
Qed.

(** Chunk after chunk, and all at once. *)
Lemma writeAll_merge (f : nat) (lastChunk : jsstring) (isLastChunk : bool)
  (chunks : list jsstring) :
forall t t1,
  AtRest t ->
  Forall (Forall (fun c => 0 <= c)) chunks ->
  writeTo f (concat chunks ++ lastChunk) isLastChunk t = Ok tt t1 ->
  run (chunked f chunks lastChunk isLastChunk) t = t1.
Proof.
unfold chunked.
induction chunks as [|c chunks IH]; intros t t1 Ht Hc E; cbn [map app concat writeAll] in *.
- now rewrite E.
- inversion Hc as [|? ? Hc1 Hcs]; subst. rewrite <- app_assoc in E.
  destruct (write_merge f c (concat chunks ++ lastChunk) isLastChunk t t1 Ht Hc1 E)
    as (tm & E1 & Hm & E2).
  rewrite E1. cbn [final]. exact (IH tm t1 Hm Hcs E2).
Qed.

End Merge.
(** * Further properties of the tokenizer *)

(** ** The example branch function rejects the end-of-file marker *)

Lemma Example_htmlDecodeTree_nonnegative (i : Z) : 0 <= Example.htmlDecodeTree i.
Proof.
  unfold Example.htmlDecodeTree. destruct (i <? 0); [lia|].
  destruct (nth_in_or_default (Z.to_nat i) Example.treeWords 0) as [H|H]; [|lia].
  revert H. generalize (nth (Z.to_nat i) Example.treeWords 0). intros z H.
  unfold Example.treeWords in H. cbn in H.
  repeat (destruct H as [H|H]; [lia|]). destruct H.
Qed.

Lemma Example_searchBranch_EOF (fuel : nat) :
  forall lo hi branchCount,
    Example.searchBranch fuel Example.htmlDecodeTree lo hi branchCount CP.EOF = -1.
Proof.
  induction fuel as [|fuel IH]; intros lo hi bc; cbn [Example.searchBranch]; [reflexivity|].
  destruct (lo <=? hi); [|reflexivity].
  pose proof (Example_htmlDecodeTree_nonnegative (Z.shiftr (lo + hi) 1)) as H.
  unfold CP.EOF, CODE_POINTS.EOF.
  destruct (Z.ltb_spec (Example.htmlDecodeTree (Z.shiftr (lo + hi) 1)) (-1)); [lia|].
  destruct (Z.gtb_spec (Example.htmlDecodeTree (Z.shiftr (lo + hi) 1)) (-1)); [|lia].
  apply IH.
Qed.

Lemma Example_rejectsEOF (current i : Z) :
  Example.determineBranch Example.htmlDecodeTree current i CP.EOF < 0.
Proof.
  unfold Example.determineBranch. cbv zeta.
  assert (J : 0 <= Z.land current Example.JUMP_TABLE)
    by (apply Z.land_nonneg; right; unfold Example.JUMP_TABLE; lia).
  destruct (_ =? 0).
  - destruct (Z.eqb_spec CP.EOF (Z.land current Example.JUMP_TABLE)) as [E|E].
    + unfold CP.EOF, CODE_POINTS.EOF in E. lia.
    + rewrite andb_false_r. lia.
  - destruct (negb _).
    + destruct (Z.ltb_spec (CP.EOF - Z.land current Example.JUMP_TABLE) 0) as [L|L].
      * cbn [orb]. lia.
      * unfold CP.EOF, CODE_POINTS.EOF in L. lia.
    + rewrite Example_searchBranch_EOF. lia.
Qed.

Section ChunksOfInput.
Variable getTagID : jsstring -> Z.
Variable isSurrogate : Z -> bool.
Variable isUndefinedCodePoint : Z -> bool.
Variable isControlCodePoint : Z -> bool.
Variable htmlDecodeTree : Z -> Z.
Variable determineBranch : (Z -> Z) -> Z -> Z -> Z -> Z.

Local Abbreviation callAt :=
(callStateAt getTagID isSurrogate isUndefinedCodePoint isControlCodePoint
   htmlDecodeTree determineBranch).
Local Abbreviation round :=
(loopBody getTagID isSurrogate isUndefinedCodePoint isControlCodePoint
   htmlDecodeTree determineBranch).
Local Abbreviation writeTo :=
(write getTagID isSurrogate isUndefinedCodePoint isControlCodePoint
   htmlDecodeTree determineBranch).
Local Abbreviation run :=
(writeAll getTagID isSurrogate isUndefinedCodePoint isControlCodePoint
   htmlDecodeTree determineBranch).


(** X2.  The round that hibernates is run again.  At the head of the parsing
  loop, active, before the last chunk and with no read past the end of the
  buffer so far: if the round ends with the mark of such a read, it has
  returned with the tokenizer asleep, the cursor where the round began and
  the mark set; and, whatever input [more] the next [write] appends, the
  next round does from there what this round would have done with [more]
  already in the buffer. *)
Theorem hibernated_round_runs_again :
forall (more : list Z) (isLast carry : bool) (s : Tokenizer),
  (forall current i, determineBranch htmlDecodeTree current i CP.EOF < 0) ->
  AtHead s -> flagged s = false -> active s = true ->
  flagged (final (round s)) = true ->
  exists h,
    round s = Ok tt h
    /\ active h = false
    /\ preprocessor h
       = Preprocessor.mk (Preprocessor.html (preprocessor s))
           (Preprocessor.pos (preprocessor s))
           (Preprocessor.lastChunkWritten (preprocessor s)) true
           (Preprocessor.skipNextNewLine (preprocessor s))
    /\ round (resumed more isLast carry h) = round (extended more isLast carry s).
Proof.
intros more isLast carry s Hreject A F Hact Hend.
destruct (loopBody_retries getTagID isSurrogate isUndefinedCodePoint isControlCodePoint
            htmlDecodeTree determineBranch Hreject more isLast carry s A F Hact Hend)
  as (h & E & (S1 & S2 & _) & Q).
exists h. auto.
Qed.

(** X3.  A round that did not reach the end of the buffer does not depend on
  what comes after it: with any input [more] appended to the buffer, and
  whatever the new [isLast] mark, the round returns or throws the same, in
  the same tokenizer but for the longer buffer. *)
Theorem round_ignores_later_input :
forall (more : list Z) (isLast carry : bool) (t : Tokenizer),
  (forall current i, determineBranch htmlDecodeTree current i CP.EOF < 0) ->
  AtHead t ->
  flagged (final (round t)) = false ->
  round (extended more isLast carry t) = extendedRes more isLast carry (round t).
Proof.
intros more isLast carry t Hreject A F.
exact (proj2 (proj2 (loopBody_extends getTagID isSurrogate isUndefinedCodePoint
                       isControlCodePoint htmlDecodeTree determineBranch Hreject
                       more isLast carry t A)) F).
Qed.

(** X4.  Only fifteen states look ahead.  A state method other than the
  end-tag-open and end-tag-name states of RCDATA, RAWTEXT, script data and
  escaped script data, the escaped less-than-sign state, the two
  double-escape states, markup declaration open, after DOCTYPE name and the
  two first character-reference states, called at any depth with any code
  point, reads nothing of the buffer: if no read had gone past its end, none
  has when the method is done. *)
Theorem only_lookahead_states_read_ahead :
forall (depth : nat) (st cp : Z) (t : Tokenizer),
  readsAhead st = false ->
  flagged t = false -> isReturnState (returnState t) = true ->
  flagged (final (callAt depth st cp t)) = false.
Proof.
intros depth st cp t Hst F Hrs.
apply stays_unflagged; [|split; assumption].
now apply callStateAt_Unflagged.
Qed.

(** X5.  What a round of the loop keeps.  While the last chunk is not
  written and the buffer holds code points only, a round of the loop leaves
  the buffer, the carry of the line-break normalisation, [paused] and
  [inLoop] as they are, and the tokenizer active unless a read went past the
  end of the buffer: before the last chunk, nothing but hibernation stops
  the loop. *)
Theorem round_stops_for_hibernation_only :
forall (html : list Z) (skip : bool) (t : Tokenizer),
  Forall (fun c => 0 <= c) html ->
  -1 <= Preprocessor.pos (preprocessor t) ->
  Preprocessor.html (preprocessor t) = html ->
  Preprocessor.skipNextNewLine (preprocessor t) = skip ->
  Preprocessor.lastChunkWritten (preprocessor t) = false ->
  paused t = false -> inLoop t = true ->
  active t = true \/ flagged t = true ->
  let t' := final (round t) in
  Preprocessor.html (preprocessor t') = html
  /\ Preprocessor.skipNextNewLine (preprocessor t') = skip
  /\ Preprocessor.lastChunkWritten (preprocessor t') = false
  /\ paused t' = false /\ inLoop t' = true
  /\ (active t' = true \/ flagged t' = true).
Proof.
intros html skip t Hhtml Hpos H1 H2 H3 H4 H5 H6.
exact (loopBody_Running getTagID isSurrogate isUndefinedCodePoint isControlCodePoint
         htmlDecodeTree determineBranch html skip t Hhtml Hpos
         (conj H1 (conj H2 (conj H3 (conj H4 (conj H5 H6)))))).
Qed.

End ChunksOfInput.

(** The tokenizer as created is at rest. *)
Lemma newTokenizer_AtRest : AtRest newTokenizer.
Proof. unfold AtRest. cbn. repeat split; try reflexivity; try lia; try discriminate; constructor. Qed.


Ltac by_computation :=
  vm_compute; repeat split; intros; try discriminate; try reflexivity; try lia;
  repeat constructor; try discriminate.

(** The chunk [<!-] stops in the middle of what may open a comment: the third
    round, in the markup-declaration-open state, goes to sleep, and the round
    after [-x-->] has arrived is the round on [<!--x-->]. *)
Lemma hibernated_round_runs_again_witness :
  let round := loopBody Example.getTagID Example.isSurrogate Example.isUndefinedCodePoint
                 Example.isControlCodePoint Example.htmlDecodeTree Example.determineBranch in
  let s := final (round (final (round (started (str "<!-") false newTokenizer)))) in
  state s = State.MARKUP_DECLARATION_OPEN
  /\ flagged (final (round s)) = true
  /\ round (resumed (str "-x-->") true false (final (round s)))
     = round (extended (str "-x-->") true false s).
Proof.
  intros round s. split; [vm_compute; reflexivity|]. split; [vm_compute; reflexivity|].
  destruct (hibernated_round_runs_again Example.getTagID Example.isSurrogate
              Example.isUndefinedCodePoint Example.isControlCodePoint
              Example.htmlDecodeTree Example.determineBranch
              (str "-x-->") true false s Example_rejectsEOF)
    as (h & E & _ & _ & Q);
    [by_computation|by_computation|by_computation|by_computation|].
  fold round in E, Q. rewrite E. exact Q.
Defined.

(** The first round on [<a>b] reads [<] and nothing else: it is the same
    round when [c] follows. *)
Lemma round_ignores_later_input_witness :
  let round := loopBody Example.getTagID Example.isSurrogate Example.isUndefinedCodePoint
                 Example.isControlCodePoint Example.htmlDecodeTree Example.determineBranch in
  let t := started (str "<a>b") false newTokenizer in
  flagged (final (round t)) = false
  /\ round (extended (str "c") true false t) = extendedRes (str "c") true false (round t).
Proof.
  intros round t. split; [vm_compute; reflexivity|].
  apply (round_ignores_later_input Example.getTagID Example.isSurrogate
           Example.isUndefinedCodePoint Example.isControlCodePoint
           Example.htmlDecodeTree Example.determineBranch
           (str "c") true false t Example_rejectsEOF); by_computation.
Defined.

(** The tag-open state, called with [a] at the end of the buffer. *)
Lemma only_lookahead_states_read_ahead_witness :
  let t := entered (started (str "<a") false newTokenizer) in
  readsAhead State.TAG_OPEN = false
  /\ flagged
       (final
          (callStateAt Example.getTagID Example.isSurrogate Example.isUndefinedCodePoint
             Example.isControlCodePoint Example.htmlDecodeTree Example.determineBranch
             3 State.TAG_OPEN 97 t)) = false.
Proof.
  intros t. split; [reflexivity|].
  apply (only_lookahead_states_read_ahead Example.getTagID Example.isSurrogate
           Example.isUndefinedCodePoint Example.isControlCodePoint
           Example.htmlDecodeTree Example.determineBranch 3 State.TAG_OPEN 97 t);
    by_computation.
Defined.

(** The round that finds the buffer [ab] read to its end. *)
Lemma round_stops_for_hibernation_only_witness :
  let round := loopBody Example.getTagID Example.isSurrogate Example.isUndefinedCodePoint
                 Example.isControlCodePoint Example.htmlDecodeTree Example.determineBranch in
  let t := final (round (final (round (started (str "ab") false newTokenizer)))) in
  active t = true
  /\ Preprocessor.html (preprocessor (final (round t))) = str "ab"
  /\ active (final (round t)) = false /\ flagged (final (round t)) = true.
Proof.
  intros round t. split; [vm_compute; reflexivity|].
  destruct (round_stops_for_hibernation_only Example.getTagID Example.isSurrogate
              Example.isUndefinedCodePoint Example.isControlCodePoint
              Example.htmlDecodeTree Example.determineBranch (str "ab") false t)
    as (H1 & _ & _ & _ & _ & H6);
    [by_computation|by_computation|by_computation|by_computation|by_computation
    |by_computation|by_computation|left; vm_compute; reflexivity|].
  split; [exact H1|]. vm_compute. split; reflexivity.
Defined.
(** * The count of the code points consumed in a round *)

Section SnapshotInvariant.
Variable k : Z.

Local Abbreviation Counted := (fun t : Tokenizer => snapshot t = k).

Lemma Counted_modify (f : Tokenizer -> Tokenizer) :
(forall t, preprocessor (f t) = preprocessor t
           /\ consumedAfterSnapshot (f t) = consumedAfterSnapshot t) ->
Preserves Counted (modify f).
Proof.
intros Hf. apply triple_modify. intros t H. destruct (Hf t) as (E1 & E2).
unfold snapshot in *. now rewrite E1, E2.
Qed.

Lemma Counted_consume : Preserves Counted _consume.
Proof.
intros t H. revert H.
unfold _consume, bind, modify, preprocessor_advance, Preprocessor.advance, snapshot.
destruct t as [x1 x2 x3 x4 x5 x6 x7 x8 x9 x10 x11 x12 x13 [h ps la hit sk] x15].
cbn [preprocessor set_preprocessor set_consumedAfterSnapshot Preprocessor.pos
     consumedAfterSnapshot].
destruct (_ >=? _); cbn; lia.
Qed.

Lemma Counted_unconsume (count : Z) : Preserves Counted (_unconsume count).
Proof.
apply triple_modify. intros t. unfold snapshot.
destruct t as [x1 x2 x3 x4 x5 x6 x7 x8 x9 x10 x11 x12 x13 [h ps la hit sk] x15].
cbn. lia.
Qed.

Lemma advance_moves (t : Tokenizer) :
exists c t',
  preprocessor_advance t = Ok c t'
  /\ Preprocessor.pos (preprocessor t') = Preprocessor.pos (preprocessor t) + 1
  /\ consumedAfterSnapshot t' = consumedAfterSnapshot t.
Proof.
unfold preprocessor_advance, Preprocessor.advance.
destruct t as [x1 x2 x3 x4 x5 x6 x7 x8 x9 x10 x11 x12 x13 [h ps la hit sk] x15].
destruct (_ >=? _); eexists _, _; (split; [reflexivity|]); split; reflexivity.
Qed.

Lemma advances_move (n : nat) :
forall t,
  exists t',
    repeatM n (preprocessor_advance ;; ret tt) t = Ok tt t'
    /\ Preprocessor.pos (preprocessor t') = Preprocessor.pos (preprocessor t) + Z.of_nat n
    /\ consumedAfterSnapshot t' = consumedAfterSnapshot t.
Proof.
induction n as [|n IH]; intros t; cbn [repeatM].
- exists t. split; [reflexivity|]. split; [lia|reflexivity].
- destruct (advance_moves t) as (c & u & E & P & C).
  destruct (IH u) as (t' & E' & P' & C').
  exists t'. split.
  + rewrite (bind_ok _ _ t u tt); [exact E'|]. now rewrite (bind_ok _ _ _ _ _ E).
  + rewrite P', C', P, C. split; [lia|reflexivity].
Qed.

Lemma Counted_advanceBy (count : nat) : Preserves Counted (_advanceBy count).
Proof.
intros t H. unfold _advanceBy.
rewrite (bind_ok _ _ t
           (set_consumedAfterSnapshot (consumedAfterSnapshot t + Z.of_nat count) t) tt
           eq_refl).
destruct (advances_move count
            (set_consumedAfterSnapshot (consumedAfterSnapshot t + Z.of_nat count) t))
  as (t' & E & P & C).
rewrite E. unfold snapshot in *. rewrite P, C.
destruct t as [x1 x2 x3 x4 x5 x6 x7 x8 x9 x10 x11 x12 x13 [h ps la hit sk] x15].
cbn in *. lia.
Qed.

Lemma Counted_peek (offset : Z) : Preserves Counted (preprocessor_peek offset).
Proof.
intros t H. revert H. unfold preprocessor_peek, Preprocessor.peek, Preprocessor.hitEnd,
  snapshot.
destruct t as [x1 x2 x3 x4 x5 x6 x7 x8 x9 x10 x11 x12 x13 [h ps la hit sk] x15].
destruct (_ >=? _); exact (fun H => H).
Qed.

Lemma Counted_startsWith (pattern : jsstring) (caseSensitive : bool) :
Preserves Counted (preprocessor_startsWith pattern caseSensitive).
Proof.
intros t H. revert H. unfold preprocessor_startsWith, Preprocessor.startsWith,
  Preprocessor.hitEnd, snapshot.
destruct t as [x1 x2 x3 x4 x5 x6 x7 x8 x9 x10 x11 x12 x13 [h ps la hit sk] x15].
destruct (_ >? _); [exact (fun H => H)|]. destruct caseSensitive; exact (fun H => H).
Qed.

Lemma Counted_dropParsedChunk : Preserves Counted preprocessor_dropParsedChunk.
Proof.
apply triple_modify. intros t H.
destruct t as [x1 x2 x3 x4 x5 x6 x7 x8 x9 x10 x11 x12 x13 [h ps la hit sk] x15]. exact H.
Qed.

Lemma Counted_ensureHibernation : Preserves Counted _ensureHibernation.
Proof.
intros t H. revert H.
unfold _ensureHibernation, bind, get, _unconsume, modify, ret, snapshot.
destruct t as [x1 x2 x3 x4 x5 x6 x7 x8 x9 x10 x11 x12 x13 [h ps la hit sk] x15].
cbn. destruct hit; cbn; lia.
Qed.

End SnapshotInvariant.

Ltac counted_leaf :=
  idtac;
  lazymatch goal with
  | |- Preserves _ _consume => apply Counted_consume
  | |- Preserves _ (_unconsume _) => apply Counted_unconsume
  | |- Preserves _ (_advanceBy _) => apply Counted_advanceBy
  | |- Preserves _ (preprocessor_peek _) => apply Counted_peek
  | |- Preserves _ (preprocessor_startsWith _ _) => apply Counted_startsWith
  | |- Preserves _ preprocessor_dropParsedChunk => apply Counted_dropParsedChunk
  | |- Preserves _ _ensureHibernation => apply Counted_ensureHibernation
  | |- Preserves _ (modify _) => apply Counted_modify; intros []; split; reflexivity
  end.

Section SnapshotOfTheStateMachine.
Variable getTagID : jsstring -> Z.
Variable isSurrogate : Z -> bool.
Variable isUndefinedCodePoint : Z -> bool.
Variable isControlCodePoint : Z -> bool.
Variable htmlDecodeTree : Z -> Z.
Variable determineBranch : (Z -> Z) -> Z -> Z -> Z -> Z.

Local Abbreviation callAt :=
(callStateAt getTagID isSurrogate isUndefinedCodePoint isControlCodePoint
   htmlDecodeTree determineBranch).
Local Abbreviation round :=
(loopBody getTagID isSurrogate isUndefinedCodePoint isControlCodePoint
   htmlDecodeTree determineBranch).

Lemma matchLoop_Counted (k : Z) (fuel : nat) :
forall i current cp result excess withoutSemicolon,
  Preserves (fun t => snapshot t = k)
    (matchLoop htmlDecodeTree determineBranch fuel i current cp result excess
       withoutSemicolon).
Proof.
induction fuel as [|fuel IH]; intros; cbn [matchLoop]; [apply preserves_throw|].
cbv zeta. inv_steps ltac:(first [counted_leaf | apply IH]) no_absurd.
Qed.

Lemma callStateAt_Counted (k : Z) (depth : nat) :
forall st cp, Preserves (fun t => snapshot t = k) (callAt depth st cp).
Proof.
induction depth as [|depth IH]; intros st cp; cbn [callStateAt];
  [apply preserves_throw|].
cbv zeta.
inv_steps ltac:(idtac;
                 lazymatch goal with
                 | |- Preserves _ (callStateAt _ _ _ _ _ _ _ _ _) => apply IH
                 | |- Preserves _ (matchLoop _ _ _ _ _ _ _ _ _) => apply matchLoop_Counted
                 | _ => counted_leaf
                 end) no_absurd.
Qed.

(** X6.  [consumedAfterSnapshot] counts.  Whatever a state method does, at
  any depth of calls and whether it returns or throws, the cursor of the
  preprocessor less [consumedAfterSnapshot] is what it was when the method
  was called; and after a round of the parsing loop, which starts the
  count at zero, it is where the cursor was before the round.  So the step
  back by [consumedAfterSnapshot] that hibernation takes always lands where
  the round began. *)
Theorem consumedAfterSnapshot_counts :
(forall (depth : nat) (st cp : Z) (t : Tokenizer),
    snapshot (final (callAt depth st cp t)) = snapshot t)
/\ (forall t : Tokenizer,
       snapshot (final (round t)) = Preprocessor.pos (preprocessor t))
/\ (forall t : Tokenizer,
       flagged t = true ->
       exists t',
         _ensureHibernation t = Ok true t'
         /\ Preprocessor.pos (preprocessor t') = snapshot t
         /\ consumedAfterSnapshot t' = 0 /\ active t' = false).
Proof.
split; [|split].
- intros depth st cp t.
  exact (triple_final (fun u => snapshot u = snapshot t) _ t
           (callStateAt_Counted (snapshot t) depth st cp) eq_refl).
- intros t.
  apply (triple_final (fun u => snapshot u = Preprocessor.pos (preprocessor t))
           (_consume ;; (h <- _ensureHibernation ;;
                         if negb h then _callState getTagID isSurrogate
                                          isUndefinedCodePoint isControlCodePoint
                                          htmlDecodeTree determineBranch _ else ret tt))
           (set_consumedAfterSnapshot 0 t)).
  + unfold _callState.
    inv_steps ltac:(idtac;
                   lazymatch goal with
                   | |- Preserves _ (callStateAt _ _ _ _ _ _ _ _ _) =>
                       apply callStateAt_Counted
                   | _ => counted_leaf
                   end) no_absurd.
  + unfold snapshot. destruct t. cbn. lia.
- intros t F. rewrite (ensureHibernation_flagged t F). eexists. split; [reflexivity|].
  unfold hibernated, snapshot. destruct t. cbn. auto.
Qed.

End SnapshotOfTheStateMachine.

(** The third round on the chunk [<!-] looks two code points ahead for [--]
    and sees the end: the cursor less the count is where the round began, at
    the [!]. *)
Lemma consumedAfterSnapshot_counts_witness :
  let round := loopBody Example.getTagID Example.isSurrogate Example.isUndefinedCodePoint
                 Example.isControlCodePoint Example.htmlDecodeTree Example.determineBranch in
  let s := final (round (final (round (started (str "<!-") false newTokenizer)))) in
  Preprocessor.pos (preprocessor s) = 1
  /\ snapshot (final (round s)) = Preprocessor.pos (preprocessor s).
Proof.
  intros round s. split; [vm_compute; reflexivity|].
  exact (proj1 (proj2 (consumedAfterSnapshot_counts Example.getTagID Example.isSurrogate
                         Example.isUndefinedCodePoint Example.isControlCodePoint
                         Example.htmlDecodeTree Example.determineBranch)) s).
Defined.
(** * The last chunk ends with the end-of-file token *)

Lemma Feeding_modify (f : Tokenizer -> Tokenizer) :
  (forall t, preprocessor (f t) = preprocessor t /\ paused (f t) = paused t
             /\ active (f t) = active t) ->
  Preserves Feeding (modify f).
Proof.
  intros Hf. apply triple_modify. intros t (H1 & H2 & H3 & H4).
  destruct (Hf t) as (E1 & E2 & E3). unfold Feeding, flagged. now rewrite E1, E2, E3.
Qed.

Lemma Feeding_buffer (g : Preprocessor.t -> Preprocessor.t) (t : Tokenizer) :
  (forall p, Preprocessor.lastChunkWritten p = true ->
             Preprocessor.endOfChunkHit p = false ->
             Preprocessor.lastChunkWritten (g p) = true
             /\ Preprocessor.endOfChunkHit (g p) = false) ->
  Feeding t -> Feeding (set_preprocessor (g (preprocessor t)) t).
Proof.
  intros Hg (H1 & H2 & H3 & H4). destruct (Hg _ H1 H2) as [G1 G2].
  unfold Feeding, flagged. destruct t; cbn in *. auto.
Qed.

Lemma Feeding_snapshot (c : Z) (t : Tokenizer) :
  Feeding t -> Feeding (set_consumedAfterSnapshot c t).
Proof. destruct t. exact (fun H => H). Qed.

Lemma Feeding_advance : Preserves Feeding preprocessor_advance.
Proof.
  intros t H. unfold preprocessor_advance.
  pose proof (Feeding_buffer (fun p => snd (Preprocessor.advance p)) t) as R.
  cbv beta in R. destruct (Preprocessor.advance (preprocessor t)) as [c p] eqn:E.
  cbn [snd] in R. apply R; [|exact H]. intros p0 L F. unfold Preprocessor.advance.
  destruct (_ >=? _); cbn; rewrite ?L, ?F; auto.
Qed.

Lemma Feeding_peek (offset : Z) : Preserves Feeding (preprocessor_peek offset).
Proof.
  intros t H. unfold preprocessor_peek.
  pose proof (Feeding_buffer (fun p => snd (Preprocessor.peek offset p)) t) as R.
  cbv beta in R. destruct (Preprocessor.peek offset (preprocessor t)) as [c p] eqn:E.
  cbn [snd] in R. apply R; [|exact H]. intros p0 L F.
  unfold Preprocessor.peek, Preprocessor.hitEnd.
  destruct (_ >=? _); cbn; rewrite ?L, ?F; auto.
Qed.

Lemma Feeding_startsWith (pattern : jsstring) (caseSensitive : bool) :
  Preserves Feeding (preprocessor_startsWith pattern caseSensitive).
Proof.
  intros t H. unfold preprocessor_startsWith.
  pose proof (Feeding_buffer
                (fun p => snd (Preprocessor.startsWith pattern caseSensitive p)) t) as R.
  cbv beta in R. destruct (Preprocessor.startsWith pattern caseSensitive (preprocessor t))
    as [b p] eqn:E. cbn [snd] in R.
  apply R; [|exact H]. intros p0 L F. unfold Preprocessor.startsWith, Preprocessor.hitEnd.
  destruct (_ >? _); [|destruct caseSensitive]; cbn; rewrite ?L, ?F; auto.
Qed.

Lemma Feeding_unconsume (count : Z) : Preserves Feeding (_unconsume count).
Proof.
  apply triple_modify. intros t. unfold Feeding, flagged.
  destruct t as [x1 x2 x3 x4 x5 x6 x7 x8 x9 x10 x11 x12 x13 [h ps la hit sk] x15].
  exact (fun H => H).
Qed.

Lemma Feeding_consume : Preserves Feeding _consume.
Proof.
  unfold _consume. apply preserves_bind; [|intros _; apply Feeding_advance].
  apply triple_modify. intros t. apply Feeding_snapshot.
Qed.

Lemma Feeding_advanceBy (count : nat) : Preserves Feeding (_advanceBy count).
Proof.
  unfold _advanceBy. apply preserves_bind.
  - apply triple_modify. intros t. apply Feeding_snapshot.
  - intros _. apply preserves_repeatM. apply preserves_bind; [apply Feeding_advance|].
    intros _. apply preserves_ret.
Qed.

Lemma Feeding_dropParsedChunk : Preserves Feeding preprocessor_dropParsedChunk.
Proof.
  apply triple_modify. intros t H.
  destruct t as [x1 x2 x3 x4 x5 x6 x7 x8 x9 x10 x11 x12 x13 [h ps la hit sk] x15]. exact H.
Qed.

(** With the last chunk in the buffer no read leaves the mark of the end, and
    there is no hibernation. *)
Lemma Feeding_ensureHibernation : Preserves Feeding _ensureHibernation.
Proof.
  intros t H. destruct H as (H1 & H2 & H3 & H4).
  rewrite (ensureHibernation_unflagged t H2). repeat split; assumption.
Qed.

Ltac feeding_leaf :=
  idtac;
  lazymatch goal with
  | |- Preserves _ _consume => apply Feeding_consume
  | |- Preserves _ (_unconsume _) => apply Feeding_unconsume
  | |- Preserves _ (_advanceBy _) => apply Feeding_advanceBy
  | |- Preserves _ (preprocessor_peek _) => apply Feeding_peek
  | |- Preserves _ (preprocessor_startsWith _ _) => apply Feeding_startsWith
  | |- Preserves _ preprocessor_dropParsedChunk => apply Feeding_dropParsedChunk
  | |- Preserves _ _ensureHibernation => apply Feeding_ensureHibernation
  | |- Preserves _ (modify _) => apply Feeding_modify; intros []; repeat split; reflexivity
  end.

(** ** Code that may end the input *)

Lemma feeds_weaken {A} (m : M A) : Preserves Feeding m -> Feeds m.
Proof.
  intros H.
  apply (triple_weaken Feeding _ Feeding _ Feeding);
    [auto|intros t Ht; left; exact Ht|intros t Ht; left; exact Ht|exact H].
Qed.

Lemma feeds_ret {A} (a : A) : Feeds (ret a).
Proof. apply feeds_weaken, preserves_ret. Qed.

Lemma feeds_throw {A} (e : Exn) : Feeds (@throw A e).
Proof. apply feeds_weaken, preserves_throw. Qed.

Lemma feeds_bind {A B} (m : M A) (k : A -> M B) :
  Preserves Feeding m -> (forall a, Feeds (k a)) -> Feeds (bind m k).
Proof.
  intros Hm Hk t H. specialize (Hm t H). unfold bind.
  destruct (m t) as [a t'|e t']; [exact (Hk a t' Hm)|left; exact Hm].
Qed.

Lemma feeds_get_bind {B} (k : Tokenizer -> M B) :
  (forall t, Feeding t -> Feeds (k t)) -> Feeds (bind get k).
Proof. intros H t Ht. exact (H t Ht t Ht). Qed.

Lemma feeds_emitEOFToken : Feeds _emitEOFToken.
Proof.
  intros t (H1 & H2 & H3 & H4).
  unfold _emitEOFToken, _emitCurrentCharacterToken, emit, bind, get, modify, ret.
  destruct t as [x1 x2 x3 x4 x5 x6 x7 x8 x9 x10 x11 x12 x13 [h ps la hit sk] x15].
  unfold FeedingOrEnded, Ended, flagged, endsWithEOF in *. cbn in H1, H2, H3, H4.
  destruct x10 as [[[] ch]|]; cbn; right; repeat split; auto; eexists; reflexivity.
Qed.

(** One step down the code of a method that may end the input: what comes
    before the last command of a sequence keeps the tokenizer fed. *)
Ltac feeds_step leaf call :=
  lazymatch goal with
  | |- Feeds (bind get _) => apply feeds_get_bind; intros ? ?HF
  | |- Feeds (bind _ _) =>
      apply feeds_bind; [solve [inv_steps leaf no_absurd]|intro]
  | |- Feeds (if ?b then _ else _) => destruct b eqn:?
  | |- Feeds (match ?x with _ => _ end) => destruct x
  | |- Feeds (ret _) => apply feeds_ret
  | |- Feeds (throw _) => apply feeds_throw
  | |- Feeds _emitEOFToken => apply feeds_emitEOFToken
  | |- Feeds (callStateAt _ _ _ _ _ _ _ _ _) => call
  | |- Feeds (modify _) => apply feeds_weaken; feeding_leaf
  | |- Feeds ?m =>
      first [ apply feeds_weaken; feeding_leaf
            | let h := head_of m in unfold h
            | progress cbv beta zeta ]
  end.

Section LastChunk.
Variable getTagID : jsstring -> Z.
Variable isSurrogate : Z -> bool.
Variable isUndefinedCodePoint : Z -> bool.
Variable isControlCodePoint : Z -> bool.
Variable htmlDecodeTree : Z -> Z.
Variable determineBranch : (Z -> Z) -> Z -> Z -> Z -> Z.

Local Abbreviation callAt :=
(callStateAt getTagID isSurrogate isUndefinedCodePoint isControlCodePoint
   htmlDecodeTree determineBranch).
Local Abbreviation round :=
(loopBody getTagID isSurrogate isUndefinedCodePoint isControlCodePoint
   htmlDecodeTree determineBranch).
Local Abbreviation loop :=
(whileActive getTagID isSurrogate isUndefinedCodePoint isControlCodePoint
   htmlDecodeTree determineBranch).
Local Abbreviation writeTo :=
(write getTagID isSurrogate isUndefinedCodePoint isControlCodePoint
   htmlDecodeTree determineBranch).

Lemma matchLoop_Feeding (fuel : nat) :
forall i current cp result excess withoutSemicolon,
  Preserves Feeding
    (matchLoop htmlDecodeTree determineBranch fuel i current cp result excess
       withoutSemicolon).
Proof.
induction fuel as [|fuel IH]; intros; cbn [matchLoop]; [apply preserves_throw|].
cbv zeta.
inv_steps ltac:(idtac;
                 lazymatch goal with
                 | |- Preserves _ (matchLoop _ _ _ _ _ _ _ _ _) => apply IH
                 | _ => feeding_leaf
                 end) no_absurd.
Qed.

Lemma callStateAt_Feeds (depth : nat) :
forall st cp, Feeds (callAt depth st cp).
Proof.
induction depth as [|depth IH]; intros st cp; cbn [callStateAt];
  [apply feeds_throw|].
cbv zeta.
repeat feeds_step
  ltac:(idtac;
        lazymatch goal with
        | |- Preserves _ (matchLoop _ _ _ _ _ _ _ _ _) => apply matchLoop_Feeding
        | _ => feeding_leaf
        end)
  ltac:(apply IH).
Qed.

Lemma round_Feeds : Feeds round.
Proof.
unfold loopBody, _callState.
repeat feeds_step feeding_leaf ltac:(apply callStateAt_Feeds).
Qed.

Lemma loop_ends (f : nat) :
forall t t',
  FeedingOrEnded t -> loop f t = Ok tt t' -> Ended t'.
Proof.
induction f as [|f IH]; intros t t' H E.
- destruct H as [(H1 & H2 & H3 & H4)|H].
  + revert E. cbn [whileActive]. unfold bind, get. rewrite H3, H4. discriminate.
  + revert E. cbn [whileActive]. unfold bind, get.
    destruct H as (H1 & H2 & H3 & H4 & H5). rewrite H4. cbn. intros E.
    injection E as <-. repeat split; assumption.
- destruct H as [H|H].
  + pose proof (round_Feeds t H) as R. revert E. cbn [whileActive].
    unfold bind at 1. unfold get at 1.
    destruct H as (H1 & H2 & H3 & H4). rewrite H3, H4. cbn [andb negb].
    unfold bind. destruct (round t) as [[] u|e u]; [|discriminate].
    apply IH. exact R.
  + revert E. cbn [whileActive]. unfold bind, get.
    destruct H as (H1 & H2 & H3 & H4 & H5). rewrite H4. cbn. intros E.
    injection E as <-. repeat split; assumption.
Qed.

(** X7.  The last chunk ends with the end-of-file token.  A [write] with
  [isLastChunk] set, on a tokenizer that is out of its loop and not paused,
  if it returns (no internal error, and the loop within its bound), leaves
  the tokenizer inactive, out of the loop, with no read marked as past the
  end of the chunk, and the end-of-file token as the last event in the
  handler's log: whatever the input, and whatever state the tokenizer was
  in, the input is tokenized to its end and there is no hibernation. *)
Theorem last_chunk_ends_with_EOF :
forall (f : nat) (chunk : jsstring) (t t' : Tokenizer),
  inLoop t = false -> paused t = false ->
  writeTo f chunk true t = Ok tt t' ->
  active t' = false /\ inLoop t' = false /\ flagged t' = false
  /\ exists events, handlerLog t' = events ++ [onEof].
Proof.
intros f chunk t t' Hl Hp E. rewrite (write_runs _ _ _ _ _ _ f chunk true t Hl) in E.
destruct (loop f (started chunk true t)) as [[] u|e u] eqn:El; [|discriminate E].
injection E as <-.
assert (H : FeedingOrEnded (started chunk true t)).
{ left. unfold started, Preprocessor.write, Feeding, flagged.
  destruct (Preprocessor.normalize _ chunk) as [n c]. revert Hp. destruct t. cbn. auto. }
destruct (loop_ends f _ u H El) as (H1 & H2 & H3 & H4 & H5).
revert H2 H4 H5. unfold flagged, endsWithEOF. destruct u. cbn. auto.
Qed.


End LastChunk.

(** [a<p] as last chunk: the input ends inside a tag, and after the error
    and the pending [a] the log ends with the end-of-file token. *)
Lemma last_chunk_ends_with_EOF_witness :
  let t' := final (Example.write 10 (str "a<p") true newTokenizer) in
  Example.write 10 (str "a<p") true newTokenizer = Ok tt t'
  /\ active t' = false
  /\ exists events, handlerLog t' = events ++ [onEof].
Proof.
  intros t'. split; [vm_compute; reflexivity|].
  destruct (last_chunk_ends_with_EOF Example.getTagID Example.isSurrogate
              Example.isUndefinedCodePoint Example.isControlCodePoint
              Example.htmlDecodeTree Example.determineBranch
              10 (str "a<p") newTokenizer t' eq_refl eq_refl)
    as (H1 & _ & _ & H4); [vm_compute; reflexivity|].
  split; assumption.
Defined.


(** * Pausing, the PLAINTEXT state and end tags *)

Section PauseAndResume.
Variable getTagID : jsstring -> Z.
Variable isSurrogate : Z -> bool.
Variable isUndefinedCodePoint : Z -> bool.
Variable isControlCodePoint : Z -> bool.
Variable htmlDecodeTree : Z -> Z.
Variable determineBranch : (Z -> Z) -> Z -> Z -> Z -> Z.

Local Abbreviation loop :=
(whileActive getTagID isSurrogate isUndefinedCodePoint isControlCodePoint
   htmlDecodeTree determineBranch).
Local Abbreviation writeTo :=
(write getTagID isSurrogate isUndefinedCodePoint isControlCodePoint
   htmlDecodeTree determineBranch).
Local Abbreviation resumeAt :=
(resume getTagID isSurrogate isUndefinedCodePoint isControlCodePoint
   htmlDecodeTree determineBranch).

Lemma loop_paused (f : nat) (t : Tokenizer) : paused t = true -> loop f t = Ok tt t.
Proof.
intros H. destruct f; cbn [whileActive]; unfold bind at 1; unfold get at 1;
  rewrite H, andb_false_r; reflexivity.
Qed.

(** X8.  Pausing defers the loop and loses nothing.  On a tokenizer that is
  out of its loop and not paused, [pause] followed by [write] returns with
  the chunk in the buffer and not one event more in the handler's log; the
  [resume] that follows does what the [write] would have done without the
  pause, to the same tokenizer.  A [resume] on a tokenizer that is not
  paused throws (the parser was already resumed). *)
Theorem pause_defers_the_loop :
forall (f : nat) (chunk : jsstring) (isLastChunk : bool) (t : Tokenizer),
  inLoop t = false -> paused t = false ->
  resumeAt f t = AlreadyResumed
  /\ exists u,
       (pause ;; writeTo f chunk isLastChunk) t = Ok tt u
       /\ handlerLog u = handlerLog t
       /\ paused u = true /\ inLoop u = false
       /\ resumeAt f u = Resumed (writeTo f chunk isLastChunk t).
Proof.
intros f chunk isLastChunk t Hl Hp. split.
- unfold resume. now rewrite Hp.
- exists (set_inLoop false (started chunk isLastChunk (set_paused true t))).
  assert (E : (pause ;; writeTo f chunk isLastChunk) t
              = Ok tt (set_inLoop false (started chunk isLastChunk (set_paused true t)))).
  { rewrite (bind_ok pause _ t (set_paused true t) tt eq_refl).
    rewrite (write_runs _ _ _ _ _ _ f chunk isLastChunk) by (rewrite <- Hl; now destruct t).
    rewrite loop_paused; [reflexivity|]. now destruct t. }
  split; [exact E|]. split; [now destruct t|]. split; [now destruct t|].
  split; [now destruct t|].
  unfold resume. replace (paused (set_inLoop false _)) with true by now destruct t.
  cbn [negb]. f_equal.
  rewrite (write_runs _ _ _ _ _ _ f chunk isLastChunk t Hl).
  set (v := set_inLoop false (started chunk isLastChunk (set_paused true t))).
  rewrite (bind_ok (modify (set_paused false)) _ v (set_paused false v) tt eq_refl).
  rewrite (bind_ok get _ (set_paused false v) (set_paused false v) (set_paused false v)
             eq_refl).
  replace (inLoop (set_paused false v)) with false by (unfold v; now destruct t).
  unfold _runParsingLoop.
  rewrite (bind_ok get _ (set_paused false v) (set_paused false v) (set_paused false v)
             eq_refl).
  replace (inLoop (set_paused false v)) with false by (unfold v; now destruct t).
  rewrite (bind_ok (modify (set_inLoop true)) _ (set_paused false v)
             (set_inLoop true (set_paused false v)) tt eq_refl).
  unfold v.
  replace (set_inLoop true
             (set_paused false
                (set_inLoop false (started chunk isLastChunk (set_paused true t)))))
    with (started chunk isLastChunk t)
    by (revert Hl Hp; unfold started; destruct t; cbn; now intros -> ->).
  unfold bind. destruct (loop f _) as [[] w|e w]; reflexivity.
Qed.

End PauseAndResume.

(** [<b>] written while paused, and the [resume] after it. *)
Lemma pause_defers_the_loop_witness :
  let u := final ((pause ;; Example.write 10 (str "<b>") true) newTokenizer) in
  handlerLog u = []
  /\ resume Example.getTagID Example.isSurrogate Example.isUndefinedCodePoint
       Example.isControlCodePoint Example.htmlDecodeTree Example.determineBranch 10 u
     = Resumed (Example.write 10 (str "<b>") true newTokenizer).
Proof.
  intros u.
  destruct (pause_defers_the_loop Example.getTagID Example.isSurrogate
              Example.isUndefinedCodePoint Example.isControlCodePoint
              Example.htmlDecodeTree Example.determineBranch
              10 (str "<b>") true newTokenizer eq_refl eq_refl)
    as (_ & v & E & H1 & _ & _ & H4).
  assert (Ev : v = u) by (unfold u; unfold Example.write; rewrite E; reflexivity).
  rewrite <- Ev. split; [exact H1|exact H4].
Defined.

(** ** The PLAINTEXT state *)

Section PlaintextInvariant.
Variable log : list Event.

Lemma Plaintext_modify (f : Tokenizer -> Tokenizer) :
(forall t, state (f t) = state t /\ handlerLog (f t) = handlerLog t) ->
Preserves (Plaintext log) (modify f).
Proof.
intros Hf. apply triple_modify. intros t (H1 & H2). destruct (Hf t) as (E1 & E2).
unfold Plaintext. now rewrite E1, E2.
Qed.

Lemma Plaintext_emit (e : Event) :
isTextEvent e = true -> Preserves (Plaintext log) (emit e).
Proof.
intros He. apply triple_modify. intros t (H1 & events & H2 & H3). split.
- rewrite <- H1. now destruct t.
- exists (events ++ [e]). split.
  + replace (handlerLog (set_handlerLog (handlerLog t ++ [e]) t)) with (handlerLog t ++ [e])
      by now destruct t.
    now rewrite H2, app_assoc.
  + rewrite forallb_app, H3. cbn. now rewrite He.
Qed.

Lemma Plaintext_buffer (p : Preprocessor.t) (t : Tokenizer) :
Plaintext log t -> Plaintext log (set_preprocessor p t).
Proof. destruct t. exact (fun H => H). Qed.

Lemma Plaintext_consume : Preserves (Plaintext log) _consume.
Proof.
unfold _consume. apply preserves_bind.
- apply Plaintext_modify. intros []. split; reflexivity.
- intros _ t H. unfold preprocessor_advance.
  destruct (Preprocessor.advance (preprocessor t)). now apply Plaintext_buffer.
Qed.

Lemma Plaintext_ensureHibernation : Preserves (Plaintext log) _ensureHibernation.
Proof.
unfold _ensureHibernation, _unconsume.
inv_steps ltac:(idtac; apply Plaintext_modify; intros []; split; reflexivity) no_absurd.
Qed.

End PlaintextInvariant.

Ltac plaintext_leaf :=
  idtac;
  lazymatch goal with
  | |- Preserves _ _consume => apply Plaintext_consume
  | |- Preserves _ _ensureHibernation => apply Plaintext_ensureHibernation
  | |- Preserves _ (emit _) => apply Plaintext_emit; reflexivity
  | |- Preserves _ (modify _) => apply Plaintext_modify; intros []; split; reflexivity
  end.

Section PlaintextState.
Variable getTagID : jsstring -> Z.
Variable isSurrogate : Z -> bool.
Variable isUndefinedCodePoint : Z -> bool.
Variable isControlCodePoint : Z -> bool.
Variable htmlDecodeTree : Z -> Z.
Variable determineBranch : (Z -> Z) -> Z -> Z -> Z -> Z.

Local Abbreviation callAt :=
(callStateAt getTagID isSurrogate isUndefinedCodePoint isControlCodePoint
   htmlDecodeTree determineBranch).
Local Abbreviation round :=
(loopBody getTagID isSurrogate isUndefinedCodePoint isControlCodePoint
   htmlDecodeTree determineBranch).
Local Abbreviation loop :=
(whileActive getTagID isSurrogate isUndefinedCodePoint isControlCodePoint
   htmlDecodeTree determineBranch).
Local Abbreviation writeTo :=
(write getTagID isSurrogate isUndefinedCodePoint isControlCodePoint
   htmlDecodeTree determineBranch).

Lemma statePlaintext_Plaintext (log : list Event) (cp : Z) :
Preserves (Plaintext log) (_statePlaintext cp).
Proof. inv_steps plaintext_leaf no_absurd. Qed.

Lemma round_Plaintext (log : list Event) : Preserves (Plaintext log) round.
Proof.
unfold loopBody, _callState.
inv_steps ltac:(idtac;
                 lazymatch goal with
                 | HI : Plaintext _ ?t |- Preserves _ (callStateAt _ _ _ _ _ _ _ (state ?t) ?cp) =>
                     rewrite (proj1 HI);
                     change (callAt callStackLimit State.PLAINTEXT cp)
                       with (_statePlaintext cp);
                     apply statePlaintext_Plaintext
                 | _ => plaintext_leaf
                 end) no_absurd.
Qed.

Lemma loop_Plaintext (log : list Event) (f : nat) : Preserves (Plaintext log) (loop f).
Proof.
induction f as [|f IH]; cbn [whileActive];
  inv_steps ltac:(first [apply round_Plaintext | apply IH]) no_absurd.
Qed.

(** X9.  The PLAINTEXT state is never left.  A [write] to a tokenizer in the
  PLAINTEXT state, whatever the chunk, whether it is the last one, and
  whether the call returns or throws, leaves the tokenizer in the PLAINTEXT
  state, and the events it has added to the handler's log are character
  tokens, parse errors and the end-of-file token: no tag, comment or doctype
  is ever recognised. *)
Theorem plaintext_is_never_left :
forall (f : nat) (chunk : jsstring) (isLastChunk : bool) (t : Tokenizer),
  state t = State.PLAINTEXT ->
  state (final (writeTo f chunk isLastChunk t)) = State.PLAINTEXT
  /\ exists events,
       handlerLog (final (writeTo f chunk isLastChunk t)) = handlerLog t ++ events
       /\ forallb isTextEvent events = true.
Proof.
intros f chunk isLastChunk t H.
apply (triple_final (Plaintext (handlerLog t))).
- unfold write, _runParsingLoop.
  inv_steps ltac:(first [apply loop_Plaintext | plaintext_leaf]) no_absurd.
- split; [exact H|]. exists []. now rewrite app_nil_r.
Qed.

End PlaintextState.

(** Markup written to a tokenizer in the PLAINTEXT state comes out as
    characters. *)
Lemma plaintext_is_never_left_witness :
  let t' := final (Example.write 20 (str "a</plaintext><b>") true
                     (Example.tokenizerFor State.PLAINTEXT (str "plaintext"))) in
  state t' = State.PLAINTEXT
  /\ handlerLog t' = [onCharacter (str "a</plaintext><b>"); onEof].
Proof.
  intros t'. split.
  - exact (proj1 (plaintext_is_never_left Example.getTagID Example.isSurrogate
                    Example.isUndefinedCodePoint Example.isControlCodePoint
                    Example.htmlDecodeTree Example.determineBranch
                    20 (str "a</plaintext><b>") true
                    (Example.tokenizerFor State.PLAINTEXT (str "plaintext")) eq_refl)).
  - vm_compute. reflexivity.
Defined.

(** ** End tags *)

Section EndTags.
Variable getTagID : jsstring -> Z.

(** X10.  An end tag is handed over whatever is wrong with it.  When the
  current token is an end tag, [emitCurrentTagToken] returns, and adds to
  the handler's log, in this order: the pending character token if there is
  one; the error [endTagWithAttributes] if the tag has attributes; the error
  [endTagWithTrailingSolidus] if it is self-closing; and the end tag itself,
  with its attributes and with the tag ID of its name.  The current token
  and the pending character token are cleared, and [lastStartTagName] is
  left as it was. *)
Theorem end_tag_is_emitted_after_its_errors :
forall (t : Tokenizer) (tk : TagToken nat),
  currentToken t = Some (TagTok tk) ->
  tag_type tk = END_TAG ->
  exists t',
    emitCurrentTagToken getTagID t = Ok tt t'
    /\ handlerLog t'
       = handlerLog t ++ pendingCharacterEvents t
         ++ (if 0 <? Z.of_nat (length (attrs tk))
             then [errorAt t endTagWithAttributes] else [])
         ++ (if selfClosing tk then [errorAt t endTagWithTrailingSolidus] else [])
         ++ [onEndTag (resolveAttrs t (set_tagID (getTagID (tagName tk)) tk))]
    /\ lastStartTagName t' = lastStartTagName t
    /\ currentToken t' = None /\ currentCharacterToken t' = None.
Proof.
intros t tk Htk Hty.
unfold emitCurrentTagToken, theTag, bind, get. rewrite Htk. cbn [ret].
unfold prepareToken, _emitCurrentCharacterToken, pendingCharacterEvents, errorAt, bind, get.
destruct t as [x1 x2 x3 x4 x5 x6 x7 x8 x9 x10 x11 x12 x13 p x15].
cbn in Htk. subst x11. destruct tk as [ty nm id sc ack ats]. cbn in Hty. subst ty.
cbn [currentCharacterToken handlerLog attrs selfClosing tagName].
destruct x10 as [[[] ch]|]; cbn; destruct (0 <? Z.of_nat (length ats)); destruct sc;
  cbn; eexists; (split; [reflexivity|]); cbn; rewrite <- ?app_assoc;
  repeat split; reflexivity.
Qed.

End EndTags.

(** The end tag [</a x/>] at the moment it is handed over, after the text
    [t]. *)
Lemma end_tag_is_emitted_after_its_errors_witness :
  let tk := mkTagToken END_TAG (str "a") TAG_ID_UNKNOWN true false [0%nat] in
  let t := set_currentCharacterToken (Some (mkCharacterToken CHARACTER (str "t")))
             (set_currentToken (Some (TagTok tk)) newTokenizer) in
  exists t',
    emitCurrentTagToken Example.getTagID t = Ok tt t'
    /\ handlerLog t'
       = [onCharacter (str "t"); errorAt t endTagWithAttributes;
          errorAt t endTagWithTrailingSolidus;
          onEndTag (mkTagToken END_TAG (str "a") TAG_ID_UNKNOWN true false [mkAttr [] []])].
Proof.
  intros tk t.
  destruct (end_tag_is_emitted_after_its_errors Example.getTagID t tk eq_refl eq_refl)
    as (t' & E & L & _).
  exists t'. split; [exact E|]. rewrite L. reflexivity.
Defined.
(** * The serializer walks the children in order *)

Section SerializerWalk.
Import Serializer.
Local Open Scope string_scope.

Variables NS_HTML NS_XML NS_XMLNS NS_XLINK : string.

Local Abbreviation serializeNode' := (serializeNode NS_HTML NS_XML NS_XMLNS NS_XLINK).
Local Abbreviation serialize' := (serialize NS_HTML NS_XML NS_XMLNS NS_XLINK).
Local Abbreviation serializeOuter' := (serializeOuter NS_HTML NS_XML NS_XMLNS NS_XLINK).

Lemma serializeChildren_from (l : list Node) (html : string) :
fold_left (fun html currentNode => html ++ serializeNode' currentNode) l html
= html ++ fold_left (fun html currentNode => html ++ serializeNode' currentNode) l
            EmptyString.
Proof.
revert html. induction l as [|n l IH]; intros html; cbn [fold_left].
- now rewrite append_nil_r.
- rewrite IH. rewrite (IH (EmptyString ++ serializeNode' n)).
  cbn [append]. now rewrite append_assoc.
Qed.

(** X11.  [serialize] walks the children in order.  The serialization of a
  document fragment without children is the empty string; that of a
  fragment whose children are two lists in a row is the serialization of the
  first followed by that of the second; that of a fragment with one child is
  the [serializeOuter] of the child; and a [template] element of the HTML
  namespace is serialized as its template content, whatever its own
  children are. *)
Theorem serialize_walks_the_children :
serialize' (DocumentFragment []) = EmptyString
/\ (forall l1 l2 : list Node,
       serialize' (DocumentFragment (l1 ++ l2))
       = serialize' (DocumentFragment l1) ++ serialize' (DocumentFragment l2))
/\ (forall node : Node, serialize' (DocumentFragment [node]) = serializeOuter' node)
/\ (forall (attrs : list Attribute) (children content : list Node),
       serialize' (Element "template" NS_HTML attrs children content)
       = serialize' (DocumentFragment content)).
Proof.
unfold serialize, serializeChildNodes, serializeOuter. cbn [isVoidElement containerChildNodes].
split; [reflexivity|]. split; [|split].
- intros l1 l2. rewrite fold_left_app. apply serializeChildren_from.
- intros node. reflexivity.
- intros attrs children content. rewrite String.eqb_refl.
  replace (Set_has VOID_ELEMENTS "template") with false by reflexivity.
  reflexivity.
Qed.

End SerializerWalk.
(** * Text in the data state *)

Lemma normalize_text (cs : jsstring) :
  forallb isDataText cs = true -> Preprocessor.normalize false cs = (cs, false).
Proof.
  induction cs as [|c cs IH]; intros H; cbn [Preprocessor.normalize]; [reflexivity|].
  cbn [forallb] in H. apply andb_true_iff in H. destruct H as [Hc Hcs].
  unfold isDataText in Hc. repeat (apply andb_true_iff in Hc; destruct Hc as [Hc ?]).
  replace (c =? CODE_POINTS.CARRIAGE_RETURN) with false
    by (symmetry; now apply negb_true_iff).
  rewrite andb_false_r, (IH Hcs). reflexivity.
Qed.

Lemma flat_map_snoc {A B} (f : A -> list B) (l : list A) (a : A) :
  flat_map f (l ++ [a]) = flat_map f l ++ f a.
Proof. rewrite flat_map_app. cbn. now rewrite app_nil_r. Qed.

(** A code point handed over: the text delivered or pending is one code
    point longer. *)
Lemma emitCodePoint_text (c : Z) (t : Tokenizer) :
  match currentCharacterToken t with
  | Some ct => isCharacterKind (ch_type ct) = true
  | None => True
  end ->
  forallb isCharacterEvent (handlerLog t) = true ->
  exists t',
    _emitCodePoint c t = Ok tt t'
    /\ preprocessor t' = preprocessor t /\ state t' = state t
    /\ active t' = active t /\ paused t' = paused t
    /\ match currentCharacterToken t' with
       | Some ct => isCharacterKind (ch_type ct) = true
       | None => True
       end
    /\ forallb isCharacterEvent (handlerLog t') = true
    /\ flat_map textOf (handlerLog t') ++ pendingText t'
       = (flat_map textOf (handlerLog t) ++ pendingText t) ++ [c].
Proof.
  intros Hk Hl.
  unfold _emitCodePoint, _appendCharToCurrentCharacterToken, _emitCurrentCharacterToken,
    _createCharacterToken, preprocessor_dropParsedChunk, Preprocessor.dropParsedChunk,
    emit, fromCodePoint, pendingText, bind, get, modify, ret.
  destruct t as [x1 x2 x3 x4 x5 x6 x7 x8 x9 x10 x11 x12 x13 [h ps la hit sk] x15].
  cbn [currentCharacterToken handlerLog] in *.
  destruct x10 as [[ty ch]|]; cbn [ch_type chars] in *.
  - destruct ty; try discriminate Hk;
      destruct (isWhitespace c); try destruct (c =? CODE_POINTS.NULL);
      cbn; eexists; (split; [reflexivity|]); cbn;
      rewrite ?forallb_app, ?Hl, ?flat_map_snoc, <- ?app_assoc; cbn;
      repeat split; reflexivity.
  - destruct (isWhitespace c); try destruct (c =? CODE_POINTS.NULL);
      cbn; eexists; (split; [reflexivity|]); cbn; rewrite ?app_nil_r;
      repeat split; auto.
Qed.

Lemma consume_text (cs : jsstring) (k : nat) (t : Tokenizer) :
  preprocessor t = Preprocessor.mk cs (Z.of_nat k - 1) true false false ->
  _consume t
  = Ok (if (k <? length cs)%nat then nth k cs CODE_POINTS.EOF else CODE_POINTS.EOF)
      (set_preprocessor (Preprocessor.mk cs (Z.of_nat (S k) - 1) true false false)
         (set_consumedAfterSnapshot (consumedAfterSnapshot t + 1) t)).
Proof.
  intros H.
  destruct t as [x1 x2 x3 x4 x5 x6 x7 x8 x9 x10 x11 x12 x13 p x15]. cbn in H. subst p.
  unfold _consume, preprocessor_advance, Preprocessor.advance, Preprocessor.len,
    Preprocessor.charAt, bind, modify.
  cbn [preprocessor set_preprocessor set_consumedAfterSnapshot Preprocessor.pos
       Preprocessor.html Preprocessor.lastChunkWritten Preprocessor.skipNextNewLine
       Preprocessor.endOfChunkHit negb].
  replace (Z.of_nat k - 1 + 1) with (Z.of_nat k) by lia.
  replace (Z.of_nat (S k) - 1) with (Z.of_nat k) by lia.
  rewrite Nat2Z.id.
  destruct (Z.geb_spec (Z.of_nat k) (Z.of_nat (length cs))) as [G|G];
    destruct (Nat.ltb_spec k (length cs)) as [L|L]; try lia; reflexivity.
Qed.

Lemma firstn_succ_nth (cs : jsstring) (k : nat) (d : Z) :
  (k < length cs)%nat -> firstn (S k) cs = firstn k cs ++ [nth k cs d].
Proof.
  revert k. induction cs as [|c cs IH]; intros k H; cbn in H; [lia|].
  destruct k as [|k]; [reflexivity|]. cbn [firstn nth app]. f_equal. apply IH. lia.
Qed.

Lemma forallb_nth (p : Z -> bool) (cs : jsstring) (k : nat) (d : Z) :
  forallb p cs = true -> (k < length cs)%nat -> p (nth k cs d) = true.
Proof.
  intros H L. rewrite forallb_forall in H. apply H. now apply nth_In.
Qed.

Section TextInTheDataState.
Variable getTagID : jsstring -> Z.
Variable isSurrogate : Z -> bool.
Variable isUndefinedCodePoint : Z -> bool.
Variable isControlCodePoint : Z -> bool.
Variable htmlDecodeTree : Z -> Z.
Variable determineBranch : (Z -> Z) -> Z -> Z -> Z -> Z.

Local Abbreviation callAt :=
(callStateAt getTagID isSurrogate isUndefinedCodePoint isControlCodePoint
   htmlDecodeTree determineBranch).
Local Abbreviation round :=
(loopBody getTagID isSurrogate isUndefinedCodePoint isControlCodePoint
   htmlDecodeTree determineBranch).
Local Abbreviation loop :=
(whileActive getTagID isSurrogate isUndefinedCodePoint isControlCodePoint
   htmlDecodeTree determineBranch).
Local Abbreviation writeTo :=
(write getTagID isSurrogate isUndefinedCodePoint isControlCodePoint
   htmlDecodeTree determineBranch).

(** A round of the loop in the data state, up to the call of the state. *)
Lemma round_in_data (cs : jsstring) (k : nat) (t : Tokenizer) :
ReadingText cs k t ->
round t
= _stateData (if (k <? length cs)%nat then nth k cs CODE_POINTS.EOF else CODE_POINTS.EOF)
    (set_preprocessor (Preprocessor.mk cs (Z.of_nat (S k) - 1) true false false)
       (set_consumedAfterSnapshot 1 t)).
Proof.
intros (H1 & H2 & _). unfold loopBody.
rewrite (bind_ok (modify (set_consumedAfterSnapshot 0)) _ t
           (set_consumedAfterSnapshot 0 t) tt eq_refl).
rewrite (bind_ok _ _ _ _ _ (consume_text cs k (set_consumedAfterSnapshot 0 t)
                              ltac:(rewrite <- H1; now destruct t))).
replace (set_consumedAfterSnapshot
           (consumedAfterSnapshot (set_consumedAfterSnapshot 0 t) + 1)
           (set_consumedAfterSnapshot 0 t))
  with (set_consumedAfterSnapshot 1 t) by now destruct t.
set (t1 := set_preprocessor _ (set_consumedAfterSnapshot 1 t)).
rewrite (bind_ok _ _ _ _ _ (ensureHibernation_unflagged t1 ltac:(now destruct t))).
cbn [negb]. unfold _callState.
rewrite (bind_ok get _ t1 t1 t1 eq_refl).
replace (state t1) with State.DATA by (rewrite <- H2; now destruct t).
reflexivity.
Qed.

Lemma round_reads_text (cs : jsstring) (k : nat) (t : Tokenizer) :
forallb isDataText cs = true -> (k < length cs)%nat ->
ReadingText cs k t ->
exists t', round t = Ok tt t' /\ ReadingText cs (S k) t'.
Proof.
intros Hcs Hk H. rewrite (round_in_data cs k t H).
destruct H as (H1 & H2 & H3 & H4 & H5 & H6 & H7).
replace (k <? length cs)%nat with true by (symmetry; now apply Nat.ltb_lt).
pose proof (forallb_nth isDataText cs k CODE_POINTS.EOF Hcs Hk) as Hc.
set (c := nth k cs CODE_POINTS.EOF) in *.
set (t1 := set_preprocessor _ (set_consumedAfterSnapshot 1 t)).
destruct (emitCodePoint_text c t1) as (t' & E & P & S & A & Pa & K & L & T).
{ revert H5. now destruct t. }
{ revert H6. now destruct t. }
exists t'. split.
- unfold _stateData. unfold isDataText in Hc.
  repeat (apply andb_true_iff in Hc; destruct Hc as [Hc ?]).
  repeat match goal with
         | H : negb (c =? ?x) = true |- _ =>
             apply negb_true_iff in H; rewrite ?H
         end.
  exact E.
- unfold ReadingText. rewrite P, S, A, Pa.
  split; [now destruct t|]. split; [rewrite <- H2; now destruct t|].
  split; [rewrite <- H3; now destruct t|]. split; [rewrite <- H4; now destruct t|].
  split; [exact K|]. split; [exact L|].
  rewrite T, (firstn_succ_nth cs k CODE_POINTS.EOF Hk). f_equal.
  rewrite <- H7. unfold pendingText. now destruct t.
Qed.

Lemma round_ends_text (cs : jsstring) (t : Tokenizer) :
ReadingText cs (length cs) t ->
exists t',
  round t = Ok tt t' /\ active t' = false /\ state t' = State.DATA
  /\ exists events,
       handlerLog t' = events ++ [onEof]
       /\ forallb isCharacterEvent events = true
       /\ flat_map textOf events = cs.
Proof.
intros H. rewrite (round_in_data cs (length cs) t H).
destruct H as (H1 & H2 & H3 & H4 & H5 & H6 & H7).
rewrite Nat.ltb_irrefl, firstn_all in *.
unfold _stateData, _emitEOFToken, _emitCurrentCharacterToken, emit, pendingText,
  bind, get, modify, ret in *.
destruct t as [x1 x2 x3 x4 x5 x6 x7 x8 x9 x10 x11 x12 x13 p x15].
cbn in H1, H2, H3, H4, H5, H6, H7 |- *. subst x6.
destruct x10 as [[ty ch]|]; cbn in H5, H7 |- *.
- destruct ty; try discriminate H5; cbn; eexists; (split; [reflexivity|]);
    cbn; repeat split; eexists; (split; [reflexivity|]);
    rewrite forallb_app, H6, flat_map_snoc; cbn; auto.
- eexists. split; [reflexivity|]. cbn. repeat split.
  exists x15. rewrite app_nil_r in H7. auto.
Qed.

Lemma loop_reads_text (cs : jsstring) (n : nat) :
forall (k f : nat) (t : Tokenizer),
  forallb isDataText cs = true ->
  length cs = (k + n)%nat -> (n < f)%nat ->
  ReadingText cs k t ->
  exists t',
    loop f t = Ok tt t' /\ active t' = false /\ state t' = State.DATA
    /\ exists events,
         handlerLog t' = events ++ [onEof]
         /\ forallb isCharacterEvent events = true
         /\ flat_map textOf events = cs.
Proof.
induction n as [|n IH]; intros k f t Hcs Hlen Hf H;
  (destruct f as [|f]; [lia|]);
  rewrite (loop_step _ _ _ _ _ _ f t (proj1 (proj2 (proj2 H)))
             (proj1 (proj2 (proj2 (proj2 H))))).
- replace k with (length cs) in H by lia.
  destruct (round_ends_text cs t H) as (t' & E & A & R).
  exists t'. rewrite (bind_ok _ _ _ _ _ E). split; [|split; [exact A|exact R]].
  now apply loop_inactive.
- destruct (round_reads_text cs k t Hcs ltac:(lia) H) as (t1 & E & H').
  rewrite (bind_ok _ _ _ _ _ E).
  exact (IH (S k) f t1 Hcs ltac:(lia) ltac:(lia) H').
Qed.


End TextInTheDataState.


(** ** NUL in a text state *)

Section NulInText.
Variable getTagID : jsstring -> Z.
Variable isSurrogate : Z -> bool.
Variable isUndefinedCodePoint : Z -> bool.
Variable isControlCodePoint : Z -> bool.
Variable htmlDecodeTree : Z -> Z.
Variable determineBranch : (Z -> Z) -> Z -> Z -> Z -> Z.

Local Abbreviation callAt :=
(callStateAt getTagID isSurrogate isUndefinedCodePoint isControlCodePoint
   htmlDecodeTree determineBranch).

Lemma err_then_append (e : ERR) (kind : TokenType) (ch : jsstring) (t : Tokenizer) :
exists t',
  (_err e ;; _appendCharToCurrentCharacterToken kind ch) t = Ok tt t'
  /\ state t' = state t
  /\ handlerLog t' = handlerLog t ++ errorAt t e :: flushedFor kind t
  /\ currentCharacterToken t' = Some (mkCharacterToken kind (keptFor kind t ++ ch)).
Proof.
unfold _err, _appendCharToCurrentCharacterToken, _emitCurrentCharacterToken,
  _createCharacterToken, preprocessor_dropParsedChunk, emit, errorAt, keptFor,
  flushedFor, pendingCharacterEvents, bind, get, modify, ret.
destruct t as [x1 x2 x3 x4 x5 x6 x7 x8 x9 x10 x11 x12 x13 p x15].
cbn [currentCharacterToken handlerLog preprocessor set_handlerLog].
destruct x10 as [[ty c]|]; cbn [ch_type chars].
- destruct (TokenType_eqb ty kind) eqn:E; cbn [negb].
  + apply TokenType_eqb_eq in E. subst ty. eexists. split; [reflexivity|].
    cbn. repeat split.
  + destruct ty; cbn; eexists; (split; [reflexivity|]); cbn;
      rewrite <- ?app_assoc; repeat split.
- eexists. split; [reflexivity|]. cbn. repeat split.
Qed.

(** X13.  NUL in a text state.  In the RCDATA, RAWTEXT, script data and
  PLAINTEXT states, the code point NUL is reported as
  [unexpectedNullCharacter] and replaced: U+FFFD is appended to the pending
  token of ordinary characters, or starts one after a pending token of
  another kind was handed over.  In the data state the error is the same but
  NUL is kept, as a character of the kind of NUL characters.  The state is
  left as it is. *)
Theorem nul_in_text_states :
forall (depth : nat) (st : Z) (t : Tokenizer),
  (In st replacingStates ->
   exists t',
     callAt (S depth) st CP.NULL t = Ok tt t'
     /\ state t' = state t
     /\ handlerLog t'
        = handlerLog t ++ errorAt t unexpectedNullCharacter :: flushedFor CHARACTER t
     /\ currentCharacterToken t'
        = Some (mkCharacterToken CHARACTER
                  (keptFor CHARACTER t ++ [CODE_POINTS.REPLACEMENT_CHARACTER])))
  /\ exists t',
       callAt (S depth) State.DATA CP.NULL t = Ok tt t'
       /\ state t' = state t
       /\ handlerLog t'
          = handlerLog t ++ errorAt t unexpectedNullCharacter :: flushedFor NULL_CHARACTER t
       /\ currentCharacterToken t'
          = Some (mkCharacterToken NULL_CHARACTER
                    (keptFor NULL_CHARACTER t ++ [CP.NULL])).
Proof.
intros depth st t. split.
- intros [<-|[<-|[<-|[<-|[]]]]];
    exact (err_then_append unexpectedNullCharacter CHARACTER REPLACEMENT_CHARACTER t).
- exact (err_then_append unexpectedNullCharacter NULL_CHARACTER [CP.NULL] t).
Qed.

End NulInText.

(** NUL after white space in RCDATA: the white space is handed over, and the
    replacement character is pending. *)
Lemma nul_in_text_states_witness :
  let t := set_currentCharacterToken
             (Some (mkCharacterToken WHITESPACE_CHARACTER (str " ")))
             (Example.tokenizerFor State.RCDATA (str "title")) in
  exists t',
    callStateAt Example.getTagID Example.isSurrogate Example.isUndefinedCodePoint
      Example.isControlCodePoint Example.htmlDecodeTree Example.determineBranch
      1 State.RCDATA CP.NULL t = Ok tt t'
    /\ handlerLog t'
       = [errorAt t unexpectedNullCharacter; onWhitespaceCharacter (str " ")]
    /\ currentCharacterToken t'
       = Some (mkCharacterToken CHARACTER [CODE_POINTS.REPLACEMENT_CHARACTER]).
Proof.
  intros t.
  destruct (proj1 (nul_in_text_states Example.getTagID Example.isSurrogate
                     Example.isUndefinedCodePoint Example.isControlCodePoint
                     Example.htmlDecodeTree Example.determineBranch 0 State.RCDATA t))
    as (t' & E & _ & L & C); [left; reflexivity|].
  exists t'. split; [exact E|]. split; [exact L|exact C].
Defined.
